(* ===== verification/_CoqProject ===== *)
-Q . S2P
Prelude.v
RustStd.v
Serde.v
JsonText.v
RequestId.v
Error.v
Message.v
Tokio.v
World.v
RequestQueue.v
QueueSpec.v
Io.v
Lifecycle.v
Routing.v
ClientSender.v
Connection.v
Handshake.v
Serving.v
Ownership.v
Effects.v
System.v
Safety.v
Delivery.v
Schedule.v
Collide.v
Unique.v
Closing.v
Examples.v
Codec.v
Transport.v
Framing.v
Stream.v
Stdio.v
EndToEnd.v
Document.v
Formatter.v
Process.v
Session.v
Typing.v
Testing.v
TestRequestId.v
TestError.v
TestMessage.v
TestCodec.v
TestLifecycle.v
TestRouting.v
TestRequestQueue.v
TestFormatter.v
TestTransport.v
Duplex.v
TestConnection.v
TestClientSender.v
