(* ===== verification/Prelude.v ===== *)
(** * A verified model of lsp-server-tokio

    The crate is the transport and connection layer of a language server: JSON-RPC
    messages framed by Content-Length headers, a connection with the lifecycle of the
    Language Server Protocol, pending requests in both directions, and a sender that
    tasks share to call the client.  This library models the crate under [src/] and
    the example server [examples/formatter_server.rs], and proves what makes each
    part correct.  Definitions keep the names of the source; a method [m] of a type
    [T] is [T_m], or [m] where the name is free.

    ** The program and its model

    - Bytes to messages.  [codec.rs]: [LspCodec], [decode], [encode],
      [parse_content_length] are in [Codec]; a reader that calls [decode] on the
      chunks of a stream is in [Framing]; [transport.rs] is [Transport], over byte
      streams that are a class; [Stream] has what its two ends give and take, and
      [Stdio] the [StdioTransport] of [connection.rs].
    - Messages.  [message.rs] is [Message] (requests, responses, notifications,
      their hand-written and derived serde code), [request_id.rs] is [RequestId],
      [error.rs] is [Error].  [Serde] is the data model of serde they go through
      (object members in order and with duplicates, [Value] sorted by key).
    - The connection.  [connection.rs] is [Connection]: the record of its fields and
      one definition per method.  [lifecycle.rs] is [Lifecycle], [routing.rs] is
      [Routing], [request_queue.rs] is [RequestQueue] (incoming requests with their
      cancellation tokens, outgoing requests with their oneshot senders).
    - The client sender.  [client_sender.rs] is [ClientSender]: the response map, the
      drop guard, the id counter, the request future with its [select!].
    - The tasks together.  [System] interleaves the task that owns the connection,
      the tasks of the requests and the drain task that [spawn_drain_task] starts;
      [Closing] is how the drain task ends when the connection and every sender are
      dropped.
    - The example.  [Document] holds the text of [formatter_server.rs] (positions in
      UTF-16 against offsets in UTF-8, incremental changes, the edit), [Formatter]
      its server from [main] to the handlers.  There [main_server] is [main] with
      nothing beside it; [Process] is the process: [main] from one await to the next,
      interleaved with the drain task that writes its answers, until [main] returns
      or calls [std::process::exit].  The machine of [Process] alone is [main_server]
      ([main_alone]).
    - The tests.  [Testing] is the vocabulary of the unit tests and [Duplex] that of
      two connections over one duplex stream; the files [Test*] have one definition
      for each test of the [mod tests] of a source file and a lemma that all of them
      pass on the model ([connection_tests_pass] and the like).

    The state that several tasks share (runtime stores, outbound queue, response maps,
    id counters) is the record [World]; code runs in the state monad [St] over it, and
    an [Arc] is a location in it.  Fallible code returns [result], in which a panic is
    a third outcome; [None] is the panic of the pure functions of [Document].  An
    async function that awaits the stream is a loop over the list of [Event]s its
    reader meets, and returns [Pending] when they run out; a [tokio::time::timeout]
    is the event [Elapsed]; other futures are modelled by their polls.

    ** Interfaces

    - [SerdeJson] (in [Serde]): [serde_json::from_slice] and [to_vec].
      [SerdeJsonLaws]: printing succeeds on values in normal form with exact numbers
      and is read back, neither panics.  [JsonText] is an instance with real text.
    - [Tokio]: cancellation tokens, oneshot channels, the unbounded channel.
      [TokioLaws] is their documented behaviour; [model_tokio] satisfies it.
    - [LspTypes] (in [Formatter]): the conversions of lsp_types.
    - [AsyncRead], [AsyncWrite], [Framed] (in [Transport]): the byte streams of tokio
      and the framed stream of tokio_util.  [FramedLaws] says when [Framed] calls the
      crate's decoder and encoder; [pipe] and the scripted streams of [Stream] satisfy
      it.

    ** The theorems

    - [Codec], [Framing]: which header line counts ([content_length_header]); a
      message comes out exactly when a frame of it is in front ([decode_frame]); a
      failed call either consumes nothing and repeats, or consumes the frame
      ([decode_failure]); only [InvalidData] errors and no panic ([codec_errors]); a
      reader terminates ([drain_reads]), does not depend on how the bytes were cut
      ([feed_chunks]) and sees the messages that were encoded
      ([messages_delivered]); every message it gives is in the ranges of the Rust
      types and can be sent on ([read_messages_typed], in [Typing]).
    - [Stream], [Stdio]: the items of a transport for any chunks and pauses
      ([transport_items]), what one transport sends another one receives
      ([transport_roundtrip]), and the same over standard input and output
      ([stdio_messages]).
    - [Message]: how an object is classified ([message_classification]), the round
      trip ([message_roundtrip]), what an invalid id does
      ([invalid_id_becomes_notification]).
    - [RequestQueue], [QueueSpec], [Connection]: what each operation on the pending
      tables does to every waiting party ([outgoing_register], [outgoing_complete],
      [outgoing_cancel], [parse_cancel_params_spec]), the outgoing table against its
      specification as a machine of calls ([outgoing_refines]), and the routing of
      each kind of message ([route_request], [route_cancel], [route_response]) under
      the invariant [conn_ok].  [conn_ok] is about connections whose incoming requests
      all came by [route]; [conn_good own] excepts the ids of [own], whose tokens the
      caller registered itself, and [tables_ok] says nothing of the incoming requests.
    - [Handshake], [Serving]: the initialization against every sequence of events
      ([initialize_start_spec], [initialize_handshake], [lifecycle_gates]), the
      request on the connection ([send_request_spec]), the invariant and the exit
      code over every history of operations, those of the public request queue
      included ([serving_invariant], [exit_code]).
    - [ClientSender]: ids ([next_ids_cycle]) and slots ([reserve_request_slot_spec]).
    - [System] to [Closing]: the steps of a task are the request future of
      [ClientSender] ([request_steps]); the invariant [sys_ok] of every reachable state
      ([Ownership], [Effects], [Safety]), and from it that a request returns only a
      response to its id ([response_matches_request]), that a response arrives
      ([routed_response_arrives]), that a poll ends when there is something to see,
      the end of the drain task included ([request_poll_spec]), also with a deadline
      ([request_timeout_spec]), that no entry is left in the response map
      ([response_map_no_leak]), that messages are written in the order they were
      accepted ([outbound_fifo]) and all of them before the drain task ends
      ([drain_flushes]).  With one sender the ids are distinct
      ([single_sender_requests], in [Unique]); two senders of one connection can write
      the same id twice, and the answer goes to the wrong request
      ([client_senders_reuse_ids], in [Collide]); [guard_drop_disconnects_other] is a
      run in which the drop of one request then disconnects another.
    - [EndToEnd]: a cancellation from the bytes of the client to the token of the
      handler ([cancel_end_to_end]), the handshake over bytes
      ([handshake_over_bytes]), what the peer of a connection has read when a part of
      the bytes has arrived ([peer_receives]), and the error responses as the client
      reads them
      ([error_responses_recognised]).
    - [Document], [Formatter]: scanners against lines ([positions_spec]), their round
      trip ([positions_inverse]), edits ([edit_replaces], [uppercase_edit_applied]),
      the poll of the formatting ([format_cancellation]), and the server against its
      sequential specification [serve] ([requests_answered]), for any polls of its
      timers: [progress] says how far they let it come.  It comes as far and answers
      the same as if there were no cancellations ([cancellation_without_effect]).
    - [Process], [Session]: a whole session of the formatter server from the bytes on
      its standard input to its exit status: what has been written at any time, what
      has been sent when [main] ends, that it can end, and that it does not wait for
      its answers to be written ([formatter_session]).
    - [Examples], [Schedule] and the ends of the other files apply the theorems at
      concrete inputs, in [model_tokio] and [JsonText].

    ** Bounds, fuel and granularity

    Integers have the ranges of the source: [i32] ids and codes, the [i64] counter,
    [usize] lengths of a 64-bit target, [u32] positions with overflow as a panic.
    [drain] has one more round than the measure that every call with a result lowers,
    [drain_unfold] shows that this is enough; the loops of [Document] have one more
    round than the document has bytes, and [positions_spec] shows that they return;
    [parse_value] of [JsonText] has one more round than there are bytes and keeps the
    128 levels of serde_json.  The bound of a thousand attempts for an id is the
    source's.

    A step of [System] is one access to the shared state.  [route] is one step although
    it locks the response map twice ([contains], then [deliver]): what other tasks do
    in between makes no difference ([deliver_to_map_split]), and the connection's other
    accesses are to fields only its task has.  Dropping a request (its guard and its receiver) is one step too.  An
    operation that awaits the stream appears in [System] through its sends; its other
    effects are on fields of the connection, which [Serving] covers.

    The timer of a formatting is a list of polls, each of which finds it run out or not;
    nothing is assumed of them but, where the server is to go on, that there are
    enough that run out ([timers]).  In [Process] what [main] does between two awaits
    is one step; a write that fails, the deadline of the handshake and the drain task
    fall between these steps.

    The unit tests of tasks run on one schedule: a spawned task runs up to where it
    waits and goes on when it is joined, and a test with a request of a client sender
    is run for both orders of the [select!].

    ** What is not modelled

    The re-exports of [lib.rs]; [Debug] and log output, with the two tests of the
    former; the marker traits [Send] and [Sync]; the Unicode case tables and the
    structures of lsp_types, which are parameters; the tests under [tests/], which
    start the example server as a process and read it with helpers of their own. *)

(** * Prelude: shared notation, automation and generic lemmas *)

From Stdlib Require Export String Ascii ZArith NArith Lia.
From stdpp Require Export base tactics list gmap strings option.

#[global] Open Scope string_scope.
#[global] Open Scope nat_scope.
#[global] Open Scope list_scope.

(** ** Results

    [result E A] is Rust's [Result<A, E>] together with the third way a Rust
    call can end, a panic.  Code that cannot panic never builds [Panic]. *)
Inductive result (E A : Type) : Type :=
| Ok (a : A)
| Err (e : E)
| Panic.
Arguments Ok {E A} a.
Arguments Err {E A} e.
Arguments Panic {E A}.

#[export] Instance result_ret E : MRet (result E) := λ A, Ok.
#[export] Instance result_bind E : MBind (result E) := λ A B f r,
  match r with Ok a => f a | Err e => Err e | Panic => Panic end.
#[export] Instance result_fmap E : FMap (result E) := λ A B f r,
  match r with Ok a => Ok (f a) | Err e => Err e | Panic => Panic end.

#[export] Instance result_eq_dec {E A} (dE : EqDecision E) (dA : EqDecision A) :
  EqDecision (result E A).
Proof.
  intros [a|e|] [a'|e'|]; try (right; discriminate); try (by left).
  - destruct (dA a a') as [->|]; [by left|right; congruence].
  - destruct (dE e e') as [->|]; [by left|right; congruence].
Defined.

(** [Result::map_err]. *)
Definition map_err {E F A} (f : E → F) (r : result E A) : result F A :=
  match r with Ok a => Ok a | Err e => Err (f e) | Panic => Panic end.

(** [Result::ok]. *)
Definition ok {E A} (r : result E A) : option A :=
  match r with Ok a => Some a | _ => None end.

(** [Option::ok_or]. *)
Definition ok_or {E A} (o : option A) (e : E) : result E A :=
  match o with Some a => Ok a | None => Err e end.

Definition is_Ok {E A} (r : result E A) : bool :=
  match r with Ok _ => true | _ => false end.

Lemma bind_Ok {E A B} (f : A → result E B) r b :
  (r ≫= f) = Ok b ↔ ∃ a, r = Ok a ∧ f a = Ok b.
Proof.
  split; [destruct r; simpl; by eauto|]. by intros (a & -> & ?).
Qed.

Lemma map_err_Ok {E F A} (f : E → F) (r : result E A) a :
  map_err f r = Ok a ↔ r = Ok a.
Proof. destruct r; simpl; split; congruence. Qed.

Lemma bind_not_Panic {E A B} (f : A → result E B) r :
  r ≠ Panic → (∀ a, f a ≠ Panic) → (r ≫= f) ≠ Panic.
Proof. destruct r; simpl; auto. Qed.

Lemma map_err_not_Panic {E F A} (f : E → F) (r : result E A) : r ≠ Panic → map_err f r ≠ Panic.
Proof. by destruct r. Qed.

Lemma ok_or_not_Panic {E A} (o : option A) (e : E) : ok_or o e ≠ Panic.
Proof. by destruct o. Qed.

(** A loop over a list whose body may return early with an error. *)
Fixpoint foldM {E S A} (f : S → A → result E S) (s : S) (l : list A) : result E S :=
  match l with
  | [] => Ok s
  | a :: l => s' ← f s a; foldM f s' l
  end.

Lemma foldM_app {E S A} (f : S → A → result E S) s l1 l2 :
  foldM f s (l1 ++ l2) = (foldM f s l1 ≫= λ s', foldM f s' l2).
Proof. revert s. induction l1 as [|a l1 IH]; intros s; simpl; [done|].
  destruct (f s a); simpl; auto. Qed.

(** ** Automation

    [smatch] destructs the discriminee of every [match] of the goal and
    simplifies; [smatch in *] does so in the hypotheses too. *)
Ltac smatch := repeat (case_match; simplify_eq/=).

(** [lsp]: that a call does not panic. *)
Create HintDb lsp.
#[export] Hint Resolve bind_not_Panic map_err_not_Panic ok_or_not_Panic : lsp.
