(* ===== verification/RustStd.v ===== *)
(** * RustStd: the parts of the Rust standard library the crate relies on.

    Machine integers are [Z] or [N] with their range checks written out.  A
    [&[u8]] is a [list ascii]; a [&str] whose characters matter is a [list N] of
    Unicode scalar values, obtained from bytes by [from_utf8]; a [String] that is
    only stored, compared or sent is a [string] of its UTF-8 bytes. *)

From S2P Require Import Prelude.

Abbreviation bytes := (list ascii).
Abbreviation str := (list N).

(** ** Machine integers *)

Definition i32_MIN : Z := -2147483648.
Definition i32_MAX : Z := 2147483647.
Definition i64_MIN : Z := -9223372036854775808.
Definition i64_MAX : Z := 9223372036854775807.
Definition u64_MAX : Z := 18446744073709551615.
(** [usize::MAX] of the 64-bit targets. *)
Definition usize_MAX : N := 18446744073709551615.

(** [i32::try_from], from any wider integer. *)
Definition i32_try_from (z : Z) : option Z :=
  if bool_decide (i32_MIN ≤ z ≤ i32_MAX)%Z then Some z else None.

(** ** UTF-8 *)

Section utf8.
Local Open Scope N_scope.

Definition in_range (lo hi b : N) : bool := (lo <=? b) && (b <=? hi).
Definition continuation : N → bool := in_range 128 191.

(** The well-formed byte sequences of the Unicode standard's table 3-7. *)
Definition decode2 (b0 b1 : N) : option N :=
  if in_range 194 223 b0 && continuation b1
  then Some ((b0 - 192) * 64 + (b1 - 128)) else None.

Definition decode3 (b0 b1 b2 : N) : option N :=
  let second :=
    if b0 =? 224 then in_range 160 191 b1
    else if b0 =? 237 then in_range 128 159 b1
    else continuation b1 in
  if in_range 224 239 b0 && second && continuation b2
  then Some ((b0 - 224) * 4096 + (b1 - 128) * 64 + (b2 - 128)) else None.

Definition decode4 (b0 b1 b2 b3 : N) : option N :=
  let second :=
    if b0 =? 240 then in_range 144 191 b1
    else if b0 =? 244 then in_range 128 143 b1
    else continuation b1 in
  if in_range 240 244 b0 && second && continuation b2 && continuation b3
  then Some ((b0 - 240) * 262144 + (b1 - 128) * 4096 + (b2 - 128) * 64 + (b3 - 128))
  else None.

Fixpoint utf8_decode (l : list N) : option str :=
  match l with
  | [] => Some []
  | b0 :: l1 =>
    if b0 <? 128 then cons b0 <$> utf8_decode l1 else
    match l1 with
    | [] => None
    | b1 :: l2 =>
      match decode2 b0 b1 with
      | Some c => cons c <$> utf8_decode l2
      | None =>
        match l2 with
        | [] => None
        | b2 :: l3 =>
          match decode3 b0 b1 b2 with
          | Some c => cons c <$> utf8_decode l3
          | None =>
            match l3 with
            | [] => None
            | b3 :: l4 =>
              match decode4 b0 b1 b2 b3 with
              | Some c => cons c <$> utf8_decode l4
              | None => None
              end
            end
          end
        end
      end
    end
  end.

(** [char::len_utf8]. *)
Definition len_utf8 (c : N) : nat :=
  if c <? 128 then 1 else if c <? 2048 then 2 else if c <? 65536 then 3 else 4.
End utf8.

Inductive Utf8Error : Set := Utf8Invalid.

(** [std::str::from_utf8]. *)
Definition from_utf8 (bs : bytes) : result Utf8Error str :=
  ok_or (utf8_decode (N_of_ascii <$> bs)) Utf8Invalid.

(** The invariant of a Rust [String] stored as its bytes. *)
Definition string_utf8 (s : string) : bool := is_Ok (from_utf8 (list_ascii_of_string s)).

(** The [str] of an ASCII literal. *)
Definition lit (s : string) : str := N_of_ascii <$> list_ascii_of_string s.

(** ** Strings as characters *)

(** [char::is_whitespace]: the Unicode property White_Space. *)
Definition is_whitespace (c : N) : bool :=
  in_range 9 13 c || (c =? 32)%N || (c =? 133)%N || (c =? 160)%N || (c =? 5760)%N ||
  in_range 8192 8202 c || (c =? 8232)%N || (c =? 8233)%N || (c =? 8239)%N ||
  (c =? 8287)%N || (c =? 12288)%N.

Fixpoint trim_start (s : str) : str :=
  match s with
  | [] => []
  | c :: s' => if is_whitespace c then trim_start s' else s
  end.

Definition trim_end (s : str) : str := reverse (trim_start (reverse s)).

(** [str::trim]. *)
Definition trim (s : str) : str := trim_end (trim_start s).

(** [str::to_ascii_lowercase]. *)
Definition char_to_ascii_lowercase (c : N) : N :=
  if in_range 65 90 c then (c + 32)%N else c.
Definition to_ascii_lowercase (s : str) : str := char_to_ascii_lowercase <$> s.

Fixpoint starts_with `{EqDecision A} (pat s : list A) : bool :=
  match pat, s with
  | [], _ => true
  | p :: pat', c :: s' => bool_decide (p = c) && starts_with pat' s'
  | _ :: _, [] => false
  end.

(** [str::strip_prefix]. *)
Definition strip_prefix (pat s : str) : option str :=
  if starts_with pat s then Some (drop (length pat) s) else None.

(** [str::split] with a non-empty string pattern. *)
Fixpoint split_go (pat : str) (skip : nat) (cur s : str) : list str :=
  match s with
  | [] => [reverse cur]
  | c :: s' =>
    match skip with
    | S k => split_go pat k cur s'
    | O =>
      if starts_with pat s
      then reverse cur :: split_go pat (length pat - 1) [] s'
      else split_go pat 0 (c :: cur) s'
    end
  end.
Definition split (pat s : str) : list str := split_go pat 0 [] s.

(** [&s[k..]], where [k] is a byte offset; [None] is the panic of an offset that
    is out of range or not a character boundary. *)
Fixpoint slice_from (s : str) (k : nat) : option str :=
  match k, s with
  | O, _ => Some s
  | S _, [] => None
  | S _, c :: s' => if len_utf8 c <=? k then slice_from s' (k - len_utf8 c) else None
  end.

(** *** Strings by byte offset *)

(** [str::len]. *)
Fixpoint str_len (s : str) : nat :=
  match s with [] => 0 | c :: s' => len_utf8 c + str_len s' end.

(** The UTF-8 bytes of a character, and [str::as_bytes]. *)
Definition char_bytes (c : N) : list N :=
  (if c <? 128 then [c]
   else if c <? 2048 then [192 + c / 64; 128 + c mod 64]
   else if c <? 65536 then [224 + c / 4096; 128 + c / 64 mod 64; 128 + c mod 64]
   else [240 + c / 262144; 128 + c / 4096 mod 64; 128 + c / 64 mod 64; 128 + c mod 64])%N.
Definition as_bytes (s : str) : list N := s ≫= char_bytes.

(** [char::len_utf16]. *)
Definition len_utf16 (c : N) : N := if (c <? 65536)%N then 1 else 2.

(** [&s[..k]]; [None] is the panic, as in [slice_from]. *)
Fixpoint slice_to (s : str) (k : nat) : option str :=
  match k, s with
  | O, _ => Some []
  | S _, [] => None
  | S _, c :: s' => if len_utf8 c <=? k then cons c <$> slice_to s' (k - len_utf8 c) else None
  end.

(** [u32] addition with the overflow check; [None] is the panic. *)
Definition u32_MAX : N := 4294967295.
Definition u32_add (a b : N) : option N := if (a + b <=? u32_MAX)%N then Some (a + b)%N else None.

(** [slice::windows], for a positive size, and [Iterator::position]. *)
Fixpoint windows {A} (size : nat) (l : list A) : list (list A) :=
  match l with
  | [] => []
  | _ :: l' => if size <=? length l then take size l :: windows size l' else []
  end.

Fixpoint position {A} (p : A → bool) (l : list A) : option nat :=
  match l with
  | [] => None
  | a :: l' => if p a then Some 0 else S <$> position p l'
  end.

(** ** Decimal numbers *)

Inductive IntErrorKind : Set := IntEmpty | InvalidDigit | PosOverflow.

(** [usize::from_str], that is [from_str_radix] in base 10: an optional [+], then
    at least one digit, with checked arithmetic from left to right. *)
Fixpoint parse_digits (acc : N) (s : str) : result IntErrorKind N :=
  match s with
  | [] => Ok acc
  | c :: s' =>
    if in_range 48 57 c then
      if (acc * 10 <=? usize_MAX)%N then
        if (acc * 10 + (c - 48) <=? usize_MAX)%N
        then parse_digits (acc * 10 + (c - 48))%N s'
        else Err PosOverflow
      else Err PosOverflow
    else Err InvalidDigit
  end.

Definition parse_usize (s : str) : result IntErrorKind N :=
  match s with
  | [] => Err IntEmpty
  | [c] => if (c =? 43)%N || (c =? 45)%N then Err InvalidDigit else parse_digits 0 s
  | c :: s' => if (c =? 43)%N then parse_digits 0 s' else parse_digits 0 s
  end.

(** [Display] of an unsigned integer: [fuel] bounds the number of digits. *)
Definition digit (d : N) : ascii := ascii_of_N (48 + d).

Fixpoint dec_go (fuel : nat) (n : N) (acc : bytes) : bytes :=
  match fuel with
  | O => acc
  | S fuel' =>
    if (n <? 10)%N then digit n :: acc
    else dec_go fuel' (n / 10)%N (digit (n mod 10)%N :: acc)
  end.

Definition display_N (n : N) : bytes := dec_go (S (N.size_nat n)) n [].

Definition display_Z (z : Z) : bytes :=
  if bool_decide (z < 0)%Z then "-"%char :: display_N (Z.to_N (- z))
  else display_N (Z.to_N z).

(** ** Lemmas *)

Lemma N_of_ascii_lt b : (N_of_ascii b < 256)%N.
Proof. apply N_ascii_bounded. Qed.

Definition ascii7 (b : ascii) : Prop := (N_of_ascii b < 128)%N.

Lemma from_utf8_ascii bs : Forall ascii7 bs → from_utf8 bs = Ok (N_of_ascii <$> bs).
Proof.
  unfold from_utf8. induction 1 as [|b bs Hb _ IH]; [done|].
  rewrite fmap_cons. cbn [utf8_decode]. rewrite (proj2 (N.ltb_lt _ _) Hb).
  by destruct (utf8_decode (N_of_ascii <$> bs)); simplify_eq/=.
Qed.

Lemma digit_N d : (d < 10)%N → N_of_ascii (digit d) = (48 + d)%N.
Proof. intros. apply N_ascii_embedding. lia. Qed.

Lemma in_range_true lo hi b : in_range lo hi b = true ↔ (lo ≤ b ≤ hi)%N.
Proof. unfold in_range. rewrite andb_true_iff, !N.leb_le. done. Qed.

Definition is_digit (b : ascii) : Prop := (48 ≤ N_of_ascii b ≤ 57)%N.

Lemma digit_is_digit d : (d < 10)%N → is_digit (digit d).
Proof. intros. unfold is_digit. rewrite digit_N; lia. Qed.

Lemma dec_go_digits fuel n acc : Forall is_digit acc → Forall is_digit (dec_go fuel n acc).
Proof.
  revert n acc. induction fuel as [|fuel IH]; intros n acc Hacc; simpl; [done|].
  destruct (N.ltb_spec n 10).
  - constructor; [by apply digit_is_digit|done].
  - apply IH. constructor; [|done]. apply digit_is_digit. by apply N.mod_lt.
Qed.

Lemma display_N_digits n : Forall is_digit (display_N n).
Proof. by apply dec_go_digits. Qed.

Lemma parse_digits_snoc acc n d s :
  (d < 10)%N → n = (acc * 10 + d)%N → (n ≤ usize_MAX)%N →
  parse_digits acc (N_of_ascii (digit d) :: s) = parse_digits n s.
Proof.
  intros Hd -> Hn. simpl. rewrite digit_N by done.
  rewrite (proj2 (in_range_true 48 57 (48 + d)) ltac:(lia)).
  replace (48 + d - 48)%N with d by lia.
  by rewrite (proj2 (N.leb_le (acc * 10) usize_MAX) ltac:(lia)), (proj2 (N.leb_le _ _) Hn).
Qed.

Lemma parse_dec_go fuel n acc :
  (n < 2 ^ N.of_nat fuel)%N → (n ≤ usize_MAX)%N → (0 < fuel)%nat →
  parse_digits 0 (N_of_ascii <$> dec_go fuel n acc) =
  parse_digits n (N_of_ascii <$> acc).
Proof.
  revert n acc. induction fuel as [|fuel IH]; intros n acc Hf Hn Hpos; [lia|].
  cbn [dec_go]. destruct (N.ltb_spec n 10) as [Hlt|Hge].
  - rewrite fmap_cons. apply parse_digits_snoc; lia.
  - pose proof (N.div_mod' n 10). pose proof (N.mod_lt n 10 ltac:(done)).
    rewrite Nat2N.inj_succ, N.pow_succ_r' in Hf.
    assert (0 < fuel) by (destruct fuel; [change (2 ^ N.of_nat 0)%N with 1%N in Hf|]; lia).
    set (q := (n / 10)%N) in *. set (r := (n mod 10)%N) in *. clearbody q r.
    rewrite IH by lia. rewrite fmap_cons. apply parse_digits_snoc; lia.
Qed.

Lemma size_nat_size n : N.of_nat (N.size_nat n) = N.size n.
Proof. destruct n as [|p]; [done|]. simpl. induction p; simpl; lia. Qed.

Lemma size_nat_pow n : (n < 2 ^ N.of_nat (S (N.size_nat n)))%N.
Proof.
  rewrite Nat2N.inj_succ, N.pow_succ_r', size_nat_size. pose proof (N.size_gt n). lia.
Qed.

Lemma dec_go_cons fuel n acc :
  (0 < fuel)%nat → ∃ b l, dec_go fuel n acc = b :: l ∧ is_digit b.
Proof.
  intros Hf. assert (∃ b l, dec_go fuel n acc = b :: l) as (b & l & E).
  { clear -Hf. revert n acc Hf. induction fuel as [|fuel IH]; intros n acc Hf; [lia|].
    simpl. destruct (n <? 10)%N; [by eauto|]. destruct fuel; [simpl; by eauto|].
    apply IH. lia. }
  exists b, l. split; [done|].
  revert n acc Hf b l E. induction fuel as [|fuel IH]; intros n acc Hf b l E; [lia|].
  simpl in E. destruct (N.ltb_spec n 10); simplify_eq; [by apply digit_is_digit|].
  destruct fuel as [|fuel]; simpl in E.
  - simplify_eq. apply digit_is_digit. by apply N.mod_lt.
  - eapply (IH (n / 10)%N); [lia|exact E].
Qed.

(** Printing and parsing a [usize] is the identity. *)
Lemma parse_display_N n : (n ≤ usize_MAX)%N → parse_usize (N_of_ascii <$> display_N n) = Ok n.
Proof.
  intros Hn. pose proof (parse_dec_go (S (N.size_nat n)) n [] (size_nat_pow n) Hn ltac:(lia)) as E.
  destruct (dec_go_cons (S (N.size_nat n)) n [] ltac:(lia)) as (b & l & Eb & Hb).
  unfold display_N in *. rewrite Eb in *. unfold is_digit in Hb.
  revert E. rewrite fmap_cons. generalize (N_of_ascii <$> l). intros s E. unfold parse_usize.
  rewrite (proj2 (N.eqb_neq (N_of_ascii b) 43)), (proj2 (N.eqb_neq (N_of_ascii b) 45)) by lia.
  by destruct s.
Qed.

(** *** Byte offsets *)

Lemma len_utf8_pos c : 0 < len_utf8 c.
Proof. unfold len_utf8. repeat case_match; lia. Qed.

Lemma str_len_app s t : str_len (s ++ t) = str_len s + str_len t.
Proof. induction s as [|c s IH]; simpl; lia. Qed.

Lemma length_str_len s : length s ≤ str_len s.
Proof. induction s as [|c s IH]; simpl; [done|]. pose proof (len_utf8_pos c). lia. Qed.

Lemma char_bytes_length c : length (char_bytes c) = len_utf8 c.
Proof. unfold char_bytes, len_utf8. by repeat case_match. Qed.

Lemma as_bytes_app s t : as_bytes (s ++ t) = as_bytes s ++ as_bytes t.
Proof. apply bind_app. Qed.

Lemma as_bytes_length s : length (as_bytes s) = str_len s.
Proof.
  induction s as [|c s IH]; [done|]. change (as_bytes (c :: s)) with (char_bytes c ++ as_bytes s).
  rewrite length_app, char_bytes_length, IH. done.
Qed.

(** The first byte of a character: itself in ASCII, and never ASCII otherwise. *)
Lemma as_bytes_lookup s c t :
  ∃ b, as_bytes (s ++ c :: t) !! str_len s = Some b ∧
    ((c < 128)%N ∧ b = c ∨ (128 ≤ c)%N ∧ (128 ≤ b)%N).
Proof.
  assert (∃ b l, char_bytes c = b :: l ∧ ((c < 128)%N ∧ b = c ∨ (128 ≤ c)%N ∧ (128 ≤ b)%N))
    as (b & l & Hc & Hb).
  { unfold char_bytes. destruct (N.ltb_spec c 128); [eauto 10|].
    repeat case_match; eexists _, _; (split; [done|]; right; split; [lia|];
      etrans; [|apply N.le_add_r]; done). }
  exists b. split; [|done]. rewrite as_bytes_app, <-as_bytes_length.
  rewrite lookup_app_r, Nat.sub_diag by done.
  change (as_bytes (c :: t)) with (char_bytes c ++ as_bytes t). by rewrite Hc.
Qed.

Lemma slice_from_app s t : slice_from (s ++ t) (str_len s) = Some t.
Proof.
  induction s as [|c s IH]; [by destruct t|]. simpl. pose proof (len_utf8_pos c).
  destruct (len_utf8 c + str_len s) eqn:E; [lia|]. rewrite <-E.
  rewrite (proj2 (Nat.leb_le _ _)) by lia. rewrite <-IH. f_equal. lia.
Qed.

Lemma slice_to_app s t : slice_to (s ++ t) (str_len s) = Some s.
Proof.
  induction s as [|c s IH]; [by destruct t|]. simpl. pose proof (len_utf8_pos c).
  destruct (len_utf8 c + str_len s) eqn:E; [lia|]. rewrite <-E.
  rewrite (proj2 (Nat.leb_le _ _)) by lia.
  replace (len_utf8 c + str_len s - len_utf8 c) with (str_len s) by lia. by rewrite IH.
Qed.

Lemma len_utf16_bound c : (1 ≤ len_utf16 c ≤ N.of_nat (len_utf8 c))%N.
Proof. unfold len_utf16, len_utf8. repeat case_match; try lia; rewrite ?N.ltb_lt, ?N.ltb_ge in *; lia. Qed.

Lemma u32_add_Some a b : (a + b ≤ u32_MAX)%N → u32_add a b = Some (a + b)%N.
Proof. intros H. unfold u32_add. by rewrite (proj2 (N.leb_le _ _) H). Qed.
