(* ===== verification/Serde.v ===== *)
(** * Serde: the serde / serde_json data model the crate serializes through.

    [json] is the self-describing data of one JSON text with the order and the
    duplicates of object members kept (serde's buffered content); a
    [serde_json::Value] is a [json] in normal form, its objects sorted by key
    without duplicates ([value_wf]), because [serde_json::Map] is a [BTreeMap].
    The text layer, [serde_json::from_slice] and [serde_json::to_vec], is the
    interface [SerdeJson]. *)

From S2P Require Import Prelude RustStd.

Inductive number : Set :=
| Int (z : Z)
| Float (bits : Z).

#[export] Instance number_eq_dec : EqDecision number.
Proof. solve_decision. Defined.

Unset Elimination Schemes.
Inductive json : Set :=
| VNull
| VBool (b : bool)
| VNumber (n : number)
| VString (s : string)
| VArray (l : list json)
| VObject (fields : list (string * json)).
Set Elimination Schemes.

Abbreviation Value := json.

(** The members of an object, and the elements of an array, satisfy the
    induction hypothesis. *)
Lemma json_ind (P : json → Prop) :
  P VNull → (∀ b, P (VBool b)) → (∀ n, P (VNumber n)) → (∀ s, P (VString s)) →
  (∀ l, Forall P l → P (VArray l)) →
  (∀ fs, Forall (λ kv, P kv.2) fs → P (VObject fs)) →
  ∀ j, P j.
Proof.
  intros Hn Hb Hnum Hs Ha Ho. fix IH 1.
  intros [|b|n|s|l|fs]; [exact Hn|apply Hb|apply Hnum|apply Hs|apply Ha|apply Ho].
  - induction l as [|v l IHl]; constructor; [apply IH|exact IHl].
  - induction fs as [|[k v] fs IHfs]; constructor; [apply IH|exact IHfs].
Qed.

#[export] Instance json_eq_dec : EqDecision json.
Proof.
  refine (fix go (x y : json) : Decision (x = y) :=
    let inst : EqDecision json := go in
    match x, y with
    | VNull, VNull => left _
    | VBool b, VBool c => cast_if (decide (b = c))
    | VNumber m, VNumber n => cast_if (decide (m = n))
    | VString s, VString t => cast_if (decide (s = t))
    | VArray l, VArray k => cast_if (decide (l = k))
    | VObject f, VObject g => cast_if (decide (f = g))
    | _, _ => right _
    end); clear inst go; abstract congruence.
Defined.

(** ** Values *)

(** [BTreeMap::insert]; Rust orders strings by their bytes. *)
Fixpoint map_insert (k : string) (v : Value) (m : list (string * Value)) :
    list (string * Value) :=
  match m with
  | [] => [(k, v)]
  | (k', v') :: m' =>
    match String.compare k k' with
    | Lt => (k, v) :: m
    | Eq => (k, v) :: m'
    | Gt => (k', v') :: map_insert k v m'
    end
  end.

Definition map_build (fs : list (string * Value)) : list (string * Value) :=
  foldl (λ m kv, map_insert kv.1 kv.2 m) [] fs.

(** [Map::get] and [Map::contains_key]. *)
Fixpoint map_get (k : string) (m : list (string * Value)) : option Value :=
  match m with
  | [] => None
  | (k', v) :: m' => if bool_decide (k = k') then Some v else map_get k m'
  end.

Definition contains_key (k : string) (m : list (string * Value)) : bool :=
  bool_decide (is_Some (map_get k m)).

(** [Value::as_object], [Value::as_str], [Value::is_null], [Value::get] with a
    string index, [Number::as_i64]. *)
Definition as_object (v : Value) : option (list (string * Value)) :=
  match v with VObject m => Some m | _ => None end.
Definition as_str (v : Value) : option string :=
  match v with VString s => Some s | _ => None end.
Definition is_null (v : Value) : bool :=
  match v with VNull => true | _ => false end.
Definition value_get (k : string) (v : Value) : option Value :=
  match v with VObject m => map_get k m | _ => None end.
Definition as_i64 (n : number) : option Z :=
  match n with
  | Int z => if bool_decide (i64_MIN ≤ z ≤ i64_MAX)%Z then Some z else None
  | Float _ => None
  end.

Fixpoint keys_sorted (m : list (string * Value)) : bool :=
  match m with
  | [] => true
  | (k, _) :: m' =>
    match m' with
    | [] => true
    | (k', _) :: _ => bool_decide (String.compare k k' = Lt) && keys_sorted m'
    end
  end.

Fixpoint value_wf (v : Value) : bool :=
  match v with
  | VArray l => forallb value_wf l
  | VObject m => forallb (λ kv, value_wf kv.2) m && keys_sorted m
  | _ => true
  end.

(** ** Deserialization *)

Inductive de_error : Set :=
| Syntax
| Custom (msg : string)
| MissingField (field : string)
| DuplicateField (field : string)
| InvalidType
| InvalidValue
| InvalidLength
| NoVariantMatches (enum : string)
| CustomFrom (e : de_error). (* a custom error made of the text of [e] *)

#[export] Instance de_error_eq_dec : EqDecision de_error.
Proof. intros x y. unfold Decision. decide equality; apply string_dec. Defined.

Abbreviation de A := (result de_error A).

(** [Value::deserialize] accepts everything; a repeated member overwrites. *)
Fixpoint de_value (j : json) : Value :=
  match j with
  | VArray l => VArray (map de_value l)
  | VObject fs => VObject (map_build (map (λ kv, (kv.1, de_value kv.2)) fs))
  | _ => j
  end.

Definition de_string (j : json) : de string :=
  match j with VString s => Ok s | _ => Err InvalidType end.

Definition de_i32 (j : json) : de Z :=
  match j with
  | VNumber (Int z) => ok_or (i32_try_from z) InvalidValue
  | _ => Err InvalidType
  end.

Definition de_option {A} (d : json → de A) (j : json) : de (option A) :=
  match j with VNull => Ok None | _ => Some <$> d j end.

(** [#[derive(Deserialize)]] on a struct: the members are visited in order, an
    unknown one is skipped, a repeated one is an error, an absent one is an error
    unless its type is an [Option]; an array is read as the fields in order. *)
Definition set_once {A} (name : string) (d : json → de A) (j : json) (slot : option A) :
    de (option A) :=
  match slot with Some _ => Err (DuplicateField name) | None => Some <$> d j end.

Definition required {A} (name : string) (slot : option A) : de A :=
  ok_or slot (MissingField name).

Definition optional {A} (slot : option (option A)) : option A := default None slot.

Definition visit_struct {S A} (s0 : S) (step : S → string * json → de S) (finish : S → de A)
    (seq : list json → de A) (j : json) : de A :=
  match j with
  | VObject fs => s ← foldM step s0 fs; finish s
  | VArray l => seq l
  | _ => Err InvalidType
  end.

(** ** The text layer *)

Fixpoint json_depth (j : json) : nat :=
  match j with
  | VArray l => S (list_max (map json_depth l))
  | VObject fs => S (list_max (map (λ kv, json_depth kv.2) fs))
  | _ => 0
  end.

Fixpoint json_exact (j : json) : bool :=
  match j with
  | VNumber (Int z) => bool_decide (i64_MIN ≤ z ≤ u64_MAX)%Z
  | VNumber (Float _) => false
  | VString s => string_utf8 s
  | VArray l => forallb json_exact l
  | VObject fs => forallb (λ kv, string_utf8 kv.1 && json_exact kv.2) fs
  | _ => true
  end.

(** The data that serde_json prints and reads back unchanged: integers of 64 bits,
    no floats (their text form is not exact by default), UTF-8 strings, and at
    most 127 nested arrays and objects, the parser's recursion limit. *)
Definition json_ok (j : json) : bool := json_exact j && (json_depth j <=? 127).

Class SerdeJson : Type := {
  from_slice : bytes → de json;
  to_vec : json → de bytes;
}.

Class SerdeJsonLaws (SJ : SerdeJson) : Prop := {
  to_vec_from_slice j : json_ok j → ∃ bs, to_vec j = Ok bs ∧ from_slice bs = Ok j;
  from_slice_no_panic bs : from_slice bs ≠ Panic;
  to_vec_no_panic j : to_vec j ≠ Panic;
}.

(** ** Lemmas *)

Lemma string_compare_refl k : String.compare k k = Eq.
Proof. induction k as [|a k IH]; [done|]. simpl. unfold Ascii.compare. by rewrite N.compare_refl. Qed.

Lemma map_get_insert k v k' m :
  map_get k' (map_insert k v m) = if bool_decide (k' = k) then Some v else map_get k' m.
Proof.
  induction m as [|[k1 v1] m IH]; simpl; [done|].
  destruct (String.compare k k1) eqn:E; simpl.
  - apply String.compare_eq_iff in E as ->. by case_bool_decide.
  - done.
  - rewrite IH. case_bool_decide as H1; case_bool_decide as H2; try done.
    subst. by rewrite string_compare_refl in E.
Qed.

Lemma map_get_foldl k fs m :
  map_get k (foldl (λ m kv, map_insert kv.1 kv.2 m) m fs) =
  match map_get k (reverse fs) with Some v => Some v | None => map_get k m end.
Proof.
  induction fs as [|[k1 v1] fs IH] using rev_ind; [done|].
  rewrite foldl_snoc, reverse_snoc. simpl. rewrite map_get_insert, IH.
  by case_bool_decide.
Qed.

(** Reading an object as a value keeps the last of the repeated members. *)
Lemma map_get_build k fs : map_get k (map_build fs) = map_get k (reverse fs).
Proof. unfold map_build. rewrite map_get_foldl. by destruct (map_get k (reverse fs)). Qed.

Lemma keys_sorted_cons k v m :
  keys_sorted ((k, v) :: m) = true ↔
  keys_sorted m = true ∧ (∀ k' v', head m = Some (k', v') → String.compare k k' = Lt).
Proof.
  destruct m as [|[k1 v1] m]; simpl; [by split|].
  rewrite andb_true_iff, bool_decide_eq_true.
  split; intros [? H]; (split; [done || by eapply H|]); [by intros ?? [= <- <-]|done].
Qed.

Lemma map_insert_head k v m k' v' :
  head (map_insert k v m) = Some (k', v') →
  k' = k ∨ (∃ v1, head m = Some (k', v1)).
Proof.
  destruct m as [|[k1 v1] m]; simpl; [naive_solver|].
  destruct (String.compare k k1); simpl; naive_solver.
Qed.

Lemma map_insert_sorted k v m : keys_sorted m = true → keys_sorted (map_insert k v m) = true.
Proof.
  induction m as [|[k1 v1] m IH]; [done|]. intros [Hm Hhd]%keys_sorted_cons. cbn [map_insert].
  destruct (String.compare k k1) eqn:E; rewrite keys_sorted_cons.
  - apply String.compare_eq_iff in E as ->. done.
  - split; [by rewrite keys_sorted_cons|]. simpl. naive_solver.
  - split; [by apply IH|]. intros k' v' [->|[v2 ?]]%map_insert_head; [|eauto].
    rewrite String.compare_antisym, E. done.
Qed.

Lemma map_build_sorted fs : keys_sorted (map_build fs) = true.
Proof.
  unfold map_build. induction fs as [|[k v] fs IH] using rev_ind; [done|].
  rewrite foldl_snoc. by apply map_insert_sorted.
Qed.

Lemma string_lt_trans k1 k2 k3 :
  String.compare k1 k2 = Lt → String.compare k2 k3 = Lt → String.compare k1 k3 = Lt.
Proof.
  revert k2 k3. induction k1 as [|a k1 IH]; intros [|b k2] [|c k3]; simpl; try done.
  unfold Ascii.compare.
  destruct (N.compare_spec (N_of_ascii a) (N_of_ascii b)) as [E1|E1|E1]; [|intros _|done];
    destruct (N.compare_spec (N_of_ascii b) (N_of_ascii c)) as [E2|E2|E2]; try done; intros.
  - rewrite E1, E2, N.compare_refl. eauto.
  - rewrite E1. by rewrite (proj2 (N.compare_lt_iff _ _) E2).
  - rewrite <-E2. by rewrite (proj2 (N.compare_lt_iff _ _) E1).
  - rewrite (proj2 (N.compare_lt_iff _ _)); [done|]. by etrans.
Qed.

Lemma keys_sorted_lt k v m :
  keys_sorted ((k, v) :: m) = true → Forall (λ kv, String.compare k kv.1 = Lt) m.
Proof.
  revert k v. induction m as [|[k1 v1] m IH]; intros k v Hs; [done|].
  apply keys_sorted_cons in Hs as [Hs Hhd]. specialize (Hhd _ _ eq_refl).
  constructor; [done|]. eapply Forall_impl; [|exact (IH _ _ Hs)].
  intros [k2 v2] ?. by eapply string_lt_trans.
Qed.

(** Inserting in key order appends. *)
Lemma map_insert_last m k v :
  Forall (λ kv, String.compare kv.1 k = Lt) m → map_insert k v m = m ++ [(k, v)].
Proof.
  induction 1 as [|[k1 v1] m Hlt _ IH]; [done|]. simpl in *.
  by rewrite String.compare_antisym, Hlt, <-IH.
Qed.

Lemma keys_sorted_app_inv m k v :
  keys_sorted (m ++ [(k, v)]) = true →
  keys_sorted m = true ∧ Forall (λ kv, String.compare kv.1 k = Lt) m.
Proof.
  induction m as [|[k1 v1] m IH]; [done|]. cbn [app]. intros Hs.
  pose proof (keys_sorted_lt _ _ _ Hs) as Hlt. apply keys_sorted_cons in Hs as [Hs Hhd].
  apply IH in Hs as [Hs Hall]. rewrite Forall_app, Forall_singleton in Hlt.
  destruct Hlt as [Hlt ?]. split; [|by constructor].
  rewrite keys_sorted_cons. split; [done|]. intros k' v' Hh. destruct m; simplify_eq/=.
  by inversion Hlt.
Qed.

Lemma map_build_id m : keys_sorted m = true → map_build m = m.
Proof.
  unfold map_build. induction m as [|[k v] m IH] using rev_ind; [done|].
  intros [Hs Hall]%keys_sorted_app_inv. rewrite foldl_snoc, IH by done.
  by apply map_insert_last.
Qed.

Lemma map_insert_Forall (P : string * Value → Prop) k v m :
  P (k, v) → Forall P m → Forall P (map_insert k v m).
Proof.
  intros Hkv. induction 1 as [|[k1 v1] m H1 Hm IH]; simpl; [by constructor|].
  destruct (String.compare k k1); repeat constructor; auto.
Qed.

Lemma map_build_Forall (P : string * Value → Prop) fs : Forall P fs → Forall P (map_build fs).
Proof.
  unfold map_build. induction fs as [|[k v] fs IH] using rev_ind; intros Hfs; [constructor|].
  rewrite Forall_app, Forall_singleton in Hfs. destruct Hfs as [Hfs Hkv]. rewrite foldl_snoc.
  apply map_insert_Forall; [exact Hkv|by apply IH].
Qed.

Lemma forallb_Forall {A} (p : A → bool) l : forallb p l = true ↔ Forall (λ a, p a = true) l.
Proof. by rewrite forallb_forall, List.Forall_forall. Qed.

(** Every value [Value::deserialize] builds is in normal form. *)
Lemma de_value_wf j : value_wf (de_value j) = true.
Proof.
  induction j as [| | | |l IH|fs IH] using json_ind; simpl; try done.
  - apply forallb_Forall, Forall_fmap. by eapply Forall_impl.
  - rewrite andb_true_iff, map_build_sorted, forallb_Forall. split; [|done].
    apply map_build_Forall, Forall_fmap. by eapply Forall_impl.
Qed.

(** On values in normal form it is the identity. *)
Lemma de_value_id v : value_wf v = true → de_value v = v.
Proof.
  induction v as [| | | |l IH|fs IH] using json_ind; simpl; try done.
  - intros Hl%forallb_Forall. f_equal. rewrite List.Forall_forall in IH, Hl.
    rewrite <-(map_id l) at 2. apply map_ext_in. auto.
  - intros [Hl%forallb_Forall Hs]%andb_true_iff. f_equal.
    assert (map (λ kv, (kv.1, de_value kv.2)) fs = fs) as ->; [|by apply map_build_id].
    rewrite List.Forall_forall in IH, Hl. rewrite <-(map_id fs) at 2. apply map_ext_in.
    intros [k v] Ha. simpl. f_equal. by apply (IH (k, v)), (Hl (k, v)).
Qed.

(** *** Structs read from an object

    [occurrences k fs] are the values of the members named [k].  A field of a
    derived struct only depends on the occurrences of its own name. *)
Fixpoint occurrences (k : string) (fs : list (string * json)) : list json :=
  match fs with
  | [] => []
  | (k', v) :: fs' => if bool_decide (k' = k) then v :: occurrences k fs' else occurrences k fs'
  end.

Definition fill {A} (name : string) (d : json → de A) (slot : option A) (vs : list json) :
    de (option A) := foldM (λ s v, set_once name d v s) slot vs.

Lemma fill_full {A} name (d : json → de A) a vs s :
  fill name d (Some a) vs = Ok s ↔ vs = [] ∧ s = Some a.
Proof. unfold fill. destruct vs; simpl; naive_solver. Qed.

Lemma fill_Some {A} name (d : json → de A) vs a :
  fill name d None vs = Ok (Some a) ↔ ∃ v, vs = [v] ∧ d v = Ok a.
Proof.
  destruct vs as [|v vs]; [naive_solver|].
  change (fill name d None (v :: vs)) with (s ← (Some <$> d v); fill name d s vs).
  split.
  - destruct (d v) as [b| |] eqn:E; simpl; try done. rewrite fill_full. naive_solver.
  - intros (v' & [= -> ->] & E). by rewrite E.
Qed.

Lemma fill_None {A} name (d : json → de A) vs : fill name d None vs = Ok None ↔ vs = [].
Proof.
  destruct vs as [|v vs]; [done|].
  change (fill name d None (v :: vs)) with (s ← (Some <$> d v); fill name d s vs).
  split; [|done]. destruct (d v) as [b| |] eqn:E; simpl; try done. rewrite fill_full. naive_solver.
Qed.

Lemma required_Ok {A} name (slot : option A) a : required name slot = Ok a ↔ slot = Some a.
Proof. unfold required. destruct slot; simpl; naive_solver. Qed.

Lemma fill_cons {A} name (d : json → de A) slot v vs :
  fill name d slot (v :: vs) = (s ← set_once name d v slot; fill name d s vs).
Proof. done. Qed.

Lemma occurrences_cons k k' v fs :
  occurrences k ((k', v) :: fs) =
  if bool_decide (k' = k) then v :: occurrences k fs else occurrences k fs.
Proof. done. Qed.

(** One step of a derived visitor: at most one slot consumes the member. *)
Ltac solve_visit IH :=
  cbn [foldM]; rewrite ?occurrences_cons;
  repeat (case_bool_decide; simplify_eq);
  rewrite ?fill_cons; cbn [mbind result_bind];
  repeat match goal with
  | |- context [set_once ?n ?d ?v ?s] =>
    let r := fresh "r" in set (r := set_once n d v s); destruct r; cbn [mbind result_bind]
  end;
  rewrite ?IH; simpl; first [done | split; [done|intros; destruct_and!; done]].

(** The specification of a field: it occurs once and its value is read ([has_field]);
    an optional field occurs at most once ([has_option]). *)
Definition has_field {A} (name : string) (d : json → de A) (fs : list (string * json)) (a : A) :
    Prop := ∃ v, occurrences name fs = [v] ∧ d v = Ok a.

Definition has_option {A} (name : string) (d : json → de A) (fs : list (string * json))
    (o : option A) : Prop :=
  (occurrences name fs = [] ∧ o = None) ∨ has_field name (de_option d) fs o.

Lemma fill_required {A} name (d : json → de A) fs a :
  (∃ s, fill name d None (occurrences name fs) = Ok s ∧ required name s = Ok a) ↔
  has_field name d fs a.
Proof.
  setoid_rewrite required_Ok. unfold has_field. rewrite <-fill_Some. split.
  - by intros (s & ? & ->).
  - eauto.
Qed.

Lemma fill_optional {A} name (d : json → de A) fs o :
  (∃ s, fill name (de_option d) None (occurrences name fs) = Ok s ∧ optional s = o) ↔
  has_option name d fs o.
Proof.
  unfold has_option, has_field. split.
  - intros ([o'|] & Hs & <-).
    + right. by apply fill_Some in Hs.
    + left. by apply fill_None in Hs.
  - intros [[Hs ->]|Hs]; [exists None|exists (Some o)]; (split; [|done]).
    + by apply fill_None.
    + by apply fill_Some.
Qed.

Lemma has_field_fun {A} name (d : json → de A) fs a b :
  has_field name d fs a → has_field name d fs b → a = b.
Proof. intros (v & E & ?) (w & F & ?). congruence. Qed.
