(* ===== verification/JsonText.v ===== *)
(** * JsonText: a JSON text layer, an instance of [SerdeJson].

    serde_json is not part of the crate: [Serde] states what the crate relies on.
    This file gives a concrete text layer that satisfies it, so that the codec runs
    on real bytes: compact printing as serde_json does it, and a parser with its
    recursion limit, for integers of 64 bits (floats and the escapes of characters
    beyond ASCII are rejected). *)

From S2P Require Import Prelude RustStd Serde.

Definition dq : ascii := "034"%char.

(** ** Printing *)

Definition hex_digit (n : N) : ascii :=
  ascii_of_N (if (n <? 10)%N then 48 + n else 87 + n).

Definition escape_char (c : ascii) : bytes :=
  let n := N_of_ascii c in
  if (n =? 34)%N then ["\"%char; dq]
  else if (n =? 92)%N then ["\"%char; "\"%char]
  else if (n =? 8)%N then ["\"%char; "b"%char]
  else if (n =? 9)%N then ["\"%char; "t"%char]
  else if (n =? 10)%N then ["\"%char; "n"%char]
  else if (n =? 12)%N then ["\"%char; "f"%char]
  else if (n =? 13)%N then ["\"%char; "r"%char]
  else if (n <? 32)%N
  then ["\"%char; "u"%char; "0"%char; "0"%char; hex_digit (n / 16); hex_digit (n mod 16)]
  else [c].

Definition print_string (s : string) : bytes :=
  dq :: concat (escape_char <$> list_ascii_of_string s) ++ [dq].

Fixpoint print (j : json) : bytes :=
  match j with
  | VNull => list_ascii_of_string "null"
  | VBool b => list_ascii_of_string (if b then "true" else "false")
  | VNumber (Int z) => display_Z z
  | VNumber (Float _) => []
  | VString s => print_string s
  | VArray l =>
    "["%char :: match l with
                | [] => ["]"%char]
                | v :: l' => print v ++ concat (map (λ v, ","%char :: print v) l') ++ ["]"%char]
                end
  | VObject fs =>
    let member '(k, v) := print_string k ++ ":"%char :: print v in
    "{"%char :: match fs with
                | [] => ["}"%char]
                | kv :: fs' => member kv ++ concat (map (λ kv, ","%char :: member kv) fs') ++ ["}"%char]
                end
  end.

Fixpoint has_float (j : json) : bool :=
  match j with
  | VNumber (Float _) => true
  | VArray l => existsb has_float l
  | VObject fs => existsb (λ kv, has_float kv.2) fs
  | _ => false
  end.

Definition text_to_vec (j : json) : de bytes := if has_float j then Err Syntax else Ok (print j).

(** ** Parsing *)

Definition is_space (c : ascii) : bool := bool_decide (c ∈ [" "; "009"; "010"; "013"]%char).

Fixpoint skip_ws (l : bytes) : bytes :=
  match l with
  | c :: l' => if is_space c then skip_ws l' else l
  | [] => []
  end.

Definition hex_value (c : ascii) : option N :=
  let n := N_of_ascii c in
  if in_range 48 57 n then Some (n - 48)%N
  else if in_range 97 102 n then Some (n - 87)%N
  else if in_range 65 70 n then Some (n - 55)%N
  else None.

Fixpoint parse_chars (l : bytes) : option (bytes * bytes) :=
  match l with
  | [] => None
  | c :: l1 =>
    let n := N_of_ascii c in
    if (n =? 34)%N then Some ([], l1)
    else if (n <? 32)%N then None
    else if (n =? 92)%N then
      match l1 with
      | [] => None
      | e :: l2 =>
        let simple c := '(s, r) ← parse_chars l2; Some (c :: s, r) in
        let m := N_of_ascii e in
        if (m =? 34)%N || (m =? 92)%N || (m =? 47)%N then simple e
        else if (m =? 98)%N then simple "008"%char
        else if (m =? 116)%N then simple "009"%char
        else if (m =? 110)%N then simple "010"%char
        else if (m =? 102)%N then simple "012"%char
        else if (m =? 114)%N then simple "013"%char
        else if (m =? 117)%N then
          match l2 with
          | "0"%char :: "0"%char :: h1 :: h0 :: l3 =>
            match hex_value h1, hex_value h0 with
            | Some a, Some b =>
              if (a <? 8)%N
              then '(s, r) ← parse_chars l3; Some (ascii_of_N (16 * a + b) :: s, r)
              else None
            | _, _ => None
            end
          | _ => None
          end
        else None
      end
    else '(s, r) ← parse_chars l1; Some (c :: s, r)
  end.

Definition parse_string (l : bytes) : option (string * bytes) :=
  '(s, r) ← parse_chars l;
  let str := string_of_list_ascii s in
  if string_utf8 str then Some (str, r) else None.

Definition digitb (c : ascii) : bool := in_range 48 57 (N_of_ascii c).

Fixpoint span_digits (l : bytes) : bytes * bytes :=
  match l with
  | c :: l' => if digitb c then let '(ds, r) := span_digits l' in (c :: ds, r) else ([], l)
  | [] => ([], [])
  end.

Definition parse_number (l : bytes) : option (json * bytes) :=
  let '(neg, l) := match l with "-"%char :: l' => (true, l') | _ => (false, l) end in
  let '(ds, r) := span_digits l in
  n ← ok (parse_usize (N_of_ascii <$> ds));
  let z := if neg : bool then (- Z.of_N n)%Z else Z.of_N n in
  if bool_decide (i64_MIN ≤ z ≤ u64_MAX)%Z then Some (VNumber (Int z), r) else None.

Definition parse_literal (lit : string) (j : json) (l : bytes) : option (json * bytes) :=
  let p := list_ascii_of_string lit in
  if starts_with p l then Some (j, drop (length p) l) else None.

(** [depth] is the remaining depth of the recursion limit. *)
Fixpoint parse_value (fuel depth : nat) (l : bytes) : option (json * bytes) :=
  match fuel with
  | O => None
  | S fuel =>
    let l := skip_ws l in
    match l with
    | [] => None
    | c :: l1 =>
      if bool_decide (c = dq) then '(s, r) ← parse_string l1; Some (VString s, r)
      else if bool_decide (c = "["%char) then
        match depth with
        | O | S O => None
        | S depth =>
          match skip_ws l1 with
          | "]"%char :: r => Some (VArray [], r)
          | l2 => '(vs, r) ← parse_elements fuel depth l2; Some (VArray vs, r)
          end
        end
      else if bool_decide (c = "{"%char) then
        match depth with
        | O | S O => None
        | S depth =>
          match skip_ws l1 with
          | "}"%char :: r => Some (VObject [], r)
          | l2 => '(fs, r) ← parse_members fuel depth l2; Some (VObject fs, r)
          end
        end
      else if bool_decide (c = "n"%char) then parse_literal "null" VNull l
      else if bool_decide (c = "t"%char) then parse_literal "true" (VBool true) l
      else if bool_decide (c = "f"%char) then parse_literal "false" (VBool false) l
      else parse_number l
    end
  end
with parse_elements (fuel depth : nat) (l : bytes) : option (list json * bytes) :=
  match fuel with
  | O => None
  | S fuel =>
    '(v, l1) ← parse_value fuel depth l;
    match skip_ws l1 with
    | ","%char :: l2 => '(vs, r) ← parse_elements fuel depth l2; Some (v :: vs, r)
    | "]"%char :: r => Some ([v], r)
    | _ => None
    end
  end
with parse_members (fuel depth : nat) (l : bytes) : option (list (string * json) * bytes) :=
  match fuel with
  | O => None
  | S fuel =>
    match skip_ws l with
    | "034"%char :: l1 =>
      '(k, l2) ← parse_string l1;
      match skip_ws l2 with
      | ":"%char :: l3 =>
        '(v, l4) ← parse_value fuel depth l3;
        match skip_ws l4 with
        | ","%char :: l5 => '(fs, r) ← parse_members fuel depth l5; Some ((k, v) :: fs, r)
        | "}"%char :: r => Some ([(k, v)], r)
        | _ => None
        end
      | _ => None
      end
    | _ => None
    end
  end.

(** The fuel of one unit per byte is enough, every call that goes deeper having read
    at least one byte. *)
Definition text_from_slice (bs : bytes) : de json :=
  match parse_value (S (length bs)) 128 bs with
  | Some (j, rest) => if bool_decide (skip_ws rest = []) then Ok j else Err Syntax
  | None => Err Syntax
  end.

#[export] Instance text_serde : SerdeJson := {| from_slice := text_from_slice; to_vec := text_to_vec |}.

(** ** Lemmas *)

Lemma parse_chars_escape c l :
  parse_chars (escape_char c ++ l) = ('(s, r) ← parse_chars l; Some (c :: s, r)).
Proof. destruct c as [[] [] [] [] [] [] [] []]; reflexivity. Qed.

Lemma parse_chars_print s rest :
  parse_chars (concat (escape_char <$> s) ++ dq :: rest) = Some (s, rest).
Proof.
  induction s as [|c s IH]; [done|]. rewrite fmap_cons. cbn [concat].
  by rewrite <-app_assoc, parse_chars_escape, IH.
Qed.

Lemma parse_string_print s rest :
  string_utf8 s = true → parse_string (concat (escape_char <$> list_ascii_of_string s) ++ dq :: rest) = Some (s, rest).
Proof.
  intros Hs. unfold parse_string. rewrite parse_chars_print. simpl.
  by rewrite string_of_list_ascii_of_string, Hs.
Qed.

Definition no_digit (rest : bytes) : Prop := ∀ c l, rest = c :: l → digitb c = false.

Lemma digitb_is_digit c : digitb c = true ↔ is_digit c.
Proof. unfold digitb, in_range, is_digit. rewrite andb_true_iff, !N.leb_le. done. Qed.

Lemma span_digits_app ds rest :
  Forall is_digit ds → no_digit rest → span_digits (ds ++ rest) = (ds, rest).
Proof.
  intros Hds Hrest. induction Hds as [|d ds Hd Hds IH].
  - destruct rest as [|c l]; [done|]. simpl. by rewrite (Hrest c l eq_refl).
  - cbn [app span_digits]. by rewrite (proj2 (digitb_is_digit d) Hd), IH.
Qed.

Lemma display_N_head n : ∃ c l, display_N n = c :: l ∧ digitb c = true.
Proof.
  pose proof (display_N_digits n) as Hd. unfold display_N in *.
  destruct (dec_go_cons (S (N.size_nat n)) n [] ltac:(lia)) as (b & l & E & Hb).
  exists b, l. by rewrite digitb_is_digit.
Qed.

Lemma parse_number_print z rest :
  (i64_MIN ≤ z ≤ u64_MAX)%Z → no_digit rest →
  parse_number (display_Z z ++ rest) = Some (VNumber (Int z), rest).
Proof.
  intros Hz Hrest. unfold parse_number, display_Z.
  assert (i64_MIN = (-9223372036854775808)%Z ∧ u64_MAX = 18446744073709551615%Z ∧
          usize_MAX = 18446744073709551615%N) as (E1 & E2 & E3) by done.
  case_bool_decide as Hneg; cbn [app].
  - rewrite span_digits_app by auto using display_N_digits.
    rewrite parse_display_N by lia. simpl. rewrite Z2N.id by lia.
    rewrite Z.opp_involutive. by rewrite bool_decide_eq_true_2.
  - destruct (display_N_head (Z.to_N z)) as (c & l & E & Hc).
    assert (match display_N (Z.to_N z) ++ rest with "-"%char :: l' => (true, l') | _ => (false, display_N (Z.to_N z) ++ rest) end = (false, display_N (Z.to_N z) ++ rest)) as ->.
    { rewrite E. destruct c as [[] [] [] [] [] [] [] []]; try done. }
    rewrite span_digits_app by auto using display_N_digits.
    rewrite parse_display_N by lia. simpl. rewrite Z2N.id by lia.
    by rewrite bool_decide_eq_true_2.
Qed.

(** The first character of a value. *)
Lemma print_head j :
  has_float j = false → ∃ c l, print j = c :: l ∧ is_space c = false ∧ c ≠ "]"%char.
Proof.
  destruct j as [|[]|[z|]|s|l|fs]; intros Hf; try done; try by eexists _, _.
  simpl. unfold display_Z. case_bool_decide; [by eexists _, _|].
  destruct (display_N_head (Z.to_N z)) as (c & l & -> & Hc). exists c, l. split; [done|].
  destruct c as [[] [] [] [] [] [] [] []]; try done.
Qed.

Lemma skip_ws_head c l : is_space c = false → skip_ws (c :: l) = c :: l.
Proof. simpl. by intros ->. Qed.

Lemma skip_ws_print j rest : has_float j = false → skip_ws (print j ++ rest) = print j ++ rest.
Proof. intros (c & l & -> & Hc & _)%print_head. by apply skip_ws_head. Qed.

Lemma json_exact_no_float j : json_exact j = true → has_float j = false.
Proof.
  induction j as [| |[]| |l IH|fs IH] using json_ind; try done; simpl.
  - induction IH as [|v l Hv _ IH]; [done|]. simpl. rewrite andb_true_iff. intros [? ?].
    by rewrite Hv, IH.
  - induction IH as [|[k v] l Hv _ IH]; [done|]. simpl in *. rewrite !andb_true_iff.
    intros [[? ?] ?]. by rewrite Hv, IH.
Qed.

Lemma parse_value_number fuel depth z rest :
  (i64_MIN ≤ z ≤ u64_MAX)%Z → no_digit rest →
  parse_value (S fuel) depth (display_Z z ++ rest) = Some (VNumber (Int z), rest).
Proof.
  intros Hz Hrest. rewrite <-(parse_number_print z rest) by done.
  assert (∃ c l, display_Z z ++ rest = c :: l ∧ (digitb c = true ∨ c = "-"%char)) as (c & l & -> & Hc).
  { unfold display_Z. case_bool_decide; [eexists _, _; split; [done|by right]|].
    destruct (display_N_head (Z.to_N z)) as (c & l & -> & ?). exists c, (l ++ rest). eauto. }
  cbn [parse_value]. rewrite skip_ws_head.
  - repeat (rewrite bool_decide_eq_false_2 by (intros ->; by destruct Hc)). done.
  - destruct Hc as [Hc| ->]; [|done]. by destruct c as [[] [] [] [] [] [] [] []].
Qed.

(** What follows the first element of an array, and the first member of an object. *)
Definition elements_tail (l : list json) : bytes :=
  concat (map (λ v, ","%char :: print v) l) ++ ["]"%char].

Definition member_text (kv : string * json) : bytes :=
  print_string kv.1 ++ ":"%char :: print kv.2.

Definition members_tail (fs : list (string * json)) : bytes :=
  concat (map (λ kv, ","%char :: member_text kv) fs) ++ ["}"%char].

Lemma print_array v l : print (VArray (v :: l)) = "["%char :: print v ++ elements_tail l.
Proof. done. Qed.

Lemma print_object kv fs : print (VObject (kv :: fs)) = "{"%char :: member_text kv ++ members_tail fs.
Proof.
  destruct kv as [k v]. unfold members_tail, member_text. simpl. do 3 f_equal.
  replace (map _ fs) with (map (λ kv : string * json, ","%char :: print_string kv.1 ++ ":"%char :: print kv.2) fs); [done|].
  apply map_ext. by intros [].
Qed.

(** A value is parsed back with the fuel and the depth it needs, whatever follows. *)
Definition parses (j : json) : Prop :=
  ∀ fuel depth rest, length (print j) < fuel → json_depth j < depth → no_digit rest →
    parse_value fuel depth (print j ++ rest) = Some (j, rest).

Lemma no_digit_cons c l : digitb c = false → no_digit (c :: l).
Proof. by intros Hc c' l' [= <- <-]. Qed.

Lemma parse_elements_print v l fuel depth rest :
  Forall (λ v, has_float v = false ∧ parses v) (v :: l) →
  Forall (λ v, json_depth v < depth) (v :: l) →
  length (print v ++ elements_tail l) < fuel →
  parse_elements fuel depth ((print v ++ elements_tail l) ++ rest) = Some (v :: l, rest).
Proof.
  revert v fuel. induction l as [|v' l IH]; intros v [|fuel] Hp Hd Hf; try lia;
    apply Forall_cons_iff in Hp as [[Hv Hp] Hps]; apply Forall_cons_iff in Hd as [Hd Hds];
    rewrite length_app in Hf; cbn [parse_elements]; rewrite <-app_assoc.
  - unfold elements_tail in *. simpl in Hf. simpl app.
    rewrite (Hp fuel depth) by (try apply no_digit_cons; done || lia). done.
  - replace (elements_tail (v' :: l)) with (","%char :: print v' ++ elements_tail l) in *
      by (unfold elements_tail; simpl; by rewrite <-!app_assoc).
    cbn [app length] in *. rewrite (Hp fuel depth) by (try apply no_digit_cons; done || lia).
    cbn [mbind option_bind]. rewrite skip_ws_head by done. rewrite IH by (auto; lia). done.
Qed.

Lemma member_text_length kv : length (print kv.2) + 3 ≤ length (member_text kv).
Proof. unfold member_text, print_string. simpl. rewrite !length_app. simpl. lia. Qed.

Lemma members_tail_cons kv fs :
  members_tail (kv :: fs) = ","%char :: member_text kv ++ members_tail fs.
Proof. unfold members_tail. simpl. by rewrite <-app_assoc. Qed.

Lemma elements_tail_cons v l : elements_tail (v :: l) = ","%char :: print v ++ elements_tail l.
Proof. unfold elements_tail. simpl. by rewrite <-app_assoc. Qed.

Lemma parse_members_print kv fs fuel depth rest :
  Forall (λ kv, string_utf8 kv.1 = true ∧ has_float kv.2 = false ∧ parses kv.2) (kv :: fs) →
  Forall (λ kv, json_depth kv.2 < depth) (kv :: fs) →
  length (member_text kv ++ members_tail fs) < fuel →
  parse_members fuel depth ((member_text kv ++ members_tail fs) ++ rest) = Some (kv :: fs, rest).
Proof.
  revert kv fuel. induction fs as [|kv' fs IH]; intros [k v] [|fuel] Hp Hd Hf; try lia;
    apply Forall_cons_iff in Hp as [(Hk & Hv & Hp) Hps]; apply Forall_cons_iff in Hd as [Hd Hds];
    rewrite length_app in Hf; pose proof (member_text_length (k, v)) as Hl;
    cbn [fst snd] in *; rewrite <-app_assoc; cbn [parse_members];
    unfold member_text at 1, print_string at 1; cbn [app fst snd]; rewrite skip_ws_head by done;
    rewrite <-!app_assoc; cbn [app]; unfold dq at 1; rewrite parse_string_print by done;
    cbn [mbind option_bind]; rewrite skip_ws_head by done.
  - change (members_tail []) with ["}"%char] in *. cbn [length] in Hf. simpl app.
    rewrite (Hp fuel depth) by (try apply no_digit_cons; done || lia). done.
  - rewrite members_tail_cons in *. cbn [app length] in *.
    rewrite (Hp fuel depth) by (try apply no_digit_cons; done || lia).
    cbn [mbind option_bind]. rewrite skip_ws_head by done. rewrite IH by (auto; lia). done.
Qed.

Lemma parse_value_array fuel depth c l :
  is_space c = false → c ≠ "]"%char →
  parse_value (S fuel) (S (S depth)) ("["%char :: c :: l) =
  ('(vs, r) ← parse_elements fuel (S depth) (c :: l); Some (VArray vs, r)).
Proof.
  intros Hc Hne. cbn [parse_value]. rewrite skip_ws_head by done.
  change (bool_decide ("["%char = dq)) with false. cbn iota.
  change (bool_decide ("["%char = "["%char)) with true. cbn iota.
  rewrite skip_ws_head by done. by destruct c as [[] [] [] [] [] [] [] []].
Qed.

Lemma parse_value_object fuel depth kv text :
  parse_value (S fuel) (S (S depth)) ("{"%char :: member_text kv ++ text) =
  ('(fs, r) ← parse_members fuel (S depth) (member_text kv ++ text); Some (VObject fs, r)).
Proof. done. Qed.

Lemma list_max_depth {A} (f : A → nat) l depth :
  S (list_max (map f l)) < S depth → Forall (λ a, f a < depth) l.
Proof.
  intros H. destruct depth as [|depth]; [lia|]. assert (list_max (map f l) ≤ depth) as Hm by lia.
  apply list_max_le in Hm. rewrite Forall_map in Hm. eapply Forall_impl; [|exact Hm].
  simpl. lia.
Qed.

Lemma exact_elements l :
  Forall (λ v, json_exact v = true → parses v) l → forallb json_exact l = true →
  Forall (λ v, has_float v = false ∧ parses v) l.
Proof.
  induction 1 as [|v l Hv _ IH]; simpl; [done|]. rewrite andb_true_iff. intros [? ?].
  constructor; auto using json_exact_no_float.
Qed.

Lemma exact_members fs :
  Forall (λ kv : string * json, json_exact kv.2 = true → parses kv.2) fs →
  forallb (λ kv, string_utf8 kv.1 && json_exact kv.2) fs = true →
  Forall (λ kv, string_utf8 kv.1 = true ∧ has_float kv.2 = false ∧ parses kv.2) fs.
Proof.
  induction 1 as [|v l Hv _ IH]; simpl; [done|]. rewrite !andb_true_iff. intros [[? ?] ?].
  constructor; auto using json_exact_no_float.
Qed.

Lemma parse_print j : json_exact j = true → parses j.
Proof.
  induction j as [|b|[z|]|s|l IH|fs IH] using json_ind; intros He [|fuel] depth rest Hf Hd Hrest;
    try (simpl in Hf; lia); try done.
  - by destruct b.
  - simpl in He. apply bool_decide_eq_true in He. by apply parse_value_number.
  - simpl in He. simpl app. cbn [parse_value]. rewrite skip_ws_head by done.
    rewrite bool_decide_eq_true_2 by done. rewrite <-app_assoc. simpl app.
    by rewrite parse_string_print.
  - cbn [json_depth] in Hd. destruct depth as [|[|depth]]; [lia|lia|].
    destruct l as [|v l]; [done|]. pose proof (exact_elements _ IH He) as Hl.
    rewrite print_array in *. cbn [length] in Hf.
    destruct (print_head v) as (c & t & Et & Hc & Hne); [by apply Forall_cons_iff in Hl as [[] _]|].
    rewrite Et. cbn [app]. rewrite parse_value_array by done.
    change (c :: (t ++ elements_tail l) ++ rest) with (((c :: t) ++ elements_tail l) ++ rest).
    rewrite <-Et. rewrite parse_elements_print; [done|done|by apply list_max_depth|lia].
  - cbn [json_depth] in Hd. destruct depth as [|[|depth]]; [lia|lia|].
    destruct fs as [|kv fs]; [done|]. pose proof (exact_members _ IH He) as Hl.
    rewrite print_object in *. cbn [length] in Hf.
    cbn [app]. rewrite <-app_assoc, parse_value_object, app_assoc.
    rewrite parse_members_print; [done|done|by apply (list_max_depth (λ kv, json_depth kv.2))|lia].
Qed.

#[export] Instance text_serde_laws : SerdeJsonLaws text_serde.
Proof.
  split.
  - intros j. unfold json_ok. rewrite andb_True. intros [He Hd].
    apply Is_true_true in He. apply Is_true_true, Nat.leb_le in Hd.
    exists (print j). simpl. unfold text_to_vec, text_from_slice.
    rewrite json_exact_no_float by done. split; [done|].
    pose proof (parse_print j He (S (length (print j))) 128 []) as Hp.
    rewrite app_nil_r in Hp. rewrite Hp; [done|lia|lia|done].
  - intros bs. simpl. unfold text_from_slice. by repeat case_match.
  - intros j. simpl. unfold text_to_vec. by case_match.
Qed.
