(* ===== verification/RequestId.v ===== *)
(** * RequestId: [src/request_id.rs], ids that are an [i32] or a string, and their
    untagged serde form. *)

From S2P Require Import Prelude RustStd Serde.

Inductive RequestId : Set :=
| IdInteger (n : Z)
| IdString (s : string).

#[export] Instance RequestId_eq_dec : EqDecision RequestId.
Proof. solve_decision. Defined.

#[export] Instance RequestId_countable : Countable RequestId.
Proof.
  refine (inj_countable'
    (λ i, match i with IdInteger n => inl n | IdString s => inr s end)
    (λ x, match x with inl n => IdInteger n | inr s => IdString s end) _).
  by intros [].
Defined.

(** The values the Rust type can hold: the integer is an [i32]. *)
Definition RequestId_wf (i : RequestId) : bool :=
  match i with
  | IdInteger n => bool_decide (i32_MIN ≤ n ≤ i32_MAX)%Z
  | IdString _ => true
  end.

(** [Display]. *)
Definition RequestId_fmt (i : RequestId) : string :=
  match i with
  | IdInteger n => string_of_list_ascii (display_Z n)
  | IdString s => s
  end.

(** [From<i32>], [From<String>] and [From<&str>]. *)
Definition RequestId_from_i32 (n : Z) : RequestId := IdInteger n.
Definition RequestId_from_String (s : string) : RequestId := IdString s.
Definition RequestId_from_str (s : string) : RequestId := IdString s.

(** [Serialize] and [Deserialize], untagged: the variants are tried in order. *)
Definition RequestId_serialize (i : RequestId) : json :=
  match i with
  | IdInteger n => VNumber (Int n)
  | IdString s => VString s
  end.

Definition RequestId_deserialize (j : json) : de RequestId :=
  match de_i32 j with
  | Ok n => Ok (IdInteger n)
  | _ =>
    match de_string j with
    | Ok s => Ok (IdString s)
    | _ => Err (NoVariantMatches "RequestId")
    end
  end.

(** ** Lemmas *)

Lemma i32_try_from_Some z n : i32_try_from z = Some n ↔ z = n ∧ (i32_MIN ≤ n ≤ i32_MAX)%Z.
Proof. unfold i32_try_from. case_bool_decide; naive_solver. Qed.

Lemma RequestId_serialize_deserialize i :
  RequestId_wf i → RequestId_deserialize (RequestId_serialize i) = Ok i.
Proof.
  destruct i as [n|s]; [|done]. intros H%bool_decide_unpack.
  unfold RequestId_deserialize. simpl. by rewrite (proj2 (i32_try_from_Some n n)).
Qed.

(** What is accepted as a request id: exactly the serialized ids. *)
Lemma RequestId_deserialize_Ok j i :
  RequestId_deserialize j = Ok i ↔ j = RequestId_serialize i ∧ RequestId_wf i.
Proof.
  split; [|by intros [-> ?]; apply RequestId_serialize_deserialize].
  unfold RequestId_deserialize. destruct j as [| |[z|]|s| |]; simpl; try done.
  - destruct (i32_try_from z) eqn:E; simpl; [|done].
    apply i32_try_from_Some in E as [-> ?]. intros [= <-]. split; [done|].
    by apply bool_decide_pack.
  - by intros [= <-].
Qed.

Lemma RequestId_deserialize_no_panic j : RequestId_deserialize j ≠ Panic.
Proof. unfold RequestId_deserialize. by repeat case_match. Qed.

#[export] Hint Resolve RequestId_deserialize_no_panic : lsp.
