(* ===== verification/Error.v ===== *)
(** * Error: [src/error.rs], error codes and response errors with their serde forms. *)

From S2P Require Import Prelude RustStd Serde.

Inductive ErrorCode : Set :=
| ParseError
| InvalidRequest
| MethodNotFound
| InvalidParams
| InternalError
| ServerNotInitialized
| UnknownErrorCode
| RequestFailed
| ServerCancelled
| ContentModified
| RequestCancelled.

(** The discriminants of the enumeration, [code as i32] and [i32::from]. *)
Definition ErrorCode_to_i32 (c : ErrorCode) : Z :=
  match c with
  | ParseError => -32700
  | InvalidRequest => -32600
  | MethodNotFound => -32601
  | InvalidParams => -32602
  | InternalError => -32603
  | ServerNotInitialized => -32002
  | UnknownErrorCode => -32001
  | RequestFailed => -32803
  | ServerCancelled => -32802
  | ContentModified => -32801
  | RequestCancelled => -32800
  end.

(** [ErrorCode::try_from]. *)
Definition ErrorCode_try_from (code : Z) : result Z ErrorCode :=
  match code with
  | -32700 => Ok ParseError
  | -32600 => Ok InvalidRequest
  | -32601 => Ok MethodNotFound
  | -32602 => Ok InvalidParams
  | -32603 => Ok InternalError
  | -32002 => Ok ServerNotInitialized
  | -32001 => Ok UnknownErrorCode
  | -32803 => Ok RequestFailed
  | -32802 => Ok ServerCancelled
  | -32801 => Ok ContentModified
  | -32800 => Ok RequestCancelled
  | _ => Err code
  end%Z.

Record ResponseError : Set := {
  err_code : Z;
  err_message : string;
  err_data : option Value;
}.

#[export] Instance ErrorCode_eq_dec : EqDecision ErrorCode.
Proof. solve_decision. Defined.
#[export] Instance ResponseError_eq_dec : EqDecision ResponseError.
Proof. solve_decision. Defined.

(** [ResponseError::new]. *)
Definition ResponseError_new (code : ErrorCode) (message : string) : ResponseError :=
  {| err_code := ErrorCode_to_i32 code; err_message := message; err_data := None |}.

(** [ResponseError::new_raw]. *)
Definition ResponseError_new_raw (code : Z) (message : string) : ResponseError :=
  {| err_code := code; err_message := message; err_data := None |}.

(** [ResponseError::with_data]. *)
Definition ResponseError_with_data (e : ResponseError) (data : Value) : ResponseError :=
  {| err_code := err_code e; err_message := err_message e; err_data := Some data |}.

(** [ResponseError::error_code]. *)
Definition ResponseError_error_code (e : ResponseError) : option ErrorCode :=
  ok (ErrorCode_try_from (err_code e)).

(** [Serialize]: an absent [data] is skipped. *)
Definition ResponseError_serialize (e : ResponseError) : json :=
  VObject ([("code", VNumber (Int (err_code e))); ("message", VString (err_message e))] ++
           match err_data e with Some d => [("data", d)] | None => [] end).

(** [Deserialize]: the derived visitor over the three fields. *)
Record ResponseError_slots : Set := {
  es_code : option Z;
  es_message : option string;
  es_data : option (option Value);
}.

Definition ResponseError_visit (s : ResponseError_slots) (kv : string * json) :
    de ResponseError_slots :=
  let '(k, v) := kv in
  if bool_decide (k = "code") then
    c ← set_once k de_i32 v (es_code s);
    Ok {| es_code := c; es_message := es_message s; es_data := es_data s |}
  else if bool_decide (k = "message") then
    m ← set_once k de_string v (es_message s);
    Ok {| es_code := es_code s; es_message := m; es_data := es_data s |}
  else if bool_decide (k = "data") then
    d ← set_once k (de_option (Ok ∘ de_value)) v (es_data s);
    Ok {| es_code := es_code s; es_message := es_message s; es_data := d |}
  else Ok s.

Definition ResponseError_finish (s : ResponseError_slots) : de ResponseError :=
  c ← required "code" (es_code s);
  m ← required "message" (es_message s);
  Ok {| err_code := c; err_message := m; err_data := optional (es_data s) |}.

Definition ResponseError_seq (l : list json) : de ResponseError :=
  match l with
  | [c; m; d] =>
    c ← de_i32 c; m ← de_string m; d ← de_option (Ok ∘ de_value) d;
    Ok {| err_code := c; err_message := m; err_data := d |}
  | _ => Err InvalidLength
  end.

Definition ResponseError_deserialize (j : json) : de ResponseError :=
  visit_struct {| es_code := None; es_message := None; es_data := None |}
    ResponseError_visit ResponseError_finish ResponseError_seq j.

(** The values the Rust type can hold. *)
Definition ResponseError_wf (e : ResponseError) : bool :=
  bool_decide (i32_MIN ≤ err_code e ≤ i32_MAX)%Z && forallb value_wf (option_list (err_data e)).

(** An explicit null is read back as an absent value. *)
Definition drop_null (v : option Value) : option Value :=
  match v with Some VNull => None | _ => v end.

Definition ResponseError_canon (e : ResponseError) : ResponseError :=
  {| err_code := err_code e; err_message := err_message e; err_data := drop_null (err_data e) |}.

(** ** Lemmas *)

Lemma ResponseError_visit_fold fs s s' :
  foldM ResponseError_visit s fs = Ok s' ↔
  fill "code" de_i32 (es_code s) (occurrences "code" fs) = Ok (es_code s') ∧
  fill "message" de_string (es_message s) (occurrences "message" fs) = Ok (es_message s') ∧
  fill "data" (de_option (Ok ∘ de_value)) (es_data s) (occurrences "data" fs) = Ok (es_data s').
Proof.
  revert s. induction fs as [|[k v] fs IH]; intros s.
  - unfold fill; simpl. split; [by intros [= <-]|]. intros (?&?&?). by destruct s, s'; simplify_eq/=.
  - unfold ResponseError_visit at 1. solve_visit IH.
Qed.

(** The objects read as a [ResponseError]. *)
Definition response_error_object (fs : list (string * json)) (e : ResponseError) : Prop :=
  has_field "code" de_i32 fs (err_code e) ∧
  has_field "message" de_string fs (err_message e) ∧
  has_option "data" (Ok ∘ de_value) fs (err_data e).

Lemma ResponseError_deserialize_object fs e :
  ResponseError_deserialize (VObject fs) = Ok e ↔ response_error_object fs e.
Proof.
  unfold response_error_object. rewrite <-!fill_required, <-fill_optional.
  unfold ResponseError_deserialize, visit_struct. rewrite bind_Ok.
  setoid_rewrite ResponseError_visit_fold. split.
  - intros ([c m d] & (Hc & Hm & Hd) & Hf). apply bind_Ok in Hf as (c' & ? & Hf).
    apply bind_Ok in Hf as (m' & ? & [= <-]). simpl in *. by eauto 10.
  - intros ((c & Hc & Hc') & (m & Hm & Hm') & (d & Hd & Hd')).
    exists {| es_code := c; es_message := m; es_data := d |}. split; [done|].
    unfold ResponseError_finish. simpl in *. rewrite Hc'. simpl. rewrite Hm'. simpl. rewrite Hd'.
    by destruct e.
Qed.

(** ** Error codes *)

Lemma ErrorCode_try_from_to_i32 c : ErrorCode_try_from (ErrorCode_to_i32 c) = Ok c.
Proof. by destruct c. Qed.

Lemma ErrorCode_try_from_cases code :
  (∃ c, ErrorCode_try_from code = Ok c ∧ ErrorCode_to_i32 c = code) ∨ ErrorCode_try_from code = Err code.
Proof.
  destruct (ErrorCode_try_from code) as [c|z|] eqn:E; [left; exists c; split; [done|]|right|exfalso];
    revert E; unfold ErrorCode_try_from; repeat case_match; try done; by intros [= <-].
Qed.

(** The integers the crate writes for its error names are read back as those names,
    no other integer is read as a name, and any other integer comes back unchanged:
    an error made with a name is recognised by it, whatever its data. *)
Theorem error_codes code message data c :
  match ErrorCode_try_from code with
  | Ok c => ErrorCode_to_i32 c = code
  | Err z => z = code ∧ ∀ c, ErrorCode_to_i32 c ≠ code
  | Panic => False
  end ∧
  ResponseError_error_code (ResponseError_with_data (ResponseError_new c message) data) = Some c.
Proof.
  split.
  - destruct (ErrorCode_try_from_cases code) as [(c' & -> & Hc)|E]; [done|]. rewrite E.
    split; [done|]. intros c' <-. by rewrite ErrorCode_try_from_to_i32 in E.
  - unfold ResponseError_error_code. cbn. by rewrite ErrorCode_try_from_to_i32.
Qed.
