(* ===== verification/Message.v ===== *)
(** * Message: [src/message.rs], the JSON-RPC messages and their (de)serialization. *)

From S2P Require Import Prelude RustStd Serde RequestId Error.

Definition JSONRPC_VERSION : string := "2.0".

Definition dquote : string := String (ascii_of_nat 34) EmptyString.

(** [validate_jsonrpc_field]. *)
Definition validate_jsonrpc_field (jsonrpc : string) : de unit :=
  if bool_decide (jsonrpc = JSONRPC_VERSION) then Ok ()
  else Err (Custom ("expected jsonrpc field to equal " +:+ dquote +:+ JSONRPC_VERSION +:+ dquote
                    +:+ ", got " +:+ dquote +:+ jsonrpc +:+ dquote)).

(** ** Requests *)

Record Request : Set := {
  req_id : RequestId;
  req_method : string;
  req_params : option Value;
}.

(** [Request::new]. *)
Definition Request_new (id : RequestId) (method : string) (params : option Value) : Request :=
  {| req_id := id; req_method := method; req_params := params |}.

Definition params_field (params : option Value) : list (string * json) :=
  match params with Some p => [("params", p)] | None => [] end.

Definition Request_serialize (r : Request) : json :=
  VObject ([("jsonrpc", VString JSONRPC_VERSION); ("id", RequestId_serialize (req_id r));
            ("method", VString (req_method r))] ++ params_field (req_params r)).

(** The derived deserializer of [RequestRepr]. *)
Record RequestRepr : Set := {
  rr_jsonrpc : string;
  rr_id : RequestId;
  rr_method : string;
  rr_params : option Value;
}.

Record RequestRepr_slots : Set := {
  rs_jsonrpc : option string;
  rs_id : option RequestId;
  rs_method : option string;
  rs_params : option (option Value);
}.

Definition RequestRepr_visit (s : RequestRepr_slots) (kv : string * json) :
    de RequestRepr_slots :=
  let '(k, v) := kv in
  if bool_decide (k = "jsonrpc") then
    j ← set_once k de_string v (rs_jsonrpc s);
    Ok {| rs_jsonrpc := j; rs_id := rs_id s; rs_method := rs_method s; rs_params := rs_params s |}
  else if bool_decide (k = "id") then
    i ← set_once k RequestId_deserialize v (rs_id s);
    Ok {| rs_jsonrpc := rs_jsonrpc s; rs_id := i; rs_method := rs_method s; rs_params := rs_params s |}
  else if bool_decide (k = "method") then
    m ← set_once k de_string v (rs_method s);
    Ok {| rs_jsonrpc := rs_jsonrpc s; rs_id := rs_id s; rs_method := m; rs_params := rs_params s |}
  else if bool_decide (k = "params") then
    p ← set_once k (de_option (Ok ∘ de_value)) v (rs_params s);
    Ok {| rs_jsonrpc := rs_jsonrpc s; rs_id := rs_id s; rs_method := rs_method s; rs_params := p |}
  else Ok s.

Definition RequestRepr_finish (s : RequestRepr_slots) : de RequestRepr :=
  j ← required "jsonrpc" (rs_jsonrpc s);
  i ← required "id" (rs_id s);
  m ← required "method" (rs_method s);
  Ok {| rr_jsonrpc := j; rr_id := i; rr_method := m; rr_params := optional (rs_params s) |}.

Definition RequestRepr_seq (l : list json) : de RequestRepr :=
  match l with
  | [j; i; m; p] =>
    j ← de_string j; i ← RequestId_deserialize i; m ← de_string m;
    p ← de_option (Ok ∘ de_value) p;
    Ok {| rr_jsonrpc := j; rr_id := i; rr_method := m; rr_params := p |}
  | _ => Err InvalidLength
  end.

Definition RequestRepr_deserialize : json → de RequestRepr :=
  visit_struct
    {| rs_jsonrpc := None; rs_id := None; rs_method := None; rs_params := None |}
    RequestRepr_visit RequestRepr_finish RequestRepr_seq.

Definition Request_deserialize (j : json) : de Request :=
  repr ← RequestRepr_deserialize j;
  _ ← validate_jsonrpc_field (rr_jsonrpc repr);
  Ok {| req_id := rr_id repr; req_method := rr_method repr; req_params := rr_params repr |}.

(** ** Responses *)

Inductive ResponseBody : Set :=
| Success (result : Value)
| Error (error : ResponseError).

Record Response : Set := {
  resp_id : option RequestId;
  resp_body : ResponseBody;
}.

Definition Response_serialize (r : Response) : json :=
  VObject [("jsonrpc", VString JSONRPC_VERSION);
           ("id", match resp_id r with Some i => RequestId_serialize i | None => VNull end);
           match resp_body r with
           | Success result => ("result", result)
           | Error error => ("error", ResponseError_serialize error)
           end].

(** The id of a response: null and absent are both [None]. *)
Definition response_id (obj : list (string * Value)) : de (option RequestId) :=
  match map_get "id" obj with
  | Some id_val =>
    if is_null id_val then Ok None
    else Some <$> map_err CustomFrom (RequestId_deserialize id_val)
  | None => Ok None
  end.

(** The body of a response: an error that is not null wins over a result. *)
Definition response_body (obj : list (string * Value)) : de ResponseBody :=
  let has_result := contains_key "result" obj in
  let has_error := contains_key "error" obj in
  if has_error then
    let error_val := default VNull (map_get "error" obj) in
    if is_null error_val && has_result then
      Ok (Success (default VNull (map_get "result" obj)))
    else if is_null error_val then
      Err (Custom "Response has error field but it is null and no result field")
    else Error <$> map_err CustomFrom (ResponseError_deserialize error_val)
  else Ok (Success (default VNull (map_get "result" obj))).

Definition Response_deserialize (j : json) : de Response :=
  let v := de_value j in
  obj ← ok_or (as_object v) (Custom "expected object");
  let has_result := contains_key "result" obj in
  let has_error := contains_key "error" obj in
  if negb has_result && negb has_error then
    Err (Custom "Response must have either 'result' or 'error' field")
  else
    jsonrpc ← ok_or (map_get "jsonrpc" obj ≫= as_str) (Custom "missing jsonrpc field");
    _ ← validate_jsonrpc_field jsonrpc;
    id ← response_id obj;
    body ← response_body obj;
    Ok {| resp_id := id; resp_body := body |}.

(** [Response::ok], [Response::err], [Response::parse_error]. *)
Definition Response_ok (id : RequestId) (result : Value) : Response :=
  {| resp_id := Some id; resp_body := Success result |}.
Definition Response_err (id : RequestId) (error : ResponseError) : Response :=
  {| resp_id := Some id; resp_body := Error error |}.
Definition Response_parse_error (error : ResponseError) : Response :=
  {| resp_id := None; resp_body := Error error |}.

(** [Response::body] and [Response::into_body]. *)
Definition Response_body (r : Response) : ResponseBody := resp_body r.
Definition Response_into_body (r : Response) : ResponseBody := resp_body r.

(** [Response::is_ok], [is_err], [result], [error]. *)
Definition Response_is_ok (r : Response) : bool :=
  match resp_body r with Success _ => true | Error _ => false end.
Definition Response_is_err (r : Response) : bool :=
  match resp_body r with Error _ => true | Success _ => false end.
Definition Response_result (r : Response) : option Value :=
  match resp_body r with Success v => Some v | Error _ => None end.
Definition Response_error (r : Response) : option ResponseError :=
  match resp_body r with Success _ => None | Error e => Some e end.

(** [Response::into_result] and [Response::into_error]: the body by value. *)
Definition Response_into_result (r : Response) : option Value :=
  match resp_body r with Success v => Some v | Error _ => None end.
Definition Response_into_error (r : Response) : option ResponseError :=
  match resp_body r with Success _ => None | Error e => Some e end.

(** ** Notifications *)

Record Notification : Set := {
  notif_method : string;
  notif_params : option Value;
}.

(** [Notification::new]. *)
Definition Notification_new (method : string) (params : option Value) : Notification :=
  {| notif_method := method; notif_params := params |}.

Definition Notification_serialize (n : Notification) : json :=
  VObject ([("jsonrpc", VString JSONRPC_VERSION); ("method", VString (notif_method n))] ++
           params_field (notif_params n)).

Record NotificationRepr : Set := {
  nr_jsonrpc : string;
  nr_method : string;
  nr_params : option Value;
}.

Record NotificationRepr_slots : Set := {
  ns_jsonrpc : option string;
  ns_method : option string;
  ns_params : option (option Value);
}.

Definition NotificationRepr_visit (s : NotificationRepr_slots) (kv : string * json) :
    de NotificationRepr_slots :=
  let '(k, v) := kv in
  if bool_decide (k = "jsonrpc") then
    j ← set_once k de_string v (ns_jsonrpc s);
    Ok {| ns_jsonrpc := j; ns_method := ns_method s; ns_params := ns_params s |}
  else if bool_decide (k = "method") then
    m ← set_once k de_string v (ns_method s);
    Ok {| ns_jsonrpc := ns_jsonrpc s; ns_method := m; ns_params := ns_params s |}
  else if bool_decide (k = "params") then
    p ← set_once k (de_option (Ok ∘ de_value)) v (ns_params s);
    Ok {| ns_jsonrpc := ns_jsonrpc s; ns_method := ns_method s; ns_params := p |}
  else Ok s.

Definition NotificationRepr_finish (s : NotificationRepr_slots) : de NotificationRepr :=
  j ← required "jsonrpc" (ns_jsonrpc s);
  m ← required "method" (ns_method s);
  Ok {| nr_jsonrpc := j; nr_method := m; nr_params := optional (ns_params s) |}.

Definition NotificationRepr_seq (l : list json) : de NotificationRepr :=
  match l with
  | [j; m; p] =>
    j ← de_string j; m ← de_string m; p ← de_option (Ok ∘ de_value) p;
    Ok {| nr_jsonrpc := j; nr_method := m; nr_params := p |}
  | _ => Err InvalidLength
  end.

Definition NotificationRepr_deserialize : json → de NotificationRepr :=
  visit_struct {| ns_jsonrpc := None; ns_method := None; ns_params := None |}
    NotificationRepr_visit NotificationRepr_finish NotificationRepr_seq.

Definition Notification_deserialize (j : json) : de Notification :=
  repr ← NotificationRepr_deserialize j;
  _ ← validate_jsonrpc_field (nr_jsonrpc repr);
  Ok {| notif_method := nr_method repr; notif_params := nr_params repr |}.

(** ** Messages *)

Inductive Message : Set :=
| MRequest (r : Request)
| MResponse (r : Response)
| MNotification (n : Notification).

Definition Message_serialize (m : Message) : json :=
  match m with
  | MRequest r => Request_serialize r
  | MResponse r => Response_serialize r
  | MNotification n => Notification_serialize n
  end.

(** Untagged: the variants are tried in the order of their declaration. *)
Definition Message_deserialize (j : json) : de Message :=
  match Request_deserialize j with
  | Ok r => Ok (MRequest r)
  | _ =>
    match Response_deserialize j with
    | Ok r => Ok (MResponse r)
    | _ =>
      match Notification_deserialize j with
      | Ok n => Ok (MNotification n)
      | _ => Err (NoVariantMatches "Message")
      end
    end
  end.

(** [as_request], [as_response], [as_notification], and their consuming forms;
    [is_request], [is_response], [is_notification]. *)
Definition Message_as_request (m : Message) : option Request :=
  match m with MRequest r => Some r | _ => None end.
Definition Message_as_response (m : Message) : option Response :=
  match m with MResponse r => Some r | _ => None end.
Definition Message_as_notification (m : Message) : option Notification :=
  match m with MNotification n => Some n | _ => None end.
Definition Message_into_request (m : Message) : option Request :=
  match m with MRequest r => Some r | _ => None end.
Definition Message_into_response (m : Message) : option Response :=
  match m with MResponse r => Some r | _ => None end.
Definition Message_into_notification (m : Message) : option Notification :=
  match m with MNotification n => Some n | _ => None end.

(** [From] of the three kinds of messages. *)
Definition Message_from_Request (req : Request) : Message := MRequest req.
Definition Message_from_Response (resp : Response) : Message := MResponse resp.
Definition Message_from_Notification (notif : Notification) : Message := MNotification notif.

Definition Message_is_request (m : Message) : bool :=
  match m with MRequest _ => true | _ => false end.
Definition Message_is_response (m : Message) : bool :=
  match m with MResponse _ => true | _ => false end.
Definition Message_is_notification (m : Message) : bool :=
  match m with MNotification _ => true | _ => false end.

#[export] Instance Request_eq_dec : EqDecision Request.
Proof. solve_decision. Defined.
#[export] Instance ResponseBody_eq_dec : EqDecision ResponseBody.
Proof. solve_decision. Defined.
#[export] Instance Response_eq_dec : EqDecision Response.
Proof. solve_decision. Defined.
#[export] Instance Notification_eq_dec : EqDecision Notification.
Proof. solve_decision. Defined.
#[export] Instance Message_eq_dec : EqDecision Message.
Proof. solve_decision. Defined.

(** ** Specifications *)

(** The values the Rust types can hold. *)
Definition Request_wf (r : Request) : bool :=
  RequestId_wf (req_id r) && forallb value_wf (option_list (req_params r)).
Definition Response_wf (r : Response) : bool :=
  forallb RequestId_wf (option_list (resp_id r)) &&
  match resp_body r with Success v => value_wf v | Error e => ResponseError_wf e end.
Definition Notification_wf (n : Notification) : bool :=
  forallb value_wf (option_list (notif_params n)).
Definition Message_wf (m : Message) : bool :=
  match m with
  | MRequest r => Request_wf r
  | MResponse r => Response_wf r
  | MNotification n => Notification_wf n
  end.

(** What is read back of a message that was sent: optional values that are an
    explicit null are absent on the other side, nothing else changes. *)
Definition Message_canon (m : Message) : Message :=
  match m with
  | MRequest r => MRequest (Request_new (req_id r) (req_method r) (drop_null (req_params r)))
  | MResponse r =>
    MResponse {| resp_id := resp_id r;
                 resp_body := match resp_body r with
                              | Success v => Success v
                              | Error e => Error (ResponseError_canon e)
                              end |}
  | MNotification n => MNotification (Notification_new (notif_method n) (drop_null (notif_params n)))
  end.

(** The objects that are requests and notifications, member by member. *)
Definition request_object (fs : list (string * json)) (r : Request) : Prop :=
  has_field "jsonrpc" de_string fs JSONRPC_VERSION ∧
  has_field "id" RequestId_deserialize fs (req_id r) ∧
  has_field "method" de_string fs (req_method r) ∧
  has_option "params" (Ok ∘ de_value) fs (req_params r).

Definition notification_object (fs : list (string * json)) (n : Notification) : Prop :=
  has_field "jsonrpc" de_string fs JSONRPC_VERSION ∧
  has_field "method" de_string fs (notif_method n) ∧
  has_option "params" (Ok ∘ de_value) fs (notif_params n).

(** The objects that are responses: of repeated members the last one counts. *)
Definition last_member (k : string) (fs : list (string * json)) : option Value :=
  de_value <$> map_get k (reverse fs).

Definition response_object (fs : list (string * json)) (r : Response) : Prop :=
  last_member "jsonrpc" fs = Some (VString JSONRPC_VERSION) ∧
  (match last_member "id" fs with
   | None | Some VNull => resp_id r = None
   | Some v => ∃ i, resp_id r = Some i ∧ RequestId_deserialize v = Ok i
   end) ∧
  (match last_member "error" fs with
   | None | Some VNull => ∃ v, last_member "result" fs = Some v ∧ resp_body r = Success v
   | Some v => ∃ e, resp_body r = Error e ∧ ResponseError_deserialize v = Ok e
   end).

(** ** Lemmas *)

Lemma RequestRepr_visit_fold fs s s' :
  foldM RequestRepr_visit s fs = Ok s' ↔
  fill "jsonrpc" de_string (rs_jsonrpc s) (occurrences "jsonrpc" fs) = Ok (rs_jsonrpc s') ∧
  fill "id" RequestId_deserialize (rs_id s) (occurrences "id" fs) = Ok (rs_id s') ∧
  fill "method" de_string (rs_method s) (occurrences "method" fs) = Ok (rs_method s') ∧
  fill "params" (de_option (Ok ∘ de_value)) (rs_params s) (occurrences "params" fs) =
    Ok (rs_params s').
Proof.
  revert s. induction fs as [|[k v] fs IH]; intros s.
  - unfold fill; simpl. split; [by intros [= <-]|]. intros (?&?&?&?). by destruct s, s'; simplify_eq/=.
  - unfold RequestRepr_visit at 1. solve_visit IH.
Qed.

Lemma NotificationRepr_visit_fold fs s s' :
  foldM NotificationRepr_visit s fs = Ok s' ↔
  fill "jsonrpc" de_string (ns_jsonrpc s) (occurrences "jsonrpc" fs) = Ok (ns_jsonrpc s') ∧
  fill "method" de_string (ns_method s) (occurrences "method" fs) = Ok (ns_method s') ∧
  fill "params" (de_option (Ok ∘ de_value)) (ns_params s) (occurrences "params" fs) =
    Ok (ns_params s').
Proof.
  revert s. induction fs as [|[k v] fs IH]; intros s.
  - unfold fill; simpl. split; [by intros [= <-]|]. intros (?&?&?). by destruct s, s'; simplify_eq/=.
  - unfold NotificationRepr_visit at 1. solve_visit IH.
Qed.

Lemma validate_jsonrpc_field_Ok s u : validate_jsonrpc_field s = Ok u ↔ s = JSONRPC_VERSION.
Proof. unfold validate_jsonrpc_field. destruct u. by case_bool_decide. Qed.

Lemma Request_deserialize_object fs r :
  Request_deserialize (VObject fs) = Ok r ↔ request_object fs r.
Proof.
  unfold request_object. rewrite <-!fill_required, <-fill_optional.
  unfold Request_deserialize, RequestRepr_deserialize, visit_struct.
  setoid_rewrite bind_Ok. setoid_rewrite bind_Ok. setoid_rewrite RequestRepr_visit_fold. split.
  - intros (repr & ([j i m p] & (Hj & Hi & Hm & Hp) & Hf) & Hv).
    apply bind_Ok in Hf as (j' & ? & Hf). apply bind_Ok in Hf as (i' & ? & Hf).
    apply bind_Ok in Hf as (m' & ? & [= <-]). destruct Hv as (u & Hv & [= <-]).
    apply validate_jsonrpc_field_Ok in Hv. simpl in *. subst. split_and!; eauto.
  - intros ((j & Hj & Hj') & (i & Hi & Hi') & (m & Hm & Hm') & (p & Hp & Hp')).
    eexists. split.
    + exists {| rs_jsonrpc := j; rs_id := i; rs_method := m; rs_params := p |}. split; [done|].
      unfold RequestRepr_finish. simpl. rewrite Hj'. simpl. rewrite Hi'. simpl. by rewrite Hm'.
    + exists (). split; [done|]. simpl. rewrite Hp'. by destruct r.
Qed.

Lemma Notification_deserialize_object fs n :
  Notification_deserialize (VObject fs) = Ok n ↔ notification_object fs n.
Proof.
  unfold notification_object. rewrite <-!fill_required, <-fill_optional.
  unfold Notification_deserialize, NotificationRepr_deserialize, visit_struct.
  setoid_rewrite bind_Ok. setoid_rewrite bind_Ok. setoid_rewrite NotificationRepr_visit_fold. split.
  - intros (repr & ([j m p] & (Hj & Hm & Hp) & Hf) & Hv).
    apply bind_Ok in Hf as (j' & ? & Hf).
    apply bind_Ok in Hf as (m' & ? & [= <-]). destruct Hv as (u & Hv & [= <-]).
    apply validate_jsonrpc_field_Ok in Hv. simpl in *. subst. split_and!; eauto.
  - intros ((j & Hj & Hj') & (m & Hm & Hm') & (p & Hp & Hp')).
    eexists. split.
    + exists {| ns_jsonrpc := j; ns_method := m; ns_params := p |}. split; [done|].
      unfold NotificationRepr_finish. simpl. rewrite Hj'. simpl. by rewrite Hm'.
    + exists (). split; [done|]. simpl. rewrite Hp'. by destruct n.
Qed.

Lemma map_get_map k (f : json → json) fs :
  map_get k (map (λ kv, (kv.1, f kv.2)) fs) = f <$> map_get k fs.
Proof. induction fs as [|[k' v] fs IH]; simpl; [done|]. by case_bool_decide. Qed.

(** Looking a member up in an object read as a value. *)
Lemma map_get_de_value k fs :
  map_get k (map_build (map (λ kv, (kv.1, de_value kv.2)) fs)) = last_member k fs.
Proof.
  unfold last_member. rewrite map_get_build, <-map_get_map. f_equal.
  induction fs as [|[k' v] fs IH] using rev_ind; [done|].
  rewrite map_app. simpl. by rewrite !reverse_snoc, IH.
Qed.

Lemma contains_key_get k m v : map_get k m = Some v → contains_key k m = true.
Proof. intros E. unfold contains_key. rewrite E. by apply bool_decide_eq_true_2. Qed.

Lemma contains_key_None k m : map_get k m = None → contains_key k m = false.
Proof. intros E. unfold contains_key. rewrite E. apply bool_decide_eq_false_2. by intros [??]. Qed.

Lemma response_id_Ok obj o :
  response_id obj = Ok o ↔
  match map_get "id" obj with
  | None | Some VNull => o = None
  | Some v => ∃ i, o = Some i ∧ RequestId_deserialize v = Ok i
  end.
Proof.
  unfold response_id. destruct (map_get "id" obj) as [v|]; [|split; [by intros [=]|by intros ->]].
  assert (∀ w, (Some <$> map_err CustomFrom (RequestId_deserialize w)) = Ok o ↔
               ∃ i, o = Some i ∧ RequestId_deserialize w = Ok i) as Hw.
  { intros w. destruct (RequestId_deserialize w) as [i| |]; simpl; split;
      first [by intros [= <-]; eauto|by intros (i' & -> & [= ->])|by intros (i' & -> & [=])]. }
  destruct v; simpl is_null; cbn iota; try apply Hw. split; [by intros [=]|by intros ->].
Qed.

Lemma response_body_Ok obj b :
  (contains_key "result" obj || contains_key "error" obj) = true →
  response_body obj = Ok b ↔
  match map_get "error" obj with
  | None | Some VNull => ∃ v, map_get "result" obj = Some v ∧ b = Success v
  | Some v => ∃ e, b = Error e ∧ ResponseError_deserialize v = Ok e
  end.
Proof.
  intros Hkeys. unfold response_body.
  assert (∀ w, (Error <$> map_err CustomFrom (ResponseError_deserialize w)) = Ok b ↔
               ∃ e, b = Error e ∧ ResponseError_deserialize w = Ok e) as Hw.
  { intros w. destruct (ResponseError_deserialize w) as [i| |]; simpl; split;
      first [by intros [= <-]; eauto|by intros (i' & -> & [= ->])|by intros (i' & -> & [=])]. }
  assert (∀ w, map_get "result" obj = Some w →
            ((Ok (Success (default VNull (map_get "result" obj))) : de ResponseBody) = Ok b ↔
             ∃ v, map_get "result" obj = Some v ∧ b = Success v)) as Hs.
  { intros w ->. simpl. split; [intros [= <-]; eauto|by intros (v & [= ->] & ->)]. }
  destruct (map_get "result" obj) as [r|] eqn:Er;
    [rewrite (contains_key_get _ _ _ Er) in *|rewrite (contains_key_None _ _ Er) in *];
  (destruct (map_get "error" obj) as [e|] eqn:Ee;
    [rewrite (contains_key_get _ _ _ Ee) in *|rewrite (contains_key_None _ _ Ee) in *]);
    try done; try exact (Hs _ eq_refl);
    destruct e; first [exact (Hw _)|exact (Hs _ eq_refl)|idtac].
  split; [done|]. by intros (v & [=] & _).
Qed.

Lemma Response_deserialize_object fs r :
  Response_deserialize (VObject fs) = Ok r ↔ response_object fs r.
Proof.
  unfold Response_deserialize, response_object. cbn [de_value as_object ok_or mbind result_bind].
  rewrite <-!map_get_de_value. set (obj := map_build _). clearbody obj.
  destruct (contains_key "result" obj || contains_key "error" obj) eqn:Hkeys.
  - rewrite <-negb_orb, Hkeys. cbn [negb].
    repeat setoid_rewrite bind_Ok.
    setoid_rewrite response_id_Ok. setoid_rewrite response_body_Ok; [|done].
    setoid_rewrite validate_jsonrpc_field_Ok. split.
    + intros (j & Hj & u & -> & i & Hi & b & Hb & [= <-]). split; [|done].
      destruct (map_get "jsonrpc" obj) as [[]|]; by simplify_eq/=.
    + intros (-> & Hi & Hb). exists JSONRPC_VERSION. split; [done|]. exists (). split; [done|].
      exists (resp_id r). split; [done|]. exists (resp_body r). split; [done|]. by destruct r.
  - rewrite <-negb_orb, Hkeys. apply orb_false_iff in Hkeys as [Hr He]. simpl.
    unfold contains_key in Hr, He. apply bool_decide_eq_false in Hr, He.
    apply eq_None_not_Some in Hr, He. rewrite Hr, He. split; [done|].
    by intros (_ & _ & v & [=] & _).
Qed.

Lemma Message_deserialize_no_panic j : Message_deserialize j ≠ Panic.
Proof. unfold Message_deserialize. by repeat case_match. Qed.

#[export] Hint Resolve Message_deserialize_no_panic : lsp.

(** *** Sent messages as objects *)

Lemma de_option_value p :
  value_wf p = true → de_option (Ok ∘ de_value) p = Ok (drop_null (Some p)).
Proof.
  intros Hp. assert (de_option (Ok ∘ de_value) p = Ok (drop_null (Some (de_value p)))) as ->
    by by destruct p.
  by rewrite de_value_id.
Qed.

Lemma has_option_params fs p :
  occurrences "params" fs = option_list p → forallb value_wf (option_list p) = true →
  has_option "params" (Ok ∘ de_value) fs (drop_null p).
Proof.
  intros E Hp. destruct p as [p|]; simpl in *; [|by left].
  rewrite andb_true_r in Hp. right. exists p. split; [done|]. by apply de_option_value.
Qed.

Lemma occurrences_params k fs p :
  k ≠ "params" → occurrences k (fs ++ params_field p) = occurrences k fs.
Proof.
  intros Hk. induction fs as [|[k' v] fs IH]; simpl.
  - destruct p; simpl; [|done]. by rewrite bool_decide_eq_false_2.
  - by rewrite IH.
Qed.

Lemma Request_serialize_object r :
  Request_wf r → ∃ fs, Request_serialize r = VObject fs ∧
    request_object fs (Request_new (req_id r) (req_method r) (drop_null (req_params r))).
Proof.
  unfold Request_wf. intros [Hid Hp]%andb_prop_elim. eexists. split; [done|].
  split; [|split; [|split]]; [eexists.. | apply has_option_params].
  1,2,3: rewrite occurrences_params by done; split; [done|].
  - done.
  - by apply RequestId_serialize_deserialize.
  - done.
  - by destruct (req_params r).
  - by apply Is_true_true.
Qed.

Lemma Notification_serialize_object n :
  Notification_wf n → ∃ fs, Notification_serialize n = VObject fs ∧
    (∀ r, ¬ request_object fs r) ∧ (∀ r, ¬ response_object fs r) ∧
    notification_object fs (Notification_new (notif_method n) (drop_null (notif_params n))).
Proof.
  unfold Notification_wf. intros Hp. eexists. split; [done|]. split; [|split].
  - intros r (_ & (v & Hv & _) & _). by rewrite occurrences_params in Hv by done.
  - intros r (_ & _ & Hb).
    destruct (notif_params n); vm_compute in Hb; by destruct Hb as (v & [=] & _).
  - split; [|split]; [eexists.. | apply has_option_params].
    1,2: by rewrite occurrences_params by done.
    + by destruct (notif_params n).
    + by apply Is_true_true.
Qed.

Lemma ResponseError_deserialize_value e :
  ResponseError_wf e →
  ResponseError_deserialize (de_value (ResponseError_serialize e)) = Ok (ResponseError_canon e).
Proof.
  unfold ResponseError_wf. intros [Hc%bool_decide_unpack Hd]%andb_prop_elim.
  assert (i32_try_from (err_code e) = Some (err_code e)) as Ec by by apply i32_try_from_Some.
  destruct e as [c m [d|]]; simpl in Hc, Hd, Ec; unfold ResponseError_serialize; cbn [de_value].
  - rewrite andb_true_r in Hd. apply Is_true_true in Hd.
    apply ResponseError_deserialize_object. unfold response_error_object, has_field. simpl.
    rewrite de_value_id by done. split; [|split].
    + eexists. split; [done|]. simpl. by rewrite Ec.
    + eexists. by split.
    + right. exists d. split; [done|]. by apply de_option_value.
  - apply ResponseError_deserialize_object. split; [|split].
    + eexists. split; [done|]. simpl. by rewrite Ec.
    + eexists. by split.
    + by left.
Qed.

Lemma Response_serialize_object r :
  Response_wf r → ∃ fs r', Response_serialize r = VObject fs ∧
    MResponse r' = Message_canon (MResponse r) ∧
    (∀ q, ¬ request_object fs q) ∧ response_object fs r'.
Proof.
  unfold Response_wf. intros [Hid Hb]%andb_prop_elim. eexists. eexists. split; [done|].
  split; [done|]. split.
  { intros q (_ & _ & (v & Hv & _) & _). destruct (resp_body r); simpl in Hv; done. }
  unfold response_object. destruct r as [i b]; simpl in *.
  split; [by destruct b|]. split.
  - assert (last_member "id" [("jsonrpc", VString JSONRPC_VERSION);
       ("id", match i with Some i => RequestId_serialize i | None => VNull end);
       match b with Success result => ("result", result)
                  | Error error => ("error", ResponseError_serialize error) end] =
       Some (match i with Some i => RequestId_serialize i | None => VNull end)) as ->.
    { unfold last_member. destruct b; simpl; destruct i as [[]|]; done. }
    destruct i as [i|]; [|done]. simpl in Hid. rewrite andb_true_r in Hid.
    apply RequestId_serialize_deserialize in Hid. destruct i; simpl; eauto.
  - destruct b as [v|e]; unfold last_member; simpl.
    + exists v. by rewrite de_value_id by by apply Is_true_true.
    + exists (ResponseError_canon e). split; [done|]. by apply ResponseError_deserialize_value.
Qed.

(** ** Theorems *)

(** The reading of an object, by its members. *)
Definition message_object (fs : list (string * json)) (m : Message) : Prop :=
  match m with
  | MRequest r => request_object fs r
  | MResponse r => (∀ q, ¬ request_object fs q) ∧ response_object fs r
  | MNotification n =>
    (∀ q, ¬ request_object fs q) ∧ (∀ r, ¬ response_object fs r) ∧ notification_object fs n
  end.

Lemma Message_deserialize_object fs m :
  Message_deserialize (VObject fs) = Ok m ↔ message_object fs m.
Proof.
  destruct m as [r|r|n]; unfold message_object;
    repeat first [setoid_rewrite <-Request_deserialize_object
                 |setoid_rewrite <-Response_deserialize_object
                 |setoid_rewrite <-Notification_deserialize_object]; unfold Message_deserialize;
    destruct (Request_deserialize (VObject fs)), (Response_deserialize (VObject fs)),
      (Notification_deserialize (VObject fs));
    (split; [intros [=]; subst; split_and?; intros; congruence|]);
    intros; destruct_and?; try congruence;
    exfalso; by match goal with H : ∀ _, Ok _ ≠ _ |- _ => eapply H end.
Qed.

(** C22: a JSON object is classified by its members, with the order request,
    response, notification: it is read as a request iff its members make it one, as
    a response iff they make it no request but a response, as a notification iff
    they make it neither but a notification, and it is rejected, with an error and
    never a panic, iff they make it none of the three. *)
Theorem message_classification fs :
  match Message_deserialize (VObject fs) with
  | Ok (MRequest r) => request_object fs r
  | Ok (MResponse r) => (∀ q, ¬ request_object fs q) ∧ response_object fs r
  | Ok (MNotification n) =>
    (∀ q, ¬ request_object fs q) ∧ (∀ r, ¬ response_object fs r) ∧ notification_object fs n
  | Err _ =>
    (∀ q, ¬ request_object fs q) ∧ (∀ r, ¬ response_object fs r) ∧ (∀ n, ¬ notification_object fs n)
  | Panic => False
  end.
Proof.
  pose proof (Message_deserialize_no_panic (VObject fs)) as Hp.
  destruct (Message_deserialize (VObject fs)) as [m|e|] eqn:E; [|clear Hp|done].
  - apply Message_deserialize_object in E. by destruct m.
  - assert (∀ m, ¬ message_object fs m) as Hno.
    { intros m Hm%Message_deserialize_object. congruence. }
    assert (∀ q, ¬ request_object fs q) by (intros q; apply (Hno (MRequest q))).
    assert (∀ r, ¬ response_object fs r) by (intros r Hr; by apply (Hno (MResponse r))).
    split_and!; [done|done|]. intros n Hn. by apply (Hno (MNotification n)).
Qed.

Lemma Message_roundtrip m :
  Message_wf m → Message_deserialize (Message_serialize m) = Ok (Message_canon m).
Proof.
  destruct m as [r|r|n]; cbn [Message_wf Message_serialize]; intros Hwf.
  - apply Request_serialize_object in Hwf as (fs & -> & ?). by apply Message_deserialize_object.
  - apply Response_serialize_object in Hwf as (fs & r' & -> & <- & ?).
    by apply Message_deserialize_object.
  - apply Notification_serialize_object in Hwf as (fs & -> & ?). by apply Message_deserialize_object.
Qed.

(** What is received is a value of the Rust types and is its own reading. *)
Lemma option_canon_wf p :
  forallb value_wf (option_list p) → forallb value_wf (option_list (drop_null p)).
Proof. by destruct p as [[]|]. Qed.

Lemma Message_canon_wf m : Message_wf m → Message_wf (Message_canon m).
Proof.
  destruct m as [r|[id b]|n]; simpl; unfold Request_wf, Response_wf, Notification_wf;
    rewrite ?andb_True; simpl; intros; destruct_and?; split_and?; auto using option_canon_wf.
  destruct b as [v|e]; [done|]. unfold ResponseError_wf in *. rewrite andb_True in *.
  destruct_and?. split; [by apply bool_decide_spec|by apply option_canon_wf].
Qed.

Lemma Message_canon_idemp m : Message_canon (Message_canon m) = Message_canon m.
Proof.
  destruct m as [[id me [[]|]]|[id [v|[c t [[]|]]]]|[me [[]|]]]; done.
Qed.

(** C31: a message that is sent is received as the same message, of the same
    kind, up to explicit nulls of optional values; relayed, it is received
    unchanged. *)
Theorem message_roundtrip m :
  Message_wf m →
  ∃ m', Message_deserialize (Message_serialize m) = Ok m' ∧ m' = Message_canon m ∧
    Message_wf m' ∧ Message_deserialize (Message_serialize m') = Ok m'.
Proof.
  intros Hwf. exists (Message_canon m). pose proof (Message_canon_wf _ Hwf).
  split_and!; auto using Message_roundtrip. by rewrite Message_roundtrip, Message_canon_idemp.
Qed.

(** A request or notification whose members are exact is one of the two kinds. *)
Lemma request_object_method fs r : request_object fs r → ∃ m, occurrences "method" fs = [VString m].
Proof.
  intros (_ & _ & (v & E & Hv) & _). exists (req_method r). by destruct v; simplify_eq/=.
Qed.

Lemma response_object_members fs r :
  response_object fs r → is_Some (map_get "result" (reverse fs)) ∨ is_Some (map_get "error" (reverse fs)).
Proof.
  intros (_ & _ & Hb). unfold last_member in Hb.
  destruct (map_get "error" (reverse fs)) as [e|]; [by right; eauto|].
  simpl in Hb. destruct Hb as (v & Hv & _). left.
  destruct (map_get "result" (reverse fs)); [by eauto|done].
Qed.

(** C38: a call whose id is present but is neither an [i32] nor a string (null, a
    float, a large integer) is not rejected: it is read as a notification. *)
Theorem invalid_id_becomes_notification fs idv n :
  occurrences "id" fs = [idv] →
  (∀ i, idv ≠ RequestId_serialize i ∨ ¬ RequestId_wf i) →
  map_get "result" (reverse fs) = None → map_get "error" (reverse fs) = None →
  notification_object fs n →
  Message_deserialize (VObject fs) = Ok (MNotification n).
Proof.
  intros Hid Hbad Hres Herr Hn. apply Message_deserialize_object. split; [|split; [|done]].
  - intros q (_ & (v & Hv & [-> Hwf]%RequestId_deserialize_Ok) & _).
    rewrite Hid in Hv. simplify_eq. by destruct (Hbad (req_id q)).
  - intros r [H|H]%response_object_members; rewrite ?Hres, ?Herr in H; by destruct H.
Qed.

Lemma invalid_id_becomes_notification_witness :
  Message_deserialize (VObject [("jsonrpc", VString "2.0"); ("id", VNumber (Int 4294967296));
                                ("method", VString "shutdown")]) =
  Ok (MNotification (Notification_new "shutdown" None)).
Proof.
  apply (invalid_id_becomes_notification _ (VNumber (Int 4294967296))); try reflexivity.
  - intros [n|s]; [|by left]. destruct (decide (n = 4294967296%Z)) as [->|]; [right; by vm_compute|left; by intros [= <-]].
  - split; [by eexists|split; [by eexists|by left]].
Defined.

Definition sample_error_response : Message :=
  MResponse (Response_err (IdInteger 1)
    (ResponseError_with_data (ResponseError_new InvalidParams "Missing field") VNull)).

Lemma message_roundtrip_witness :
  ∃ m', Message_deserialize (Message_serialize sample_error_response) = Ok m' ∧
    m' = Message_canon sample_error_response ∧ Message_wf m' ∧
    Message_deserialize (Message_serialize m') = Ok m'.
Proof. apply (message_roundtrip sample_error_response). by vm_compute. Defined.
