(* ===== verification/Tokio.v ===== *)
(** * Tokio: the runtime primitives the crate is built on, as an interface.

    tokio, tokio_util and futures are not part of the crate.  [Tokio] is what the
    crate calls, over three stores: cancellation tokens, oneshot channels of
    responses and the unbounded queue of outbound messages.  [TokioLaws] is their
    documented behaviour, stated through what can be observed of a store; the
    theorems of the development use nothing else.  [model_tokio] is a concrete
    runtime that satisfies the laws. *)

From S2P Require Import Prelude RustStd Serde RequestId Error Message.

(** The state of a future that was polled. *)
Inductive poll (A : Type) : Type := Ready (a : A) | Pending.
Arguments Ready {A} a.
Arguments Pending {A}.

Class Tokio : Type := {
  (** [tokio_util::sync::CancellationToken]: clones are the same token. *)
  tokens : Type;
  Token : Type;
  Token_eq_dec :: EqDecision Token;
  token_new : tokens → Token * tokens;
  child_token : Token → tokens → Token * tokens;
  token_cancel : Token → tokens → tokens;
  is_cancelled : tokens → Token → bool;

  (** [tokio::sync::oneshot]: a channel names both its halves. *)
  channels : Type;
  Channel : Type;
  Channel_eq_dec :: EqDecision Channel;
  oneshot_channel : channels → Channel * channels;
  oneshot_send : Channel → Response → channels → result Response unit * channels;
  drop_sender : Channel → channels → channels;
  drop_receiver : Channel → channels → channels;
  oneshot_poll : channels → Channel → poll (result unit Response);

  (** [tokio::sync::mpsc::unbounded_channel] of one connection. *)
  outbound : Type;
  unbounded_channel : outbound;
  unbounded_send : Message → outbound → result Message unit * outbound;
  unbounded_recv : outbound → option Message * outbound;
  receiver_drop : outbound → outbound;
}.

(** What the two halves of a oneshot channel can observe. *)
Record channel_view : Set := channel_view_new {
  sender_alive : bool;
  receiver_alive : bool;
  sent : option Response;
}.

Class TokioLaws (TK : Tokio) : Type := {
  (** The tokens a token is cancelled with: itself and its ancestors; [None] for
      a token that was not made in the store. *)
  lineage : tokens → Token → option (list Token);
  token_new_law s t s' : token_new s = (t, s') →
    lineage s t = None ∧ lineage s' t = Some [t] ∧ is_cancelled s' t = false ∧
    ∀ u, u ≠ t → lineage s' u = lineage s u ∧ is_cancelled s' u = is_cancelled s u;
  child_token_law s p l t s' : lineage s p = Some l → child_token p s = (t, s') →
    lineage s t = None ∧ lineage s' t = Some (t :: l) ∧ is_cancelled s' t = is_cancelled s p ∧
    ∀ u, u ≠ t → lineage s' u = lineage s u ∧ is_cancelled s' u = is_cancelled s u;
  token_cancel_law s t u l : lineage s u = Some l →
    lineage (token_cancel t s) u = Some l ∧
    is_cancelled (token_cancel t s) u = is_cancelled s u || bool_decide (t ∈ l);

  channel_state : channels → Channel → option channel_view;
  oneshot_channel_law s c s' : oneshot_channel s = (c, s') →
    channel_state s c = None ∧ channel_state s' c = Some (channel_view_new true true None) ∧
    ∀ d, d ≠ c → channel_state s' d = channel_state s d;
  (** A value sent to a dropped receiver comes back. *)
  oneshot_send_law s c v r x s' : channel_state s c = Some v → sender_alive v = true →
    oneshot_send c r s = (x, s') →
    x = (if receiver_alive v then Ok () else Err r) ∧
    channel_state s' c =
      Some (channel_view_new false (receiver_alive v) (if receiver_alive v then Some r else None)) ∧
    ∀ d, d ≠ c → channel_state s' d = channel_state s d;
  drop_sender_law s c v : channel_state s c = Some v →
    channel_state (drop_sender c s) c = Some (channel_view_new false (receiver_alive v) (sent v)) ∧
    ∀ d, d ≠ c → channel_state (drop_sender c s) d = channel_state s d;
  drop_receiver_law s c v : channel_state s c = Some v →
    channel_state (drop_receiver c s) c = Some (channel_view_new (sender_alive v) false (sent v)) ∧
    ∀ d, d ≠ c → channel_state (drop_receiver c s) d = channel_state s d;
  (** A receiver sees the value, then that the sender is gone without one. *)
  oneshot_poll_law s c v : channel_state s c = Some v →
    oneshot_poll s c =
    match sent v with
    | Some r => Ready (Ok r)
    | None => if sender_alive v then Pending else Ready (Err ())
    end;

  (** The queue: the messages not yet received, and whether the receiver exists. *)
  queued : outbound → list Message;
  receiver_open : outbound → bool;
  unbounded_channel_law : queued unbounded_channel = [] ∧ receiver_open unbounded_channel = true;
  unbounded_send_law m q : unbounded_send m q =
    if receiver_open q then (Ok (), (unbounded_send m q).2) else (Err m, q);
  unbounded_send_queue m q : receiver_open q = true →
    queued (unbounded_send m q).2 = queued q ++ [m] ∧ receiver_open (unbounded_send m q).2 = true;
  unbounded_recv_law q :
    (unbounded_recv q).1 = head (queued q) ∧ queued (unbounded_recv q).2 = tail (queued q) ∧
    receiver_open (unbounded_recv q).2 = receiver_open q;
  receiver_drop_law q : receiver_open (receiver_drop q) = false;
}.

(** ** A runtime that satisfies the laws

    A token is an index into a list of its lineage and its flag, a channel an index
    into a list of views. *)

Definition model_token_new (s : list (list nat * bool)) : nat * list (list nat * bool) :=
  (length s, s ++ [([length s], false)]).

Definition model_child_token (p : nat) (s : list (list nat * bool)) : nat * list (list nat * bool) :=
  let '(l, b) := default ([], false) (s !! p) in
  (length s, s ++ [(length s :: l, b)]).

Definition model_cancel (t : nat) (s : list (list nat * bool)) : list (list nat * bool) :=
  (λ lb, (lb.1, lb.2 || bool_decide (t ∈ lb.1))) <$> s.

Definition model_channel (s : list channel_view) : nat * list channel_view :=
  (length s, s ++ [channel_view_new true true None]).

Definition model_send (c : nat) (r : Response) (s : list channel_view) :
    result Response unit * list channel_view :=
  match s !! c with
  | Some (channel_view_new _ true _) => (Ok (), <[c := channel_view_new false true (Some r)]> s)
  | _ => (Err r, <[c := channel_view_new false false None]> s)
  end.

Definition model_poll (s : list channel_view) (c : nat) : poll (result unit Response) :=
  match s !! c with
  | Some (channel_view_new _ _ (Some r)) => Ready (Ok r)
  | Some (channel_view_new true _ None) => Pending
  | _ => Ready (Err ())
  end.

Definition model_unbounded_send (m : Message) (q : list Message * bool) :
    result Message unit * (list Message * bool) :=
  if q.2 then (Ok (), (q.1 ++ [m], true)) else (Err m, q).

#[export] Instance model_tokio : Tokio := {|
  tokens := list (list nat * bool);
  Token := nat;
  token_new := model_token_new;
  child_token := model_child_token;
  token_cancel := model_cancel;
  is_cancelled s t := match s !! t with Some (_, b) => b | None => false end;
  channels := list channel_view;
  Channel := nat;
  oneshot_channel := model_channel;
  oneshot_send := model_send;
  drop_sender c s := alter (λ v, channel_view_new false (receiver_alive v) (sent v)) c s;
  drop_receiver c s := alter (λ v, channel_view_new (sender_alive v) false (sent v)) c s;
  oneshot_poll := model_poll;
  outbound := list Message * bool;
  unbounded_channel := ([], true);
  unbounded_send := model_unbounded_send;
  unbounded_recv q := (head q.1, (tail q.1, q.2));
  receiver_drop q := (q.1, false);
|}.

Lemma lookup_snoc_ne {A} (l : list A) a i : i ≠ length l → (l ++ [a]) !! i = l !! i.
Proof.
  intros Hi. destruct (decide (i < length l)); [by apply lookup_app_l|].
  rewrite !lookup_ge_None_2; [done|lia|rewrite length_app; simpl; lia].
Qed.

#[export] Instance model_tokio_laws : TokioLaws model_tokio.
Proof.
  refine {|
    lineage s t := fst <$> (s : list (list nat * bool)) !! (t : nat);
    channel_state s c := (s : list channel_view) !! (c : nat);
    queued q := (q : list Message * bool).1;
    receiver_open q := (q : list Message * bool).2;
  |}; simpl.
  - intros s t s' [= <- <-]. rewrite lookup_ge_None_2, list_lookup_middle by done.
    split_and!; try done. intros u Hu. by rewrite lookup_snoc_ne.
  - intros s p l t s' Hl. unfold model_child_token. apply fmap_Some in Hl as ([l' b] & Hp & ->).
    rewrite Hp. simpl. intros [= <- <-]. rewrite lookup_ge_None_2, list_lookup_middle by done.
    split_and!; try done. intros u Hu. by rewrite lookup_snoc_ne.
  - intros s t u l. unfold model_cancel. rewrite list_lookup_fmap.
    intros ([l' b] & Hu & ->)%fmap_Some. by rewrite Hu.
  - intros s c s' [= <- <-]. rewrite lookup_ge_None_2, list_lookup_middle by done.
    split_and!; try done. intros u Hu. by rewrite lookup_snoc_ne.
  - intros s c [a b o] r x s' Hc Ha. unfold model_send. rewrite Hc. simpl in *. subst.
    assert (c < length s) by (by eapply lookup_lt_Some).
    destruct b; intros [= <- <-]; (split; [done|]); (split; [by apply list_lookup_insert_eq|]);
      intros d Hd; by apply list_lookup_insert_ne.
  - intros s c v Hc. split; [by rewrite list_lookup_alter_eq, Hc|].
    intros d Hd. by apply list_lookup_alter_ne.
  - intros s c v Hc. split; [by rewrite list_lookup_alter_eq, Hc|].
    intros d Hd. by apply list_lookup_alter_ne.
  - intros s c [a b o] Hc. unfold model_poll. rewrite Hc. simpl. by destruct o, a.
  - done.
  - intros m [l []]; done.
  - intros m [l b]; simpl. by intros ->.
  - done.
  - done.
Defined.
