(* ===== verification/World.v ===== *)
(** * World: the shared state of one connection, and the monad of the code that
    runs over it.

    A connection, its client senders and their requests share the stores of the
    runtime ([Tokio]), the outbound queue, the response maps
    ([Arc<Mutex<HashMap<..>>>]) and the id counters ([Arc<AtomicI64>]).  A clone of
    an [Arc] is the same location.  Every access to a map under its lock, and every
    atomic update of a counter, is one action. *)

From S2P Require Import Prelude RustStd Serde RequestId Error Message Tokio.

Abbreviation loc := nat.

Record World `{TK : Tokio} : Type := {
  w_tokens : tokens;
  w_channels : channels;
  w_outbound : outbound;
  w_maps : list (gmap RequestId Channel);
  w_counters : list Z;
}.

Section world.
Context `{TK : Tokio}.

Definition with_tokens (s : tokens) (w : World) : World :=
  {| w_tokens := s; w_channels := w_channels w; w_outbound := w_outbound w;
     w_maps := w_maps w; w_counters := w_counters w |}.
Definition with_channels (s : channels) (w : World) : World :=
  {| w_tokens := w_tokens w; w_channels := s; w_outbound := w_outbound w;
     w_maps := w_maps w; w_counters := w_counters w |}.
Definition with_outbound (q : outbound) (w : World) : World :=
  {| w_tokens := w_tokens w; w_channels := w_channels w; w_outbound := q;
     w_maps := w_maps w; w_counters := w_counters w |}.
Definition with_maps (ms : list (gmap RequestId Channel)) (w : World) : World :=
  {| w_tokens := w_tokens w; w_channels := w_channels w; w_outbound := w_outbound w;
     w_maps := ms; w_counters := w_counters w |}.
Definition with_counters (cs : list Z) (w : World) : World :=
  {| w_tokens := w_tokens w; w_channels := w_channels w; w_outbound := w_outbound w;
     w_maps := w_maps w; w_counters := cs |}.

(** Actions over the world. *)
Definition St (A : Type) : Type := World → A * World.

#[export] Instance St_ret : MRet St := λ A a w, (a, w).
#[export] Instance St_bind : MBind St := λ A B f m w, let '(a, w') := m w in f a w'.
#[export] Instance St_fmap : FMap St := λ A B f m w, let '(a, w') := m w in (f a, w').

(** An action of one of the stores. *)
Definition on_tokens {A} (f : tokens → A * tokens) : St A :=
  λ w, let '(a, s) := f (w_tokens w) in (a, with_tokens s w).
Definition on_channels {A} (f : channels → A * channels) : St A :=
  λ w, let '(a, s) := f (w_channels w) in (a, with_channels s w).
Definition on_outbound {A} (f : outbound → A * outbound) : St A :=
  λ w, let '(a, q) := f (w_outbound w) in (a, with_outbound q w).

Definition new_map : St loc := λ w, (length (w_maps w), with_maps (w_maps w ++ [∅]) w).
Definition get_map (l : loc) : St (gmap RequestId Channel) :=
  λ w, (default ∅ (w_maps w !! l), w).
Definition set_map (l : loc) (m : gmap RequestId Channel) : St unit :=
  λ w, ((), with_maps (<[l := m]> (w_maps w)) w).

Definition new_counter (z : Z) : St loc :=
  λ w, (length (w_counters w), with_counters (w_counters w ++ [z]) w).

(** [AtomicI64::fetch_update] with a closure that always gives a value: the value
    before the update. *)
Definition fetch_update (l : loc) (f : Z → Z) : St Z :=
  λ w, let current := default 0%Z (w_counters w !! l) in
       (current, with_counters (<[l := f current]> (w_counters w)) w).

Definition send_outbound (m : Message) : St (result Message unit) := on_outbound (unbounded_send m).
End world.
