(* ===== verification/RequestQueue.v ===== *)
(** * RequestQueue: [src/request_queue.rs], the pending requests of both directions. *)

From S2P Require Import Prelude RustStd Serde RequestId Error Message Tokio.

Definition CANCEL_REQUEST_METHOD : string := "$/cancelRequest".

(** [parse_cancel_params]. *)
Definition parse_cancel_params (params : option Value) : option RequestId :=
  params ← params;
  id_value ← value_get "id" params;
  match id_value with
  | VNumber n => i ← as_i64 n; IdInteger <$> i32_try_from i
  | VString s => Some (IdString s)
  | _ => None
  end.

(** The parameters of a cancel notification, [json!({"id": id})]. *)
Definition cancel_params (id : RequestId) : Value := VObject [("id", RequestId_serialize id)].

Section request_queue.
Context `{TK : Tokio}.

Record IncomingRequests : Type := { in_pending : gmap RequestId Token }.

Definition IncomingRequests_new : IncomingRequests := {| in_pending := ∅ |}.

Definition IncomingRequests_default : IncomingRequests := IncomingRequests_new.

Definition IncomingRequests_register (id : RequestId) (token : Token) (q : IncomingRequests) :
    IncomingRequests := {| in_pending := <[id := token]> (in_pending q) |}.

Definition IncomingRequests_complete (id : RequestId) (q : IncomingRequests) :
    bool * IncomingRequests :=
  (bool_decide (is_Some (in_pending q !! id)), {| in_pending := delete id (in_pending q) |}).

Definition IncomingRequests_is_pending (id : RequestId) (q : IncomingRequests) : bool :=
  bool_decide (is_Some (in_pending q !! id)).

(** The entry stays: only its token is cancelled. *)
Definition IncomingRequests_cancel (id : RequestId) (q : IncomingRequests) (s : tokens) :
    bool * tokens :=
  match in_pending q !! id with
  | Some token => (true, token_cancel token s)
  | None => (false, s)
  end.

Definition IncomingRequests_get_token (id : RequestId) (q : IncomingRequests) : option Token :=
  in_pending q !! id.

Definition IncomingRequests_pending_count (q : IncomingRequests) : nat := size (in_pending q).

Record OutgoingRequests : Type := { out_pending : gmap RequestId Channel }.

Definition OutgoingRequests_new : OutgoingRequests := {| out_pending := ∅ |}.

Definition OutgoingRequests_default : OutgoingRequests := OutgoingRequests_new.

(** [HashMap::insert] and [HashMap::remove]: the sender that is thrown away with
    the old entry, if any, is dropped. *)
Definition drop_old (old : option Channel) (s : channels) : channels :=
  match old with Some c => drop_sender c s | None => s end.

Definition OutgoingRequests_register (id : RequestId) (q : OutgoingRequests) (s : channels) :
    Channel * OutgoingRequests * channels :=
  let '(c, s) := oneshot_channel s in
  let old := out_pending q !! id in
  (c, {| out_pending := <[id := c]> (out_pending q) |}, drop_old old s).

Definition OutgoingRequests_complete (id : RequestId) (response : Response)
    (q : OutgoingRequests) (s : channels) : bool * OutgoingRequests * channels :=
  match out_pending q !! id with
  | Some tx =>
    let '(_, s) := oneshot_send tx response s in
    (true, {| out_pending := delete id (out_pending q) |}, s)
  | None => (false, q, s)
  end.

Definition OutgoingRequests_cancel (id : RequestId) (q : OutgoingRequests) (s : channels) :
    bool * OutgoingRequests * channels :=
  let old := out_pending q !! id in
  (bool_decide (is_Some old), {| out_pending := delete id (out_pending q) |}, drop_old old s).

Definition OutgoingRequests_is_pending (id : RequestId) (q : OutgoingRequests) : bool :=
  bool_decide (is_Some (out_pending q !! id)).

Definition OutgoingRequests_pending_count (q : OutgoingRequests) : nat := size (out_pending q).

Record RequestQueue : Type := {
  incoming : IncomingRequests;
  outgoing : OutgoingRequests;
}.

Definition RequestQueue_new : RequestQueue :=
  {| incoming := IncomingRequests_new; outgoing := OutgoingRequests_new |}.

Definition RequestQueue_default : RequestQueue := RequestQueue_new.
End request_queue.

(** ** Cancel parameters *)

(** The id of a cancel notification is read exactly as the id of a request is:
    an object whose "id" member is an [i32] or a string, and nothing else. *)
Theorem parse_cancel_params_spec params id :
  parse_cancel_params params = Some id ↔
  ∃ fs v, params = Some (VObject fs) ∧ map_get "id" fs = Some v ∧ RequestId_deserialize v = Ok id.
Proof.
  unfold parse_cancel_params. split.
  - destruct params as [p|]; [|done]. simpl. unfold value_get. destruct p as [| | | | |fs]; try done.
    destruct (map_get "id" fs) as [v|] eqn:Hv; [|done]. simpl. intros H.
    exists fs, v. split_and!; [done|done|]. destruct v as [| |[z|b]|s| |]; simplify_eq/=; [|done].
    revert H. unfold as_i64, i32_try_from. case_bool_decide; [|done]. simpl.
    unfold RequestId_deserialize. simpl. unfold i32_try_from. case_bool_decide; simpl; [|done]. by intros [= <-].
  - intros (fs & v & -> & Hv & Hid). simpl. rewrite Hv. simpl.
    apply RequestId_deserialize_Ok in Hid as [-> Hwf]. destruct id as [n|s]; simpl in *; [|done].
    apply bool_decide_unpack in Hwf. unfold as_i64, i32_try_from.
    unfold i32_MIN, i32_MAX, i64_MIN, i64_MAX in *.
    rewrite bool_decide_eq_true_2 by lia. simpl. by rewrite bool_decide_eq_true_2 by lia.
Qed.

(** ** Tables of pending requests

    [OutgoingRequests] and the response map of the client senders are both tables
    of oneshot senders.  In a good state the sender of every entry is alive and has
    sent nothing, and no channel has two entries. *)

Section tables.
Context `{TK : Tokio} {TL : TokioLaws TK}.

Definition waiting (s : channels) (c : Channel) : Prop :=
  ∃ ra, channel_state s c = Some (channel_view_new true ra None).

Definition pending_ok (m : gmap RequestId Channel) (s : channels) : Prop :=
  (∀ id c, m !! id = Some c → waiting s c) ∧
  (∀ i j c, m !! i = Some c → m !! j = Some c → i = j).

(** Nothing happened to the other channels. *)
Definition frame_but (P : Channel → Prop) (s s' : channels) : Prop :=
  ∀ d, ¬ P d → channel_state s' d = channel_state s d.

Lemma pending_ok_frame m P s s' :
  frame_but P s s' → (∀ id c, m !! id = Some c → ¬ P c) → pending_ok m s → pending_ok m s'.
Proof.
  intros Hf Hm [Hw Hi]. split; [|done]. intros id c Hc. unfold waiting.
  rewrite Hf by eauto. by eapply Hw.
Qed.

Lemma pending_ok_delete m s id : pending_ok m s → pending_ok (delete id m) s.
Proof.
  intros [Hw Hi]. split.
  - intros i c [_ Hc]%lookup_delete_Some. by eapply Hw.
  - intros i j c [_ Hc]%lookup_delete_Some [_ Hd]%lookup_delete_Some. by eapply Hi.
Qed.

Lemma pending_ok_delete_frame m s s' id c :
  pending_ok m s → m !! id = Some c → frame_but (eq c) s s' → pending_ok (delete id m) s'.
Proof.
  intros Hok Hc Hf. eapply pending_ok_frame; [done| |by apply pending_ok_delete].
  intros i d [Hne Hd]%lookup_delete_Some <-. apply Hne. symmetry. destruct Hok as [_ Hi].
  by eapply Hi.
Qed.

Lemma waiting_poll s c : waiting s c → oneshot_poll s c = Pending.
Proof. intros [ra Hc]. by rewrite (oneshot_poll_law _ _ _ Hc). Qed.

Lemma pending_ok_fresh m s c s' :
  pending_ok m s → oneshot_channel s = (c, s') →
  frame_but (eq c) s s' ∧ (∀ id, m !! id ≠ Some c) ∧ waiting s' c ∧ pending_ok m s'.
Proof.
  intros Hok Hc. destruct (oneshot_channel_law _ _ _ Hc) as (Hnone & Hnew & Hframe).
  assert (frame_but (eq c) s s') as Hf by (intros d Hd; by apply Hframe).
  assert (∀ id, m !! id ≠ Some c) as Hm.
  { intros id Hid. destruct Hok as [Hw _]. destruct (Hw _ _ Hid) as [ra Hra]. congruence. }
  split_and!; [done|done|by exists true|].
  eapply pending_ok_frame; [done| |done]. intros id d Hd <-. by eapply Hm.
Qed.

Lemma drop_old_law m s id :
  pending_ok m s →
  pending_ok (delete id m) (drop_old (m !! id) s) ∧
  (∀ c, m !! id = Some c → oneshot_poll (drop_old (m !! id) s) c = Ready (Err ())) ∧
  frame_but (λ c, m !! id = Some c) s (drop_old (m !! id) s).
Proof.
  intros Hok. destruct (m !! id) as [c|] eqn:Hc; cbn [drop_old].
  2: { split_and!; [by apply pending_ok_delete|done|by intros d _]. }
  destruct Hok as [Hw Hi]. destruct (Hw _ _ Hc) as [ra Hra].
  destruct (drop_sender_law _ _ _ Hra) as [Hd Hf].
  assert (frame_but (eq c) s (drop_sender c s)) as Hframe by (intros d Hne; by apply Hf).
  split_and!.
  - by eapply pending_ok_delete_frame.
  - intros c' [= <-]. by rewrite (oneshot_poll_law _ _ _ Hd).
  - intros d Hne. apply Hf. congruence.
Qed.

Lemma register_law m s id c s1 :
  pending_ok m s → oneshot_channel s = (c, s1) →
  let s' := drop_old (m !! id) s1 in
  pending_ok (<[id := c]> m) s' ∧
  channel_state s' c = Some (channel_view_new true true None) ∧
  (∀ old, m !! id = Some old → oneshot_poll s' old = Ready (Err ())) ∧
  frame_but (λ d, d = c ∨ m !! id = Some d) s s'.
Proof.
  intros Hok Hc. destruct (oneshot_channel_law _ _ _ Hc) as (_ & Hnew & _).
  destruct (pending_ok_fresh _ _ _ _ Hok Hc) as (Hf1 & Hm & Hw & Hok1).
  destruct (drop_old_law m s1 id Hok1) as (Hok2 & Hold & Hf2). cbv zeta.
  assert (channel_state (drop_old (m !! id) s1) c = Some (channel_view_new true true None)) as Hc'.
  { rewrite Hf2; [done|]. apply Hm. }
  split_and!; [|done|done|].
  - rewrite <-insert_delete_eq. destruct Hok2 as [Hw2 Hi2]. split.
    + intros i d [[<- <-]|[_ Hd]]%lookup_insert_Some; [by exists true|by eapply Hw2].
    + intros i j d [[<- <-]|[_ Hd]]%lookup_insert_Some [[<- Hj]|[_ Hj]]%lookup_insert_Some; try done.
      * apply lookup_delete_Some in Hj as [_ Hj]. by apply Hm in Hj.
      * subst d. apply lookup_delete_Some in Hd as [_ Hd]. by apply Hm in Hd.
      * by eapply Hi2.
  - intros d Hd. rewrite Hf2, Hf1; [done|naive_solver|naive_solver].
Qed.

Lemma deliver_law m s id c r x s' :
  pending_ok m s → m !! id = Some c → oneshot_send c r s = (x, s') →
  pending_ok (delete id m) s' ∧
  (∃ ra, channel_state s c = Some (channel_view_new true ra None) ∧
         channel_state s' c = Some (channel_view_new false ra (if ra then Some r else None))) ∧
  frame_but (eq c) s s'.
Proof.
  intros Hok Hc Hs. pose proof Hok as [Hw _]. destruct (Hw _ _ Hc) as [ra Hra].
  destruct (oneshot_send_law _ _ _ _ _ _ Hra eq_refl Hs) as (_ & Hv & Hf).
  assert (frame_but (eq c) s s') as Hframe by (intros d Hne; by apply Hf).
  split_and!; [by eapply pending_ok_delete_frame|by exists ra|done].
Qed.
End tables.

(** ** Outgoing requests *)

Section outgoing.
Context `{TK : Tokio} {TL : TokioLaws TK}.

Definition outgoing_ok (q : OutgoingRequests) (s : channels) : Prop := pending_ok (out_pending q) s.

(** The requests other than [id] go on waiting. *)
Definition others_wait (id : RequestId) (q q' : OutgoingRequests) (s' : channels) : Prop :=
  ∀ i c, i ≠ id → out_pending q !! i = Some c →
    out_pending q' !! i = Some c ∧ oneshot_poll s' c = Pending.

Lemma pending_ok_poll m s i c : pending_ok m s → m !! i = Some c → oneshot_poll s c = Pending.
Proof. intros [Hw _] Hc. eapply waiting_poll, Hw, Hc. Qed.

(** Registering a request gives a receiver that waits; a request that was
    pending under the same id is given up, and its caller is told so; the other
    requests go on waiting. *)
Theorem outgoing_register id q s rx q' s' :
  outgoing_ok q s → OutgoingRequests_register id q s = (rx, q', s') →
  outgoing_ok q' s' ∧ OutgoingRequests_is_pending id q' = true ∧ oneshot_poll s' rx = Pending ∧
  (∀ old, out_pending q !! id = Some old → oneshot_poll s' old = Ready (Err ())) ∧
  others_wait id q q' s'.
Proof.
  intros Hok. unfold OutgoingRequests_register, OutgoingRequests_is_pending, others_wait.
  destruct (oneshot_channel s) as [c s1] eqn:Hc. intros [= <- <- <-].
  destruct (register_law _ _ id _ _ Hok Hc) as (Hok' & Hv & Hold & _). cbn [out_pending].
  rewrite lookup_insert_eq. split_and!; [done|done|by rewrite (oneshot_poll_law _ _ _ Hv)|done|].
  intros i d Hne Hd. rewrite lookup_insert_ne by done. split; [done|].
  eapply (pending_ok_poll _ _ i); [exact Hok'|by rewrite lookup_insert_ne].
Qed.

(** A response completes the request that is pending under its id and no
    other: the entry is removed, the waiting caller gets exactly this response,
    the others go on waiting; without such a request nothing changes and the
    result says so. *)
Theorem outgoing_complete id r q s b q' s' :
  outgoing_ok q s → OutgoingRequests_complete id r q s = (b, q', s') →
  outgoing_ok q' s' ∧ b = OutgoingRequests_is_pending id q ∧
  OutgoingRequests_is_pending id q' = false ∧
  (∀ c v, out_pending q !! id = Some c → channel_state s c = Some v → receiver_alive v = true →
     oneshot_poll s' c = Ready (Ok r)) ∧
  others_wait id q q' s' ∧ (b = false → q' = q ∧ s' = s).
Proof.
  intros Hok. unfold OutgoingRequests_complete, OutgoingRequests_is_pending, others_wait.
  destruct (out_pending q !! id) as [tx|] eqn:Htx.
  2: { intros [= <- <- <-]. rewrite Htx. split_and!; try done.
       intros i c _ Hc. split; [done|by eapply pending_ok_poll]. }
  destruct (oneshot_send tx r s) as [x s1] eqn:Hs. intros [= <- <- <-].
  destruct (deliver_law _ _ _ _ _ _ _ Hok Htx Hs) as (Hok' & (ra & Hv & Hv') & _).
  cbn [out_pending]. rewrite lookup_delete_eq. split_and!; try done.
  - intros c v [= <-] Hc Hra. simplify_eq/=. rewrite (oneshot_poll_law _ _ _ Hv'). done.
  - intros i c Hne Hc. rewrite lookup_delete_ne by done. split; [done|].
    eapply (pending_ok_poll _ _ i); [exact Hok'|by rewrite lookup_delete_ne].
Qed.

(** Cancelling an outgoing request removes it, and its caller is told that
    no response will come; the others go on waiting. *)
Theorem outgoing_cancel id q s b q' s' :
  outgoing_ok q s → OutgoingRequests_cancel id q s = (b, q', s') →
  outgoing_ok q' s' ∧ b = OutgoingRequests_is_pending id q ∧
  OutgoingRequests_is_pending id q' = false ∧
  (∀ c, out_pending q !! id = Some c → oneshot_poll s' c = Ready (Err ())) ∧
  others_wait id q q' s'.
Proof.
  intros Hok. unfold OutgoingRequests_cancel, OutgoingRequests_is_pending, others_wait.
  intros [= <- <- <-]. destruct (drop_old_law _ _ id Hok) as (Hok' & Hold & _).
  cbn [out_pending]. rewrite lookup_delete_eq. split_and!; try done.
  intros i c Hne Hc. rewrite lookup_delete_ne by done. split; [done|].
  eapply (pending_ok_poll _ _ i); [exact Hok'|by rewrite lookup_delete_ne].
Qed.

Lemma outgoing_ok_new s : outgoing_ok OutgoingRequests_new s.
Proof. split; intros *; cbn [out_pending OutgoingRequests_new]; by rewrite lookup_empty. Qed.
End outgoing.

(** ** Examples, in the runtime of [Tokio] *)

Definition sample_registered : Channel * OutgoingRequests * channels :=
  OutgoingRequests_register (TK := model_tokio) (IdInteger 7) OutgoingRequests_new [].

Definition sample_response : Response := Response_ok (IdInteger 7) (VBool true).

Lemma outgoing_register_witness :
  oneshot_poll (Tokio := model_tokio) sample_registered.2 sample_registered.1.1 = Pending.
Proof.
  by destruct (outgoing_register (TK := model_tokio) (IdInteger 7) OutgoingRequests_new []
    sample_registered.1.1 sample_registered.1.2 sample_registered.2)
    as (_ & _ & H & _); [apply outgoing_ok_new|reflexivity|].
Defined.

Lemma sample_registered_ok :
  outgoing_ok (TK := model_tokio) sample_registered.1.2 sample_registered.2.
Proof.
  exact (proj1 (register_law (TK := model_tokio) ∅ [] (IdInteger 7) 0 _
    (outgoing_ok_new (TK := model_tokio) []) eq_refl)).
Qed.

Lemma outgoing_complete_witness :
  let q := OutgoingRequests_complete (TK := model_tokio) (IdInteger 7) sample_response
             sample_registered.1.2 sample_registered.2 in
  q.1.1 = true ∧ oneshot_poll (Tokio := model_tokio) q.2 sample_registered.1.1 = Ready (Ok sample_response).
Proof.
  cbv zeta.
  destruct (outgoing_complete (TK := model_tokio) (IdInteger 7) sample_response
    sample_registered.1.2 sample_registered.2 _ _ _ sample_registered_ok eq_refl)
    as (_ & _ & _ & H & _). split; [reflexivity|].
  by apply (H _ (channel_view_new true true None)).
Defined.

Lemma outgoing_cancel_witness :
  let q := OutgoingRequests_cancel (TK := model_tokio) (IdInteger 7)
             sample_registered.1.2 sample_registered.2 in
  q.1.1 = true ∧ oneshot_poll (Tokio := model_tokio) q.2 sample_registered.1.1 = Ready (Err ()).
Proof.
  cbv zeta.
  destruct (outgoing_cancel (TK := model_tokio) (IdInteger 7)
    sample_registered.1.2 sample_registered.2 _ _ _ sample_registered_ok eq_refl)
    as (_ & _ & _ & H & _). split; [reflexivity|]. by apply H.
Defined.
