(* ===== verification/QueueSpec.v ===== *)
(** * QueueSpec: what [OutgoingRequests] promises its callers, as a machine without
    channels, and the proof that the code implements it.

    A caller registers a request, keeps the receiver and waits.  The specification
    keeps the calls in the order they were made, each with what its caller sees;
    the code keeps a table of oneshot senders.  After any sequence of operations
    every receiver shows what the specification says. *)

From S2P Require Import Prelude RustStd Serde RequestId Error Message Tokio RequestQueue.

Inductive queue_op : Type :=
| QRegister (id : RequestId)
| QComplete (id : RequestId) (response : Response)
| QCancel (id : RequestId).

(** ** The specification *)

(** A call: its id, and what its caller sees: nothing yet, a response, or that no
    response will come. *)
Abbreviation call := (RequestId * poll (option Response))%type.

Definition is_waiting (id : RequestId) (c : call) : bool :=
  bool_decide (c.1 = id) && match c.2 with Pending => true | Ready _ => false end.

(** The waiting call with the id, if any, sees [v] from now on. *)
Definition settle (id : RequestId) (v : option Response) (calls : list call) : list call :=
  (λ c, if is_waiting id c then (c.1, Ready v) else c) <$> calls.

Definition spec_step (op : queue_op) (calls : list call) : list call :=
  match op with
  | QRegister id => settle id None calls ++ [(id, Pending)]
  | QComplete id response => settle id (Some response) calls
  | QCancel id => settle id None calls
  end.

Definition spec_pending (id : RequestId) (calls : list call) : bool := existsb (is_waiting id) calls.

Definition spec_run (ops : list queue_op) (calls : list call) : list call :=
  foldl (λ calls op, spec_step op calls) calls ops.

(** ** The code: the queue, the stores, and the receivers handed out *)

Section code.
Context `{TK : Tokio}.

Record callers : Type := callers_new {
  c_queue : OutgoingRequests;
  c_store : channels;
  c_receivers : list Channel;
}.

Definition code_step (op : queue_op) (c : callers) : callers :=
  match op with
  | QRegister id =>
    let '(rx, q, s) := OutgoingRequests_register id (c_queue c) (c_store c) in
    callers_new q s (c_receivers c ++ [rx])
  | QComplete id response =>
    let '(_, q, s) := OutgoingRequests_complete id response (c_queue c) (c_store c) in
    callers_new q s (c_receivers c)
  | QCancel id =>
    let '(_, q, s) := OutgoingRequests_cancel id (c_queue c) (c_store c) in
    callers_new q s (c_receivers c)
  end.

Definition code_run (ops : list queue_op) (c : callers) : callers :=
  foldl (λ c op, code_step op c) c ops.
End code.

(** ** The refinement *)

Section refinement.
Context `{TK : Tokio} {TL : TokioLaws TK}.

(** The channel of a call by what its caller sees. *)
Definition call_view (v : poll (option Response)) : channel_view :=
  match v with
  | Pending => channel_view_new true true None
  | Ready r => channel_view_new false true r
  end.

(** What the receiver of such a call is polled to. *)
Definition received (v : poll (option Response)) : poll (result unit Response) :=
  match v with
  | Pending => Pending
  | Ready (Some r) => Ready (Ok r)
  | Ready None => Ready (Err ())
  end.

(** Each call has its receiver; the table has the receivers of the waiting calls. *)
Record implements (calls : list call) (c : callers) : Prop := {
  imp_length : length (c_receivers c) = length calls;
  imp_view : ∀ k id v rx, calls !! k = Some (id, v) → c_receivers c !! k = Some rx →
    channel_state (c_store c) rx = Some (call_view v);
  imp_distinct : NoDup (c_receivers c);
  imp_table : ∀ id rx, out_pending (c_queue c) !! id = Some rx ↔
    ∃ k, calls !! k = Some (id, Pending) ∧ c_receivers c !! k = Some rx;
}.

Lemma implements_pending calls c id :
  implements calls c → spec_pending id calls = OutgoingRequests_is_pending id (c_queue c).
Proof.
  intros [Hl _ _ Ht]. apply eq_bool_prop_intro. unfold spec_pending, OutgoingRequests_is_pending.
  rewrite bool_decide_spec, Is_true_true, existsb_exists. split.
  - intros ([i v] & Hin%list_elem_of_In & Hw). unfold is_waiting in Hw. cbn in Hw.
    apply andb_true_iff in Hw as [->%bool_decide_eq_true Hv]. destruct v; [done|].
    apply list_elem_of_lookup in Hin as [k Hk].
    destruct (lookup_lt_is_Some_2 (c_receivers c) k) as [rx Hrx];
      [rewrite Hl; by eapply lookup_lt_Some|]. exists rx. apply Ht. eauto.
  - intros [rx (k & Hk & _)%Ht]. exists (id, Pending). split.
    + by apply list_elem_of_In, list_elem_of_lookup_2 with k.
    + unfold is_waiting. cbn. by rewrite bool_decide_eq_true_2.
Qed.

(** Where a call stands after one with another id, or the same, was settled. *)
Lemma settle_lookup id v calls k i u :
  settle id v calls !! k = Some (i, u) ↔
  ∃ u0, calls !! k = Some (i, u0) ∧ u = if is_waiting id (i, u0) then Ready v else u0.
Proof.
  unfold settle. rewrite list_lookup_fmap, fmap_Some. split.
  - intros ([j u0] & Hk & E). destruct (is_waiting id (j, u0)) eqn:Hw; simplify_eq/=;
      exists u0; by rewrite Hw.
  - intros (u0 & Hk & ->). exists (i, u0). split; [done|]. by destruct (is_waiting id (i, u0)).
Qed.

Lemma is_waiting_true id i u : is_waiting id (i, u) = true ↔ i = id ∧ u = Pending.
Proof.
  unfold is_waiting. cbn. rewrite andb_true_iff, bool_decide_eq_true. by destruct u; naive_solver.
Qed.

(** The entry of an id leaves the table, and its channel becomes that of [v]. *)
Lemma implements_settle calls c id v s :
  implements calls c →
  (∀ rx, out_pending (c_queue c) !! id = Some rx → channel_state s rx = Some (call_view (Ready v))) →
  frame_but (λ d, out_pending (c_queue c) !! id = Some d) (c_store c) s →
  implements (settle id v calls)
    (callers_new {| out_pending := delete id (out_pending (c_queue c)) |} s (c_receivers c)).
Proof.
  intros [Hl Hv Hd Ht] Hrx Hf. split; cbn [c_queue c_store c_receivers out_pending].
  - rewrite Hl. symmetry. apply length_fmap.
  - intros k i u rx (u0 & Hk & ->)%settle_lookup Hkr.
    destruct (is_waiting id (i, u0)) eqn:Hw.
    + apply is_waiting_true in Hw as [-> ->]. apply Hrx, Ht. eauto.
    + rewrite Hf; [by eapply Hv|]. intros (k' & Hk' & Hkr')%Ht.
      assert (k' = k) as -> by (by eapply (NoDup_lookup (c_receivers c))). simplify_eq.
      by rewrite (proj2 (is_waiting_true _ _ _) (conj eq_refl eq_refl)) in Hw.
  - done.
  - intros i rx. rewrite lookup_delete_Some, Ht. split.
    + intros (Hne & k & Hk & Hkr). exists k. split; [|done]. apply settle_lookup.
      exists Pending. split; [done|]. destruct (is_waiting id (i, Pending)) eqn:Hw; [|done].
      apply is_waiting_true in Hw as [? _]. congruence.
    + intros (k & (u0 & Hk & Hu)%settle_lookup & Hkr).
      destruct (is_waiting id (i, u0)) eqn:Hw; [done|]. subst u0. split; [|by eauto].
      intros ->. by rewrite (proj2 (is_waiting_true i i Pending)) in Hw.
Qed.

Lemma implements_waiting calls c id rx :
  implements calls c → out_pending (c_queue c) !! id = Some rx →
  channel_state (c_store c) rx = Some (channel_view_new true true None).
Proof. intros Hi (k & Hk & Hkr)%(imp_table _ _ Hi). apply (imp_view _ _ Hi _ _ _ _ Hk Hkr). Qed.

Lemma implements_drop calls c id :
  implements calls c →
  implements (settle id None calls)
    (callers_new {| out_pending := delete id (out_pending (c_queue c)) |}
       (drop_old (out_pending (c_queue c) !! id) (c_store c)) (c_receivers c)).
Proof.
  intros Hi. destruct (out_pending (c_queue c) !! id) as [rx|] eqn:Hrx; cbn [drop_old].
  - destruct (drop_sender_law _ _ _ (implements_waiting _ _ _ _ Hi Hrx)) as [Hs Hf].
    apply implements_settle; [done| |]; rewrite Hrx.
    + by intros d [= <-].
    + intros d Hd. apply Hf. congruence.
  - apply implements_settle; [done| |]; rewrite Hrx; [done|]. by intros d _.
Qed.

(** A fresh call. *)
Lemma implements_fresh calls q s rxs id rx s' :
  implements calls (callers_new q s rxs) → out_pending q !! id = None →
  channel_state s rx = None → channel_state s' rx = Some (channel_view_new true true None) →
  frame_but (eq rx) s s' →
  implements (calls ++ [(id, Pending)])
    (callers_new {| out_pending := <[id := rx]> (out_pending q) |} s' (rxs ++ [rx])).
Proof.
  intros [Hl Hv Hd Ht] Hid Hnone Hnew Hf. cbn [c_queue c_store c_receivers] in *.
  assert (∀ k r, rxs !! k = Some r → r ≠ rx) as Hold.
  { intros k r Hk ->. destruct (lookup_lt_is_Some_2 calls k) as [[i v] Hc];
      [rewrite <-Hl; by eapply lookup_lt_Some|]. specialize (Hv _ _ _ _ Hc Hk). congruence. }
  split; cbn [c_queue c_store c_receivers out_pending].
  - rewrite !length_app, Hl. done.
  - intros k i v r [Hk|[Hge Hk]]%lookup_app_Some Hr.
    + rewrite lookup_app_l in Hr by (rewrite Hl; by eapply lookup_lt_Some).
      rewrite Hf; [by eapply Hv|]. intros <-. by eapply Hold.
    + rewrite lookup_app_r, Hl in Hr by (rewrite Hl; done).
      apply list_lookup_singleton_Some in Hk as [Hk [= <- <-]]. rewrite Hk in Hr. by simplify_eq/=.
  - apply list.NoDup_app. split_and!; [done| |by apply NoDup_singleton].
    intros r [k Hk]%list_elem_of_lookup ->%list_elem_of_singleton. by eapply Hold.
  - intros i r. rewrite lookup_insert_Some, Ht. split.
    + intros [[<- <-]|(_ & k & Hk & Hr)].
      * exists (length calls). split; [by apply list_lookup_middle|]. rewrite <-Hl. by apply list_lookup_middle.
      * exists k. split; by apply lookup_app_l_Some.
    + intros (k & [Hk|[Hge Hk]]%lookup_app_Some & Hr).
      * right. rewrite lookup_app_l in Hr by (rewrite Hl; by eapply lookup_lt_Some).
        split; [|by eauto]. intros <-. assert (out_pending q !! id = Some r) as E by (apply Ht; eauto). congruence.
      * left. rewrite lookup_app_r, Hl in Hr by (rewrite Hl; done).
        apply list_lookup_singleton_Some in Hk as [Hk [= <-]]. rewrite Hk in Hr. by simplify_eq/=.
Qed.

Lemma code_step_implements calls c op :
  implements calls c → implements (spec_step op calls) (code_step op c).
Proof.
  intros Hi. destruct c as [q s rxs]. destruct op as [id|id r|id]; cbn [spec_step code_step].
  - unfold OutgoingRequests_register. cbn [c_queue c_store c_receivers].
    destruct (oneshot_channel s) as [rx s1] eqn:Hc.
    destruct (oneshot_channel_law _ _ _ Hc) as (Hnone & Hnew & Hf).
    pose proof (implements_drop _ _ id Hi) as Hd. cbn [c_queue c_store c_receivers] in Hd.
    rewrite <-(insert_delete_eq (out_pending q)).
    assert (∀ old, out_pending q !! id = Some old →
      old ≠ rx ∧ channel_state s old = Some (channel_view_new true true None)) as Hold.
    { intros old Ho. pose proof (implements_waiting _ _ _ _ Hi Ho) as Hw. cbn in Hw.
      split; [congruence|done]. }
    refine (implements_fresh _ {| out_pending := delete id (out_pending q) |}
      (drop_old (out_pending q !! id) s) _ _ _ _ Hd _ _ _ _); [apply lookup_delete_eq|..];
      destruct (out_pending q !! id) as [old|]; cbn [drop_old]; try done.
    1, 2, 3: destruct (Hold _ eq_refl) as [Hne Hw];
      assert (channel_state s1 old = Some (channel_view_new true true None)) as Hw1 by (by rewrite Hf);
      destruct (drop_sender_law _ _ _ Hw) as [Hs1 Hf1]; destruct (drop_sender_law _ _ _ Hw1) as [Hs2 Hf2].
    + by rewrite Hf1 by (by apply not_eq_sym).
    + by rewrite Hf2 by (by apply not_eq_sym).
    + intros d Hd'. destruct (decide (d = old)) as [->|Hdo]; [by rewrite Hs1, Hs2|].
      rewrite Hf1, Hf2 by done. apply Hf. by apply not_eq_sym.
    + intros d Hd'. apply Hf. by apply not_eq_sym.
  - unfold OutgoingRequests_complete. cbn [c_queue c_store c_receivers].
    destruct (out_pending q !! id) as [rx|] eqn:Hrx.
    + destruct (oneshot_send rx r s) as [x s1] eqn:Hs.
      pose proof (implements_waiting _ _ _ _ Hi Hrx) as Hw. cbn in Hw.
      destruct (oneshot_send_law _ _ _ _ _ _ Hw eq_refl Hs) as (_ & Hs' & Hf).
      apply (implements_settle calls (callers_new q s rxs)); [done|..]; cbn [c_queue c_store]; rewrite Hrx.
      * by intros d [= <-].
      * intros d Hd. apply Hf. congruence.
    + assert (q = {| out_pending := delete id (out_pending q) |}) as Hq
        by (destruct q as [m]; cbn in *; by rewrite delete_id).
      rewrite Hq. apply (implements_settle calls (callers_new q s rxs)); [done|..]; cbn [c_queue c_store]; rewrite Hrx; [done|].
      by intros d _.
  - unfold OutgoingRequests_cancel. cbn [c_queue c_store c_receivers].
    apply (implements_drop calls (callers_new q s rxs) id Hi).
Qed.

Lemma code_run_implements ops calls c :
  implements calls c → implements (spec_run ops calls) (code_run ops c).
Proof.
  revert calls c. induction ops as [|op ops IH]; intros calls c Hi; [done|].
  by apply IH, code_step_implements.
Qed.

(** C34: the table of outgoing requests implements the calls of its specification: after any sequence of registrations, responses and cancellations on a new
    queue, every caller finds at its receiver what the specification says, and the
    queue holds a request pending iff the specification does, which is also what a
    response to it or its cancellation reports. *)
Theorem outgoing_refines ops s :
  let c := code_run ops (callers_new OutgoingRequests_new s []) in
  let calls := spec_run ops [] in
  length (c_receivers c) = length calls ∧
  (∀ k id v rx, calls !! k = Some (id, v) → c_receivers c !! k = Some rx →
     oneshot_poll (c_store c) rx = received v) ∧
  (∀ id, OutgoingRequests_is_pending id (c_queue c) = spec_pending id calls ∧
     (∀ r, (OutgoingRequests_complete id r (c_queue c) (c_store c)).1.1 = spec_pending id calls) ∧
     (OutgoingRequests_cancel id (c_queue c) (c_store c)).1.1 = spec_pending id calls).
Proof.
  intros c calls. assert (implements calls c) as Hi.
  { apply code_run_implements. split; cbn; [done|done|by apply NoDup_nil_2|].
    intros id rx. rewrite lookup_empty. split; [done|]. by intros (k & Hk & _). }
  split_and!; [by apply Hi| |].
  - intros k id v rx Hk Hr. rewrite (oneshot_poll_law _ _ _ (imp_view _ _ Hi _ _ _ _ Hk Hr)).
    by destruct v as [[r|]|].
  - intros id. rewrite (implements_pending _ _ id Hi). split_and!; [done| |done].
    intros r. unfold OutgoingRequests_complete, OutgoingRequests_is_pending.
    destruct (out_pending (c_queue c) !! id) as [tx|]; [by destruct (oneshot_send _ _ _)|done].
Qed.
End refinement.

(** ** A run in the runtime of [Tokio]: an answer, a request given up for another with
    its id, a cancellation *)

Definition sample_ops : list queue_op :=
  [QRegister (IdInteger 1); QRegister (IdString "a"); QComplete (IdInteger 1) sample_response;
   QRegister (IdString "a"); QRegister (IdInteger 2); QCancel (IdInteger 2); QCancel (IdInteger 1)].

Lemma sample_calls :
  spec_run sample_ops [] =
  [(IdInteger 1, Ready (Some sample_response)); (IdString "a", Ready None); (IdString "a", Pending);
   (IdInteger 2, Ready None)].
Proof. reflexivity. Qed.

Lemma outgoing_refines_witness :
  let c := code_run (TK := model_tokio) sample_ops (callers_new (TK := model_tokio) OutgoingRequests_new [] []) in
  OutgoingRequests_is_pending (IdString "a") (c_queue c) = true ∧
  oneshot_poll (Tokio := model_tokio) (c_store c) 0 = Ready (Ok sample_response) ∧
  oneshot_poll (Tokio := model_tokio) (c_store c) 1 = Ready (Err ()).
Proof.
  destruct (outgoing_refines (TL := model_tokio_laws) sample_ops []) as (_ & Hv & Hp).
  rewrite sample_calls in Hv. cbv zeta. split_and!.
  - rewrite (proj1 (Hp _)). reflexivity.
  - by apply (Hv 0 (IdInteger 1) (Ready (Some sample_response))).
  - by apply (Hv 1 (IdString "a") (Ready None)).
Defined.
