(* ===== verification/Io.v ===== *)
(** * Io: the [std::io::Error] values the crate builds. *)

From S2P Require Import Prelude RustStd Serde.

(** [io::ErrorKind]: the kinds the crate itself produces, and the others, which an
    underlying stream may produce. *)
Inductive ErrorKind : Set := InvalidData | BrokenPipe | Other | Uncategorized (n : N).

(** What an error carries: a message of the crate or another error. *)
Inductive io_payload : Set :=
| IoMsg (msg : string)
| IoUtf8 (e : Utf8Error)
| IoParseInt (e : IntErrorKind)
| IoSerde (e : de_error).

Record io_error : Set := io_error_new {
  io_kind : ErrorKind;
  io_inner : io_payload;
}.

#[export] Instance ErrorKind_eq_dec : EqDecision ErrorKind.
Proof. solve_decision. Defined.
#[export] Instance Utf8Error_eq_dec : EqDecision Utf8Error.
Proof. solve_decision. Defined.
#[export] Instance IntErrorKind_eq_dec : EqDecision IntErrorKind.
Proof. solve_decision. Defined.
#[export] Instance io_payload_eq_dec : EqDecision io_payload.
Proof. solve_decision. Defined.
#[export] Instance io_error_eq_dec : EqDecision io_error.
Proof. solve_decision. Defined.
