(* ===== verification/Lifecycle.v ===== *)
(** * Lifecycle: [src/lifecycle.rs], the states of a connection and the errors of
    its protocol. *)

From S2P Require Import Prelude RustStd Serde RequestId Error Message Io.

Inductive LifecycleState : Set :=
| Uninitialized
| Initializing
| Running
| ShuttingDown
| Exited.

#[export] Instance LifecycleState_eq_dec : EqDecision LifecycleState.
Proof. solve_decision. Defined.

Definition LifecycleState_default : LifecycleState := Uninitialized.

Definition is_request_allowed (self : LifecycleState) (method : string) : bool :=
  match self with
  | Uninitialized => bool_decide (method = "initialize")
  | Initializing | ShuttingDown | Exited => false
  | Running => bool_decide (method ≠ "initialize")
  end.

Definition is_notification_allowed (self : LifecycleState) (method : string) : bool :=
  match self with
  | Uninitialized | ShuttingDown => bool_decide (method = "exit")
  | Initializing => bool_decide (method = "initialized")
  | Running => true
  | Exited => false
  end.

Inductive ExitCode : Set := ExitSuccess | ExitError.
#[export] Instance ExitCode_eq_dec : EqDecision ExitCode.
Proof. solve_decision. Defined.

(** [ExitCode as i32]. *)
Definition ExitCode_as_i32 (c : ExitCode) : Z :=
  match c with ExitSuccess => 0 | ExitError => 1 end.

Inductive ProtocolError : Set :=
| ExpectedInitialize (method : string)
| ExpectedInitialized (method : string)
| Disconnected
| AfterShutdown (method : string)
| InitializeTimeout
| RequestTimeout
| ProtocolIo (e : io_error).

(** [Display], from the [error] attributes; the text of an I/O error is an argument. *)
Definition ProtocolError_fmt (io_fmt : io_error → string) (e : ProtocolError) : string :=
  match e with
  | ExpectedInitialize m => "expected initialize request, got: " +:+ m
  | ExpectedInitialized m => "expected initialized notification, got: " +:+ m
  | Disconnected => "connection disconnected unexpectedly"
  | AfterShutdown m => "received request after shutdown: " +:+ m
  | InitializeTimeout => "timed out waiting for initialized notification (60s)"
  | RequestTimeout => "timed out waiting for response to server request"
  | ProtocolIo e => "I/O error: " +:+ io_fmt e
  end.

#[export] Instance ProtocolError_eq_dec : EqDecision ProtocolError.
Proof. solve_decision. Defined.
