(* ===== verification/Routing.v ===== *)
(** * Routing: [src/routing.rs], what an incoming message is routed as, and the
    standard error responses. *)

From S2P Require Import Prelude RustStd Serde RequestId Error Message Tokio.

Definition INITIALIZE_METHOD : string := "initialize".
Definition INITIALIZED_METHOD : string := "initialized".
Definition SHUTDOWN_METHOD : string := "shutdown".
Definition EXIT_METHOD : string := "exit".

Inductive IncomingMessage `{TK : Tokio} : Type :=
| InRequest (req : Request) (token : Token)
| InNotification (notif : Notification)
| CancelHandled
| ResponseRouted
| ResponseUnknown (resp : Response).

Section routing.
Context `{TK : Tokio}.

Definition IncomingMessage_is_request (m : IncomingMessage) : bool :=
  match m with InRequest _ _ => true | _ => false end.
Definition IncomingMessage_is_notification (m : IncomingMessage) : bool :=
  match m with InNotification _ => true | _ => false end.
Definition IncomingMessage_is_cancel_handled (m : IncomingMessage) : bool :=
  match m with CancelHandled => true | _ => false end.
Definition IncomingMessage_is_response_routed (m : IncomingMessage) : bool :=
  match m with ResponseRouted => true | _ => false end.
Definition IncomingMessage_is_response_unknown (m : IncomingMessage) : bool :=
  match m with ResponseUnknown _ => true | _ => false end.
End routing.

Definition method_not_found_response (request : Request) : Response :=
  Response_err (req_id request)
    (ResponseError_new MethodNotFound ("Method not found: " +:+ req_method request)).

Definition cancelled_response (id : RequestId) : Response :=
  Response_err id (ResponseError_new RequestCancelled "Request was cancelled").
