(* ===== verification/ClientSender.v ===== *)
(** * ClientSender: [src/client_sender.rs], the handle that sends to the client and
    routes the responses to its requests. *)

From S2P Require Import Prelude RustStd Serde RequestId Error Message Tokio RequestQueue World Io Lifecycle.

Section client_sender.
Context `{TK : Tokio}.

(** ** The response map, a shared location *)

Record ResponseMap : Type := { rm_pending : loc }.

Definition ResponseMap_new : St ResponseMap := l ← new_map; mret {| rm_pending := l |}.

Definition ResponseMap_try_register (self : ResponseMap) (id : RequestId) :
    St (option Channel) :=
  c ← on_channels oneshot_channel;
  pending ← get_map (rm_pending self);
  if bool_decide (is_Some (pending !! id))
  then
    on_channels (λ s, ((), drop_sender c (drop_receiver c s)));;
    mret None
  else
    set_map (rm_pending self) (<[id := c]> pending);;
    mret (Some c).

Definition ResponseMap_contains (self : ResponseMap) (id : RequestId) : St bool :=
  pending ← get_map (rm_pending self);
  mret (bool_decide (is_Some (pending !! id))).

Definition ResponseMap_deliver (self : ResponseMap) (id : RequestId) (response : Response) :
    St bool :=
  pending ← get_map (rm_pending self);
  match pending !! id with
  | Some tx =>
    set_map (rm_pending self) (delete id pending);;
    on_channels (oneshot_send tx response);;
    mret true
  | None => mret false
  end.

Definition ResponseMap_cancel (self : ResponseMap) (id : RequestId) : St bool :=
  pending ← get_map (rm_pending self);
  set_map (rm_pending self) (delete id pending);;
  on_channels (λ s, ((), drop_old (pending !! id) s));;
  mret (bool_decide (is_Some (pending !! id))).

(** ** The guard of a pending request *)

Record PendingResponseGuard : Type := {
  guard_map : ResponseMap;
  guard_id : option RequestId;
}.

Definition PendingResponseGuard_new (m : ResponseMap) (id : RequestId) : PendingResponseGuard :=
  {| guard_map := m; guard_id := Some id |}.

Definition PendingResponseGuard_disarm (g : PendingResponseGuard) : PendingResponseGuard :=
  {| guard_map := guard_map g; guard_id := None |}.

Definition PendingResponseGuard_drop (g : PendingResponseGuard) : St unit :=
  match guard_id g with
  | Some id => ResponseMap_cancel (guard_map g) id;; mret ()
  | None => mret ()
  end.

(** ** The sender *)

Inductive SendError : Set := SendError_closed.

(** [tx] is the outbound queue of the world. *)
Record ClientSender : Type := {
  response_map : ResponseMap;
  id_counter : loc;
  drain_alive : Token;
}.

Definition ClientSender_new (m : ResponseMap) (drain_alive : Token) : St ClientSender :=
  l ← new_counter 1;
  mret {| response_map := m; id_counter := l; drain_alive := drain_alive |}.

Definition notify (self : ClientSender) (method : string) (params : option Value) :
    St (result SendError unit) :=
  r ← send_outbound (MNotification (Notification_new method params));
  mret (map_err (λ _, SendError_closed) r).

Definition respond (self : ClientSender) (response : Response) : St (result SendError unit) :=
  r ← send_outbound (MResponse response);
  mret (map_err (λ _, SendError_closed) r).

(** [next_id]: the counter before the update is the id; a counter that is no [i32]
    panics. *)
Definition next_counter (current : Z) : Z :=
  if (i32_MAX <=? current)%Z then 1 else (current + 1)%Z.

Definition next_id (self : ClientSender) : St (result io_error RequestId) :=
  current ← fetch_update (id_counter self) next_counter;
  mret (match i32_try_from current with
        | Some id => Ok (IdInteger id)
        | None => Panic
        end).

Definition MAX_RETRIES : nat := 1000.

Fixpoint reserve_loop (retries : nat) (self : ClientSender) :
    St (result io_error (RequestId * Channel)) :=
  match retries with
  | O => mret (Err (io_error_new Other
           (IoMsg "failed to reserve a request slot after 1000 attempts")))
  | S retries =>
    r ← next_id self;
    match r with
    | Ok id =>
      o ← ResponseMap_try_register (response_map self) id;
      match o with
      | Some rx => mret (Ok (id, rx))
      | None => reserve_loop retries self
      end
    | Err e => mret (Err e)
    | Panic => mret Panic
    end
  end.

Definition reserve_request_slot (self : ClientSender) :
    St (result io_error (RequestId * Channel)) := reserve_loop MAX_RETRIES self.

(** ** A request as a future

    Between two polls a request is not started, waits at the [select!] with its
    guard and its receiver, or has returned. *)
Inductive RequestFuture : Type :=
| Unstarted (method : string) (params : option Value)
| Waiting (cleanup : PendingResponseGuard) (rx : Channel)
| Returned.

Definition request (method : string) (params : option Value) : RequestFuture :=
  Unstarted method params.

(** [send_registered_request] up to its [select!]. *)
Definition send_registered_request (self : ClientSender) (id : RequestId) (method : string)
    (params : option Value) (rx : Channel) :
    St (RequestFuture * poll (result ProtocolError Response)) :=
  let cleanup := PendingResponseGuard_new (response_map self) id in
  r ← send_outbound (MRequest (Request_new id method params));
  match r with
  | Ok _ => mret (Waiting cleanup rx, Pending)
  | _ =>
    PendingResponseGuard_drop cleanup;;
    on_channels (λ s, ((), drop_receiver rx s));;
    mret (Returned, Ready (Err Disconnected))
  end.

(** One branch of the [select!]: its result if it is ready. *)
Definition select_rx (cleanup : PendingResponseGuard) (rx : Channel) :
    St (option (result ProtocolError Response)) :=
  λ w, match oneshot_poll (w_channels w) rx with
       | Ready (Ok response) =>
         (PendingResponseGuard_drop (PendingResponseGuard_disarm cleanup);;
          mret (Some (Ok response))) w
       | Ready _ => (PendingResponseGuard_drop cleanup;; mret (Some (Err Disconnected))) w
       | Pending => (None, w)
       end.

Definition select_drain (self : ClientSender) (cleanup : PendingResponseGuard) :
    St (option (result ProtocolError Response)) :=
  λ w, if is_cancelled (w_tokens w) (drain_alive self)
       then (PendingResponseGuard_drop cleanup;; mret (Some (Err Disconnected))) w
       else (None, w).

(** The [select!] polls its branches in a random order, [rx_first]; the first one
    that is ready decides, and the receiver is dropped with the future. *)
Definition poll_waiting (self : ClientSender) (rx_first : bool) (cleanup : PendingResponseGuard)
    (rx : Channel) : St (RequestFuture * poll (result ProtocolError Response)) :=
  a ← (if rx_first then select_rx cleanup rx else select_drain self cleanup);
  o ← match a with
      | Some r => mret (Some r)
      | None => if rx_first then select_drain self cleanup else select_rx cleanup rx
      end;
  match o with
  | Some r => on_channels (λ s, ((), drop_receiver rx s));; mret (Returned, Ready r)
  | None => mret (Waiting cleanup rx, Pending)
  end.

(** One poll of [request]. *)
Definition request_poll (self : ClientSender) (rx_first : bool) (fut : RequestFuture) :
    St (RequestFuture * poll (result ProtocolError Response)) :=
  match fut with
  | Unstarted method params =>
    slot ← reserve_request_slot self;
    match slot with
    | Ok (id, rx) =>
      '(fut, r) ← send_registered_request self id method params rx;
      match fut with
      | Waiting cleanup rx => poll_waiting self rx_first cleanup rx
      | _ => mret (fut, r)
      end
    | Err e => mret (Returned, Ready (Err (ProtocolIo e)))
    | Panic => mret (Returned, Ready Panic)
    end
  | Waiting cleanup rx => poll_waiting self rx_first cleanup rx
  | Returned => mret (Returned, Ready Panic)
  end.

(** The caller gives up: the future is dropped. *)
Definition request_drop (fut : RequestFuture) : St unit :=
  match fut with
  | Waiting cleanup rx =>
    on_channels (λ s, ((), drop_receiver rx s));;
    PendingResponseGuard_drop cleanup
  | _ => mret ()
  end.

(** One poll of [request_timeout]: the request first, then the deadline. *)
Definition request_timeout_poll (self : ClientSender) (rx_first elapsed : bool)
    (fut : RequestFuture) : St (RequestFuture * poll (result ProtocolError Response)) :=
  '(fut, r) ← request_poll self rx_first fut;
  match r with
  | Ready r => mret (fut, Ready r)
  | Pending =>
    if elapsed
    then request_drop fut;; mret (Returned, Ready (Err RequestTimeout))
    else mret (fut, Pending)
  end.
End client_sender.

(** ** Lemmas: what the operations on a response map do *)

Section lemmas.
Context `{TK : Tokio}.

Definition map_at (map : ResponseMap) (w : World) : gmap RequestId Channel :=
  default ∅ (w_maps w !! rm_pending map).

(** The world with another content of the map and other channels. *)
Definition with_table (map : ResponseMap) (m : gmap RequestId Channel) (s : channels) (w : World) :
    World := with_channels s (with_maps (<[rm_pending map := m]> (w_maps w)) w).

Lemma ResponseMap_deliver_run map id r w :
  ResponseMap_deliver map id r w =
  match map_at map w !! id with
  | Some tx =>
    (true, with_table map (delete id (map_at map w)) (oneshot_send tx r (w_channels w)).2 w)
  | None => (false, w)
  end.
Proof.
  unfold ResponseMap_deliver, mbind, St_bind, get_map. cbn.
  change (default ∅ (w_maps w !! rm_pending map)) with (map_at map w).
  destruct (map_at map w !! id); [|done].
  unfold set_map, on_channels, with_table, with_maps, with_channels. cbn.
  by destruct (oneshot_send _ _ _).
Qed.

Lemma ResponseMap_cancel_run map id w :
  ResponseMap_cancel map id w =
  (bool_decide (is_Some (map_at map w !! id)),
   with_table map (delete id (map_at map w)) (drop_old (map_at map w !! id) (w_channels w)) w).
Proof. done. Qed.

Lemma ResponseMap_try_register_run map id w :
  ResponseMap_try_register map id w =
  let '(c, s) := oneshot_channel (w_channels w) in
  if bool_decide (is_Some (map_at map w !! id))
  then (None, with_channels (drop_sender c (drop_receiver c s)) w)
  else (Some c, with_table map (<[id := c]> (map_at map w)) s w).
Proof.
  unfold ResponseMap_try_register, mbind, St_bind, on_channels at 1.
  destruct (oneshot_channel (w_channels w)) as [c s]. cbn.
  change (default ∅ (w_maps w !! rm_pending map)) with (map_at map w).
  by destruct (bool_decide _).
Qed.

(** Dropping the future: the receiver, then the guard. *)
Lemma request_drop_run map id rx w :
  request_drop (Waiting (PendingResponseGuard_new map id) rx) w =
  ((), with_table map (delete id (map_at map w))
         (drop_old (map_at map w !! id) (drop_receiver rx (w_channels w))) w).
Proof. done. Qed.

Lemma map_at_with_table map m s w :
  rm_pending map < length (w_maps w) → map_at map (with_table map m s w) = m.
Proof. intros Hlt. unfold map_at, with_table. cbn. by rewrite list_lookup_insert_eq. Qed.
End lemmas.

(** ** Request ids *)

Section ids.
Context `{TK : Tokio}.

(** The counter of a sender, and the values it can have. *)
Definition counter_at (self : ClientSender) (w : World) : Z :=
  default 0%Z (w_counters w !! id_counter self).

Definition counter_ok (self : ClientSender) (w : World) : Prop :=
  id_counter self < length (w_counters w) ∧ (1 ≤ counter_at self w ≤ i32_MAX)%Z.

Lemma next_counter_range z : (1 ≤ z ≤ i32_MAX)%Z → (1 ≤ next_counter z ≤ i32_MAX)%Z.
Proof. unfold next_counter, i32_MAX. intros. destruct (Z.leb_spec 2147483647 z); lia. Qed.

Lemma next_counter_mod z : (1 ≤ z ≤ i32_MAX)%Z → next_counter z = (z mod i32_MAX + 1)%Z.
Proof.
  unfold next_counter, i32_MAX. intros Hz. destruct (Z.leb_spec 2147483647 z).
  - replace z with 2147483647%Z by lia. done.
  - by rewrite Z.mod_small by lia.
Qed.

Definition bump (self : ClientSender) (w : World) : World :=
  with_counters (<[id_counter self := next_counter (counter_at self w)]> (w_counters w)) w.

Lemma next_id_run self w :
  counter_ok self w → next_id self w = (Ok (IdInteger (counter_at self w)), bump self w).
Proof.
  intros [_ Hc]. unfold next_id, mbind, St_bind, fetch_update, mret, St_ret.
  change (default 0%Z _) with (counter_at self w).
  unfold i32_try_from. rewrite bool_decide_eq_true_2; [done|].
  unfold i32_MIN, i32_MAX in *. lia.
Qed.

Lemma counter_at_bump self w :
  id_counter self < length (w_counters w) →
  counter_at self (bump self w) = next_counter (counter_at self w).
Proof. intros Hlt. unfold counter_at, bump. cbn. by rewrite list_lookup_insert_eq. Qed.

Lemma bump_ok self w : counter_ok self w → counter_ok self (bump self w).
Proof.
  intros [Hlt Hc]. split; [cbn; by rewrite length_insert|].
  rewrite counter_at_bump by done. by apply next_counter_range.
Qed.

(** The ids a sender gives out one after the other. *)
Fixpoint next_ids (n : nat) (self : ClientSender) : St (list (result io_error RequestId)) :=
  match n with
  | O => mret []
  | S n => id ← next_id self; ids ← next_ids n self; mret (id :: ids)
  end.

(** The [k]-th id after the counter value [c]. *)
Definition id_after (c : Z) (k : nat) : Z := ((c - 1 + Z.of_nat k) mod i32_MAX + 1)%Z.

Lemma id_after_0 c : (1 ≤ c ≤ i32_MAX)%Z → id_after c 0 = c.
Proof. unfold id_after, i32_MAX. intros. rewrite Z.mod_small; lia. Qed.

Lemma id_after_next c k :
  (1 ≤ c ≤ i32_MAX)%Z → id_after (next_counter c) k = id_after c (S k).
Proof.
  intros Hc. rewrite next_counter_mod by done. unfold id_after. f_equal.
  replace (c mod i32_MAX + 1 - 1 + Z.of_nat k)%Z with (c mod i32_MAX + Z.of_nat k)%Z by lia.
  rewrite Zplus_mod_idemp_l. f_equal. lia.
Qed.

Lemma id_after_inj c i j :
  (Z.of_nat i < i32_MAX)%Z → (Z.of_nat j < i32_MAX)%Z → id_after c i = id_after c j → i = j.
Proof.
  unfold id_after, i32_MAX. intros Hi Hj E.
  assert ((c - 1 + Z.of_nat i) mod 2147483647 = (c - 1 + Z.of_nat j) mod 2147483647)%Z as E' by lia.
  pose proof (Z.div_mod (c - 1 + Z.of_nat i) 2147483647) as Hdi.
  pose proof (Z.div_mod (c - 1 + Z.of_nat j) 2147483647) as Hdj.
  rewrite E' in Hdi. clear E E'.
  set (r := ((c - 1 + Z.of_nat j) mod 2147483647)%Z) in *. clearbody r.
  set (a := ((c - 1 + Z.of_nat i) / 2147483647)%Z) in *. clearbody a.
  set (b := ((c - 1 + Z.of_nat j) / 2147483647)%Z) in *. clearbody b. lia.
Qed.

(** C29: a sender never panics for want of an id: the ids it gives out are positive
    [i32]s that count up and wrap from [i32::MAX] to 1, so any 2147483647 ids in a
    row are distinct. *)
Theorem next_ids_cycle self w n :
  counter_ok self w →
  ∃ w', next_ids n self w =
    ((λ k, Ok (IdInteger (id_after (counter_at self w) k))) <$> seq 0 n, w') ∧
    counter_ok self w' ∧ w_maps w' = w_maps w ∧ w_channels w' = w_channels w ∧
    (∀ k, (1 ≤ id_after (counter_at self w) k ≤ i32_MAX)%Z) ∧
    ((Z.of_nat n ≤ i32_MAX)%Z → NoDup (next_ids n self w).1).
Proof.
  intros Hok.
  assert (∃ w', next_ids n self w =
    ((λ k, Ok (IdInteger (id_after (counter_at self w) k))) <$> seq 0 n, w') ∧
    counter_ok self w' ∧ w_maps w' = w_maps w ∧ w_channels w' = w_channels w)
    as (w' & Hrun & ? & ? & ?).
  { revert w Hok. induction n as [|n IH]; intros w Hok; [by exists w|].
    destruct (IH (bump self w) (bump_ok _ _ Hok)) as (w' & Hrun & ? & Hm & Hc).
    exists w'. cbn [next_ids]. unfold mbind, St_bind. rewrite next_id_run, Hrun by done.
    split_and!; [|done|by rewrite Hm|by rewrite Hc].
    unfold mret, St_ret. f_equal. cbn [seq]. rewrite fmap_cons. destruct Hok as [Hlt Hr].
    rewrite id_after_0 by done. f_equal. rewrite <-fmap_S_seq, <-list_fmap_compose.
    apply list_fmap_ext. intros _ k _. simpl. rewrite counter_at_bump by done.
    by rewrite id_after_next. }
  exists w'. split_and!; try done.
  - intros k. unfold id_after, i32_MAX in *. pose proof (Z.mod_pos_bound (counter_at self w - 1 + Z.of_nat k) 2147483647).
    lia.
  - intros Hn. rewrite Hrun. cbn [fst]. apply NoDup_fmap_2_strong; [|apply NoDup_seq].
    intros i j [_ Hi]%elem_of_seq [_ Hj]%elem_of_seq [= E]. eapply id_after_inj; [| |exact E]; lia.
Qed.
End ids.

(** ** Reserving an id *)

Section reserve.
Context `{TK : Tokio} {TL : TokioLaws TK}.

Definition map_ok (map : ResponseMap) (w : World) : Prop :=
  rm_pending map < length (w_maps w) ∧ pending_ok (map_at map w) (w_channels w).

Lemma drop_both_frame s c s' m :
  pending_ok m s → oneshot_channel s = (c, s') →
  pending_ok m (drop_sender c (drop_receiver c s')) ∧
  frame_but (eq c) s (drop_sender c (drop_receiver c s')).
Proof.
  intros Hok Hc. destruct (pending_ok_fresh _ _ _ _ Hok Hc) as (Hf & Hm & _ & _).
  destruct (oneshot_channel_law _ _ _ Hc) as (_ & Hv & _).
  destruct (drop_receiver_law _ _ _ Hv) as [Hv1 Hf1].
  destruct (drop_sender_law _ _ _ Hv1) as [_ Hf2].
  assert (frame_but (eq c) s (drop_sender c (drop_receiver c s'))) as Hframe.
  { intros d Hd. rewrite Hf2, Hf1, Hf; congruence. }
  split; [|done]. eapply pending_ok_frame; [done| |done]. intros id d Hd <-. by eapply Hm.
Qed.

Lemma reserve_loop_spec n self w :
  counter_ok self w → map_ok (response_map self) w →
  let m := map_at (response_map self) w in
  let taken k := is_Some (m !! IdInteger (id_after (counter_at self w) k)) in
  match reserve_loop n self w with
  | (Ok (id, rx), w') =>
    (∃ k, k < n ∧ id = IdInteger (id_after (counter_at self w) k) ∧ ∀ j, j < k → taken j) ∧
    m !! id = None ∧ map_at (response_map self) w' = <[id := rx]> m ∧
    map_ok (response_map self) w' ∧ counter_ok self w' ∧ oneshot_poll (w_channels w') rx = Pending
  | (Err e, w') =>
    (∀ k, k < n → taken k) ∧ io_kind e = Other ∧ map_at (response_map self) w' = m ∧
    map_ok (response_map self) w' ∧ counter_ok self w'
  | (Panic, _) => False
  end.
Proof.
  revert w. induction n as [|n IH]; intros w Hc Hm; cbv zeta.
  { cbn [reserve_loop]. unfold mret, St_ret. split_and!; try done; by (apply Hm || apply Hc || lia). }
  cbn [reserve_loop]. unfold mbind, St_bind. rewrite next_id_run by done.
  rewrite ResponseMap_try_register_run.
  change (map_at (response_map self) (bump self w)) with (map_at (response_map self) w).
  change (w_channels (bump self w)) with (w_channels w).
  destruct (oneshot_channel (w_channels w)) as [c s] eqn:Hch. destruct Hm as [Hlt Hpo].
  pose proof (bump_ok _ _ Hc) as Hc1.
  assert (IdInteger (counter_at self w) = IdInteger (id_after (counter_at self w) 0)) as E0
    by (rewrite id_after_0; [done|apply Hc]).
  rewrite E0.
  destruct (map_at (response_map self) w !! IdInteger (id_after (counter_at self w) 0)) as [d|] eqn:Hd.
  - rewrite bool_decide_eq_true_2 by done.
    set (w1 := with_channels _ (bump self w)).
    destruct (drop_both_frame _ _ _ _ Hpo Hch) as [Hpo1 _].
    specialize (IH w1 Hc1 (conj Hlt Hpo1)). cbv zeta in IH.
    change (map_at (response_map self) w1) with (map_at (response_map self) w) in IH.
    change (counter_at self w1) with (counter_at self (bump self w)) in IH.
    rewrite counter_at_bump in IH by apply Hc.
    destruct (reserve_loop n self w1) as [[[id rx]|e|] w2]; [| |done].
    + destruct IH as ((k & Hk & -> & Hj) & Hrest). rewrite id_after_next in * by apply Hc.
      split; [|done]. exists (S k). split_and!; [lia|done|]. intros [|j] Hlt'; [by rewrite Hd|].
      rewrite <-id_after_next by apply Hc. apply Hj. lia.
    + destruct IH as (Hall & Hrest). split; [|done]. intros [|k] Hk; [by rewrite Hd|].
      rewrite <-id_after_next by apply Hc. apply Hall. lia.
  - rewrite bool_decide_eq_false_2 by (by intros [? ?]). unfold mret, St_ret.
    destruct (register_law _ _ (IdInteger (id_after (counter_at self w) 0)) _ _ Hpo Hch)
      as (Hpo1 & Hv & _ & _). rewrite Hd in Hpo1, Hv. cbn [drop_old] in Hpo1, Hv.
    rewrite map_at_with_table by done. split_and!; try done.
    + exists 0. split_and!; [lia|done|lia].
    + split; [cbn; by rewrite length_insert|]. by rewrite map_at_with_table.
    + unfold with_table. cbn. by rewrite (oneshot_poll_law _ _ _ Hv).
Qed.

(** A thousand distinct ids need a thousand entries. *)
Lemma taken_size (m : gmap RequestId Channel) c n :
  (Z.of_nat n ≤ i32_MAX)%Z → (∀ k, k < n → is_Some (m !! IdInteger (id_after c k))) → n ≤ size m.
Proof.
  intros Hn Hall. rewrite <-size_dom.
  set (ids := (λ k, IdInteger (id_after c k)) <$> seq 0 n).
  assert (NoDup ids) as Hnd.
  { apply NoDup_fmap_2_strong; [|apply NoDup_seq].
    intros i j [_ Hi]%elem_of_seq [_ Hj]%elem_of_seq [= E]. eapply id_after_inj; [| |exact E]; lia. }
  replace n with (length ids) by (unfold ids; by rewrite length_fmap, length_seq).
  rewrite <-(size_list_to_set (C := gset RequestId) ids Hnd).
  apply subseteq_size. intros i. rewrite elem_of_list_to_set. unfold ids.
  intros (k & -> & [_ Hk]%elem_of_seq)%list_elem_of_fmap. apply elem_of_dom, Hall. lia.
Qed.

(** C28: a request gets a free id and a receiver that waits, without disturbing the
    requests that are pending; it fails only when the next thousand ids are all
    taken, hence never while fewer than a thousand requests are pending. *)
Theorem reserve_request_slot_spec self w :
  counter_ok self w → map_ok (response_map self) w →
  let m := map_at (response_map self) w in
  match reserve_request_slot self w with
  | (Ok (id, rx), w') =>
    m !! id = None ∧ map_at (response_map self) w' = <[id := rx]> m ∧
    map_ok (response_map self) w' ∧ counter_ok self w' ∧ oneshot_poll (w_channels w') rx = Pending
  | (Err e, w') =>
    1000 ≤ size m ∧ (∀ k, k < 1000 → is_Some (m !! IdInteger (id_after (counter_at self w) k))) ∧
    map_at (response_map self) w' = m ∧ map_ok (response_map self) w' ∧ counter_ok self w'
  | (Panic, _) => False
  end.
Proof.
  intros Hc Hm m. pose proof (reserve_loop_spec MAX_RETRIES self w Hc Hm) as H. cbv zeta in H.
  unfold reserve_request_slot.
  destruct (reserve_loop MAX_RETRIES self w) as [[[id rx]|e|] w']; [by destruct_and!| |done].
  destruct H as (Hall & _ & ?). split; [|done].
  apply (taken_size _ (counter_at self w)); [by vm_compute|exact Hall].
Qed.
End reserve.
