(* ===== verification/Connection.v ===== *)
(** * Connection: [src/connection.rs], the operations of a connection.

    The outbound half is the queue of the [World], emptied by the task that
    [spawn_drain_task] starts (see [System]).  The inbound half, the [receiver]
    stream, is the list of the events its reader meets. *)

From S2P Require Import Prelude RustStd Serde RequestId Error Message Tokio World RequestQueue Io Lifecycle Routing ClientSender.

Record Connection `{TK : Tokio} : Type := {
  request_queue : RequestQueue;
  lifecycle_state : LifecycleState;
  shutdown_token : Token;
  conn_response_map : option ResponseMap;
  conn_drain_alive : Token;
}.

(** What a task that awaits [receiver.next()] meets: the next item of the stream
    ([None] at its end), or the deadline of the [timeout] around it. *)
Inductive Event : Type :=
| Received (item : option (result io_error Message))
| Elapsed.

Section connection.
Context `{TK : Tokio}.

Definition with_queue (q : RequestQueue) (self : Connection) : Connection :=
  {| request_queue := q; lifecycle_state := lifecycle_state self;
     shutdown_token := shutdown_token self; conn_response_map := conn_response_map self;
     conn_drain_alive := conn_drain_alive self |}.
Definition with_incoming (i : IncomingRequests) (self : Connection) : Connection :=
  with_queue {| incoming := i; outgoing := outgoing (request_queue self) |} self.
Definition with_outgoing (o : OutgoingRequests) (self : Connection) : Connection :=
  with_queue {| incoming := incoming (request_queue self); outgoing := o |} self.
Definition with_lifecycle (l : LifecycleState) (self : Connection) : Connection :=
  {| request_queue := request_queue self; lifecycle_state := l;
     shutdown_token := shutdown_token self; conn_response_map := conn_response_map self;
     conn_drain_alive := conn_drain_alive self |}.
Definition with_response_map (m : ResponseMap) (self : Connection) : Connection :=
  {| request_queue := request_queue self; lifecycle_state := lifecycle_state self;
     shutdown_token := shutdown_token self; conn_response_map := Some m;
     conn_drain_alive := conn_drain_alive self |}.

(** ** Construction *)

(** [spawn_drain_task] up to the spawn: the queue and the token of the task. *)
Definition spawn_drain_task : St Token :=
  on_outbound (λ _, ((), unbounded_channel));;
  on_tokens token_new.

Definition with_request_queue (q : RequestQueue) : St Connection :=
  drain_alive ← spawn_drain_task;
  shutdown ← on_tokens token_new;
  mret {| request_queue := q; lifecycle_state := LifecycleState_default;
          shutdown_token := shutdown; conn_response_map := None;
          conn_drain_alive := drain_alive |}.

Definition from_transport : St Connection :=
  drain_alive ← spawn_drain_task;
  shutdown ← on_tokens token_new;
  mret {| request_queue := RequestQueue_new; lifecycle_state := LifecycleState_default;
          shutdown_token := shutdown; conn_response_map := None;
          conn_drain_alive := drain_alive |}.

Definition Connection_new : St Connection := from_transport.

(** The getters [lifecycle_state] and [shutdown_token]. *)
Definition lifecycle_state_of (self : Connection) : LifecycleState := lifecycle_state self.
Definition shutdown_token_of (self : Connection) : Token := shutdown_token self.

(** [on_shutdown]: one poll of the future. *)
Definition on_shutdown (self : Connection) : St (poll unit) :=
  λ w, (if is_cancelled (w_tokens w) (shutdown_token self) then Ready () else Pending, w).

(** ** Sending and routing *)

Definition send (self : Connection) (message : Message) : St (result io_error unit) :=
  r ← send_outbound message;
  mret (map_err (λ _, io_error_new BrokenPipe (IoMsg "connection closed")) r).

Definition cancel_in (self : Connection) (id : RequestId) : St bool :=
  on_tokens (IncomingRequests_cancel id (incoming (request_queue self))).

(** [contains] and [deliver] take the lock of the map one after the other. *)
Definition deliver_to_map (self : Connection) (id : RequestId) (resp : Response) : St bool :=
  match conn_response_map self with
  | Some map =>
    b ← ResponseMap_contains map id;
    if b : bool then ResponseMap_deliver map id resp else mret false
  | None => mret false
  end.

Definition route (self : Connection) (message : Message) : St (IncomingMessage * Connection) :=
  match message with
  | MRequest req =>
    token ← on_tokens (child_token (shutdown_token self));
    mret (InRequest req token,
          with_incoming (IncomingRequests_register (req_id req) token (incoming (request_queue self))) self)
  | MNotification notif =>
    if bool_decide (notif_method notif = CANCEL_REQUEST_METHOD) then
      match parse_cancel_params (notif_params notif) with
      | Some id => cancel_in self id;; mret (CancelHandled, self)
      | None => mret (InNotification notif, self)
      end
    else mret (InNotification notif, self)
  | MResponse resp =>
    match resp_id resp with
    | Some id =>
      b ← deliver_to_map self id resp;
      if b : bool then mret (ResponseRouted, self)
      else if OutgoingRequests_is_pending id (outgoing (request_queue self)) then
        o ← on_channels (λ s,
              let '(b, o, s) := OutgoingRequests_complete id resp (outgoing (request_queue self)) s in
              (o, s));
        mret (ResponseRouted, with_outgoing o self)
      else mret (ResponseUnknown resp, self)
    | None => mret (ResponseUnknown resp, self)
    end
  end.

Definition cancel_incoming (self : Connection) (id : RequestId) : St bool := cancel_in self id.

Definition client_sender (self : Connection) : St (ClientSender * Connection) :=
  match conn_response_map self with
  | Some map =>
    s ← ClientSender_new map (conn_drain_alive self);
    mret (s, self)
  | None =>
    map ← ResponseMap_new;
    s ← ClientSender_new map (conn_drain_alive self);
    mret (s, with_response_map map self)
  end.

Definition handle_cancel_request (self : Connection) (notification : Notification) :
    St (option bool) :=
  if bool_decide (notif_method notification ≠ CANCEL_REQUEST_METHOD) then mret None
  else
    match parse_cancel_params (notif_params notification) with
    | Some id => Some <$> cancel_in self id
    | None => mret None
    end.

Definition cancel (self : Connection) (id : RequestId) : St (result io_error bool * Connection) :=
  let notification := Notification_new CANCEL_REQUEST_METHOD (Some (cancel_params id)) in
  r ← send self (MNotification notification);
  match r with
  | Ok _ =>
    '(b, o) ← on_channels (λ s,
        let '(b, o, s) := OutgoingRequests_cancel id (outgoing (request_queue self)) s in
        ((b, o), s));
    mret (Ok b, with_outgoing o self)
  | Err e => mret (Err e, self)
  | Panic => mret (Panic, self)
  end.

(** ** Awaiting the stream

    The body of a loop handles one item and returns ([Some]) or goes on. *)
Definition step_of (R : Type) : Type :=
  Connection → option (result io_error Message) → St (option R * Connection).

(** A loop over the stream; a deadline that is not its own passes it by.  The
    rest of the events is for the reader after it. *)
Fixpoint receive_loop {R} (step : step_of R) (self : Connection) (events : list Event) :
    St (poll R * Connection * list Event) :=
  match events with
  | [] => mret (Pending, self, [])
  | Elapsed :: events => receive_loop step self events
  | Received item :: events =>
    '(o, self) ← step self item;
    match o with
    | Some r => mret (Ready r, self, events)
    | None => receive_loop step self events
    end
  end.

(** The same loop in a [tokio::time::timeout]: it ends with [elapsed] when the
    deadline passes while it waits. *)
Fixpoint timeout_loop {R} (elapsed : R) (step : step_of R) (self : Connection)
    (events : list Event) : St (poll R * Connection * list Event) :=
  match events with
  | [] => mret (Pending, self, [])
  | Elapsed :: events => mret (Ready elapsed, self, events)
  | Received item :: events =>
    '(o, self) ← step self item;
    match o with
    | Some r => mret (Ready r, self, events)
    | None => timeout_loop elapsed step self events
    end
  end.

(** ** Initialization *)

Definition not_initialized_response (id : RequestId) : Response :=
  Response_err id (ResponseError_new ServerNotInitialized "Server not yet initialized").

Definition reject {R} (self : Connection) (id : RequestId) :
    St (option (result ProtocolError R) * Connection) :=
  r ← send self (MResponse (not_initialized_response id));
  mret (match r with
        | Ok _ => None
        | Err e => Some (Err (ProtocolIo e))
        | Panic => Some Panic
        end, self).

Definition initialize_start_step : step_of (result ProtocolError (RequestId * Value)) :=
  λ self item,
  match item with
  | Some (Ok (MRequest req)) =>
    if bool_decide (req_method req = INITIALIZE_METHOD)
    then mret (Some (Ok (req_id req, default VNull (req_params req))), with_lifecycle Initializing self)
    else reject self (req_id req)
  | Some (Ok (MNotification notif)) =>
    if bool_decide (notif_method notif = EXIT_METHOD)
    then mret (Some (Err Disconnected), self)
    else mret (None, self)
  | Some (Ok (MResponse _)) => mret (None, self)
  | Some (Err e) => mret (Some (Err (ProtocolIo e)), self)
  | Some Panic => mret (Some Panic, self)
  | None => mret (Some (Err Disconnected), self)
  end.

Definition initialize_start (self : Connection) (events : list Event) :
    St (poll (result ProtocolError (RequestId * Value)) * Connection * list Event) :=
  receive_loop initialize_start_step self events.

Definition initialize_finish_step : step_of (result ProtocolError unit) :=
  λ self item,
  match item with
  | Some (Ok (MNotification notif)) =>
    if bool_decide (notif_method notif = INITIALIZED_METHOD)
    then mret (Some (Ok ()), with_lifecycle Running self)
    else mret (None, self)
  | Some (Ok (MRequest req)) => reject self (req_id req)
  | Some (Ok (MResponse _)) => mret (None, self)
  | Some (Err e) => mret (Some (Err (ProtocolIo e)), self)
  | Some Panic => mret (Some Panic, self)
  | None => mret (Some (Err Disconnected), self)
  end.

Definition initialize_finish (self : Connection) (id : RequestId) (initialize_result : Value)
    (events : list Event) : St (poll (result ProtocolError unit) * Connection * list Event) :=
  r ← send self (MResponse (Response_ok id initialize_result));
  match r with
  | Ok _ => timeout_loop (Err InitializeTimeout) initialize_finish_step self events
  | Err e => mret (Ready (Err (ProtocolIo e)), self, events)
  | Panic => mret (Ready Panic, self, events)
  end.

Definition initialize (self : Connection) (server_capabilities : Value) (events : list Event) :
    St (poll (result ProtocolError Value) * Connection * list Event) :=
  '(r, self, events) ← initialize_start self events;
  match r with
  | Ready (Ok (id, params)) =>
    let initialize_result := VObject [("capabilities", server_capabilities)] in
    '(r, self, events) ← initialize_finish self id initialize_result events;
    mret (match r with
          | Ready (Ok _) => Ready (Ok params)
          | Ready (Err e) => Ready (Err e)
          | Ready Panic => Ready Panic
          | Pending => Pending
          end, self, events)
  | Ready (Err e) => mret (Ready (Err e), self, events)
  | Ready Panic => mret (Ready Panic, self, events)
  | Pending => mret (Pending, self, events)
  end.

(** ** Shutdown and exit *)

Definition handle_shutdown (self : Connection) (id : RequestId) :
    St (result ProtocolError unit * Connection) :=
  on_tokens (λ s, ((), token_cancel (shutdown_token self) s));;
  let self := with_lifecycle ShuttingDown self in
  r ← send self (MResponse (Response_ok id VNull));
  mret (map_err ProtocolIo r, self).

Definition handle_exit (self : Connection) : ExitCode * Connection :=
  let was_shutting_down := bool_decide (lifecycle_state self = ShuttingDown) in
  (if was_shutting_down then ExitSuccess else ExitError, with_lifecycle Exited self).

Definition is_running (self : Connection) : bool := bool_decide (lifecycle_state self = Running).

Definition is_shutting_down (self : Connection) : bool :=
  bool_decide (lifecycle_state self = ShuttingDown).

(** ** A request on the connection itself *)

Definition send_request_step (id : RequestId) : step_of (result ProtocolError Response) :=
  λ self item,
  match item with
  | Some (Ok (MResponse resp)) =>
    if bool_decide (resp_id resp = Some id) then mret (Some (Ok resp), self) else mret (None, self)
  | Some (Ok _) => mret (None, self)
  | Some (Err e) => mret (Some (Err (ProtocolIo e)), self)
  | Some Panic => mret (Some Panic, self)
  | None => mret (Some (Err Disconnected), self)
  end.

Definition send_request (self : Connection) (id : RequestId) (method : string)
    (params : option Value) (events : list Event) :
    St (poll (result ProtocolError Response) * Connection * list Event) :=
  r ← send self (MRequest (Request_new id method params));
  match r with
  | Ok _ => timeout_loop (Err RequestTimeout) (send_request_step id) self events
  | Err e => mret (Ready (Err (ProtocolIo e)), self, events)
  | Panic => mret (Ready Panic, self, events)
  end.
End connection.

(** ** The invariant of a connection *)

(** Unfolds the actions of the [World] monad. *)
Ltac run_st :=
  unfold mret, mbind, fmap, St_ret, St_bind, St_fmap, send_outbound, on_tokens, on_channels,
    on_outbound, get_map, set_map, new_map, new_counter, fetch_update in *; cbn beta iota zeta in *.

Section invariant.
Context `{TK : Tokio} {TL : TokioLaws TK}.

(** The response map of the client senders, empty when there is none. *)
Definition response_table (self : Connection) (w : World) : gmap RequestId Channel :=
  match conn_response_map self with
  | Some map => default ∅ (w_maps w !! rm_pending map)
  | None => ∅
  end.

Definition outgoing_table (self : Connection) : gmap RequestId Channel :=
  out_pending (outgoing (request_queue self)).

Definition incoming_table (self : Connection) : gmap RequestId Token :=
  in_pending (incoming (request_queue self)).

(** Both tables of senders are good and share no channel; the response map is
    allocated; every incoming request has a token of its own, a child of the
    connection's shutdown token, but for the ids of [own], under which the caller
    registered a token itself. *)
Record conn_good (own : RequestId → Prop) (self : Connection) (w : World) : Prop := {
  ok_outgoing : pending_ok (outgoing_table self) (w_channels w);
  ok_response : pending_ok (response_table self w) (w_channels w);
  ok_disjoint : ∀ i j c, outgoing_table self !! i = Some c → response_table self w !! j ≠ Some c;
  ok_map : ∀ map, conn_response_map self = Some map → rm_pending map < length (w_maps w);
  ok_shutdown : lineage (w_tokens w) (shutdown_token self) = Some [shutdown_token self];
  ok_incoming : ∀ id t, incoming_table self !! id = Some t → ¬ own id →
    t ≠ shutdown_token self ∧ lineage (w_tokens w) t = Some [t; shutdown_token self];
  ok_distinct : ∀ i j t, incoming_table self !! i = Some t → incoming_table self !! j = Some t →
    ¬ own i → ¬ own j → i = j;
}.

Arguments ok_outgoing {own} self w _.
Arguments ok_response {own} self w _.
Arguments ok_disjoint {own} self w _.
Arguments ok_map {own} self w _.
Arguments ok_shutdown {own} self w _.
Arguments ok_incoming {own} self w _.
Arguments ok_distinct {own} self w _.

(** Every incoming request came by [route]. *)
Definition conn_ok : Connection → World → Prop := conn_good (λ _, False).

Lemma conn_good_mono (own own' : RequestId → Prop) self w :
  (∀ i, own i → own' i) → conn_good own self w → conn_good own' self w.
Proof. intros Hsub []. split; try done; naive_solver. Qed.

(** Nothing is said about the incoming requests. *)
Definition tables_ok : Connection → World → Prop := conn_good (λ _, True).

Lemma conn_ok_tables self w : conn_ok self w → tables_ok self w.
Proof. by apply conn_good_mono. Qed.

(** What an action that is about tokens leaves alone. *)
Definition same_but_tokens (w w' : World) : Prop :=
  w_channels w' = w_channels w ∧ w_maps w' = w_maps w ∧ w_outbound w' = w_outbound w.

Lemma conn_ok_tokens {own} self self' w w' :
  conn_good own self w → w_channels w' = w_channels w → w_maps w' = w_maps w →
  outgoing_table self' = outgoing_table self →
  conn_response_map self' = conn_response_map self →
  shutdown_token self' = shutdown_token self →
  incoming_table self' = incoming_table self →
  (∀ t l, lineage (w_tokens w) t = Some l → lineage (w_tokens w') t = Some l) →
  conn_good own self' w'.
Proof.
  intros [] Hc Hm Ho Hr Hs Hi Hl.
  assert (response_table self' w' = response_table self w) as Ht
    by (unfold response_table; by rewrite Hr, Hm).
  split; rewrite ?Ht, ?Hc, ?Ho, ?Hr, ?Hm, ?Hi, ?Hs; try done; [by apply Hl|].
  intros id t Hid Hown. destruct (ok_incoming0 _ _ Hid Hown). split; [done|by apply Hl].
Qed.

Lemma conn_good_register {own} self w id token s :
  conn_good own self w → child_token (shutdown_token self) (w_tokens w) = (token, s) →
  conn_good (λ i, own i ∧ i ≠ id)
    (with_incoming (IncomingRequests_register id token (incoming (request_queue self))) self)
    (with_tokens s w).
Proof.
  intros [Ho Hr Hd Hm Hs Hi Hdi] Hc.
  destruct (child_token_law _ _ _ _ _ Hs Hc) as (Hnone & Hnew & _ & Hframe).
  assert (∀ t l', lineage (w_tokens w) t = Some l' → t ≠ token ∧ lineage s t = Some l') as Hne.
  { intros t l' Ht. assert (t ≠ token) as Hne by congruence. split; [done|]. rewrite <-Ht. by apply Hframe. }
  assert (∀ i, id ≠ i → ¬ (own i ∧ i ≠ id) → ¬ own i) as Hown by naive_solver.
  assert (∀ i t, incoming_table self !! i = Some t → ¬ own i → t ≠ token) as Hold.
  { intros i t Ht Hn. eapply Hne. by apply (Hi i). }
  split; try done; [by apply Hne| |];
    change (incoming_table _) with (<[id := token]> (incoming_table self)).
  - intros i t [[<- <-]|[Hii Ht]]%lookup_insert_Some Hn.
    + split; [|done]. symmetry. by eapply Hne.
    + destruct (Hi _ _ Ht); [by apply Hown|]. split; [done|by apply Hne].
  - intros i j t [[<- <-]|[Hii Ht]]%lookup_insert_Some [[<- Hj]|[Hjj Hj]]%lookup_insert_Some Hni Hnj; try done.
    + apply Hold in Hj; [done|by apply Hown].
    + subst. apply Hold in Ht; [done|by apply Hown].
    + eapply Hdi; try done; by apply Hown.
Qed.

(** The caller registers a token of its own. *)
Lemma conn_good_own {own} self w id token :
  conn_good own self w →
  conn_good (λ i, own i ∨ i = id)
    (with_incoming (IncomingRequests_register id token (incoming (request_queue self))) self) w.
Proof.
  intros [Ho Hr Hd Hm Hs Hi Hdi].
  assert (∀ i t, <[id := token]> (incoming_table self) !! i = Some t → ¬ (own i ∨ i = id) →
    incoming_table self !! i = Some t ∧ ¬ own i) as Hold.
  { intros i t [[<- <-]|[_ Ht]]%lookup_insert_Some; naive_solver. }
  split; try done; change (incoming_table _) with (<[id := token]> (incoming_table self)).
  - intros i t Ht Hn. destruct (Hold _ _ Ht Hn). by apply (Hi i).
  - intros i j t Ht Hj Hni Hnj. destruct (Hold _ _ Ht Hni), (Hold _ _ Hj Hnj). by eapply Hdi.
Qed.

(** C19: an incoming request is routed with a fresh token, a child of the shutdown
    token and cancelled from the start iff the connection is shutting down, and is
    registered under its id; nothing else changes: of the connection the table of
    incoming requests at that id, of the world the new token. *)
Theorem route_request self w req m self' w' :
  conn_ok self w → route self (MRequest req) w = ((m, self'), w') →
  conn_ok self' w' ∧
  self' = with_incoming (incoming (request_queue self')) self ∧ w' = with_tokens (w_tokens w') w ∧
  ∃ token, m = InRequest req token ∧
    incoming_table self' = <[req_id req := token]> (incoming_table self) ∧
    lineage (w_tokens w) token = None ∧
    lineage (w_tokens w') token = Some [token; shutdown_token self] ∧
    is_cancelled (w_tokens w') token = is_cancelled (w_tokens w) (shutdown_token self) ∧
    (∀ id t, incoming_table self !! id = Some t → t ≠ token) ∧
    (∀ t, t ≠ token → lineage (w_tokens w') t = lineage (w_tokens w) t ∧
       is_cancelled (w_tokens w') t = is_cancelled (w_tokens w) t).
Proof.
  intros Hok. unfold route. run_st.
  destruct (child_token (shutdown_token self) (w_tokens w)) as [token s] eqn:Hc.
  intros [= <- <- <-].
  destruct (child_token_law _ _ _ _ _ (ok_shutdown _ _ Hok) Hc) as (Hnone & Hnew & Hcanc & Hframe).
  split_and!; try done.
  { eapply conn_good_mono; [|by eapply conn_good_register]. by intros i []. }
  exists token. split_and!; try done. intros id t Ht.
  destruct (ok_incoming _ _ Hok _ _ Ht (λ f, f)) as [_ Hl]. congruence.
Qed.

Lemma conn_ok_token_cancel {own} self self' w t :
  conn_good own self w → request_queue self' = request_queue self →
  shutdown_token self' = shutdown_token self → conn_response_map self' = conn_response_map self →
  conn_good own self' (with_tokens (token_cancel t (w_tokens w)) w).
Proof.
  intros Hok Hq Hs Hm. eapply (conn_ok_tokens self); try done;
    try (unfold outgoing_table, incoming_table; by rewrite Hq).
  intros u l Hu. by apply token_cancel_law.
Qed.

(** Cancelling tokens keeps the invariant, and tokens that are cancelled cancelled;
    the token of a request that came by [route] is cancelled when the shutdown token
    is. *)
Lemma cancel_in_good {own} self w id b w' :
  conn_good own self w → cancel_in self id w = (b, w') →
  conn_good own self w' ∧ same_but_tokens w w' ∧
  (is_cancelled (w_tokens w) (shutdown_token self) = true →
   is_cancelled (w_tokens w') (shutdown_token self) = true) ∧
  ∀ i t, incoming_table self !! i = Some t → ¬ own i →
    (is_cancelled (w_tokens w) (shutdown_token self) = true → is_cancelled (w_tokens w) t = true) →
    is_cancelled (w_tokens w') (shutdown_token self) = true → is_cancelled (w_tokens w') t = true.
Proof.
  intros Hok. unfold cancel_in, IncomingRequests_cancel. run_st.
  destruct (in_pending (incoming (request_queue self)) !! id) as [tok|];
    intros [= <- <-]; cbn [w_tokens with_tokens].
  - pose proof (token_cancel_law _ tok _ _ (ok_shutdown _ _ Hok)) as [_ Hsd].
    split_and!; [by eapply conn_ok_token_cancel|done|rewrite Hsd; by intros ->|].
    intros i t Ht Hn Hold. destruct (ok_incoming _ _ Hok _ _ Ht Hn) as [_ Hl].
    rewrite Hsd, (proj2 (token_cancel_law _ tok _ _ Hl)). intros [H|H]%orb_true_iff.
    + by rewrite Hold.
    + apply bool_decide_eq_true, list_elem_of_singleton in H as ->.
      rewrite bool_decide_eq_true_2; [by rewrite orb_true_r|]. apply list_elem_of_further, list_elem_of_here.
  - split_and!; [by destruct w|done|done|]. intros i t _ _ Hold. exact Hold.
Qed.

(** [cancel_in] cancels the token of the id and no other request's. *)
Lemma cancel_in_law self w id b w' :
  conn_ok self w → cancel_in self id w = (b, w') →
  conn_ok self w' ∧ same_but_tokens w w' ∧
  b = IncomingRequests_is_pending id (incoming (request_queue self)) ∧
  (b = false → w' = w) ∧
  is_cancelled (w_tokens w') (shutdown_token self) = is_cancelled (w_tokens w) (shutdown_token self) ∧
  ∀ i t, incoming_table self !! i = Some t →
    is_cancelled (w_tokens w') t = is_cancelled (w_tokens w) t || bool_decide (i = id).
Proof.
  intros Hok. unfold cancel_in, IncomingRequests_cancel, IncomingRequests_is_pending. run_st.
  destruct (in_pending (incoming (request_queue self)) !! id) as [tok|] eqn:Htok; intros [= <- <-]; cbn [w_tokens with_tokens].
  - split_and!; try done; [by eapply conn_ok_token_cancel| |].
    + destruct (ok_incoming _ _ Hok _ _ Htok (λ f, f)) as [Hne _].
      rewrite (proj2 (token_cancel_law _ _ _ _ (ok_shutdown _ _ Hok))).
      rewrite bool_decide_eq_false_2; [by rewrite orb_false_r|]. by rewrite list_elem_of_singleton.
    + intros i t Ht. destruct (ok_incoming _ _ Hok _ _ Ht (λ f, f)) as [_ Hl].
      rewrite (proj2 (token_cancel_law _ tok _ _ Hl)). f_equal. apply bool_decide_ext.
      destruct (ok_incoming _ _ Hok _ _ Htok (λ f, f)) as [Hne _].
      rewrite elem_of_cons, list_elem_of_singleton. split; [|intros ->; left; unfold incoming_table in Ht; congruence].
      intros [->|?]; [exact (ok_distinct _ _ Hok _ _ _ Ht Htok (λ f, f) (λ f, f))|done].
  - split_and!; try done; [by destruct w|by destruct w|]. intros i t Ht.
    rewrite bool_decide_eq_false_2, orb_false_r; [done|]. intros ->. unfold incoming_table in Ht. congruence.
Qed.

(** A cancel notification for a pending request cancels the token of that
    request and of no other; for an unknown id it does nothing.  Either way the
    notification is handled, the request stays registered until it is completed,
    and a malformed notification is left to the caller as it came. *)
Theorem route_cancel self w notif m self' w' :
  conn_ok self w → notif_method notif = CANCEL_REQUEST_METHOD →
  route self (MNotification notif) w = ((m, self'), w') →
  conn_ok self' w' ∧ same_but_tokens w w' ∧ self' = self ∧
  match parse_cancel_params (notif_params notif) with
  | None => m = InNotification notif ∧ w' = w
  | Some id =>
    m = CancelHandled ∧ (incoming_table self !! id = None → w' = w) ∧
    ∀ i t, incoming_table self !! i = Some t →
      is_cancelled (w_tokens w') t = is_cancelled (w_tokens w) t || bool_decide (i = id)
  end.
Proof.
  intros Hok Hmeth. unfold route. rewrite bool_decide_eq_true_2 by done.
  destruct (parse_cancel_params (notif_params notif)) as [id|].
  2: { run_st. by intros [= <- <- <-]. }
  unfold mbind, St_bind. destruct (cancel_in self id w) as [b w1] eqn:Hc.
  intros [= <- <- <-]. destruct (cancel_in_law _ _ _ _ _ Hok Hc) as (Hok' & Hsame & -> & Hno & _ & Hcanc).
  split_and!; try done. intros Hnone. apply Hno. by apply bool_decide_eq_false, eq_None_not_Some.
Qed.

Lemma deliver_to_map_run self id r w :
  deliver_to_map self id r w =
  match response_table self w !! id with
  | Some tx =>
    (true, with_channels (oneshot_send tx r (w_channels w)).2
             (with_maps (match conn_response_map self with
                         | Some map => <[rm_pending map := delete id (response_table self w)]> (w_maps w)
                         | None => w_maps w
                         end) w))
  | None => (false, w)
  end.
Proof.
  unfold deliver_to_map, response_table. destruct (conn_response_map self) as [map|].
  2: { run_st. by rewrite lookup_empty. }
  unfold ResponseMap_contains. run_st. pose proof (ResponseMap_deliver_run map id r w) as Hd.
  unfold map_at in Hd. by destruct (default ∅ (w_maps w !! rm_pending map) !! id).
Qed.

(** [route] locks the map twice, and other tasks may run in between, from [w] to [w'].
    It is as if it had run at once: after the second lock if the first one found the
    id, before the other tasks if not. *)
Lemma deliver_to_map_split self map id r w w' :
  conn_response_map self = Some map →
  ((ResponseMap_contains map id w).1 = true → ResponseMap_deliver map id r w' = deliver_to_map self id r w') ∧
  ((ResponseMap_contains map id w).1 = false → deliver_to_map self id r w = (false, w)).
Proof.
  intros Hmap. unfold deliver_to_map. rewrite Hmap. unfold ResponseMap_contains. run_st. cbn [fst]. split.
  - intros _. case_bool_decide as Hin'; [done|].
    rewrite ResponseMap_deliver_run. unfold map_at. by rewrite (proj2 (eq_None_not_Some _) Hin').
  - by intros ->.
Qed.

(** The response reached the receiver of the channel, if it still listens, and
    nobody else. *)
Definition delivered (w w' : World) (c : Channel) (r : Response) : Prop :=
  (∃ ra, channel_state (w_channels w) c = Some (channel_view_new true ra None) ∧
         channel_state (w_channels w') c =
           Some (channel_view_new false ra (if ra then Some r else None))) ∧
  frame_but (eq c) (w_channels w) (w_channels w').

(** Replacing the channels and the tables keeps the invariant when both tables
    stay good and lose entries only. *)
Lemma conn_ok_channels {own} self self' w s ms :
  conn_good own self w →
  incoming_table self' = incoming_table self → shutdown_token self' = shutdown_token self →
  conn_response_map self' = conn_response_map self → length ms = length (w_maps w) →
  let w' := with_channels s (with_maps ms w) in
  pending_ok (outgoing_table self') s → pending_ok (response_table self' w') s →
  outgoing_table self' ⊆ outgoing_table self → response_table self' w' ⊆ response_table self w →
  conn_good own self' w'.
Proof.
  intros [Ho Hr Hd Hm Hs Hi Hdi] Ei Es Em Elen w' Hpo Hpr Hso Hsr.
  split; rewrite ?Ei, ?Es, ?Em; try done.
  - intros i j c Hc Hc'. eapply (Hd i j c); eapply lookup_weaken; done.
  - intros map Hmap. cbn. rewrite Elen. by apply Hm.
Qed.

Lemma response_table_insert self map m s ms w :
  conn_response_map self = Some map → rm_pending map < length ms →
  response_table self (with_channels s (with_maps (<[rm_pending map := m]> ms) w)) = m.
Proof. intros Hmap Hlt. unfold response_table. rewrite Hmap. cbn. by rewrite list_lookup_insert_eq. Qed.

Lemma deliver_to_map_law {own} self w id c r :
  conn_good own self w → response_table self w !! id = Some c →
  let '(b, w') := deliver_to_map self id r w in
  b = true ∧ conn_good own self w' ∧ w_tokens w' = w_tokens w ∧ w_outbound w' = w_outbound w ∧
  delivered w w' c r ∧ response_table self w' = delete id (response_table self w).
Proof.
  intros Hok Hc. rewrite deliver_to_map_run, Hc.
  destruct (conn_response_map self) as [map|] eqn:Hmap; [|by unfold response_table in Hc; rewrite Hmap in Hc].
  destruct (oneshot_send c r (w_channels w)) as [x s] eqn:Hs. cbn [snd].
  destruct (deliver_law _ _ _ _ _ _ _ (ok_response _ _ Hok) Hc Hs) as (Hok' & Hv & Hf).
  pose proof (ok_map _ _ Hok _ Hmap) as Hlt.
  pose proof (response_table_insert self map (delete id (response_table self w)) s _ w Hmap Hlt) as Ht.
  split_and!; try done. eapply (conn_ok_channels self); rewrite ?Ht; try done.
  - by rewrite length_insert.
  - eapply pending_ok_frame; [exact Hf| |apply (ok_outgoing _ _ Hok)]. intros i d Hd <-.
    by eapply ok_disjoint.
  - apply delete_subseteq.
Qed.

Lemma complete_law {own} self w id c r :
  conn_good own self w → outgoing_table self !! id = Some c →
  let s := (oneshot_send c r (w_channels w)).2 in
  let self' := with_outgoing {| out_pending := delete id (outgoing_table self) |} self in
  let w' := with_channels s w in
  conn_good own self' w' ∧ delivered w w' c r ∧ response_table self' w' = response_table self w.
Proof.
  intros Hok Hc. destruct (oneshot_send c r (w_channels w)) as [x s] eqn:Hs. cbv zeta. cbn [snd].
  destruct (deliver_law _ _ _ _ _ _ _ (ok_outgoing _ _ Hok) Hc Hs) as (Hok' & Hv & Hf).
  split_and!; try done.
  apply (conn_ok_channels self _ w s (w_maps w)); try done; [|apply delete_subseteq].
  eapply pending_ok_frame; [exact Hf| |apply (ok_response _ _ Hok)]. intros i d Hd <-.
  by eapply ok_disjoint.
Qed.

(** Routing a response touches no token and no incoming request. *)
Lemma route_response_tokens self w resp m self' w' :
  route self (MResponse resp) w = ((m, self'), w') →
  w_tokens w' = w_tokens w ∧ shutdown_token self' = shutdown_token self ∧
  incoming_table self' = incoming_table self.
Proof.
  unfold route. destruct (resp_id resp) as [id|].
  2: { run_st. by intros [= <- <- <-]. }
  unfold mbind at 1, St_bind. rewrite deliver_to_map_run.
  destruct (response_table self w !! id) as [c|]; [run_st; by intros [= <- <- <-]|].
  destruct (OutgoingRequests_is_pending _ _); run_st; [|by intros [= <- <- <-]].
  unfold OutgoingRequests_complete. destruct (out_pending _ !! id) as [tx|].
  - destruct (oneshot_send _ _ _) as [x s]. by intros [= <- <- <-].
  - by intros [= <- <- <-].
Qed.

(** Routing a response keeps the invariant. *)
Lemma route_response_keeps {own} self w resp m self' w' :
  conn_good own self w → route self (MResponse resp) w = ((m, self'), w') → conn_good own self' w'.
Proof.
  intros Hok. unfold route. destruct (resp_id resp) as [id|]; cbn [mbind option_bind].
  2: { run_st. by intros [= <- <- <-]. }
  unfold mbind at 1, St_bind. destruct (response_table self w !! id) as [c|] eqn:Hc.
  - pose proof (deliver_to_map_law _ _ _ _ resp Hok Hc) as Hd.
    destruct (deliver_to_map self id resp w) as [b w1]. destruct Hd as (-> & ? & _).
    run_st. by intros [= <- <- <-].
  - rewrite deliver_to_map_run, Hc. unfold OutgoingRequests_is_pending, OutgoingRequests_complete.
    change (out_pending (outgoing (request_queue self))) with (outgoing_table self).
    destruct (outgoing_table self !! id) as [c|] eqn:Ho.
    2: { run_st. by intros [= <- <- <-]. }
    rewrite bool_decide_eq_true_2 by done. run_st.
    pose proof (complete_law _ _ _ _ resp Hok Ho) as Hlaw. cbv zeta in Hlaw.
    destruct (oneshot_send c resp (w_channels w)) as [x s] eqn:Hs. destruct Hlaw as [? _].
    by intros [= <- <- <-].
Qed.

(** C13: a response is given to the one request that waits for its id: a request
    of a client sender first, else a request of the queue, whose entry is removed;
    a response with no id or that nobody waits for is returned to the caller and
    changes nothing. *)
Theorem route_response self w resp m self' w' :
  conn_ok self w → route self (MResponse resp) w = ((m, self'), w') →
  conn_ok self' w' ∧ w_tokens w' = w_tokens w ∧ w_outbound w' = w_outbound w ∧
  match (id ← resp_id resp; response_table self w !! id), (id ← resp_id resp; outgoing_table self !! id) with
  | Some c, _ =>
    m = ResponseRouted ∧ self' = self ∧ delivered w w' c resp ∧
    ∀ id, resp_id resp = Some id → response_table self' w' = delete id (response_table self w)
  | None, Some c =>
    m = ResponseRouted ∧ delivered w w' c resp ∧ response_table self' w' = response_table self w ∧
    ∀ id, resp_id resp = Some id → outgoing_table self' = delete id (outgoing_table self)
  | None, None => m = ResponseUnknown resp ∧ self' = self ∧ w' = w
  end.
Proof.
  intros Hok. unfold route. destruct (resp_id resp) as [id|]; cbn [mbind option_bind].
  2: { run_st. by intros [= <- <- <-]. }
  unfold mbind at 1, St_bind. destruct (response_table self w !! id) as [c|] eqn:Hc.
  - pose proof (deliver_to_map_law _ _ _ _ resp Hok Hc) as Hd.
    destruct (deliver_to_map self id resp w) as [b w1]. destruct Hd as (-> & ? & ? & ? & ? & ?).
    run_st. intros [= <- <- <-]. split_and!; try done. by intros ? [= <-].
  - rewrite deliver_to_map_run, Hc. unfold OutgoingRequests_is_pending, OutgoingRequests_complete.
    change (out_pending (outgoing (request_queue self))) with (outgoing_table self).
    destruct (outgoing_table self !! id) as [c|] eqn:Ho.
    2: { run_st. by intros [= <- <- <-]. }
    rewrite bool_decide_eq_true_2 by done. run_st.
    pose proof (complete_law _ _ _ _ resp Hok Ho) as Hlaw. cbv zeta in Hlaw.
    destruct (oneshot_send c resp (w_channels w)) as [x s] eqn:Hs. destruct Hlaw as (? & ? & ?).
    intros [= <- <- <-]. split_and!; try done. by intros ? [= <-].
Qed.
End invariant.

Arguments ok_outgoing {TK TL own} self w _.
Arguments ok_response {TK TL own} self w _.
Arguments ok_disjoint {TK TL own} self w _.
Arguments ok_map {TK TL own} self w _.
Arguments ok_shutdown {TK TL own} self w _.
Arguments ok_incoming {TK TL own} self w _.
Arguments ok_distinct {TK TL own} self w _.
