(* ===== verification/Handshake.v ===== *)
(** * Handshake: initialization, shutdown and exit of a connection.

    The theorems about the loops of [initialize_start], [initialize_finish] and
    [initialize]: which events decide their result, what is answered to the
    others, and what a task that shuts down leaves behind. *)

From S2P Require Import Prelude RustStd Serde RequestId Error Message Tokio World RequestQueue Io Lifecycle Routing ClientSender Connection.

Section handshake.
Context `{TK : Tokio} {TL : TokioLaws TK}.

(** The second world is the first one after some messages were queued. *)
Record sends (w : World) (ms : list Message) (w' : World) : Prop := {
  sends_queued : queued (w_outbound w') = queued (w_outbound w) ++ ms;
  sends_open : receiver_open (w_outbound w') = receiver_open (w_outbound w);
  sends_tokens : w_tokens w' = w_tokens w;
  sends_channels : w_channels w' = w_channels w;
  sends_maps : w_maps w' = w_maps w;
  sends_counters : w_counters w' = w_counters w;
}.

Lemma sends_nil w : sends w [] w.
Proof. split; try done. by rewrite app_nil_r. Qed.

Lemma sends_app w1 w2 w3 ms1 ms2 : sends w1 ms1 w2 → sends w2 ms2 w3 → sends w1 (ms1 ++ ms2) w3.
Proof. intros [] []. split; try congruence. by rewrite app_assoc; congruence. Qed.

Definition broken_pipe : io_error := io_error_new BrokenPipe (IoMsg "connection closed").

Lemma send_open self m w :
  receiver_open (w_outbound w) = true →
  ∃ w', send self m w = (Ok (), w') ∧ sends w [m] w'.
Proof.
  intros Ho. unfold send. run_st. pose proof (unbounded_send_law m (w_outbound w)) as Hs.
  destruct (unbounded_send_queue m (w_outbound w) Ho) as [Hq Ho'].
  rewrite Ho in Hs. rewrite Hs. eexists. split; [done|]. split; cbn; congruence.
Qed.

Lemma send_closed self m w :
  receiver_open (w_outbound w) = false → send self m w = (Err broken_pipe, w).
Proof.
  intros Ho. unfold send. run_st. pose proof (unbounded_send_law m (w_outbound w)) as Hs.
  rewrite Ho in Hs. rewrite Hs. by destruct w.
Qed.

(** What is answered to an item that a loop passes over: a request is rejected. *)
Definition reply (e : Event) : list Message :=
  match e with
  | Received (Some (Ok (MRequest req))) => [MResponse (not_initialized_response (req_id req))]
  | _ => []
  end.

Definition replies (events : list Event) : list Message := concat (reply <$> events).

(** A loop passes over an event when its body goes on, having answered it. *)
Definition passes {R} (step : step_of R) (self : Connection) (answer : Event → list Message)
    (e : Event) : Prop :=
  match e with
  | Elapsed => False
  | Received item => ∀ w, receiver_open (w_outbound w) = true →
      ∃ w', step self item w = ((None, self), w') ∧ sends w (answer e) w'
  end.

Lemma loop_passes {R} (loop : list Event → St (poll R * Connection * list Event))
    (step : step_of R) self answer :
  (∀ item events w w', step self item w = ((None, self), w') →
     loop (Received item :: events) w = loop events w') →
  ∀ pre w, receiver_open (w_outbound w) = true → Forall (passes step self answer) pre →
  ∃ w', sends w (concat (answer <$> pre)) w' ∧ ∀ post, loop (pre ++ post) w = loop post w'.
Proof.
  intros Hloop pre w Ho Hpre. revert w Ho.
  induction Hpre as [|e pre He _ IH]; intros w Ho; [by exists w; eauto using sends_nil|].
  destruct e as [item|]; [|done]. destruct (He w Ho) as (w1 & Hstep & Hs1).
  destruct (IH w1) as (w2 & Hs2 & Hl2); [by rewrite (sends_open _ _ _ Hs1)|].
  exists w2. split; [rewrite fmap_cons; by eapply sends_app|].
  intros post. cbn [app]. by rewrite (Hloop _ _ _ _ Hstep).
Qed.

Lemma timeout_loop_passes {R} (elapsed : R) (step : step_of R) self answer pre w :
  receiver_open (w_outbound w) = true → Forall (passes step self answer) pre →
  ∃ w', sends w (concat (answer <$> pre)) w' ∧
    ∀ post, timeout_loop elapsed step self (pre ++ post) w = timeout_loop elapsed step self post w'.
Proof.
  apply loop_passes. intros item events w1 w2 Hs. cbn [timeout_loop].
  unfold mbind, St_bind. by rewrite Hs.
Qed.

Lemma receive_loop_passes {R} (step : step_of R) self answer pre w :
  receiver_open (w_outbound w) = true → Forall (passes step self answer) pre →
  ∃ w', sends w (concat (answer <$> pre)) w' ∧
    ∀ post, receive_loop step self (pre ++ post) w = receive_loop step self post w'.
Proof.
  apply loop_passes. intros item events w1 w2 Hs. cbn [receive_loop].
  unfold mbind, St_bind. by rewrite Hs.
Qed.

(** ** Initialization *)

(** The events [initialize_start] passes over, and those that decide it. *)
Definition start_passed (e : Event) : Prop :=
  match e with
  | Received (Some (Ok (MRequest req))) => req_method req ≠ INITIALIZE_METHOD
  | Received (Some (Ok (MNotification n))) => notif_method n ≠ EXIT_METHOD
  | Received (Some (Ok (MResponse _))) => True
  | _ => False
  end.

Inductive start_decides :
    option (result io_error Message) → result ProtocolError (RequestId * Value) → Prop :=
| start_initialize req : req_method req = INITIALIZE_METHOD →
    start_decides (Some (Ok (MRequest req))) (Ok (req_id req, default VNull (req_params req)))
| start_exit n : notif_method n = EXIT_METHOD →
    start_decides (Some (Ok (MNotification n))) (Err Disconnected)
| start_error e : start_decides (Some (Err e)) (Err (ProtocolIo e))
| start_end : start_decides None (Err Disconnected).

Lemma start_complete item :
  item ≠ Some Panic → start_passed (Received item) ∨ ∃ r, start_decides item r.
Proof.
  destruct item as [[[req|resp|n]|e|]|]; intros Hp; try done; try (by left);
    try (right; by eauto using start_decides).
  - destruct (decide (req_method req = INITIALIZE_METHOD)); [right; eauto using start_decides|by left].
  - destruct (decide (notif_method n = EXIT_METHOD)); [right; eauto using start_decides|by left].
Qed.

Lemma reject_passes {R} (self : Connection) id w :
  receiver_open (w_outbound w) = true →
  ∃ w', reject (R := R) self id w = ((None, self), w') ∧
        sends w [MResponse (not_initialized_response id)] w'.
Proof.
  intros Ho. unfold reject.
  destruct (send_open self (MResponse (not_initialized_response id)) w Ho) as (w' & Hs & ?).
  exists w'. unfold mbind, St_bind. by rewrite Hs.
Qed.

Lemma start_passed_passes self e : start_passed e → passes initialize_start_step self reply e.
Proof.
  destruct e as [[[[req|resp|n]|e|]|]|]; cbn [start_passed passes]; try done; intros Hp w Ho;
    cbn [initialize_start_step reply].
  - rewrite bool_decide_eq_false_2 by done. by apply reject_passes.
  - exists w. split; [done|apply sends_nil].
  - rewrite bool_decide_eq_false_2 by done. exists w. split; [done|apply sends_nil].
Qed.

Lemma start_decides_step self item r w :
  start_decides item r →
  initialize_start_step self item w =
  ((Some r, if is_Ok r then with_lifecycle Initializing self else self), w).
Proof. intros []; cbn [initialize_start_step is_Ok]; by rewrite ?bool_decide_eq_true_2. Qed.

Lemma receive_loop_start self item r post w :
  start_decides item r →
  receive_loop initialize_start_step self (Received item :: post) w =
  ((Ready r, if is_Ok r then with_lifecycle Initializing self else self, post), w).
Proof.
  intros Hd. cbn [receive_loop]. unfold mbind, St_bind. by rewrite (start_decides_step _ _ _ _ Hd).
Qed.

(** Before [initialize], requests are rejected with ServerNotInitialized in the
    order they come, other messages are dropped, and the first [initialize] request,
    [exit] notification, stream error or end of the stream decides the result; only
    the request moves the connection to Initializing.  Until then the task waits. *)
Theorem initialize_start_spec self w pre :
  receiver_open (w_outbound w) = true → Forall start_passed pre →
  ∃ w', sends w (replies pre) w' ∧
    initialize_start self pre w = ((Pending, self, []), w') ∧
    ∀ item r post, start_decides item r →
      initialize_start self (pre ++ Received item :: post) w =
      ((Ready r, if is_Ok r then with_lifecycle Initializing self else self, post), w').
Proof.
  intros Ho Hpre. assert (Forall (passes initialize_start_step self reply) pre) as Hpass.
  { eapply Forall_impl; [|exact Hpre]. apply start_passed_passes. }
  unfold initialize_start.
  destruct (receive_loop_passes initialize_start_step self reply pre w Ho Hpass) as (w' & Hs & Hl).
  exists w'. split_and!; [done|by rewrite <-(app_nil_r pre), Hl|].
  intros item r post Hd. rewrite Hl. by apply receive_loop_start.
Qed.

(** The events [initialize_finish] passes over, and those that decide it. *)
Definition finish_passed (e : Event) : Prop :=
  match e with
  | Received (Some (Ok (MNotification n))) => notif_method n ≠ INITIALIZED_METHOD
  | Received (Some (Ok _)) => True
  | _ => False
  end.

Inductive finish_decides : Event → result ProtocolError unit → Prop :=
| finish_initialized n : notif_method n = INITIALIZED_METHOD →
    finish_decides (Received (Some (Ok (MNotification n)))) (Ok ())
| finish_error e : finish_decides (Received (Some (Err e))) (Err (ProtocolIo e))
| finish_end : finish_decides (Received None) (Err Disconnected)
| finish_timeout : finish_decides Elapsed (Err InitializeTimeout).

Lemma finish_complete e :
  e ≠ Received (Some Panic) → finish_passed e ∨ ∃ r, finish_decides e r.
Proof.
  destruct e as [[[[req|resp|n]|e|]|]|]; intros Hp; try done; try (by left);
    try (right; by eauto using finish_decides).
  destruct (decide (notif_method n = INITIALIZED_METHOD)); [right; eauto using finish_decides|by left].
Qed.

Lemma finish_passed_passes self e : finish_passed e → passes initialize_finish_step self reply e.
Proof.
  destruct e as [[[[req|resp|n]|e|]|]|]; cbn [finish_passed passes]; try done; intros Hp w Ho;
    cbn [initialize_finish_step reply].
  - by apply reject_passes.
  - exists w. split; [done|apply sends_nil].
  - rewrite bool_decide_eq_false_2 by done. exists w. split; [done|apply sends_nil].
Qed.

Lemma timeout_loop_finish self e r post w :
  finish_decides e r →
  timeout_loop (Err InitializeTimeout) initialize_finish_step self (e :: post) w =
  ((Ready r, if is_Ok r then with_lifecycle Running self else self, post), w).
Proof.
  intros []; cbn [timeout_loop initialize_finish_step is_Ok]; unfold mbind, St_bind;
    by rewrite ?bool_decide_eq_true_2.
Qed.

Lemma initialize_finish_run self id v w pre :
  receiver_open (w_outbound w) = true → Forall finish_passed pre →
  ∃ w', sends w (MResponse (Response_ok id v) :: replies pre) w' ∧
    initialize_finish self id v pre w = ((Pending, self, []), w') ∧
    ∀ e r post, finish_decides e r →
      initialize_finish self id v (pre ++ e :: post) w =
      ((Ready r, if is_Ok r then with_lifecycle Running self else self, post), w').
Proof.
  intros Ho Hpre. assert (Forall (passes initialize_finish_step self reply) pre) as Hpass.
  { eapply Forall_impl; [|exact Hpre]. apply finish_passed_passes. }
  destruct (send_open self (MResponse (Response_ok id v)) w Ho) as (w1 & Hsend & Hs1).
  destruct (timeout_loop_passes (Err InitializeTimeout) initialize_finish_step self reply pre w1)
    as (w' & Hs & Hl); [by rewrite (sends_open _ _ _ Hs1)|done|].
  assert (∀ events, initialize_finish self id v events w =
    timeout_loop (Err InitializeTimeout) initialize_finish_step self events w1) as Hrun.
  { intros events. unfold initialize_finish, mbind, St_bind. by rewrite Hsend. }
  exists w'. split_and!.
  - by apply (sends_app _ _ _ [_] _ Hs1).
  - by rewrite <-(app_nil_r pre), Hrun, Hl.
  - intros e r post Hd. rewrite Hrun, Hl. by apply timeout_loop_finish.
Qed.

Definition initialize_result_of (caps : Value) : Value := VObject [("capabilities", caps)].

Definition with_ok {E A B} (b : B) (r : result E A) : result E B := (λ _, b) <$> r.

Lemma initialize_run self caps w pre1 req pre2 :
  receiver_open (w_outbound w) = true → Forall start_passed pre1 →
  req_method req = INITIALIZE_METHOD → Forall finish_passed pre2 →
  ∃ w', sends w (replies pre1 ++
                 MResponse (Response_ok (req_id req) (initialize_result_of caps)) :: replies pre2) w' ∧
    ∀ e r post, finish_decides e r →
    initialize self caps (pre1 ++ Received (Some (Ok (MRequest req))) :: pre2 ++ e :: post) w =
    ((Ready (with_ok (default VNull (req_params req)) r),
      with_lifecycle (if is_Ok r then Running else Initializing) self, post), w').
Proof.
  intros Ho Hpre1 Hreq Hpre2.
  assert (Forall (passes initialize_start_step self reply) pre1) as Hpass.
  { eapply Forall_impl; [|exact Hpre1]. apply start_passed_passes. }
  destruct (receive_loop_passes initialize_start_step self reply pre1 w Ho Hpass) as (w1 & Hs1 & Hl1).
  destruct (initialize_finish_run (with_lifecycle Initializing self) (req_id req)
    (initialize_result_of caps) w1 pre2) as (w2 & Hs2 & _ & Hf); [by rewrite (sends_open _ _ _ Hs1)|done|].
  exists w2. split; [by eapply sends_app|].
  assert (∀ events, initialize_start self (pre1 ++ Received (Some (Ok (MRequest req))) :: events) w =
    ((Ready (Ok (req_id req, default VNull (req_params req))), with_lifecycle Initializing self, events), w1))
    as Hstart.
  { intros events. unfold initialize_start. rewrite Hl1.
    by apply (receive_loop_start _ _ _ _ _ (start_initialize req Hreq)). }
  intros e r post He. unfold initialize, mbind, St_bind. rewrite Hstart.
  change (VObject [("capabilities", caps)]) with (initialize_result_of caps). rewrite (Hf _ _ _ He).
  unfold mret, St_ret, with_ok. by destruct He.
Qed.

(** C17: a handshake from the first event to the last: requests that come before
    [initialize] and between [initialize] and [initialized] are rejected in order,
    the capabilities are sent once, in answer to the [initialize] request and before
    the later rejections, and the task returns the parameters of that request in
    state Running when [initialized] comes; an error, the end of the stream or the
    deadline after the answer ends it in state Initializing. *)
Theorem initialize_handshake self caps w pre1 req pre2 e r post :
  receiver_open (w_outbound w) = true → Forall start_passed pre1 →
  req_method req = INITIALIZE_METHOD → Forall finish_passed pre2 → finish_decides e r →
  ∃ w', sends w (replies pre1 ++
                 MResponse (Response_ok (req_id req) (initialize_result_of caps)) :: replies pre2) w' ∧
    initialize self caps (pre1 ++ Received (Some (Ok (MRequest req))) :: pre2 ++ e :: post) w =
    ((Ready (with_ok (default VNull (req_params req)) r),
      with_lifecycle (if is_Ok r then Running else Initializing) self, post), w').
Proof.
  intros Ho Hpre1 Hreq Hpre2 He.
  destruct (initialize_run self caps w pre1 req pre2) as (w' & Hs & Hrun); eauto.
Qed.

(** The lifecycle predicates say what the handshake does: before [initialize] the
    requests that are not allowed are exactly those that are rejected, and the
    notifications that are not allowed exactly those that are dropped; between
    [initialize] and [initialized] every request is rejected, and the notifications
    that are not allowed are exactly those that are dropped. *)
Theorem lifecycle_gates req n self w :
  receiver_open (w_outbound w) = true →
  (is_request_allowed Uninitialized (req_method req) = false ↔
   ∃ w', initialize_start self [Received (Some (Ok (MRequest req)))] w = ((Pending, self, []), w') ∧
         sends w [MResponse (not_initialized_response (req_id req))] w') ∧
  (is_notification_allowed Uninitialized (notif_method n) = false ↔
   initialize_start self [Received (Some (Ok (MNotification n)))] w = ((Pending, self, []), w)) ∧
  is_request_allowed Initializing (req_method req) = false ∧
  passes initialize_finish_step self reply (Received (Some (Ok (MRequest req)))) ∧
  (is_notification_allowed Initializing (notif_method n) = false ↔
   initialize_finish_step self (Some (Ok (MNotification n))) w = ((None, self), w)).
Proof.
  intros Ho. unfold is_request_allowed, is_notification_allowed, initialize_start.
  split_and!.
  - rewrite bool_decide_eq_false. cbn [receive_loop initialize_start_step]. unfold mbind, St_bind.
    change "initialize" with INITIALIZE_METHOD. split.
    + intros Hne. rewrite bool_decide_eq_false_2 by done.
      destruct (reject_passes (R := RequestId * Value) self (req_id req) w Ho) as (w' & Hr & Hs).
      exists w'. by rewrite Hr.
    + intros (w' & Hrun & _) E. by rewrite bool_decide_eq_true_2 in Hrun.
  - rewrite bool_decide_eq_false. cbn [receive_loop initialize_start_step]. unfold mbind, St_bind.
    change "exit" with EXIT_METHOD. split.
    + intros Hne. by rewrite bool_decide_eq_false_2.
    + intros Hrun E. by rewrite bool_decide_eq_true_2 in Hrun.
  - done.
  - by apply finish_passed_passes.
  - rewrite bool_decide_eq_false. cbn [initialize_finish_step].
    change "initialized" with INITIALIZED_METHOD. split.
    + intros Hne. by rewrite bool_decide_eq_false_2.
    + intros Hrun E. by rewrite bool_decide_eq_true_2 in Hrun.
Qed.

(** ** [send_request] *)

(** The events [send_request] discards, and those that decide it. *)
Definition discarded (id : RequestId) (e : Event) : Prop :=
  match e with
  | Received (Some (Ok (MResponse resp))) => resp_id resp ≠ Some id
  | Received (Some (Ok _)) => True
  | _ => False
  end.

Inductive answers (id : RequestId) : Event → result ProtocolError Response → Prop :=
| answer_response resp : resp_id resp = Some id → answers id (Received (Some (Ok (MResponse resp)))) (Ok resp)
| answer_error e : answers id (Received (Some (Err e))) (Err (ProtocolIo e))
| answer_end : answers id (Received None) (Err Disconnected)
| answer_timeout : answers id Elapsed (Err RequestTimeout).

Lemma discarded_passes self id e :
  discarded id e → passes (send_request_step id) self (λ _, []) e.
Proof.
  destruct e as [[[[req|resp|n]|e|]|]|]; cbn [discarded passes]; try done; intros Hd w Ho;
    cbn [send_request_step]; rewrite ?bool_decide_eq_false_2 by done;
    (exists w; split; [done|apply sends_nil]).
Qed.

(** C37: [send_request] sends one request and returns the first response with its id,
    the first error or the end of the stream, or the timeout; everything else that
    arrives before is discarded, answered by nobody. *)
Theorem send_request_spec self id method params w pre :
  receiver_open (w_outbound w) = true → Forall (discarded id) pre →
  ∃ w', sends w [MRequest (Request_new id method params)] w' ∧
    send_request self id method params pre w = ((Pending, self, []), w') ∧
    ∀ e r post, answers id e r →
      send_request self id method params (pre ++ e :: post) w = ((Ready r, self, post), w').
Proof.
  intros Ho Hpre. assert (Forall (passes (send_request_step id) self (λ _, [])) pre) as Hpass.
  { eapply Forall_impl; [|exact Hpre]. apply discarded_passes. }
  destruct (send_open self (MRequest (Request_new id method params)) w Ho) as (w1 & Hsend & Hs1).
  destruct (timeout_loop_passes (Err RequestTimeout) (send_request_step id) self (λ _, []) pre w1)
    as (w' & Hs & Hl); [by rewrite (sends_open _ _ _ Hs1)|done|].
  assert (∀ events, send_request self id method params events w =
    timeout_loop (Err RequestTimeout) (send_request_step id) self events w1) as Hrun.
  { intros events. unfold send_request, mbind, St_bind. by rewrite Hsend. }
  assert (concat ((λ _ : Event, [] : list Message) <$> pre) = []) as Hnil
    by (clear; induction pre; done).
  rewrite Hnil in Hs. exists w'. split_and!.
  - by apply (sends_app _ _ _ _ [] Hs1).
  - by rewrite <-(app_nil_r pre), Hrun, Hl.
  - intros e r post Ha. rewrite Hrun, Hl.
    destruct Ha as [resp Hr|e| |]; cbn [timeout_loop send_request_step]; unfold mbind, St_bind; try done.
    by rewrite bool_decide_eq_true_2.
Qed.
End handshake.
