(* ===== verification/Serving.v ===== *)
(** * Serving: sequences of operations on a connection.

    The calls a server makes on its connection and its request queue, in any order,
    with the invariant of [Connection] kept by each and the exit code their history
    decides. *)

From S2P Require Import Prelude RustStd Serde RequestId Error Message Tokio World RequestQueue Io Lifecycle Routing ClientSender Connection Handshake.

(** The operations of a running server: the methods of the connection, and those of its
    public [request_queue] that change it. *)
Inductive operation `{TK : Tokio} : Type :=
| OpRoute (m : Message)
| OpSend (m : Message)
| OpComplete (id : RequestId) (* [request_queue.incoming.complete] *)
| OpRegisterIncoming (id : RequestId) (token : Token) (* [request_queue.incoming.register] *)
| OpRegister (id : RequestId) (* [request_queue.outgoing.register] *)
| OpCompleteOutgoing (id : RequestId) (r : Response) (* [request_queue.outgoing.complete] *)
| OpCancelOutgoing (id : RequestId) (* [request_queue.outgoing.cancel] *)
| OpCancel (id : RequestId)
| OpCancelIncoming (id : RequestId)
| OpHandleCancel (n : Notification)
| OpClientSender
| OpSendRequest (id : RequestId) (method : string) (params : option Value) (events : list Event)
| OpInitialize (capabilities : Value) (events : list Event)
| OpInitializeStart (events : list Event)
| OpInitializeFinish (id : RequestId) (initialize_result : Value) (events : list Event)
| OpShutdown (id : RequestId)
| OpExit.

Section serving.
Context `{TK : Tokio}.

(** An operation, its result left out. *)
Definition run_op (op : operation) (self : Connection) : St Connection :=
  match op with
  | OpRoute m => snd <$> route self m
  | OpSend m => (λ _, self) <$> send self m
  | OpComplete id =>
    mret (with_incoming (IncomingRequests_complete id (incoming (request_queue self))).2 self)
  | OpRegisterIncoming id token =>
    mret (with_incoming (IncomingRequests_register id token (incoming (request_queue self))) self)
  | OpRegister id =>
    on_channels (λ s,
      let '(_, o, s) := OutgoingRequests_register id (outgoing (request_queue self)) s in
      (with_outgoing o self, s))
  | OpCompleteOutgoing id r =>
    on_channels (λ s,
      let '(_, o, s) := OutgoingRequests_complete id r (outgoing (request_queue self)) s in
      (with_outgoing o self, s))
  | OpCancelOutgoing id =>
    on_channels (λ s,
      let '(_, o, s) := OutgoingRequests_cancel id (outgoing (request_queue self)) s in
      (with_outgoing o self, s))
  | OpCancel id => snd <$> cancel self id
  | OpCancelIncoming id => (λ _, self) <$> cancel_incoming self id
  | OpHandleCancel n => (λ _, self) <$> handle_cancel_request self n
  | OpClientSender => snd <$> client_sender self
  | OpSendRequest id method params events =>
    (λ r, r.1.2) <$> send_request self id method params events
  | OpInitialize capabilities events => (λ r, r.1.2) <$> initialize self capabilities events
  | OpInitializeStart events => (λ r, r.1.2) <$> initialize_start self events
  | OpInitializeFinish id result events => (λ r, r.1.2) <$> initialize_finish self id result events
  | OpShutdown id => snd <$> handle_shutdown self id
  | OpExit => mret (handle_exit self).2
  end.

Fixpoint run_ops (ops : list operation) (self : Connection) : St Connection :=
  match ops with
  | [] => mret self
  | op :: ops => self ← run_op op self; run_ops ops self
  end.
End serving.

Lemma run_ops_app `{TK : Tokio} ops1 ops2 self w :
  run_ops (ops1 ++ ops2) self w = (self' ← run_ops ops1 self; run_ops ops2 self') w.
Proof.
  revert self w. induction ops1 as [|op ops1 IH]; intros self w; [done|].
  cbn [app run_ops]. unfold mbind, St_bind in *. destruct (run_op op self w). apply IH.
Qed.

Section invariant.
Context `{TK : Tokio} {TL : TokioLaws TK}.

(** What depends neither on the queue, the counters nor the lifecycle state. *)
Lemma conn_ok_same {own} self self' w w' :
  conn_good own self w → w_tokens w' = w_tokens w → w_channels w' = w_channels w → w_maps w' = w_maps w →
  request_queue self' = request_queue self → shutdown_token self' = shutdown_token self →
  conn_response_map self' = conn_response_map self → conn_good own self' w'.
Proof.
  intros Hok Ht Hc Hm Hq Hs Hr.
  eapply (conn_ok_tokens self); try done; unfold outgoing_table, incoming_table; by rewrite ?Hq, ?Ht.
Qed.

Lemma send_same self m w r w' :
  send self m w = (r, w') →
  w_tokens w' = w_tokens w ∧ w_channels w' = w_channels w ∧ w_maps w' = w_maps w ∧
  w_counters w' = w_counters w.
Proof.
  unfold send. run_st. destruct (unbounded_send m (w_outbound w)). by intros [= <- <-].
Qed.

(** Actions that keep the invariant and, unless they shut down, what it depends on. *)
Definition keeps {A} (self : Connection) (act : St (A * Connection)) : Prop :=
  ∀ own w a self' w', conn_good own self w → act w = ((a, self'), w') → conn_good own self' w'.

Lemma conn_ok_outgoing {own} self w o s :
  conn_good own self w → pending_ok (out_pending o) s → pending_ok (response_table self w) s →
  (∀ i j c, out_pending o !! i = Some c → response_table self w !! j ≠ Some c) →
  conn_good own (with_outgoing o self) (with_channels s w).
Proof. by intros [] Hpo Hpr Hd; split. Qed.

(** Cancelling and completing an outgoing request. *)
Lemma outgoing_cancel_keeps {own} self w id b o s :
  conn_good own self w →
  OutgoingRequests_cancel id (outgoing (request_queue self)) (w_channels w) = (b, o, s) →
  conn_good own (with_outgoing o self) (with_channels s w).
Proof.
  intros Hok. unfold OutgoingRequests_cancel. change (out_pending (outgoing _)) with (outgoing_table self).
  intros [= _ <- <-].
  destruct (drop_old_law _ _ id (ok_outgoing _ _ Hok)) as (Hpo & _ & Hf).
  apply conn_ok_outgoing; [done|done| |].
  - eapply pending_ok_frame; [exact Hf| |apply (ok_response _ _ Hok)].
    intros i c Hi Hc'. by eapply ok_disjoint.
  - cbn [out_pending]. intros i j c [_ Hi]%lookup_delete_Some. by eapply ok_disjoint.
Qed.

Lemma outgoing_complete_keeps {own} self w id r b o s :
  conn_good own self w →
  OutgoingRequests_complete id r (outgoing (request_queue self)) (w_channels w) = (b, o, s) →
  conn_good own (with_outgoing o self) (with_channels s w).
Proof.
  intros Hok. unfold OutgoingRequests_complete. change (out_pending (outgoing _)) with (outgoing_table self).
  destruct (outgoing_table self !! id) as [c|] eqn:Hc.
  - pose proof (complete_law _ _ _ _ r Hok Hc) as Hlaw. cbv zeta in Hlaw.
    destruct (oneshot_send c r (w_channels w)) as [x s1]. intros [= _ <- <-]. apply Hlaw.
  - intros [= _ <- <-]. apply (conn_ok_same self _ w); try done. cbn. by destruct (request_queue self).
Qed.

Lemma cancel_keeps self id : keeps self (cancel self id).
Proof.
  intros own w a self' w' Hok. unfold cancel, mbind, St_bind.
  destruct (send self _ w) as [r w1] eqn:Hs. apply send_same in Hs as (Ht & Hc & Hm & _).
  assert (conn_good own self w1) as Hok1 by (eapply conn_ok_same; eauto).
  destruct r as [u|e|]; run_st; [|by intros [= <- <- <-]..].
  destruct (OutgoingRequests_cancel _ _ _) as [[b o] s1] eqn:Hcan. intros [= <- <- <-].
  by eapply outgoing_cancel_keeps.
Qed.

Lemma register_keeps {own} self w id o s :
  conn_good own self w →
  OutgoingRequests_register id (outgoing (request_queue self)) (w_channels w) = (o, s) →
  conn_good own (with_outgoing o.2 self) (with_channels s w).
Proof.
  intros Hok. unfold OutgoingRequests_register.
  destruct (oneshot_channel (w_channels w)) as [c s1] eqn:Hc.
  change (out_pending (outgoing _)) with (outgoing_table self). intros [= <- <-].
  destruct (register_law _ _ id _ _ (ok_outgoing _ _ Hok) Hc) as (Hpo & _ & _ & Hf).
  destruct (pending_ok_fresh _ _ _ _ (ok_response _ _ Hok) Hc) as (_ & Hfresh & _ & _).
  apply conn_ok_outgoing; [done|done| |]; cbn [snd out_pending].
  - eapply pending_ok_frame; [exact Hf| |apply (ok_response _ _ Hok)].
    intros i d Hi [->|Hd]; [by eapply Hfresh|by eapply ok_disjoint].
  - intros i j d [[<- <-]|[_ Hi]]%lookup_insert_Some; [done|by eapply ok_disjoint].
Qed.

Lemma client_sender_keeps self : keeps self (client_sender self).
Proof.
  intros own w a self' w' Hok. unfold client_sender, ClientSender_new, ResponseMap_new.
  destruct (conn_response_map self) as [map|] eqn:Hmap; run_st; intros [= <- <- <-].
  - by eapply conn_ok_same.
  - assert (response_table self w = ∅) as He by (unfold response_table; by rewrite Hmap).
    assert (∀ w0, w_maps w0 = w_maps w ++ [∅] →
      response_table (with_response_map {| rm_pending := length (w_maps w) |} self) w0 = ∅) as He'.
    { intros w0 Hw0. unfold response_table. cbn. rewrite Hw0.
      by rewrite list_lookup_middle. }
    destruct Hok as [Ho Hr Hd Hm Hs Hi Hdi]. split; try done; rewrite ?He' by done.
    + split; intros *; by rewrite lookup_empty.
    + intros i j c _. by rewrite lookup_empty.
    + cbn. intros m [= <-]. cbn. rewrite length_app. simpl. lia.
Qed.

Lemma route_keeps self m : keeps self (route self m).
Proof.
  intros own w a self' w' Hok. destruct m as [req|resp|notif].
  - unfold route. run_st. destruct (child_token _ _) as [t s] eqn:Hc. intros [= <- <- <-].
    eapply conn_good_mono; [|by eapply conn_good_register]. by intros i [].
  - intros H. by eapply route_response_keeps.
  - unfold route. destruct (bool_decide _); [|run_st; by intros [= <- <- <-]].
    destruct (parse_cancel_params _) as [id|]; [|run_st; by intros [= <- <- <-]].
    unfold mbind, St_bind. destruct (cancel_in self id w) as [b w1] eqn:Hc.
    intros [= <- <- <-]. by eapply cancel_in_good.
Qed.

Lemma shutdown_keeps self id : keeps self (handle_shutdown self id).
Proof.
  intros own w a self' w' Hok. unfold handle_shutdown. unfold mbind, St_bind.
  destruct (on_tokens _ w) as [[] w1] eqn:Ht. destruct (send _ _ w1) as [r w2] eqn:Hs.
  apply send_same in Hs as (Hs1 & Hs2 & Hs3 & _). intros [= <- <- <-].
  revert Ht. run_st. intros [= <-].
  eapply (conn_ok_same self); [by apply (conn_ok_token_cancel self)|done..].
Qed.

(** ** Waiting on the stream only sends *)

Definition quiet (self : Connection) (w : World) (self' : Connection) (w' : World) : Prop :=
  w_tokens w' = w_tokens w ∧ w_channels w' = w_channels w ∧ w_maps w' = w_maps w ∧
  request_queue self' = request_queue self ∧ shutdown_token self' = shutdown_token self ∧
  conn_response_map self' = conn_response_map self.

Lemma quiet_refl self w : quiet self w self w.
Proof. done. Qed.

Lemma quiet_trans s1 w1 s2 w2 s3 w3 : quiet s1 w1 s2 w2 → quiet s2 w2 s3 w3 → quiet s1 w1 s3 w3.
Proof. unfold quiet. intros; destruct_and!; split_and!; congruence. Qed.

Lemma quiet_conn_ok {own} self w self' w' :
  quiet self w self' w' → conn_good own self w → conn_good own self' w'.
Proof. unfold quiet. intros (? & ? & ? & ? & ? & ?) ?. by eapply conn_ok_same. Qed.

Definition quiet_step {R} (step : step_of R) : Prop :=
  ∀ self item w o self' w', step self item w = ((o, self'), w') → quiet self w self' w'.

Lemma send_quiet self m w r w' : send self m w = (r, w') → quiet self w self w'.
Proof. intros (? & ? & ? & _)%send_same. by split_and!. Qed.

Lemma receive_loop_quiet {R} (step : step_of R) self events w r self' events' w' :
  quiet_step step → receive_loop step self events w = ((r, self', events'), w') →
  quiet self w self' w'.
Proof.
  intros Hstep. revert self w. induction events as [|[item|] events IH]; intros self w.
  - run_st. by intros [= <- <- <- <-].
  - cbn [receive_loop]. unfold mbind, St_bind.
    destruct (step self item w) as [[o self1] w1] eqn:Hs. apply Hstep in Hs.
    destruct o as [x|]; [by intros [= <- <- <- <-]|]. intros H. by eapply quiet_trans, IH.
  - apply IH.
Qed.

Lemma timeout_loop_quiet {R} (e : R) (step : step_of R) self events w r self' events' w' :
  quiet_step step → timeout_loop e step self events w = ((r, self', events'), w') →
  quiet self w self' w'.
Proof.
  intros Hstep. revert self w. induction events as [|[item|] events IH]; intros self w.
  - run_st. by intros [= <- <- <- <-].
  - cbn [timeout_loop]. unfold mbind, St_bind.
    destruct (step self item w) as [[o self1] w1] eqn:Hs. apply Hstep in Hs.
    destruct o as [x|]; [by intros [= <- <- <- <-]|]. intros H. by eapply quiet_trans, IH.
  - run_st. by intros [= <- <- <- <-].
Qed.

Lemma reject_quiet {R} self id w (o : option (result ProtocolError R)) self' w' :
  reject self id w = ((o, self'), w') → quiet self w self' w'.
Proof.
  unfold reject, mbind, St_bind. destruct (send self _ w) as [r w1] eqn:Hs.
  intros [= <- <- <-]. by eapply send_quiet.
Qed.

Ltac quiet_cases := repeat case_match; first [by eauto using reject_quiet | run_st; by intros [= <- <- <-]].

Lemma start_step_quiet : quiet_step initialize_start_step.
Proof. intros self item w o self' w'. unfold initialize_start_step. quiet_cases. Qed.

Lemma finish_step_quiet : quiet_step initialize_finish_step.
Proof. intros self item w o self' w'. unfold initialize_finish_step. quiet_cases. Qed.

Lemma request_step_quiet id : quiet_step (send_request_step id).
Proof. intros self item w o self' w'. unfold send_request_step. quiet_cases. Qed.

Lemma initialize_finish_quiet self id v events w r self' events' w' :
  initialize_finish self id v events w = ((r, self', events'), w') → quiet self w self' w'.
Proof.
  unfold initialize_finish, mbind, St_bind. destruct (send self _ w) as [x w1] eqn:Hs.
  apply send_quiet in Hs. destruct x; [|run_st; by intros [= <- <- <- <-]..].
  intros H%timeout_loop_quiet; [by eapply quiet_trans|apply finish_step_quiet].
Qed.

Lemma initialize_quiet self caps events w r self' events' w' :
  initialize self caps events w = ((r, self', events'), w') → quiet self w self' w'.
Proof.
  unfold initialize, mbind, St_bind.
  destruct (initialize_start self events w) as [[[r1 s1] e1] w1] eqn:Hs.
  apply receive_loop_quiet in Hs; [|apply start_step_quiet].
  destruct r1 as [[[id v]|e|]|]; [|run_st; by intros [= <- <- <- <-]..].
  destruct (initialize_finish s1 id _ e1 w1) as [[[r2 s2] e2] w2] eqn:Hf.
  apply initialize_finish_quiet in Hf. intros [= _ <- _ <-]. by eapply quiet_trans.
Qed.

Lemma send_request_quiet self id method params events w r self' events' w' :
  send_request self id method params events w = ((r, self', events'), w') → quiet self w self' w'.
Proof.
  unfold send_request, mbind, St_bind. destruct (send self _ w) as [x w1] eqn:Hs.
  apply send_quiet in Hs. destruct x; [|run_st; by intros [= <- <- <- <-]..].
  intros H%timeout_loop_quiet; [by eapply quiet_trans|apply request_step_quiet].
Qed.

(** ** The invariant over any history *)

(** The ids whose token is the caller's own, after an operation. *)
Definition own_after (op : operation) (own : RequestId → Prop) : RequestId → Prop :=
  match op with
  | OpRegisterIncoming id _ => λ i, own i ∨ i = id
  | OpRoute (MRequest req) => λ i, own i ∧ i ≠ req_id req
  | _ => own
  end.

(** The ids that were last registered by the caller itself, not by [route]. *)
Definition own_ids (ops : list operation) : RequestId → Prop :=
  foldl (λ own op, own_after op own) (λ _, False) ops.

(** Once the shutdown token is cancelled, so is the token of every pending request
    that came by [route]. *)
Definition shutdown_ok (own : RequestId → Prop) (self : Connection) (w : World) : Prop :=
  is_cancelled (w_tokens w) (shutdown_token self) = true →
  ∀ id t, incoming_table self !! id = Some t → ¬ own id → is_cancelled (w_tokens w) t = true.

Record serves (own : RequestId → Prop) (self : Connection) (w : World) (self' : Connection)
    (w' : World) : Prop := {
  serves_conn : conn_good own self' w';
  serves_shutdown : shutdown_ok own self' w';
  serves_token : shutdown_token self' = shutdown_token self;
  serves_cancelled : is_cancelled (w_tokens w) (shutdown_token self) = true →
    is_cancelled (w_tokens w') (shutdown_token self) = true;
}.

(** Operations that touch no token. *)
Lemma serves_same_tokens {own} self w self' w' :
  shutdown_ok own self w → conn_good own self' w' → w_tokens w' = w_tokens w →
  shutdown_token self' = shutdown_token self → incoming_table self' ⊆ incoming_table self →
  serves own self w self' w'.
Proof.
  intros Hs Hok Ht Hd Hi. split; try done; [|by rewrite Ht].
  intros Hc id t Hid. rewrite Ht in *. rewrite Hd in Hc. eapply Hs; [done|].
  by eapply lookup_weaken.
Qed.

Lemma serves_quiet {own} self w self' w' :
  conn_good own self w → shutdown_ok own self w → quiet self w self' w' → serves own self w self' w'.
Proof.
  intros Hok Hs Hq. pose proof (quiet_conn_ok _ _ _ _ Hq Hok). destruct Hq as (? & _ & _ & Eq & ? & _).
  apply serves_same_tokens; try done. unfold incoming_table. by rewrite Eq.
Qed.

Lemma cancel_in_serves {own} self w id b w' :
  conn_good own self w → shutdown_ok own self w → cancel_in self id w = (b, w') → serves own self w self w'.
Proof.
  intros Hok Hs Hc. destruct (cancel_in_good _ _ _ _ _ Hok Hc) as (Hok' & _ & Hsd & Ht).
  split; try done. intros Hcan i t Hi Hn. eapply Ht; try done. intros H. by eapply Hs.
Qed.

Lemma route_serves {own} self w m a self' w' :
  conn_good own self w → shutdown_ok own self w → route self m w = ((a, self'), w') →
  serves (own_after (OpRoute m) own) self w self' w'.
Proof.
  intros Hok Hs Hr. destruct m as [req|resp|notif]; cbn [own_after].
  - revert Hr. unfold route. run_st. destruct (child_token _ _) as [t s] eqn:Hc. intros [= <- <- <-].
    destruct (child_token_law _ _ _ _ _ (ok_shutdown _ _ Hok) Hc) as (Hnone & _ & Hcanc & Hf).
    assert (shutdown_token self ≠ t) as Hne by (pose proof (ok_shutdown _ _ Hok); congruence).
    destruct (Hf _ Hne) as [_ Hsame]. split; [by eapply conn_good_register| |done|cbn; congruence].
    intros Hcan id u. change (incoming_table _) with (<[req_id req := t]> (incoming_table self)).
    cbn in Hcan |- *. rewrite Hsame in Hcan.
    intros [[<- <-]|[Hid Hu]]%lookup_insert_Some Hn; [congruence|].
    assert (¬ own id) as Hn' by naive_solver.
    destruct (ok_incoming _ _ Hok _ _ Hu Hn') as [_ Hl]. assert (u ≠ t) as Hnu by congruence.
    rewrite (proj2 (Hf _ Hnu)). by eapply Hs.
  - destruct (route_response_tokens _ _ _ _ _ _ Hr) as (Ht & Hd & Hi).
    apply serves_same_tokens; try done; [by eapply route_keeps|by rewrite Hi].
  - revert Hr. unfold route. destruct (bool_decide _).
    2: { run_st. intros [= <- <- <-]. by apply serves_same_tokens. }
    destruct (parse_cancel_params _) as [id|].
    2: { run_st. intros [= <- <- <-]. by apply serves_same_tokens. }
    unfold mbind, St_bind. destruct (cancel_in self id w) as [b w1] eqn:Hc.
    intros [= <- <- <-]. by eapply cancel_in_serves.
Qed.

Lemma shutdown_serves {own} self w id a self' w' :
  conn_good own self w → handle_shutdown self id w = ((a, self'), w') →
  serves own self w self' w' ∧ is_cancelled (w_tokens w') (shutdown_token self) = true.
Proof.
  intros Hok Hr. pose proof (shutdown_keeps self id _ _ _ _ _ Hok Hr) as Hok'.
  revert Hr. unfold handle_shutdown. unfold mbind, St_bind.
  destruct (on_tokens _ w) as [[] w1] eqn:Ht. destruct (send _ _ w1) as [r w2] eqn:Hsend.
  apply send_same in Hsend as (Hs1 & _). intros [= <- <- <-].
  revert Ht. run_st. intros [= <-]. cbn in Hs1.
  assert (is_cancelled (w_tokens w2) (shutdown_token self) = true) as Hc.
  { rewrite Hs1, (proj2 (token_cancel_law _ _ _ _ (ok_shutdown _ _ Hok))).
    rewrite bool_decide_eq_true_2; [by rewrite orb_true_r|by apply list_elem_of_singleton]. }
  split; [|done]. split; try done. intros _ i t Hi Hn.
  destruct (ok_incoming _ _ Hok i t Hi Hn) as [_ Hl].
  rewrite Hs1, (proj2 (token_cancel_law _ _ _ _ Hl)).
  rewrite bool_decide_eq_true_2; [by rewrite orb_true_r|]. apply list_elem_of_further, list_elem_of_here.
Qed.

Lemma client_sender_tokens self w a self' w' :
  client_sender self w = ((a, self'), w') →
  w_tokens w' = w_tokens w ∧ shutdown_token self' = shutdown_token self ∧
  incoming_table self' = incoming_table self ∧ lifecycle_state self' = lifecycle_state self.
Proof.
  unfold client_sender, ClientSender_new, ResponseMap_new.
  destruct (conn_response_map self); run_st; by intros [= <- <- <-].
Qed.

Lemma cancel_tokens self id w a self' w' :
  cancel self id w = ((a, self'), w') →
  w_tokens w' = w_tokens w ∧ shutdown_token self' = shutdown_token self ∧
  incoming_table self' = incoming_table self ∧ lifecycle_state self' = lifecycle_state self.
Proof.
  unfold cancel, mbind, St_bind. destruct (send self _ w) as [r w1] eqn:Hs.
  apply send_same in Hs as (Ht & _). destruct r; run_st; by intros [= <- <- <-].
Qed.

Lemma complete_keeps {own} self w id :
  conn_good own self w →
  conn_good own (with_incoming (IncomingRequests_complete id (incoming (request_queue self))).2 self) w ∧
  incoming_table (with_incoming (IncomingRequests_complete id (incoming (request_queue self))).2 self)
    ⊆ incoming_table self.
Proof.
  intros [Ho Hr Hd Hm Hsd Hi Hdi].
  assert (∀ i t, incoming_table (with_incoming (IncomingRequests_complete id
    (incoming (request_queue self))).2 self) !! i = Some t → incoming_table self !! i = Some t) as Hsub.
  { intros i t H. by apply (lookup_delete_Some (incoming_table self) id i t) in H as [_ H]. }
  split; [|by apply map_subseteq_spec]. split; try done; [by eauto|].
  intros i j t H1%Hsub H2%Hsub. by eapply Hdi.
Qed.

Lemma run_op_serves op own self w self' w' :
  conn_good own self w → shutdown_ok own self w → run_op op self w = (self', w') →
  serves (own_after op own) self w self' w'.
Proof.
  intros Hok Hs. destruct op as [m|m|id|id t|id|id r|id|id|id|n| |id me p evs|caps evs|evs|rid v evs|id|]; cbn [run_op own_after];
    unfold fmap, St_fmap.
  - destruct (route self m w) as [[a s1] w1] eqn:H. intros [= <- <-]. by eapply route_serves.
  - destruct (send self m w) as [a w1] eqn:H. intros [= <- <-].
    by eapply serves_quiet, send_quiet.
  - run_st. intros [= <- <-]. destruct (complete_keeps self w id Hok). by apply serves_same_tokens.
  - run_st. intros [= <- <-]. split; [by apply conn_good_own| |done|done].
    intros Hc i u [[<- <-]|[Hne Hu]]%(lookup_insert_Some (incoming_table self)) Hn; [naive_solver|].
    apply (Hs Hc i u Hu). naive_solver.
  - run_st. destruct (OutgoingRequests_register _ _ _) as [[c o] s1] eqn:H. intros [= <- <-].
    apply serves_same_tokens; try done. by apply (register_keeps self w id (c, o)).
  - run_st. destruct (OutgoingRequests_complete _ _ _ _) as [[c o] s1] eqn:H. intros [= <- <-].
    apply serves_same_tokens; try done. by eapply outgoing_complete_keeps.
  - run_st. destruct (OutgoingRequests_cancel _ _ _) as [[c o] s1] eqn:H. intros [= <- <-].
    apply serves_same_tokens; try done. by eapply outgoing_cancel_keeps.
  - destruct (cancel self id w) as [[a s1] w1] eqn:H. intros [= <- <-].
    pose proof (cancel_keeps _ _ _ _ _ _ _ Hok H).
    apply cancel_tokens in H as (? & ? & E & _). apply serves_same_tokens; try done. by rewrite E.
  - unfold cancel_incoming. destruct (cancel_in self id w) as [b w1] eqn:H. intros [= <- <-].
    by eapply cancel_in_serves.
  - unfold handle_cancel_request. destruct (bool_decide _).
    { run_st. intros [= <- <-]. by apply serves_same_tokens. }
    destruct (parse_cancel_params _) as [id|].
    2: { run_st. intros [= <- <-]. by apply serves_same_tokens. }
    unfold fmap, St_fmap. destruct (cancel_in self id w) as [b w1] eqn:H. intros [= <- <-].
    by eapply cancel_in_serves.
  - destruct (client_sender self w) as [[a s1] w1] eqn:H. intros [= <- <-].
    pose proof (client_sender_keeps _ _ _ _ _ _ Hok H).
    apply client_sender_tokens in H as (? & ? & E & _). apply serves_same_tokens; try done. by rewrite E.
  - destruct (send_request self id me p evs w) as [[[r s1] e1] w1] eqn:H. intros [= <- <-].
    by eapply serves_quiet, send_request_quiet.
  - destruct (initialize self caps evs w) as [[[r s1] e1] w1] eqn:H. intros [= <- <-].
    by eapply serves_quiet, initialize_quiet.
  - destruct (initialize_start self evs w) as [[[r s1] e1] w1] eqn:H. intros [= <- <-].
    eapply serves_quiet; [done..|]. by eapply receive_loop_quiet; [apply start_step_quiet|].
  - destruct (initialize_finish self rid v evs w) as [[[r s1] e1] w1] eqn:H. intros [= <- <-].
    by eapply serves_quiet, initialize_finish_quiet.
  - destruct (handle_shutdown self id w) as [[a s1] w1] eqn:H. intros [= <- <-].
    by eapply shutdown_serves.
  - run_st. intros [= <- <-]. apply serves_same_tokens; try done. by apply (conn_ok_same self _ w).
Qed.

(** Whoever registers what, the tables of senders stay good. *)
Lemma run_op_keeps op self w self' w' :
  tables_ok self w → run_op op self w = (self', w') → tables_ok self' w'.
Proof.
  intros Hok Hrun. assert (shutdown_ok (λ _, True) self w) as Hs by (intros _ id t _ []; done).
  eapply conn_good_mono; [|by eapply serves_conn, run_op_serves]. done.
Qed.

Lemma run_ops_serves ops own self w self' w' :
  conn_good own self w → shutdown_ok own self w → run_ops ops self w = (self', w') →
  serves (foldl (λ own op, own_after op own) own ops) self w self' w'.
Proof.
  revert own self w. induction ops as [|op ops IH]; intros own self w Hok Hs.
  - run_st. intros [= <- <-]. by apply serves_same_tokens.
  - cbn [run_ops foldl]. unfold mbind, St_bind. destruct (run_op op self w) as [s1 w1] eqn:Hop. intros Hrun.
    destruct (run_op_serves _ _ _ _ _ _ Hok Hs Hop) as [Hok1 Hs1 Ht1 Hc1].
    destruct (IH _ _ _ Hok1 Hs1 Hrun) as [Hok2 Hs2 Ht2 Hc2].
    split; try done; [congruence|]. rewrite <-Ht1 in *. auto.
Qed.

Lemma Connection_new_ok w self w' :
  Connection_new w = (self, w') → conn_ok self w' ∧ shutdown_ok (λ _, False) self w' ∧
  is_cancelled (w_tokens w') (shutdown_token self) = false ∧ lifecycle_state self = Uninitialized.
Proof.
  unfold Connection_new, from_transport, spawn_drain_task. run_st. cbn [w_tokens with_outbound].
  destruct (token_new (w_tokens w)) as [d s1] eqn:H1. cbn.
  destruct (token_new s1) as [t s2] eqn:H2. intros [= <- <-]. cbn.
  destruct (token_new_law _ _ _ H2) as (_ & Hl & Hc & _).
  assert (∀ id t, (∅ : gmap RequestId Token) !! id ≠ Some t) as Hemp by (intros *; by rewrite lookup_empty).
  by split_and!.
Qed.

(** C16: whatever operations a server calls on a new connection and its request queue,
    in any order, the pending requests of both directions stay consistent: a response
    is owed to at most one caller, and every incoming request has its own token under
    the shutdown token, unless the caller registered a token itself; from the first
    [handle_shutdown] on [on_shutdown] is ready, and the token of every pending
    request that [route] registered, earlier or later, is cancelled. *)
Theorem serving_invariant ops1 id ops2 w self w1 self' w' :
  Connection_new w = (self, w1) →
  run_ops (ops1 ++ OpShutdown id :: ops2) self w1 = (self', w') →
  conn_good (own_ids (ops1 ++ OpShutdown id :: ops2)) self' w' ∧
  (∀ i t, incoming_table self' !! i = Some t → ¬ own_ids (ops1 ++ OpShutdown id :: ops2) i →
     is_cancelled (w_tokens w') t = true) ∧
  (on_shutdown self' w').1 = Ready ().
Proof.
  intros Hnew Hrun. destruct (Connection_new_ok _ _ _ Hnew) as (Hok & Hs & _ & _).
  rewrite run_ops_app in Hrun. unfold mbind, St_bind in Hrun.
  destruct (run_ops ops1 self w1) as [s2 w2] eqn:H1.
  destruct (run_ops_serves _ _ _ _ _ _ Hok Hs H1) as [Hok2 Hs2 Ht2 _].
  cbn [run_ops run_op] in Hrun. unfold mbind, St_bind, fmap, St_fmap in Hrun.
  destruct (handle_shutdown s2 id w2) as [[a s3] w3] eqn:H3.
  destruct (shutdown_serves _ _ _ _ _ _ Hok2 H3) as [[Hok3 Hs3 Ht3 _] Hc3].
  destruct (run_ops_serves _ _ _ _ _ _ Hok3 Hs3 Hrun) as [Hok4 Hs4 Ht4 Hc4].
  cbn [snd] in *. rewrite <-Ht3 in Hc3. specialize (Hc4 Hc3).
  rewrite <-Ht4 in Hc4. unfold own_ids. rewrite foldl_app. cbn [foldl own_after].
  split_and!; [done|by apply Hs4|]. unfold on_shutdown. by rewrite Hc4.
Qed.

(** ** The exit code *)

(** Operations that do not move the lifecycle. *)
Definition serving (op : operation) : bool :=
  match op with OpInitialize _ _ | OpInitializeStart _ | OpInitializeFinish _ _ _ | OpShutdown _ | OpExit => false | _ => true end.

Lemma route_lifecycle self m w a self' w' :
  route self m w = ((a, self'), w') → lifecycle_state self' = lifecycle_state self.
Proof.
  destruct m as [req|resp|notif]; unfold route.
  - run_st. destruct (child_token _ _). by intros [= <- <- <-].
  - destruct (resp_id resp) as [id|]; [|run_st; by intros [= <- <- <-]].
    unfold mbind at 1, St_bind. destruct (deliver_to_map self id resp w) as [[] w1].
    + run_st. by intros [= <- <- <-].
    + destruct (OutgoingRequests_is_pending _ _); [|run_st; by intros [= <- <- <-]].
      run_st. destruct (OutgoingRequests_complete _ _ _ _) as [[b o] s]. by intros [= <- <- <-].
  - destruct (bool_decide _); [|run_st; by intros [= <- <- <-]].
    destruct (parse_cancel_params _); [|run_st; by intros [= <- <- <-]].
    unfold mbind, St_bind. destruct (cancel_in _ _ _). by intros [= <- <- <-].
Qed.

Lemma send_request_lifecycle self id me p evs w r self' e' w' :
  send_request self id me p evs w = ((r, self', e'), w') → lifecycle_state self' = lifecycle_state self.
Proof.
  unfold send_request, mbind, St_bind. destruct (send self _ w) as [x w1].
  destruct x; [|run_st; by intros [= <- <- <- <-]..]. clear w. revert w1.
  induction evs as [|[item|] evs IH]; intros w1; cbn [timeout_loop].
  - run_st. by intros [= <- <- <- <-].
  - unfold mbind, St_bind. destruct (send_request_step id self item w1) as [[o s1] w2] eqn:Hs.
    assert (s1 = self) as ->.
    { revert Hs. unfold send_request_step. repeat case_match; run_st; by intros [= <- <- <-]. }
    destruct o; [by intros [= <- <- <- <-]|]. apply IH.
  - run_st. by intros [= <- <- <- <-].
Qed.

Lemma serving_lifecycle op self w self' w' :
  serving op = true → run_op op self w = (self', w') → lifecycle_state self' = lifecycle_state self.
Proof.
  intros Hop. destruct op as [m|m|id|id t|id|id r|id|id|id|n| |id me p evs|caps evs|evs|rid v evs|id|]; try done; cbn [run_op];
    unfold fmap, St_fmap.
  - destruct (route self m w) as [[a s1] w1] eqn:H. intros [= <- <-]. by eapply route_lifecycle.
  - destruct (send self m w). by intros [= <- <-].
  - run_st. by intros [= <- <-].
  - run_st. by intros [= <- <-].
  - run_st. destruct (OutgoingRequests_register _ _ _) as [[c o] s1]. by intros [= <- <-].
  - run_st. destruct (OutgoingRequests_complete _ _ _ _) as [[c o] s1]. by intros [= <- <-].
  - run_st. destruct (OutgoingRequests_cancel _ _ _) as [[c o] s1]. by intros [= <- <-].
  - destruct (cancel self id w) as [[a s1] w1] eqn:H. apply cancel_tokens in H as (_ & _ & _ & ?). by intros [= <- <-].
  - destruct (cancel_incoming self id w). by intros [= <- <-].
  - destruct (handle_cancel_request self n w). by intros [= <- <-].
  - destruct (client_sender self w) as [[a s1] w1] eqn:H. apply client_sender_tokens in H as (_ & _ & _ & ?).
    by intros [= <- <-].
  - destruct (send_request self id me p evs w) as [[[r s1] e1] w1] eqn:H. intros [= <- <-].
    by eapply send_request_lifecycle.
Qed.

Definition not_initialize (op : operation) : Prop :=
  match op with OpInitialize _ _ | OpInitializeStart _ | OpInitializeFinish _ _ _ => False | _ => True end.

(** C20: the exit code is 0 iff the server handled a [shutdown] request and has since
    only served: a history without a shutdown, or with an [exit] after it, gives 1. *)
Theorem exit_code ops self w self' w' :
  lifecycle_state self ≠ ShuttingDown → Forall not_initialize ops →
  run_ops ops self w = (self', w') →
  ExitCode_as_i32 (handle_exit self').1 = 0%Z ↔
  ∃ ops1 id ops2, ops = ops1 ++ OpShutdown id :: ops2 ∧ Forall (λ op, serving op = true) ops2.
Proof.
  intros Hl Hops Hrun.
  assert (ExitCode_as_i32 (handle_exit self').1 = 0%Z ↔ lifecycle_state self' = ShuttingDown) as ->.
  { unfold handle_exit. cbn [fst]. by case_bool_decide. }
  revert self' w' Hrun.
  induction ops as [|op ops IH] using rev_ind; intros self' w' Hrun.
  { split; [|by intros ([|] & ? & ? & ? & _)]. injection Hrun as <- <-. done. }
  apply Forall_app in Hops as [Hops Hop]. rewrite Forall_singleton in Hop.
  rewrite run_ops_app in Hrun. unfold mbind, St_bind in Hrun.
  destruct (run_ops ops self w) as [s1 w1] eqn:H1. specialize (IH Hops _ _ eq_refl).
  cbn [run_ops] in Hrun. unfold mbind, St_bind in Hrun.
  destruct (run_op op s1 w1) as [s2 w2] eqn:H2. injection Hrun as <- <-.
  destruct (serving op) eqn:Hserv.
  - rewrite (serving_lifecycle _ _ _ _ _ Hserv H2), IH. split.
    + intros (o1 & id & o2 & -> & Ho). exists o1, id, (o2 ++ [op]). rewrite <-app_assoc.
      split; [done|]. apply Forall_app. by rewrite Forall_singleton.
    + intros (o1 & id & o2 & E & Ho). destruct o2 as [|op' o2 _] using rev_ind.
      * apply app_inj_tail in E as [_ ->]. done.
      * rewrite app_comm_cons, app_assoc in E. apply app_inj_tail in E as [-> ->].
        apply Forall_app in Ho as [Ho _]. eauto.
  - destruct op as [| | | | | | | | | | | | | | |id|]; try done; revert H2; cbn [run_op].
    + unfold fmap, St_fmap. destruct (handle_shutdown s1 id w1) as [[a s3] w3] eqn:Hsd.
      intros [= <- <-]. split; [by exists ops, id, []|]. intros _. revert Hsd.
      unfold handle_shutdown, mbind, St_bind. destruct (on_tokens _ w1) as [[] w4].
      destruct (send _ _ w4). by intros [= <- <- <-].
    + run_st. intros [= <- <-]. split; [done|]. intros (o1 & id & o2 & E & Ho).
      destruct o2 as [|op' o2 _] using rev_ind; [by apply app_inj_tail in E as [_ ?]|].
      rewrite app_comm_cons, app_assoc in E. apply app_inj_tail in E as [-> <-].
      apply Forall_app in Ho as [_ Ho]. by rewrite Forall_singleton in Ho.
Qed.
End invariant.
