(* ===== verification/Ownership.v ===== *)
(** * Ownership: who waits for the entries of the response map.

    The invariant behind [System]: every entry of the response map belongs to one
    waiting task, and the channel of a waiting task holds either nothing, with its
    entry still there, or the response to its own id, or nothing more to come. *)

From S2P Require Import Prelude RustStd Serde RequestId Error Message Tokio World RequestQueue ClientSender.

Section ownership.
Context `{TK : Tokio} {TL : TokioLaws TK}.

(** Which request, if any, the task of an index waits for. *)
Abbreviation activity := (nat → option (RequestId * Channel)).

(** The channel of a waiting request: nothing was sent while its entry is there, what
    was sent answers its id, and it is no channel of the request queue. *)
Definition channel_ok (T : gmap RequestId Channel) (s : channels) (O : gmap RequestId Channel)
    (id : RequestId) (c : Channel) : Prop :=
  ∃ alive v, channel_state s c = Some (channel_view_new alive true v) ∧
    (alive = true → T !! id = Some c) ∧
    (∀ r, v = Some r → resp_id r = Some id) ∧
    (∀ j, O !! j ≠ Some c).

Record owned (act : activity) (T : gmap RequestId Channel) (s : channels)
    (O : gmap RequestId Channel) : Prop := {
  own_channel : ∀ i id c, act i = Some (id, c) → channel_ok T s O id c;
  own_entry : ∀ id c, T !! id = Some c → ∃ i, act i = Some (id, c);
  own_unique : ∀ i j id id' c, act i = Some (id, c) → act j = Some (id', c) → i = j;
}.

Definition act_set (act : activity) (i : nat) (a : option (RequestId * Channel)) : activity :=
  λ j, if decide (j = i) then a else act j.

Lemma owned_ext act act' T s O : (∀ i, act' i = act i) → owned act T s O → owned act' T s O.
Proof.
  intros E [Hc He Hu]. split.
  - intros i id c. rewrite E. apply Hc.
  - intros id c (i & Hi)%He. exists i. by rewrite E.
  - intros i j id id' c. rewrite !E. apply Hu.
Qed.

(** Channels of the queue change, or fresh ones appear: nobody here notices. *)
Definition foreign (s : channels) (O : gmap RequestId Channel) (d : Channel) : Prop :=
  channel_state s d = None ∨ ∃ j, O !! j = Some d.

Lemma owned_foreign act T s s' O O' :
  owned act T s O → frame_but (foreign s O) s s' →
  (∀ j d, O' !! j = Some d → foreign s O d) → owned act T s' O'.
Proof.
  intros [Hc He Hu] Hf HO. split; [|done|done].
  intros i id c Hi. destruct (Hc _ _ _ Hi) as (a & v & Hs & Ha & Hv & Hn).
  assert (¬ foreign s O c) as Hno by (intros [?|[j ?]]; [congruence|by eapply Hn]).
  exists a, v. split_and!; try done; [by rewrite Hf|]. intros j Hj. by apply Hno, (HO j).
Qed.

Lemma owned_register act T s s' O i id c :
  owned act T s O → act i = None → T !! id = None →
  channel_state s c = None → channel_state s' c = Some (channel_view_new true true None) →
  frame_but (eq c) s s' → (∀ j, O !! j ≠ Some c) →
  owned (act_set act i (Some (id, c))) (<[id := c]> T) s' O.
Proof.
  intros [Hc He Hu] Hi Hid Hnone Hnew Hf HO. unfold act_set.
  assert (∀ j id' d, act j = Some (id', d) → d ≠ c) as Hne.
  { intros j id' d Hj ->. destruct (Hc _ _ _ Hj) as (a & v & Hs & _). congruence. }
  split.
  - intros j id' d. case_decide as E.
    + intros [= <- <-]. exists true, None. split_and!; try done. by rewrite lookup_insert_eq.
    + intros Hj. destruct (Hc _ _ _ Hj) as (a & v & Hs & Ha & Hv & Hn).
      exists a, v. split_and!; try done.
      * rewrite Hf; [done|]. intros <-. by eapply Hne.
      * intros E'. specialize (Ha E'). rewrite lookup_insert_ne; [done|congruence].
  - intros id' d [[<- <-]|[Hne' Hd]]%lookup_insert_Some.
    + exists i. by rewrite decide_True.
    + destruct (He _ _ Hd) as [j Hj]. exists j. rewrite decide_False; [done|congruence].
  - intros j k id1 id2 d. repeat case_decide; intros H1 H2; simplify_eq; try done.
    + by apply Hne in H2.
    + by apply Hne in H1.
    + by eapply Hu.
Qed.

(** An entry is removed: its channel is closed, with the response or without. *)
Lemma owned_remove act T s s' O id c v :
  owned act T s O → T !! id = Some c → frame_but (eq c) s s' →
  channel_state s' c = Some (channel_view_new false true v) →
  (∀ r, v = Some r → resp_id r = Some id) → owned act (delete id T) s' O.
Proof.
  intros [Hc He Hu] Hid Hf Hs' Hv. split; [| |done].
  - intros i id' d Hi. destruct (Hc _ _ _ Hi) as (a & v' & Hs & Ha & Hv' & Hn).
    destruct (decide (d = c)) as [->|Hne].
    + destruct (He _ _ Hid) as [j Hj]. assert (j = i) as -> by (by eapply Hu).
      rewrite Hi in Hj. simplify_eq. exists false, v. by split_and!.
    + exists a, v'. split_and!; try done; [by rewrite Hf|].
      intros E. specialize (Ha E). rewrite lookup_delete_ne; [done|congruence].
  - intros id' d [_ Hd]%lookup_delete_Some. by apply He.
Qed.

(** A task whose entry is gone stops waiting; its receiver is dropped. *)
Lemma owned_finish act T s s' O i id c :
  owned act T s O → act i = Some (id, c) → T !! id ≠ Some c → frame_but (eq c) s s' →
  owned (act_set act i None) T s' O.
Proof.
  intros [Hc He Hu] Hi Hid Hf. unfold act_set. split.
  - intros j id' d. case_decide as E; [done|]. intros Hj.
    destruct (Hc _ _ _ Hj) as (a & v & Hs & Ha & Hv & Hn). exists a, v. split_and!; try done.
    rewrite Hf; [done|]. intros <-. apply E. by eapply Hu.
  - intros id' d Hd. destruct (He _ _ Hd) as [j Hj]. exists j.
    rewrite decide_False; [done|]. intros ->. congruence.
  - intros j k id1 id2 d. repeat case_decide; try done. apply Hu.
Qed.

Lemma owned_idle act T s O i : owned act T s O → act i = None → owned (act_set act i None) T s O.
Proof. intros H Hi. eapply owned_ext; [|exact H]. intros j. unfold act_set. by case_decide; subst. Qed.

(** The guard of a task that gives up: the entry of its id is removed, whoever put
    it there; its own entry is gone afterwards. *)
Lemma owned_cancel act T s O i id c :
  owned act T s O → pending_ok T s → act i = Some (id, c) →
  owned act (delete id T) (drop_old (T !! id) s) O ∧ delete id T !! id ≠ Some c.
Proof.
  intros Ho Hp Hi. split; [|by rewrite lookup_delete_eq].
  destruct (T !! id) as [d|] eqn:Hd; cbn [drop_old].
  - destruct (own_entry _ _ _ _ Ho _ _ Hd) as [j Hj].
    destruct (own_channel _ _ _ _ Ho _ _ _ Hj) as (a & v & Hs & Ha & Hv & _).
    destruct (drop_sender_law _ _ _ Hs) as [Hs' Hf]. cbn in Hs'.
    eapply owned_remove; try done. intros e He. apply Hf. congruence.
  - by rewrite delete_id.
Qed.

(** What a waiting task finds when it polls its receiver. *)
Lemma owned_poll act T s O i id c :
  owned act T s O → pending_ok T s → act i = Some (id, c) →
  match oneshot_poll s c with
  | Pending => T !! id = Some c
  | Ready (Ok r) => resp_id r = Some id ∧ T !! id ≠ Some c
  | Ready _ => T !! id ≠ Some c
  end.
Proof.
  intros Ho [Hw _] Hi. destruct (own_channel _ _ _ _ Ho _ _ _ Hi) as (a & v & Hs & Ha & Hv & _).
  assert (∀ r, (a, v) = (false, Some r) ∨ v = Some r ∨ a = false → T !! id ≠ Some c) as Hno.
  { intros r Hr Hid. destruct (Hw _ _ Hid) as [ra Hra]. rewrite Hs in Hra. naive_solver. }
  rewrite (oneshot_poll_law _ _ _ Hs). destruct v as [r|]; cbn [sent].
  - split; [by apply Hv|]. apply (Hno r). by right; left.
  - destruct a; cbn [sender_alive]; [by apply Ha|].
    apply (Hno (Build_Response None (Success VNull))). by right; right.
Qed.
End ownership.
