(* ===== verification/Effects.v ===== *)
(** * Effects: what one operation of the connection changes for everybody else.

    The operations of [Serving] seen from the client senders and the drain task:
    which channels, tables, counters and tokens they may change. *)

From S2P Require Import Prelude RustStd Serde RequestId Error Message Tokio World RequestQueue Io Lifecycle Routing ClientSender Connection Handshake Serving Ownership.

Section effects.
Context `{TK : Tokio} {TL : TokioLaws TK}.

(** What no operation but [client_sender] changes. *)
Record same_handles (self : Connection) (w : World) (self' : Connection) (w' : World) : Prop := {
  same_counters : w_counters w' = w_counters w;
  same_map : conn_response_map self' = conn_response_map self;
  same_length : length (w_maps w') = length (w_maps w);
  same_drain : conn_drain_alive self' = conn_drain_alive self;
  same_shutdown : shutdown_token self' = shutdown_token self;
}.

(** Either only the queue's channels and fresh ones are touched, or one entry of the
    response map is answered. *)
Inductive table_effect (self : Connection) (w : World) (self' : Connection) (w' : World) : Prop :=
| effect_foreign :
    response_table self' w' = response_table self w →
    frame_but (foreign (w_channels w) (outgoing_table self)) (w_channels w) (w_channels w') →
    (∀ j d, outgoing_table self' !! j = Some d → foreign (w_channels w) (outgoing_table self) d) →
    table_effect self w self' w'
| effect_deliver id r c :
    resp_id r = Some id → response_table self w !! id = Some c →
    response_table self' w' = delete id (response_table self w) →
    outgoing_table self' = outgoing_table self → delivered w w' c r →
    table_effect self w self' w'.

(** A token that is its own only ancestor and no request's is not touched. *)
Definition apart (self : Connection) (w : World) (u : Token) : Prop :=
  lineage (w_tokens w) u = Some [u] ∧ u ≠ shutdown_token self ∧
  ∀ id, incoming_table self !! id ≠ Some u.

Definition token_effect (self : Connection) (w : World) (self' : Connection) (w' : World) : Prop :=
  ∀ u, apart self w u →
    apart self' w' u ∧ is_cancelled (w_tokens w') u = is_cancelled (w_tokens w) u.

Record op_effect (self : Connection) (w : World) (self' : Connection) (w' : World) : Prop := {
  eff_handles : same_handles self w self' w';
  eff_tables : table_effect self w self' w';
  eff_tokens : token_effect self w self' w';
}.

Lemma frame_refl P (s : channels) : frame_but P s s.
Proof. by intros d _. Qed.

(** Operations that leave channels and maps alone. *)
Lemma effect_none self w self' w' :
  w_channels w' = w_channels w → w_maps w' = w_maps w → outgoing_table self' = outgoing_table self →
  conn_response_map self' = conn_response_map self → table_effect self w self' w'.
Proof.
  intros Hc Hm Ho Hr. apply effect_foreign.
  - unfold response_table. by rewrite Hr, Hm.
  - rewrite Hc. apply frame_refl.
  - rewrite Ho. intros j d Hd. right. eauto.
Qed.

Lemma token_effect_same self w self' w' :
  w_tokens w' = w_tokens w → shutdown_token self' = shutdown_token self →
  incoming_table self' ⊆ incoming_table self → token_effect self w self' w'.
Proof.
  intros Ht Hs Hi u (Hl & Hn & Hin). rewrite Ht. split; [|done]. unfold apart. rewrite Ht, Hs.
  split_and!; try done. intros id Hid. eapply Hin, lookup_weaken; eauto.
Qed.

Lemma token_effect_cancel self w t :
  t = shutdown_token self ∨ (∃ id, incoming_table self !! id = Some t) →
  ∀ u, apart self w u →
    lineage (token_cancel t (w_tokens w)) u = Some [u] ∧
    is_cancelled (token_cancel t (w_tokens w)) u = is_cancelled (w_tokens w) u.
Proof.
  intros Ht u (Hl & Hn & Hin). destruct (token_cancel_law _ t _ _ Hl) as [-> ->]. split; [done|].
  rewrite bool_decide_eq_false_2; [by rewrite orb_false_r|]. rewrite list_elem_of_singleton.
  intros ->. destruct Ht as [->|[id Hid]]; [done|by eapply Hin].
Qed.

Lemma send_world self m w r w' :
  send self m w = (r, w') → w' = with_outbound (w_outbound w') w.
Proof.
  unfold send. run_st. destruct (unbounded_send m (w_outbound w)). by intros [= <- <-].
Qed.

(** The requests of the queue are completed or cancelled. *)
Lemma outgoing_effect self w o s :
  (∀ d, foreign (w_channels w) (outgoing_table self) d ∨ channel_state s d = channel_state (w_channels w) d) →
  (∀ j d, out_pending o !! j = Some d → foreign (w_channels w) (outgoing_table self) d) →
  op_effect self w (with_outgoing o self) (with_channels s w).
Proof.
  intros Hf Ho. split; [done| |by apply token_effect_same].
  apply effect_foreign; [done| |done]. intros d Hd. by destruct (Hf d).
Qed.

Lemma effect_quiet self w self' w' :
  quiet self w self' w' → w_counters w' = w_counters w →
  conn_drain_alive self' = conn_drain_alive self → op_effect self w self' w'.
Proof.
  intros (Ht & Hc & Hm & Hq & Hs & Hr) Hk Hd. split.
  - by split; rewrite ?Hm.
  - apply effect_none; try done. unfold outgoing_table. by rewrite Hq.
  - apply token_effect_same; try done. unfold incoming_table. by rewrite Hq.
Qed.

Lemma cancel_in_effect self w id b w' : cancel_in self id w = (b, w') → op_effect self w self w'.
Proof.
  unfold cancel_in, IncomingRequests_cancel. run_st.
  destruct (in_pending (incoming (request_queue self)) !! id) as [t|] eqn:Ht; intros [= <- <-].
  - split; [done|by apply effect_none|]. intros u Hu.
    destruct (token_effect_cancel self w t (or_intror (ex_intro _ id Ht)) u Hu) as [Hl Hc].
    split; [|done]. split_and!; [done|by apply Hu..].
  - split; [done|by apply effect_none|by apply token_effect_same].
Qed.

Lemma cancel_effect {own} self w id a self' w' :
  conn_good own self w → cancel self id w = ((a, self'), w') → op_effect self w self' w'.
Proof.
  intros Hok. unfold cancel, mbind, St_bind. destruct (send self _ w) as [r w1] eqn:Hs.
  pose proof (send_quiet _ _ _ _ _ Hs) as Hq. apply send_same in Hs as (Ht & Hc & Hm & Hk).
  destruct r as [u|e|]; run_st.
  2, 3: intros [= <- <- <-]; by apply effect_quiet.
  unfold OutgoingRequests_cancel. change (out_pending (outgoing _)) with (outgoing_table self).
  intros [= <- <- <-]. rewrite Hc.
  destruct (drop_old_law _ _ id (ok_outgoing _ _ Hok)) as (_ & _ & Hf). split.
  - split; cbn; by rewrite ?Hm.
  - apply effect_foreign; [unfold response_table; cbn; by rewrite Hm| |].
    + intros d Hd. apply Hf. intros Hd'. apply Hd. right. eauto.
    + intros j d [_ Hd]%(lookup_delete_Some (outgoing_table self) id j d). right. eauto.
  - by apply token_effect_same.
Qed.

Lemma register_effect {own} self w id c o s :
  conn_good own self w →
  OutgoingRequests_register id (outgoing (request_queue self)) (w_channels w) = (c, o, s) →
  op_effect self w (with_outgoing o self) (with_channels s w).
Proof.
  intros Hok. unfold OutgoingRequests_register.
  destruct (oneshot_channel (w_channels w)) as [d s1] eqn:Hch.
  change (out_pending (outgoing _)) with (outgoing_table self). intros [= <- <- <-].
  destruct (oneshot_channel_law _ _ _ Hch) as (Hnone & _ & _).
  destruct (register_law _ _ id _ _ (ok_outgoing _ _ Hok) Hch) as (_ & _ & _ & Hf).
  split; [done| |by apply token_effect_same].
  apply effect_foreign; [done| |].
  - intros e He. apply Hf. intros [->|Hd]; apply He; [by left|right; eauto].
  - intros j e [[<- <-]|[_ He]]%(lookup_insert_Some (outgoing_table self) id j d e);
      [by left|right; eauto].
Qed.

Lemma complete_effect self w id :
  op_effect self w (with_incoming (IncomingRequests_complete id (incoming (request_queue self))).2 self) w.
Proof.
  split; [done|by apply effect_none|]. apply token_effect_same; try done.
  apply map_subseteq_spec. intros i t Ht.
  by apply (lookup_delete_Some (incoming_table self) id i t) in Ht as [_ Ht].
Qed.

Lemma route_request_effect {own} self w req a self' w' :
  conn_good own self w → route self (MRequest req) w = ((a, self'), w') → op_effect self w self' w'.
Proof.
  intros Hok. unfold route. run_st. destruct (child_token _ _) as [t s] eqn:Hc. intros [= <- <- <-].
  destruct (child_token_law _ _ _ _ _ (ok_shutdown _ _ Hok) Hc) as (Hnone & _ & _ & Hf).
  split; [done|by apply effect_none|]. intros u (Hl & Hn & Hin).
  assert (u ≠ t) as Hne by congruence. destruct (Hf _ Hne) as [Hl' Hc']. split; [|done].
  split_and!; [by cbn; rewrite Hl'|done|].
  intros id [[_ ?]|[_ Hid]]%(lookup_insert_Some (incoming_table self) (req_id req) id t u); [done|].
  by eapply Hin.
Qed.

Lemma route_response_effect {own} self w resp a self' w' :
  conn_good own self w → route self (MResponse resp) w = ((a, self'), w') → op_effect self w self' w'.
Proof.
  intros Hok Hr. destruct (route_response_tokens _ _ _ _ _ _ Hr) as (Ht & Hd & Hi).
  assert (token_effect self w self' w') as Htok by (apply token_effect_same; [done|done|by rewrite Hi]).
  revert Hr. unfold route. destruct (resp_id resp) as [id|] eqn:Hid.
  2: { run_st. intros [= <- <- <-]. split; [done|by apply effect_none|done]. }
  unfold mbind at 1, St_bind. destruct (response_table self w !! id) as [c|] eqn:Hc.
  - pose proof (deliver_to_map_law _ _ _ _ resp Hok Hc) as Hlaw. rewrite deliver_to_map_run, Hc in *.
    run_st. intros [= <- <- <-]. destruct Hlaw as (_ & _ & _ & _ & Hdel & Htab).
    split; [|by eapply effect_deliver|done].
    split; try done. cbn. destruct (conn_response_map self); [by rewrite length_insert|done].
  - rewrite deliver_to_map_run, Hc. unfold OutgoingRequests_is_pending, OutgoingRequests_complete.
    change (out_pending (outgoing (request_queue self))) with (outgoing_table self).
    destruct (outgoing_table self !! id) as [c|] eqn:Ho.
    2: { run_st. intros [= <- <- <-]. split; [done|by apply effect_none|done]. }
    rewrite bool_decide_eq_true_2 by done. run_st.
    pose proof (complete_law _ _ _ _ resp Hok Ho) as Hlaw. cbv zeta in Hlaw.
    destruct (oneshot_send c resp (w_channels w)) as [x s] eqn:Hs. destruct Hlaw as (_ & [_ Hf] & _).
    intros [= <- <- <-]. split; [done| |done]. apply effect_foreign; [done| |].
    + intros d Hfd. apply Hf. intros <-. apply Hfd. right. eauto.
    + intros j d [_ Hj]%(lookup_delete_Some (outgoing_table self) id j d). right. eauto.
Qed.

Lemma route_effect {own} self w m a self' w' :
  conn_good own self w → route self m w = ((a, self'), w') → op_effect self w self' w'.
Proof.
  intros Hok. destruct m as [req|resp|notif].
  - by eapply route_request_effect.
  - by eapply route_response_effect.
  - unfold route. destruct (bool_decide _).
    2: { run_st. intros [= <- <- <-]. by apply effect_quiet. }
    destruct (parse_cancel_params _) as [id|].
    2: { run_st. intros [= <- <- <-]. by apply effect_quiet. }
    unfold mbind, St_bind. destruct (cancel_in self id w) as [b w1] eqn:Hc.
    intros [= <- <- <-]. by eapply cancel_in_effect.
Qed.

Lemma shutdown_effect self w id a self' w' :
  handle_shutdown self id w = ((a, self'), w') → op_effect self w self' w'.
Proof.
  unfold handle_shutdown, mbind, St_bind.
  destruct (on_tokens _ w) as [[] w1] eqn:Ht. destruct (send _ _ w1) as [r w2] eqn:Hs.
  apply send_same in Hs as (Hs1 & Hs2 & Hs3 & Hs4). intros [= <- <- <-].
  revert Ht. run_st. intros [= <-]. cbn in Hs1, Hs2, Hs3, Hs4. split.
  - split; try done. by rewrite Hs3.
  - by apply effect_none.
  - intros u Hu. destruct (token_effect_cancel self w _ (or_introl eq_refl) u Hu) as [Hl Hc].
    rewrite Hs1. split; [|done]. split_and!; [by rewrite Hs1|by apply Hu..].
Qed.

Lemma client_sender_effect {own} self w cs self' w' :
  conn_good own self w → client_sender self w = ((cs, self'), w') →
  response_table self' w' = response_table self w ∧ outgoing_table self' = outgoing_table self ∧
  w_channels w' = w_channels w ∧ w_tokens w' = w_tokens w ∧ incoming_table self' = incoming_table self ∧
  shutdown_token self' = shutdown_token self ∧ conn_drain_alive self' = conn_drain_alive self ∧
  (∀ map, conn_response_map self = Some map → conn_response_map self' = Some map) ∧
  conn_response_map self' = Some (response_map cs) ∧ drain_alive cs = conn_drain_alive self' ∧
  counter_ok cs w' ∧ ∀ cs', counter_ok cs' w → counter_ok cs' w'.
Proof.
  intros Hok. unfold client_sender, ClientSender_new, ResponseMap_new.
  assert (∀ l (z : list Z) (w0 : World), w_counters w0 = z ++ [1%Z] → l = length z →
    counter_ok {| response_map := response_map cs; id_counter := l; drain_alive := drain_alive cs |} w0) as Hnew.
  { intros l z w0 Hz ->. unfold counter_ok, counter_at. cbn. rewrite Hz, list_lookup_middle by done.
    rewrite length_app. simpl. split; [lia|done]. }
  assert (∀ cs' w0, w_counters w0 = w_counters w ++ [1%Z] → counter_ok cs' w → counter_ok cs' w0) as Hold.
  { intros cs' w0 Hz [Hlt Hc]. unfold counter_ok, counter_at in *. rewrite Hz.
    rewrite length_app, lookup_app_l by done. split; [lia|done]. }
  unfold response_table. destruct (conn_response_map self) as [map|] eqn:Hmap; run_st;
    intros [= <- <- <-]; cbn in *; rewrite ?Hmap.
  - split_and!; try done; [by eapply (Hnew _ (w_counters w))|by intros cs'; apply Hold].
  - split_and!; try done; [by rewrite list_lookup_middle|by eapply (Hnew _ (w_counters w))|
      by intros cs'; apply Hold].
Qed.

Lemma complete_outgoing_effect {own} self w id r b o s :
  conn_good own self w →
  OutgoingRequests_complete id r (outgoing (request_queue self)) (w_channels w) = (b, o, s) →
  op_effect self w (with_outgoing o self) (with_channels s w).
Proof.
  intros Hok. unfold OutgoingRequests_complete.
  change (out_pending (outgoing (request_queue self))) with (outgoing_table self).
  destruct (outgoing_table self !! id) as [c|] eqn:Ho.
  - pose proof (complete_law _ _ _ _ r Hok Ho) as Hlaw. cbv zeta in Hlaw.
    destruct (oneshot_send c r (w_channels w)) as [x s1]. destruct Hlaw as (_ & [_ Hf] & _).
    intros [= _ <- <-]. apply outgoing_effect.
    + intros d. destruct (decide (c = d)) as [<-|Hne]; [left; right; eauto|right; by apply Hf].
    + cbn. intros j d [_ Hj]%lookup_delete_Some. right. eauto.
  - intros [= _ <- <-]. apply outgoing_effect; [by right|]. intros j d Hj. right. eauto.
Qed.

Lemma cancel_outgoing_effect {own} self w id b o s :
  conn_good own self w →
  OutgoingRequests_cancel id (outgoing (request_queue self)) (w_channels w) = (b, o, s) →
  op_effect self w (with_outgoing o self) (with_channels s w).
Proof.
  intros Hok. unfold OutgoingRequests_cancel.
  change (out_pending (outgoing (request_queue self))) with (outgoing_table self). intros [= _ <- <-].
  destruct (drop_old_law _ _ id (ok_outgoing _ _ Hok)) as (_ & _ & Hf). apply outgoing_effect.
  - intros d. destruct (decide (outgoing_table self !! id = Some d)); [left; right; eauto|right; by apply Hf].
  - cbn. intros j d [_ Hj]%lookup_delete_Some. right. eauto.
Qed.

(** Whether an operation registers that token for a request. *)
Definition names (op : operation) (u : Token) : bool :=
  match op with OpRegisterIncoming _ t => bool_decide (t = u) | _ => false end.

Lemma op_effect_but self w self' w' op :
  op_effect self w self' w' →
  same_handles self w self' w' ∧ table_effect self w self' w' ∧
  ∀ u, apart self w u → names op u = false →
    apart self' w' u ∧ is_cancelled (w_tokens w') u = is_cancelled (w_tokens w) u.
Proof. intros [Hh Ht Hk]. split_and!; try done. intros u Hu _. by apply Hk. Qed.

(** Every operation of one step that makes no client sender. *)
Lemma run_op_effect {own} op self w self' w' :
  conn_good own self w → op ≠ OpClientSender →
  match op with OpSendRequest _ _ _ _ | OpInitialize _ _ | OpInitializeStart _ | OpInitializeFinish _ _ _ => False | _ => True end →
  run_op op self w = (self', w') →
  same_handles self w self' w' ∧ table_effect self w self' w' ∧
  ∀ u, apart self w u → names op u = false →
    apart self' w' u ∧ is_cancelled (w_tokens w') u = is_cancelled (w_tokens w) u.
Proof.
  intros Hok Hcs Hat. destruct op as [m|m|id|id t|id|id r|id|id|id|n| |id me p evs|caps evs|evs|rid v evs|id|]; try done;
    cbn [run_op]; unfold fmap, St_fmap.
  - destruct (route self m w) as [[a s1] w1] eqn:H. intros [= <- <-]. by eapply op_effect_but, route_effect.
  - destruct (send self m w) as [a w1] eqn:H. intros [= <- <-].
    apply op_effect_but, effect_quiet; [by eapply send_quiet|by eapply send_same|done].
  - run_st. intros [= <- <-]. apply op_effect_but, complete_effect.
  - run_st. intros [= <- <-]. split_and!; [done|by apply effect_none|].
    intros u (Hl & Hn & Hin) Ht. apply bool_decide_eq_false in Ht. split; [|done]. split_and!; try done.
    intros i [[_ Hu]|[_ Hu]]%(lookup_insert_Some (incoming_table self)); [done|by eapply Hin].
  - run_st. destruct (OutgoingRequests_register _ _ _) as [[c o] s1] eqn:H. intros [= <- <-].
    by eapply op_effect_but, register_effect.
  - run_st. destruct (OutgoingRequests_complete _ _ _ _) as [[c o] s1] eqn:H. intros [= <- <-].
    by eapply op_effect_but, complete_outgoing_effect.
  - run_st. destruct (OutgoingRequests_cancel _ _ _) as [[c o] s1] eqn:H. intros [= <- <-].
    by eapply op_effect_but, cancel_outgoing_effect.
  - destruct (cancel self id w) as [[a s1] w1] eqn:H. intros [= <- <-]. by eapply op_effect_but, cancel_effect.
  - unfold cancel_incoming. destruct (cancel_in self id w) as [b w1] eqn:H. intros [= <- <-].
    by eapply op_effect_but, cancel_in_effect.
  - unfold handle_cancel_request. destruct (bool_decide _).
    { run_st. intros [= <- <-]. by apply op_effect_but, effect_quiet. }
    destruct (parse_cancel_params _) as [id|].
    2: { run_st. intros [= <- <-]. by apply op_effect_but, effect_quiet. }
    unfold fmap, St_fmap. destruct (cancel_in self id w) as [b w1] eqn:H. intros [= <- <-].
    by eapply op_effect_but, cancel_in_effect.
  - destruct (handle_shutdown self id w) as [[a s1] w1] eqn:H. intros [= <- <-].
    by eapply op_effect_but, shutdown_effect.
  - run_st. intros [= <- <-]. by apply op_effect_but, effect_quiet.
Qed.
End effects.
