(* ===== verification/System.v ===== *)
(** * System: a connection, its drain task and the requests of its client senders,
    interleaved.

    The connection is owned by one task; requests run in tasks of their own, which
    share the response map, the id counters and the outbound queue; the drain task
    of [spawn_drain_task] writes the queue to the transport.  A step is one access to
    the shared state: an atomic update of a counter, a critical section of the
    response map, a send, a poll, an operation of the connection. *)

From S2P Require Import Prelude RustStd Serde RequestId Error Message Tokio World RequestQueue Io Lifecycle Routing ClientSender Connection Handshake Serving.

(** The drain task waits for a message, writes one, drops its guard, or has ended. *)
Inductive DrainState : Type :=
| DrainIdle
| DrainWriting (m : Message)
| DrainClosing
| DrainStopped.

Section system.
Context `{TK : Tokio}.

(** Where [request] is in its code: about to draw an id, about to register it, about
    to send, at its [select!], returned, or dropped. *)
Inductive TaskState : Type :=
| Drawing (retries : nat)
| Registering (retries : nat) (id : RequestId)
| Sending (id : RequestId) (rx : Channel)
| Selecting (id : RequestId) (cleanup : PendingResponseGuard) (rx : Channel)
| Finished (id : option RequestId) (r : result ProtocolError Response)
| Abandoned.

Record Task : Type := task_new {
  task_sender : ClientSender;
  task_method : string;
  task_params : option Value;
  task_state : TaskState;
}.

Definition with_state (t : Task) (st : TaskState) : Task :=
  task_new (task_sender t) (task_method t) (task_params t) st.

Record System : Type := system_new {
  world : World;
  conn : Connection;
  senders : list ClientSender;
  tasks : list Task;
  drain : DrainState;
  wire : list Message;
}.

Definition set_task (i : nat) (t : Task) (w : World) (s : System) : System :=
  system_new w (conn s) (senders s) (<[i := t]> (tasks s)) (drain s) (wire s).

Definition set_drain (d : DrainState) (w : World) (s : System) : System :=
  system_new w (conn s) (senders s) (tasks s) d (wire s).

(** One step of a task that is not at its [select!]: its code up to the next
    access. *)
Definition run_task (t : Task) : St TaskState :=
  match task_state t with
  | Drawing O =>
    mret (Finished None (Err (ProtocolIo (io_error_new Other
      (IoMsg "failed to reserve a request slot after 1000 attempts")))))
  | Drawing (S retries) =>
    r ← next_id (task_sender t);
    mret match r with
         | Ok id => Registering retries id
         | Err e => Finished None (Err (ProtocolIo e))
         | Panic => Finished None Panic
         end
  | Registering retries id =>
    o ← ResponseMap_try_register (response_map (task_sender t)) id;
    mret match o with
         | Some rx => Sending id rx
         | None => Drawing retries
         end
  | Sending id rx =>
    '(fut, r) ← send_registered_request (task_sender t) id (task_method t) (task_params t) rx;
    mret match fut, r with
         | Waiting cleanup rx, _ => Selecting id cleanup rx
         | _, Ready r => Finished (Some id) r
         | _, Pending => Finished (Some id) Panic
         end
  | st => mret st
  end.

(** One poll of a task at its [select!]. *)
Definition poll_task (t : Task) (rx_first : bool) : St TaskState :=
  match task_state t with
  | Selecting id cleanup rx =>
    '(fut, r) ← poll_waiting (task_sender t) rx_first cleanup rx;
    mret match r with
         | Ready r => Finished (Some id) r
         | Pending => Selecting id cleanup rx
         end
  | st => mret st
  end.

(** Operations of the connection that are one step: not the loops that await the
    stream, whose sends are [OpSend] steps. *)
Definition atomic (op : operation) : bool :=
  match op with OpSendRequest _ _ _ _ | OpInitialize _ _ | OpInitializeStart _ | OpInitializeFinish _ _ _ => false | _ => true end.

(** The token of the drain task is private: no caller can register it. *)
Definition possible (op : operation) (c : Connection) : bool :=
  match op with OpRegisterIncoming _ t => bool_decide (t ≠ conn_drain_alive c) | _ => true end.

Inductive sys_step : System → System → Prop :=
| step_conn op s c w :
  atomic op = true → op ≠ OpClientSender → possible op (conn s) = true →
  run_op op (conn s) (world s) = (c, w) →
  sys_step s (system_new w c (senders s) (tasks s) (drain s) (wire s))
| step_client_sender s cs c w :
  client_sender (conn s) (world s) = ((cs, c), w) →
  sys_step s (system_new w c (cs :: senders s) (tasks s) (drain s) (wire s))
| step_notify s cs method params r w :
  cs ∈ senders s → notify cs method params (world s) = (r, w) →
  sys_step s (system_new w (conn s) (senders s) (tasks s) (drain s) (wire s))
| step_respond s cs resp r w :
  cs ∈ senders s → respond cs resp (world s) = (r, w) →
  sys_step s (system_new w (conn s) (senders s) (tasks s) (drain s) (wire s))
| step_spawn s cs method params :
  cs ∈ senders s →
  sys_step s (system_new (world s) (conn s) (senders s)
    (tasks s ++ [task_new cs method params (Drawing MAX_RETRIES)]) (drain s) (wire s))
| step_task s i t st w :
  tasks s !! i = Some t → run_task t (world s) = (st, w) →
  sys_step s (set_task i (with_state t st) w s)
| step_poll s i t rx_first st w :
  tasks s !! i = Some t → poll_task t rx_first (world s) = (st, w) →
  sys_step s (set_task i (with_state t st) w s)
| step_abandon s i t id cleanup rx w :
  tasks s !! i = Some t → task_state t = Selecting id cleanup rx →
  request_drop (Waiting cleanup rx) (world s) = ((), w) →
  sys_step s (set_task i (with_state t Abandoned) w s)
| step_drain_recv s m q :
  drain s = DrainIdle → unbounded_recv (w_outbound (world s)) = (Some m, q) →
  sys_step s (set_drain (DrainWriting m) (with_outbound q (world s)) s)
| step_drain_sent s m :
  drain s = DrainWriting m →
  sys_step s (system_new (world s) (conn s) (senders s) (tasks s) DrainIdle (wire s ++ [m]))
| step_drain_failed s m :
  drain s = DrainWriting m →
  sys_step s (set_drain DrainClosing
    (with_tokens (token_cancel (conn_drain_alive (conn s)) (w_tokens (world s))) (world s)) s)
| step_drain_stop s :
  drain s = DrainClosing →
  sys_step s (set_drain DrainStopped
    (with_outbound (receiver_drop (w_outbound (world s))) (world s)) s).

(** A new connection, in any world. *)
Definition sys_init (s : System) : Prop :=
  ∃ w, Connection_new w = (conn s, world s) ∧
    senders s = [] ∧ tasks s = [] ∧ drain s = DrainIdle ∧ wire s = [].

Inductive reachable : System → Prop :=
| reachable_init s : sys_init s → reachable s
| reachable_step s s' : reachable s → sys_step s s' → reachable s'.
End system.

(** ** A task alone

    When nothing else happens in between, the steps of a task up to its [select!] are
    the first poll of [request]. *)

Section alone.
Context `{TK : Tokio}.

Fixpoint run_alone (n : nat) (t : Task) : St TaskState :=
  match n with
  | O => mret (task_state t)
  | S n => st ← run_task t; run_alone n (with_state t st)
  end.

(** The states from which a task does not go on by itself. *)
Definition at_rest (st : TaskState) : bool :=
  match st with Selecting _ _ _ | Finished _ _ | Abandoned => true | _ => false end.

Lemma run_alone_rest n t w : at_rest (task_state t) = true → run_alone n t w = (task_state t, w).
Proof.
  destruct t as [cs m p st]. cbn. revert w. induction n as [|n IH]; intros w Hst; [done|].
  cbn [run_alone]. unfold mbind, St_bind, run_task. cbn [task_state].
  destruct st; try done; unfold mret, St_ret; by apply IH.
Qed.

(** What a poll of the future makes of the state a task has come to. *)
Definition poll_rest (cs : ClientSender) (rx_first : bool) (st : TaskState) :
    St (RequestFuture * poll (result ProtocolError Response)) :=
  match st with
  | Selecting _ cleanup rx => poll_waiting cs rx_first cleanup rx
  | Finished _ r => mret (Returned, Ready r)
  | _ => mret (Returned, Ready Panic)
  end.

Lemma run_alone_sending cs m p id rx n b w :
  (st ← run_alone (S n) (task_new cs m p (Sending id rx)); poll_rest cs b st) w =
  ('(fut, r) ← send_registered_request cs id m p rx;
   match fut with Waiting cleanup rx => poll_waiting cs b cleanup rx | _ => mret (fut, r) end) w.
Proof.
  cbn [run_alone]. unfold mbind, St_bind, run_task. cbn [task_state task_sender task_method task_params].
  unfold send_registered_request, mbind, St_bind.
  destruct (send_outbound _ w) as [[u|e|] w1].
  - unfold mret, St_ret. by rewrite run_alone_rest.
  - destruct (PendingResponseGuard_drop _ w1) as [v w2]. destruct (on_channels _ w2) as [v' w3].
    unfold mret, St_ret. by rewrite run_alone_rest.
  - destruct (PendingResponseGuard_drop _ w1) as [v w2]. destruct (on_channels _ w2) as [v' w3].
    unfold mret, St_ret. by rewrite run_alone_rest.
Qed.

Lemma run_alone_drawing cs m p retries n b w :
  2 * retries + 1 ≤ n →
  (st ← run_alone n (task_new cs m p (Drawing retries)); poll_rest cs b st) w =
  (slot ← reserve_loop retries cs;
   match slot with
   | Ok (id, rx) =>
     '(fut, r) ← send_registered_request cs id m p rx;
     match fut with Waiting cleanup rx => poll_waiting cs b cleanup rx | _ => mret (fut, r) end
   | Err e => mret (Returned, Ready (Err (ProtocolIo e)))
   | Panic => mret (Returned, Ready Panic)
   end) w.
Proof.
  revert n w. induction retries as [|retries IH]; intros n w Hn; (destruct n as [|n]; [lia|]).
  { cbn [run_alone reserve_loop]. unfold mbind, St_bind, run_task at 1. cbn [task_state].
    unfold mret, St_ret. by rewrite run_alone_rest. }
  cbn [run_alone reserve_loop]. unfold mbind, St_bind in *.
  unfold run_task at 1. cbn [task_state task_sender].
  unfold mbind, St_bind. destruct (next_id cs w) as [[id|e|] w1]; unfold mret at 1, St_ret.
  2, 3: by rewrite run_alone_rest.
  destruct n as [|n]; [lia|]. cbn [run_alone]. unfold mbind, St_bind.
  unfold run_task at 1. cbn [task_state task_sender with_state]. unfold mbind, St_bind.
  destruct (ResponseMap_try_register (response_map cs) id w1) as [[rx|] w2]; unfold mret at 1, St_ret.
  - destruct n as [|n]; [lia|]. apply run_alone_sending.
  - apply IH. lia.
Qed.

(** A request whose steps are not interleaved with anything does what
    [ClientSender::request] does when it is first polled: the system of tasks is the
    same program. *)
Theorem request_steps cs m p b w :
  request_poll cs b (request m p) w =
  (st ← run_alone (2 * MAX_RETRIES + 1) (task_new cs m p (Drawing MAX_RETRIES)); poll_rest cs b st) w.
Proof.
  rewrite run_alone_drawing by done. done.
Qed.
End alone.
