(* ===== verification/Safety.v ===== *)
(** * Safety: the invariant of the interleaved system.

    Every reachable state of [System] satisfies [sys_ok]; what follows from it is in
    [Delivery]. *)

From S2P Require Import Prelude RustStd Serde RequestId Error Message Tokio World RequestQueue Io Lifecycle Routing ClientSender Connection Handshake Serving Ownership Effects System.

Section worlds.
Context `{TK : Tokio} {TL : TokioLaws TK}.

Lemma map_at_response_table self map w :
  conn_response_map self = Some map → map_at map w = response_table self w.
Proof. intros H. unfold response_table. by rewrite H. Qed.

(** Another content of the response map, and other channels. *)
Lemma conn_ok_with_table self map m s w :
  tables_ok self w → conn_response_map self = Some map →
  pending_ok (outgoing_table self) s → pending_ok m s →
  (∀ i j c, outgoing_table self !! i = Some c → m !! j ≠ Some c) →
  tables_ok self (with_table map m s w) ∧ response_table self (with_table map m s w) = m.
Proof.
  intros Hok Hmap Ho Hm Hd. pose proof (ok_map _ _ Hok _ Hmap) as Hlt.
  assert (response_table self (with_table map m s w) = m) as Ht
    by (rewrite <-(map_at_response_table _ map) by done; by rewrite map_at_with_table).
  split; [|done]. destruct Hok as [_ _ _ Hm' Hs Hi Hdi]. split; rewrite ?Ht; try done.
  intros map' Hmap'. cbn. rewrite length_insert. by apply Hm'.
Qed.

Lemma conn_ok_with_channels self w s :
  tables_ok self w → pending_ok (outgoing_table self) s → pending_ok (response_table self w) s →
  tables_ok self (with_channels s w).
Proof. intros [] Ho Hr. by split. Qed.

Lemma pending_ok_drop_receiver m s c v :
  channel_state s c = Some v → pending_ok m s → pending_ok m (drop_receiver c s).
Proof.
  intros Hc [Hw Hi]. destruct (drop_receiver_law _ _ _ Hc) as [Hc' Hf].
  split; [|done]. intros id d Hd. destruct (Hw _ _ Hd) as [ra Hra].
  destruct (decide (d = c)) as [->|Hne].
  - exists false. rewrite Hc'. rewrite Hc in Hra. by simplify_eq/=.
  - exists ra. by rewrite Hf.
Qed.

(** Dropping a receiver and dropping the sender of an entry commute for the others. *)
Lemma drop_commute m s id c v :
  pending_ok m s → channel_state s c = Some v →
  frame_but (eq c) (drop_old (m !! id) s) (drop_old (m !! id) (drop_receiver c s)).
Proof.
  intros [Hw _] Hc d Hd. destruct (drop_receiver_law _ _ _ Hc) as [_ Hf].
  destruct (m !! id) as [e|] eqn:He; cbn [drop_old]; [|by apply Hf].
  destruct (Hw _ _ He) as [ra Hra]. destruct (drop_sender_law _ _ _ Hra) as [He1 Hf1].
  destruct (decide (e = c)) as [->|Hne].
  - destruct (drop_receiver_law _ _ _ Hra) as [Hr _].
    destruct (drop_sender_law _ _ _ Hr) as [_ Hf2]. by rewrite Hf2, Hf1, Hf.
  - assert (channel_state (drop_receiver c s) e = Some (channel_view_new true ra None)) as Hra'
      by (by rewrite Hf).
    destruct (drop_sender_law _ _ _ Hra') as [He2 Hf2].
    destruct (decide (d = e)) as [->|Hde]; [by rewrite He1, He2|]. by rewrite Hf1, Hf2, Hf.
Qed.

(** ** A task that gives up

    The guard removes the entry of the id and the receiver is dropped, in either
    order. *)
Lemma relinquish self w act map i id rx s :
  tables_ok self w → conn_response_map self = Some map →
  owned act (response_table self w) (w_channels w) (outgoing_table self) →
  act i = Some (id, rx) →
  let T := response_table self w in
  s = drop_receiver rx (drop_old (T !! id) (w_channels w)) ∨
  s = drop_old (T !! id) (drop_receiver rx (w_channels w)) →
  let w' := with_table map (delete id T) s w in
  tables_ok self w' ∧ owned (act_set act i None) (response_table self w') s (outgoing_table self).
Proof.
  intros Hok Hmap Ho Hi T Hs w'.
  destruct (own_channel _ _ _ _ Ho _ _ _ Hi) as (a & v & Hrx & _).
  destruct (drop_old_law _ _ id (ok_response _ _ Hok)) as (Hp & _ & Hf).
  destruct (owned_cancel _ _ _ _ _ _ _ Ho (ok_response _ _ Hok) Hi) as [Ho1 Hno].
  assert (pending_ok (outgoing_table self) (drop_old (T !! id) (w_channels w))) as Hpo.
  { eapply pending_ok_frame; [exact Hf| |apply (ok_outgoing _ _ Hok)].
    intros j d Hj Hd. by eapply (ok_disjoint _ _ Hok). }
  assert (∃ v', channel_state (drop_old (T !! id) (w_channels w)) rx = Some v') as [v' Hrx'].
  { destruct (own_channel _ _ _ _ Ho1 _ _ _ Hi) as (a' & v' & ? & _). eauto. }
  assert (pending_ok (outgoing_table self) s ∧ pending_ok (delete id T) s ∧
          frame_but (eq rx) (drop_old (T !! id) (w_channels w)) s) as (Hpo' & Hpt & Hframe).
  { destruct Hs as [-> | ->].
    - split_and!; [by eapply pending_ok_drop_receiver..|].
      intros d Hd. by apply (drop_receiver_law _ _ _ Hrx').
    - pose proof (pending_ok_drop_receiver _ _ _ _ Hrx (ok_response _ _ Hok)) as Hp2.
      destruct (drop_old_law _ _ id Hp2) as (Hp3 & _ & Hf3). split_and!; [|done|].
      + eapply pending_ok_frame; [exact Hf3| |].
        * intros j d Hj Hd. by eapply (ok_disjoint _ _ Hok).
        * by eapply pending_ok_drop_receiver, ok_outgoing.
      + by eapply drop_commute; [apply (ok_response _ _ Hok)|]. }
  destruct (conn_ok_with_table self map (delete id T) s w Hok Hmap Hpo' Hpt) as [Hok' Ht'].
  { intros j k c Hj [_ Hk]%lookup_delete_Some. by eapply (ok_disjoint _ _ Hok). }
  split; [done|]. unfold w'. rewrite Ht'. by eapply owned_finish.
Qed.
End worlds.

(** ** The invariant *)

Section safety.
Context `{TK : Tokio} {TL : TokioLaws TK}.

(** What a task waits for, from the registration of its id to its end. *)
Definition active_state (st : TaskState) : option (RequestId * Channel) :=
  match st with
  | Sending id rx | Selecting id _ rx => Some (id, rx)
  | _ => None
  end.

Definition activity (s : System) : nat → option (RequestId * Channel) :=
  λ i, t ← tasks s !! i; active_state (task_state t).

Definition sender_ok (s : System) (cs : ClientSender) : Prop :=
  conn_response_map (conn s) = Some (response_map cs) ∧
  drain_alive cs = conn_drain_alive (conn s) ∧ counter_ok cs (world s).

Definition state_ok (cs : ClientSender) (st : TaskState) : Prop :=
  match st with
  | Selecting id cleanup _ => cleanup = PendingResponseGuard_new (response_map cs) id
  | Finished o (Ok r) => ∃ id, o = Some id ∧ resp_id r = Some id
  | _ => True
  end.

Definition drain_gone (d : DrainState) : bool :=
  match d with DrainClosing | DrainStopped => true | _ => false end.

Record sys_ok (s : System) : Prop := {
  sys_conn : tables_ok (conn s) (world s);
  sys_owned : owned (activity s) (response_table (conn s) (world s)) (w_channels (world s))
                    (outgoing_table (conn s));
  sys_senders : ∀ cs, cs ∈ senders s → sender_ok s cs;
  sys_tasks : ∀ i t, tasks s !! i = Some t →
    task_sender t ∈ senders s ∧ state_ok (task_sender t) (task_state t);
  sys_drain : apart (conn s) (world s) (conn_drain_alive (conn s)) ∧
    is_cancelled (w_tokens (world s)) (conn_drain_alive (conn s)) = drain_gone (drain s);
}.

Lemma activity_set_task s i t st w t0 :
  tasks s !! i = Some t0 →
  ∀ j, activity (set_task i (with_state t st) w s) j = act_set (activity s) i (active_state st) j.
Proof.
  intros Hi j. unfold activity, act_set, set_task. cbn [tasks]. case_decide as E; [subst|].
  - rewrite list_lookup_insert_eq by (by eapply lookup_lt_Some). done.
  - by rewrite list_lookup_insert_ne.
Qed.

(** A step of one task: what has to be shown. *)
Lemma set_task_ok s i t st w :
  sys_ok s → tasks s !! i = Some t → tables_ok (conn s) w → w_tokens w = w_tokens (world s) →
  (∀ cs, cs ∈ senders s → counter_ok cs w) →
  owned (act_set (activity s) i (active_state st)) (response_table (conn s) w) (w_channels w)
        (outgoing_table (conn s)) →
  state_ok (task_sender t) st → sys_ok (set_task i (with_state t st) w s).
Proof.
  intros [Hc Ho Hs Ht Hd] Hi Hok Htok Hcnt Howned Hst. split; try done.
  - eapply owned_ext; [|exact Howned]. by eapply activity_set_task.
  - intros cs Hcs. destruct (Hs _ Hcs) as (? & ? & _). by split_and!; [..|by apply Hcnt].
  - intros j t'. cbn [tasks set_task]. intros [(<- & <- & _)|(Hne & Hj)]%list_lookup_insert_Some.
    + split; [exact (proj1 (Ht _ _ Hi))|done].
    + exact (Ht _ _ Hj).
  - cbn. unfold apart in *. by rewrite Htok.
Qed.

Lemma act_set_same act i a (j : nat) : act i = a → act_set act i a j = act j.
Proof. intros <-. unfold act_set. by case_decide; subst. Qed.

Lemma bump_other cs self w : counter_ok self w → counter_ok cs w → counter_ok cs (bump self w).
Proof.
  intros Hs [Hlt Hr]. unfold counter_ok, counter_at, bump in *. cbn. rewrite length_insert.
  split; [done|]. destruct (decide (id_counter cs = id_counter self)) as [E|Hne].
  - rewrite E, list_lookup_insert_eq by (by apply Hs). simpl.
    apply next_counter_range. by apply Hs.
  - by rewrite list_lookup_insert_ne by done.
Qed.

(** *** Before the [select!] *)

Lemma run_drawing_ok s i t n st w :
  sys_ok s → tasks s !! i = Some t → task_state t = Drawing n →
  run_task t (world s) = (st, w) → sys_ok (set_task i (with_state t st) w s).
Proof.
  intros Hok Hi Hst. unfold run_task. rewrite Hst.
  assert (activity s i = None) as Hact by (unfold activity; rewrite Hi; cbn; by rewrite Hst).
  destruct (sys_tasks _ Hok _ _ Hi) as [Hin _].
  destruct (sys_senders _ Hok _ Hin) as (_ & _ & Hcnt).
  destruct n as [|n].
  - run_st. intros [= <- <-]. apply set_task_ok; try done; [by apply sys_conn|..].
    + intros cs Hcs. by apply (sys_senders _ Hok).
    + by apply owned_idle; [apply sys_owned|].
  - unfold mbind, St_bind. rewrite next_id_run by done. run_st. intros [= <- <-].
    apply set_task_ok; try done.
    + apply (conn_ok_same (conn s) (conn s) (world s)); [by apply sys_conn|done..].
    + intros cs Hcs. by apply bump_other, (sys_senders _ Hok).
    + by apply owned_idle; [apply sys_owned|].
Qed.

Lemma run_registering_ok s i t n id st w :
  sys_ok s → tasks s !! i = Some t → task_state t = Registering n id →
  run_task t (world s) = (st, w) → sys_ok (set_task i (with_state t st) w s).
Proof.
  intros Hok Hi Hst. unfold run_task. rewrite Hst.
  assert (activity s i = None) as Hact by (unfold activity; rewrite Hi; cbn; by rewrite Hst).
  destruct (sys_tasks _ Hok _ _ Hi) as [Hin _].
  destruct (sys_senders _ Hok _ Hin) as (Hmap & _ & _).
  pose proof (sys_conn _ Hok) as Hconn. pose proof (sys_owned _ Hok) as Hown.
  unfold mbind, St_bind. rewrite ResponseMap_try_register_run.
  rewrite (map_at_response_table (conn s)) by done.
  destruct (oneshot_channel (w_channels (world s))) as [c ch] eqn:Hch.
  destruct (oneshot_channel_law _ _ _ Hch) as (Hnone & Hnew & _).
  destruct (pending_ok_fresh _ _ _ _ (ok_outgoing _ _ Hconn) Hch) as (Hf & HnoO & _ & HpO).
  destruct (response_table (conn s) (world s) !! id) as [d|] eqn:Hid.
  - rewrite bool_decide_eq_true_2 by done. run_st. intros [= <- <-].
    destruct (drop_both_frame _ _ _ _ (ok_outgoing _ _ Hconn) Hch) as [Hpo Hfr].
    destruct (drop_both_frame _ _ _ _ (ok_response _ _ Hconn) Hch) as [Hpr _].
    apply set_task_ok; try done.
    + by apply conn_ok_with_channels.
    + intros cs Hcs. by apply (sys_senders _ Hok).
    + apply owned_idle; [|done]. eapply owned_foreign; [exact Hown| |].
      * intros e He. apply Hfr. intros <-. apply He. by left.
      * intros j e Hj. right. eauto.
  - rewrite bool_decide_eq_false_2 by (by intros [? ?]). run_st. intros [= <- <-].
    destruct (register_law _ _ id _ _ (ok_response _ _ Hconn) Hch) as (Hpr & _ & _ & _).
    rewrite Hid in Hpr. cbn [drop_old] in Hpr.
    destruct (conn_ok_with_table (conn s) (response_map (task_sender t))
      (<[id := c]> (response_table (conn s) (world s))) ch (world s) Hconn Hmap HpO Hpr) as [Hok' Ht'].
    { intros j k e Hj [[_ <-]|[_ He]]%lookup_insert_Some; [by eapply HnoO|].
      by eapply (ok_disjoint _ _ Hconn). }
    apply set_task_ok; try done.
    + intros cs Hcs. by apply (sys_senders _ Hok).
    + rewrite Ht'. cbn. by eapply owned_register.
Qed.

(** *** At the [select!] *)

Lemma with_outbound_ok s q :
  sys_ok s → tables_ok (conn s) (with_outbound q (world s)).
Proof. intros Hok. apply (conn_ok_same (conn s) (conn s) (world s)); [by apply sys_conn|done..]. Qed.

(** The end of a task that has given up, in a world whose queue may have changed. *)
Lemma give_up_ok s i t id rx st q s' :
  sys_ok s → tasks s !! i = Some t → active_state (task_state t) = Some (id, rx) →
  active_state st = None → state_ok (task_sender t) st →
  let T := response_table (conn s) (world s) in
  s' = drop_receiver rx (drop_old (T !! id) (w_channels (world s))) ∨
  s' = drop_old (T !! id) (drop_receiver rx (w_channels (world s))) →
  sys_ok (set_task i (with_state t st)
    (with_table (response_map (task_sender t)) (delete id T) s' (with_outbound q (world s))) s).
Proof.
  intros Hok Hi Hact Hst Hsok T Hs'.
  destruct (sys_tasks _ Hok _ _ Hi) as [Hin _]. destruct (sys_senders _ Hok _ Hin) as (Hmap & _ & _).
  assert (activity s i = Some (id, rx)) as Hacti by (unfold activity; by rewrite Hi).
  destruct (relinquish (conn s) (with_outbound q (world s)) (activity s) _ i id rx s'
    (with_outbound_ok s q Hok) Hmap (sys_owned _ Hok) Hacti Hs') as [Hconn Hown].
  apply set_task_ok; try done.
  - intros cs Hcs. by apply (sys_senders _ Hok).
  - by rewrite Hst.
Qed.

Lemma run_sending_ok s i t id rx st w :
  sys_ok s → tasks s !! i = Some t → task_state t = Sending id rx →
  run_task t (world s) = (st, w) → sys_ok (set_task i (with_state t st) w s).
Proof.
  intros Hok Hi Hst. unfold run_task. rewrite Hst.
  destruct (sys_tasks _ Hok _ _ Hi) as [Hin _]. destruct (sys_senders _ Hok _ Hin) as (Hmap & _ & _).
  assert (activity s i = Some (id, rx)) as Hact by (unfold activity; rewrite Hi; cbn; by rewrite Hst).
  unfold send_registered_request, send_outbound, on_outbound, mbind, St_bind, fmap, St_fmap.
  destruct (unbounded_send _ _) as [[u|m|] q].
  - unfold mret, St_ret. intros [= <- <-].
    apply set_task_ok; try done; [by apply with_outbound_ok|..].
    + intros cs Hcs. by apply (sys_senders _ Hok).
    + eapply owned_ext; [|by apply sys_owned]. intros j. by apply act_set_same.
  - unfold PendingResponseGuard_drop, mbind, St_bind. cbn [guard_id PendingResponseGuard_new guard_map].
    rewrite ResponseMap_cancel_run. rewrite (map_at_response_table (conn s)) by done.
    intros [= <- <-]. eapply (give_up_ok s i t id rx); try done; [by rewrite Hst|by left].
  - unfold PendingResponseGuard_drop, mbind, St_bind. cbn [guard_id PendingResponseGuard_new guard_map].
    rewrite ResponseMap_cancel_run. rewrite (map_at_response_table (conn s)) by done.
    intros [= <- <-]. eapply (give_up_ok s i t id rx); try done; [by rewrite Hst|by left].
Qed.

(** What one poll at the [select!] does: the receiver's value, the end of the request
    with its guard, or nothing. *)
Lemma poll_waiting_run cs rx_first id rx w :
  let cleanup := PendingResponseGuard_new (response_map cs) id in
  let T := map_at (response_map cs) w in
  let gone := with_table (response_map cs) (delete id T)
                (drop_receiver rx (drop_old (T !! id) (w_channels w))) w in
  poll_waiting cs rx_first cleanup rx w =
  match oneshot_poll (w_channels w) rx, is_cancelled (w_tokens w) (drain_alive cs) with
  | Ready (Ok r), cancelled =>
    if rx_first || negb cancelled
    then ((Returned, Ready (Ok r)), with_channels (drop_receiver rx (w_channels w)) w)
    else ((Returned, Ready (Err Disconnected)), gone)
  | Ready _, _ | Pending, true => ((Returned, Ready (Err Disconnected)), gone)
  | Pending, false => ((Waiting cleanup rx, Pending), w)
  end.
Proof.
  cbv zeta. unfold poll_waiting, select_rx, select_drain, mbind, St_bind, mret, St_ret.
  destruct rx_first; destruct (oneshot_poll (w_channels w) rx) as [[r|e|]|] eqn:Hp;
    destruct (is_cancelled (w_tokens w) (drain_alive cs)) eqn:Hc; cbn;
    rewrite ?Hp, ?Hc; cbn; done.
Qed.

Lemma selecting_dec (st : TaskState) :
  (∃ id cleanup rx, st = Selecting id cleanup rx) ∨ (∀ id cleanup rx, st ≠ Selecting id cleanup rx).
Proof. destruct st; by eauto. Qed.

Lemma poll_selecting_ok s i t rx_first st w :
  sys_ok s → tasks s !! i = Some t →
  poll_task t rx_first (world s) = (st, w) → sys_ok (set_task i (with_state t st) w s).
Proof.
  intros Hok Hi. destruct (sys_tasks _ Hok _ _ Hi) as [Hin Hsok].
  destruct (sys_senders _ Hok _ Hin) as (Hmap & Hdr & _).
  pose proof (sys_conn _ Hok) as Hconn. pose proof (sys_owned _ Hok) as Hown.
  unfold poll_task. destruct (selecting_dec (task_state t)) as [(id & cleanup & rx & Hst)|Hno].
  2: { assert (∀ w', (match task_state t with
                      | Selecting id cleanup rx => '(fut, r) ← poll_waiting (task_sender t) rx_first cleanup rx;
                          mret match r with Ready r => Finished (Some id) r | Pending => Selecting id cleanup rx end
                      | st => mret st
                      end) w' = (task_state t, w')) as E
         by (intros w'; destruct (task_state t); try done; exfalso; by eapply Hno).
       rewrite E. intros [= <- <-]. apply set_task_ok; try done; [by apply sys_senders|].
       eapply owned_ext; [|exact Hown]. intros j. apply act_set_same. unfold activity. by rewrite Hi. }
  rewrite Hst. rewrite Hst in Hsok.
  assert (activity s i = Some (id, rx)) as Hact by (unfold activity; rewrite Hi; cbn; by rewrite Hst).
  cbn in Hsok. subst cleanup. unfold mbind, St_bind. rewrite poll_waiting_run. cbv zeta.
  rewrite (map_at_response_table (conn s)) by done.
  pose proof (owned_poll _ _ _ _ _ _ _ Hown (ok_response _ _ Hconn) Hact) as Hpoll.
  assert (∀ q, with_outbound (w_outbound (world s)) (world s) = q → world s = q) as Hw
    by (intros q <-; by destruct (world s)).
  assert (∀ st', active_state st' = None → state_ok (task_sender t) st' →
    sys_ok (set_task i (with_state t st')
      (with_table (response_map (task_sender t)) (delete id (response_table (conn s) (world s)))
        (drop_receiver rx (drop_old (response_table (conn s) (world s) !! id) (w_channels (world s))))
        (world s)) s)) as Hgone.
  { intros st' Hst' Hs'. apply (give_up_ok s i t id rx st' (w_outbound (world s))); try done;
      [by rewrite Hst|by left]. }
  destruct (own_channel _ _ _ _ Hown _ _ _ Hact) as (a & v & Hrx & _).
  destruct (oneshot_poll (w_channels (world s)) rx) as [[r|e|]|].
  - destruct (rx_first || _); unfold mret, St_ret; intros [= <- <-]; [|by apply Hgone].
    destruct Hpoll as [Hr Hno]. apply set_task_ok; try done; [..|by exists id].
    + apply conn_ok_with_channels; [done|..]; eapply pending_ok_drop_receiver;
        [done|by apply Hconn|done|by apply Hconn].
    + intros cs Hcs. by apply (sys_senders _ Hok).
    + eapply owned_finish; try done. intros d Hd. by apply (drop_receiver_law _ _ _ Hrx).
  - unfold mret, St_ret. intros [= <- <-]. by apply Hgone.
  - unfold mret, St_ret. intros [= <- <-]. by apply Hgone.
  - destruct (is_cancelled _ _); unfold mret, St_ret; intros [= <- <-]; [by apply Hgone|].
    apply set_task_ok; try done.
    + intros cs Hcs. by apply (sys_senders _ Hok).
    + eapply owned_ext; [|exact Hown]. intros j. by apply act_set_same.
Qed.

Lemma same_state_ok s i t :
  sys_ok s → tasks s !! i = Some t → sys_ok (set_task i (with_state t (task_state t)) (world s) s).
Proof.
  intros Hok Hi. destruct (sys_tasks _ Hok _ _ Hi) as [Hin Hsok].
  apply set_task_ok; try done; [by apply sys_conn|intros cs Hcs; by apply (sys_senders _ Hok)|].
  eapply owned_ext; [|by apply sys_owned]. intros j. apply act_set_same. unfold activity. by rewrite Hi.
Qed.

Lemma run_task_ok s i t st w :
  sys_ok s → tasks s !! i = Some t → run_task t (world s) = (st, w) →
  sys_ok (set_task i (with_state t st) w s).
Proof.
  intros Hok Hi Hrun. destruct (task_state t) as [n|n id|id rx|id cl rx|id r|] eqn:Hst.
  - by eapply run_drawing_ok.
  - by eapply run_registering_ok.
  - by eapply run_sending_ok.
  - revert Hrun. unfold run_task. rewrite Hst. run_st. intros [= <- <-]. rewrite <-Hst. by apply same_state_ok.
  - revert Hrun. unfold run_task. rewrite Hst. run_st. intros [= <- <-]. rewrite <-Hst. by apply same_state_ok.
  - revert Hrun. unfold run_task. rewrite Hst. run_st. intros [= <- <-]. rewrite <-Hst. by apply same_state_ok.
Qed.

Lemma abandon_ok s i t id cleanup rx w :
  sys_ok s → tasks s !! i = Some t → task_state t = Selecting id cleanup rx →
  request_drop (Waiting cleanup rx) (world s) = ((), w) →
  sys_ok (set_task i (with_state t Abandoned) w s).
Proof.
  intros Hok Hi Hst. destruct (sys_tasks _ Hok _ _ Hi) as [Hin Hsok]. rewrite Hst in Hsok. cbn in Hsok.
  destruct (sys_senders _ Hok _ Hin) as (Hmap & _ & _). subst cleanup.
  rewrite request_drop_run, (map_at_response_table (conn s)) by done. intros [= <-].
  eapply (give_up_ok s i t id rx Abandoned (w_outbound (world s))); try done; [by rewrite Hst|by right].
Qed.

(** *** The other tasks *)

(** A step that leaves the tasks alone. *)
Lemma world_step_ok s c w ss d wi :
  sys_ok s → tables_ok c w → senders s ⊆ ss →
  owned (activity s) (response_table c w) (w_channels w) (outgoing_table c) →
  (∀ cs, cs ∈ ss → sender_ok (system_new w c ss (tasks s) d wi) cs) →
  apart c w (conn_drain_alive c) →
  is_cancelled (w_tokens w) (conn_drain_alive c) = drain_gone d →
  sys_ok (system_new w c ss (tasks s) d wi).
Proof.
  intros [Hc Ho Hs Ht Hd] Hok Hss Hown Hsend Hap Hcan. split; try done.
  intros i t Hi. destruct (Ht _ _ Hi) as [Hin ?]. split; [by apply Hss|done].
Qed.

Lemma conn_step_ok s op c w :
  sys_ok s → atomic op = true → op ≠ OpClientSender → possible op (conn s) = true → run_op op (conn s) (world s) = (c, w) →
  sys_ok (system_new w c (senders s) (tasks s) (drain s) (wire s)).
Proof.
  intros Hok Hat Hcs Hpos Hrun. pose proof (sys_conn _ Hok) as Hconn. pose proof (sys_owned _ Hok) as Hown.
  assert (match op with OpSendRequest _ _ _ _ | OpInitialize _ _ | OpInitializeStart _ | OpInitializeFinish _ _ _ => False | _ => True end) as Hat'
    by (by destruct op).
  destruct (run_op_effect op _ _ _ _ Hconn Hcs Hat' Hrun) as ([Hk Hm Hl Hdr Hsd] & Htab & Htok).
  assert (tables_ok c w) as Hok' by (by eapply run_op_keeps).
  destruct (Htok _ (proj1 (sys_drain _ Hok))) as [Hap Hcan].
  { destruct op; try done. cbn [names possible] in *. apply bool_decide_eq_true in Hpos.
    by apply bool_decide_eq_false. }
  apply world_step_ok; try done.
  - destruct Htab as [Ht Hf HO|id r ch Hr Hid Ht HO [(ra & Hs1 & Hs2) Hf]].
    + rewrite Ht. by eapply owned_foreign.
    + rewrite Ht, HO. destruct (own_entry _ _ _ _ Hown _ _ Hid) as [i Hi].
      destruct (own_channel _ _ _ _ Hown _ _ _ Hi) as (a & v & Hs & _).
      rewrite Hs in Hs1. simplify_eq. eapply owned_remove; try done. by intros ? [= <-].
  - intros cs Hin. destruct (sys_senders _ Hok _ Hin) as (? & ? & ?).
    unfold sender_ok, counter_ok, counter_at in *. cbn. rewrite Hk, Hm, Hdr. done.
  - by rewrite Hdr.
  - rewrite Hdr, Hcan. by apply sys_drain.
Qed.

Lemma client_sender_step_ok s cs c w :
  sys_ok s → client_sender (conn s) (world s) = ((cs, c), w) →
  sys_ok (system_new w c (cs :: senders s) (tasks s) (drain s) (wire s)).
Proof.
  intros Hok Hrun. pose proof (sys_conn _ Hok) as Hconn. pose proof (sys_owned _ Hok) as Hown.
  destruct (client_sender_effect _ _ _ _ _ Hconn Hrun)
    as (Ht & HO & Hch & Htok & Hinc & Hsd & Hdr & Hmap & Hmap' & Hal & Hnew & Hold).
  destruct (sys_drain _ Hok) as [Hap Hcan].
  apply world_step_ok; try done.
  - by eapply client_sender_keeps.
  - intros x Hx. by apply list_elem_of_further.
  - by rewrite Ht, HO, Hch.
  - intros cs' [->|Hin]%elem_of_cons; [done|].
    destruct (sys_senders _ Hok _ Hin) as (? & Hd & ?).
    split_and!; cbn; [by apply Hmap|by rewrite Hdr|by apply Hold].
  - unfold apart. by rewrite Htok, Hinc, Hsd, Hdr.
  - by rewrite Htok, Hdr.
Qed.

Lemma outbound_step_ok s q d wi :
  sys_ok s → drain_gone d = drain_gone (drain s) →
  sys_ok (system_new (with_outbound q (world s)) (conn s) (senders s) (tasks s) d wi).
Proof.
  intros Hok Hd. destruct (sys_drain _ Hok) as [Hap Hcan].
  apply world_step_ok; try done; [by apply with_outbound_ok|by apply sys_owned|by apply sys_senders|].
  by rewrite Hd.
Qed.

Lemma spawn_ok s cs method params :
  sys_ok s → cs ∈ senders s →
  sys_ok (system_new (world s) (conn s) (senders s)
    (tasks s ++ [task_new cs method params (Drawing MAX_RETRIES)]) (drain s) (wire s)).
Proof.
  intros Hok Hin. destruct Hok as [Hc Ho Hs Ht Hd]. split; try done.
  - eapply owned_ext; [|exact Ho]. intros i. unfold activity. cbn [tasks].
    destruct (decide (i < length (tasks s))) as [Hlt|Hge].
    + by rewrite lookup_app_l.
    + rewrite lookup_app_r by lia. rewrite (lookup_ge_None_2 (tasks s)) by lia.
      by destruct (i - length (tasks s)) as [|[]].
  - intros i t. cbn [tasks]. intros [Hi|[_ Hi]]%lookup_app_Some; [by eapply Ht|].
    apply list_lookup_singleton_Some in Hi as [_ <-]. done.
Qed.

Lemma drain_failed_ok s :
  sys_ok s → drain_gone (drain s) = false →
  sys_ok (set_drain DrainClosing
    (with_tokens (token_cancel (conn_drain_alive (conn s)) (w_tokens (world s))) (world s)) s).
Proof.
  intros Hok Hd. destruct (sys_drain _ Hok) as [(Hl & Hne & Hinc) Hcan].
  destruct (token_cancel_law _ (conn_drain_alive (conn s)) _ _ Hl) as [Hl' Hc'].
  apply world_step_ok; try done.
  - by apply (conn_ok_token_cancel (conn s)); [apply sys_conn|..].
  - by apply sys_owned.
  - by apply sys_senders.
  - cbn. rewrite Hc'. rewrite bool_decide_eq_true_2; [by rewrite orb_true_r|].
    by apply list_elem_of_singleton.
Qed.

Lemma sys_init_ok s : sys_init s → sys_ok s.
Proof.
  intros (w & Hnew & Hs & Ht & Hd & Hw). destruct (Connection_new_ok _ _ _ Hnew) as (Hok%conn_ok_tables & _).
  assert (∀ i t, tasks s !! i ≠ Some t) as Hno by (rewrite Ht; by intros []).
  split; try done.
  - split.
    + intros i id c. unfold activity. by rewrite Ht, lookup_nil.
    + revert Hnew. unfold Connection_new, from_transport, spawn_drain_task. run_st.
      cbn [w_tokens with_outbound]. destruct (token_new (w_tokens w)) as [d s1]. cbn.
      destruct (token_new s1) as [t s2]. intros [= <- _]. cbn. intros id c. by rewrite lookup_empty.
    + intros i j id id' c. unfold activity. by rewrite Ht, lookup_nil.
  - intros cs. rewrite Hs. by intros ?%elem_of_nil.
  - intros i t Hi. by apply Hno in Hi.
  - rewrite Hd. cbn. revert Hnew. unfold Connection_new, from_transport, spawn_drain_task. run_st.
    cbn [w_tokens with_outbound]. destruct (token_new (w_tokens w)) as [d s1] eqn:H1. cbn.
    destruct (token_new s1) as [t s2] eqn:H2. intros [= <- <-]. cbn.
    destruct (token_new_law _ _ _ H1) as (_ & Hl & Hc & _).
    destruct (token_new_law _ _ _ H2) as (Hn & _ & _ & Hf).
    assert (d ≠ t) as Hne by congruence. destruct (Hf _ Hne) as [Hl' Hc'].
    split; [|by rewrite Hc']. split_and!; cbn; [by rewrite Hl'|done|].
    intros id. by rewrite lookup_empty.
Qed.

Lemma sys_step_ok s s' : sys_ok s → sys_step s s' → sys_ok s'.
Proof.
  intros Hok Hstep. destruct Hstep.
  - by eapply conn_step_ok.
  - by eapply client_sender_step_ok.
  - revert H0. unfold notify, send_outbound, on_outbound, mbind, St_bind.
    destruct (unbounded_send _ _) as [x q]. intros [= <- <-]. by apply outbound_step_ok.
  - revert H0. unfold respond, send_outbound, on_outbound, mbind, St_bind.
    destruct (unbounded_send _ _) as [x q]. intros [= <- <-]. by apply outbound_step_ok.
  - by apply spawn_ok.
  - by apply run_task_ok.
  - by eapply poll_selecting_ok.
  - by eapply abandon_ok.
  - apply outbound_step_ok; [done|by rewrite H].
  - destruct Hok as [Hc Ho Hs Ht Hd]. split; try done. by rewrite H in Hd.
  - apply drain_failed_ok; [done|by rewrite H].
  - apply outbound_step_ok; [done|by rewrite H].
Qed.

Lemma reachable_ok s : reachable s → sys_ok s.
Proof. induction 1; eauto using sys_init_ok, sys_step_ok. Qed.
End safety.
