(* ===== verification/Delivery.v ===== *)
(** * Delivery: what the interleaved system guarantees.

    Responses reach the request with their id, nothing is left in the response map,
    no request hangs after the writer has died, and the messages are written in the
    order they were accepted. *)

From S2P Require Import Prelude RustStd Serde RequestId Error Message Tokio World RequestQueue Io Lifecycle Routing ClientSender Connection Handshake Serving Ownership Effects System Safety.

Section requests.
Context `{TK : Tokio} {TL : TokioLaws TK}.

(** C3: a request of a client sender only ever returns a response to its own id,
    however requests, responses, cancellations and failures interleave. *)
Theorem response_matches_request s i t o r :
  reachable s → tasks s !! i = Some t → task_state t = Finished o (Ok r) →
  ∃ id, o = Some id ∧ resp_id r = Some id.
Proof.
  intros Hr%reachable_ok Hi Hst. destruct (sys_tasks _ Hr _ _ Hi) as [_ Hok].
  by rewrite Hst in Hok.
Qed.

(** C9: the response map does not leak: each of its entries belongs to a request that
    is about to send or waits, so it is empty when no request is under way. *)
Theorem response_map_no_leak s :
  reachable s →
  (∀ id c, response_table (conn s) (world s) !! id = Some c →
     ∃ i t, tasks s !! i = Some t ∧ active_state (task_state t) = Some (id, c)) ∧
  ((∀ i t, tasks s !! i = Some t → active_state (task_state t) = None) →
     response_table (conn s) (world s) = ∅).
Proof.
  intros Hr%reachable_ok.
  assert (∀ id c, response_table (conn s) (world s) !! id = Some c →
     ∃ i t, tasks s !! i = Some t ∧ active_state (task_state t) = Some (id, c)) as Hentry.
  { intros id c (i & Hi)%(own_entry _ _ _ _ (sys_owned _ Hr)). unfold activity in Hi.
    apply bind_Some in Hi as (t & Ht & Hact). eauto. }
  split; [done|]. intros Hidle. apply map_empty. intros id.
  destruct (response_table (conn s) (world s) !! id) as [c|] eqn:Hc; [|done].
  destruct (Hentry _ _ Hc) as (i & t & Hi & Hact). by rewrite (Hidle _ _ Hi) in Hact.
Qed.

(** C7: a waiting request that is polled goes on waiting exactly while its entry is in
    the response map and the writer lives; it ends with Disconnected, or with the
    response it was sent, as soon as one of the two is gone. *)
Theorem request_poll_spec s i t id cleanup rx rx_first :
  reachable s → tasks s !! i = Some t → task_state t = Selecting id cleanup rx →
  match (poll_task t rx_first (world s)).1 with
  | Selecting _ _ _ =>
    response_table (conn s) (world s) !! id = Some rx ∧ drain_gone (drain s) = false
  | Finished o (Ok r) => o = Some id ∧ oneshot_poll (w_channels (world s)) rx = Ready (Ok r)
  | Finished o (Err e) => o = Some id ∧ e = Disconnected ∧
    (drain_gone (drain s) = true ∨ oneshot_poll (w_channels (world s)) rx = Ready (Err ()))
  | _ => False
  end.
Proof.
  intros Hr%reachable_ok Hi Hst. destruct (sys_tasks _ Hr _ _ Hi) as [Hin Hok].
  rewrite Hst in Hok. cbn in Hok. subst cleanup.
  destruct (sys_senders _ Hr _ Hin) as (Hmap & Hdr & _). destruct (sys_drain _ Hr) as [_ Hcan].
  assert (activity s i = Some (id, rx)) as Hact by (unfold activity; rewrite Hi; cbn; by rewrite Hst).
  pose proof (owned_poll _ _ _ _ _ _ _ (sys_owned _ Hr) (ok_response _ _ (sys_conn _ Hr)) Hact) as Hpoll.
  destruct (own_channel _ _ _ _ (sys_owned _ Hr) _ _ _ Hact) as (a & v & Hrx & _).
  pose proof (oneshot_poll_law _ _ _ Hrx) as Hlaw. cbn [sent sender_alive] in Hlaw.
  unfold poll_task. rewrite Hst. unfold mbind, St_bind. rewrite poll_waiting_run. cbv zeta.
  rewrite Hdr, Hcan. destruct (oneshot_poll (w_channels (world s)) rx) as [[r|e|]|].
  - destruct (drain_gone (drain s)) eqn:Hd, rx_first; cbn; eauto.
  - destruct e. cbn. split_and!; eauto.
  - by destruct v, a.
  - by destruct (drain_gone (drain s)) eqn:Hd; cbn; eauto.
Qed.

(** Routing a response to a request that waits puts it in the request's channel. *)
Lemma route_reaches s i t id cleanup rx resp c w :
  sys_ok s → tasks s !! i = Some t → task_state t = Selecting id cleanup rx →
  response_table (conn s) (world s) !! id = Some rx → resp_id resp = Some id →
  run_op (OpRoute (MResponse resp)) (conn s) (world s) = (c, w) →
  c = conn s ∧ tables_ok c w ∧ w_tokens w = w_tokens (world s) ∧ w_outbound w = w_outbound (world s) ∧
  response_table c w = delete id (response_table (conn s) (world s)) ∧
  oneshot_poll (w_channels w) rx = Ready (Ok resp).
Proof.
  intros Hr Hi Hst Hent Hid. cbn [run_op]. unfold fmap, St_fmap. pose proof (sys_conn _ Hr) as Hconn.
  destruct (route (conn s) (MResponse resp) (world s)) as [[m c'] w1'] eqn:Hroute.
  intros [= <- <-]. revert Hroute. unfold route. rewrite Hid. unfold mbind at 1, St_bind.
  pose proof (deliver_to_map_law _ _ _ _ resp Hconn Hent) as Hlaw.
  destruct (deliver_to_map (conn s) id resp (world s)) as [b w1].
  destruct Hlaw as (-> & Hok1 & Htok & Hout & [(ra & Hs1 & Hs2) _] & Htab).
  unfold mret, St_ret. intros [= <- <- <-].
  assert (activity s i = Some (id, rx)) as Hact by (unfold activity; rewrite Hi; cbn; by rewrite Hst).
  destruct (own_channel _ _ _ _ (sys_owned _ Hr) _ _ _ Hact) as (a & v & Hrx & _).
  rewrite Hrx in Hs1. simplify_eq. split_and!; try done. by rewrite (oneshot_poll_law _ _ _ Hs2).
Qed.

(** C4: a response that is routed while a request waits for its id reaches that
    request, whichever branch its [select!] looks at first: polled then, the request
    returns the response, unless it looks at the drain token first and the drain task
    is gone already, when it returns Disconnected.  It never goes on waiting, and the
    entry of its id is gone after [route] and after the poll. *)
Theorem routed_response_arrives s i t id cleanup rx resp c w rx_first st w' :
  reachable s → tasks s !! i = Some t → task_state t = Selecting id cleanup rx →
  response_table (conn s) (world s) !! id = Some rx → resp_id resp = Some id →
  run_op (OpRoute (MResponse resp)) (conn s) (world s) = (c, w) →
  poll_task t rx_first w = (st, w') →
  response_table c w !! id = None ∧ response_table c w' !! id = None ∧
  st = Finished (Some id) (if rx_first || negb (drain_gone (drain s)) then Ok resp else Err Disconnected).
Proof.
  intros Hr%reachable_ok Hi Hst Hent Hid Hroute. destruct (sys_drain _ Hr) as [_ Hcan].
  destruct (sys_tasks _ Hr _ _ Hi) as [Hin Hok]. destruct (sys_senders _ Hr _ Hin) as (Hmap & Hdr & _).
  destruct (route_reaches _ _ _ _ _ _ _ _ _ Hr Hi Hst Hent Hid Hroute) as (-> & Hok1 & Htok & _ & Htab & Hpoll).
  rewrite Hst in Hok. cbn in Hok. subst cleanup.
  unfold poll_task. rewrite Hst. unfold mbind, St_bind. rewrite poll_waiting_run. cbv zeta.
  rewrite Hpoll, Htok, Hdr, Hcan. assert (response_table (conn s) w !! id = None) as Hgone
    by (rewrite Htab; apply lookup_delete_eq).
  destruct (rx_first || negb (drain_gone (drain s))); intros [= <- <-]; split_and!; try done.
  rewrite <-(map_at_response_table (conn s) (response_map (task_sender t))) by done.
  rewrite map_at_with_table by (apply (ok_map _ _ Hok1 _ Hmap)). by rewrite lookup_delete_eq.
Qed.

(** C18: [request_timeout], polled while its request waits, is always one step of the
    system: a poll of the request or, when the deadline has passed and there is
    neither a response nor a reason to disconnect, giving it up.  Once the deadline
    has passed it returns, with the response to its id, Disconnected or
    RequestTimeout, and leaves no entry of its own behind. *)
Theorem request_timeout_spec s i t id cleanup rx rx_first elapsed fut p w :
  reachable s → tasks s !! i = Some t → task_state t = Selecting id cleanup rx →
  request_timeout_poll (task_sender t) rx_first elapsed (Waiting cleanup rx) (world s) = ((fut, p), w) →
  match p with
  | Pending =>
    elapsed = false ∧ fut = Waiting cleanup rx ∧ sys_step s (set_task i (with_state t (task_state t)) w s)
  | Ready r =>
    fut = Returned ∧ response_table (conn s) w !! id ≠ Some rx ∧
    match r with
    | Err RequestTimeout =>
      elapsed = true ∧ oneshot_poll (w_channels (world s)) rx = Pending ∧ drain_gone (drain s) = false ∧
      sys_step s (set_task i (with_state t Abandoned) w s)
    | _ =>
      (r = Err Disconnected ∨ ∃ resp, r = Ok resp ∧ resp_id resp = Some id) ∧
      sys_step s (set_task i (with_state t (Finished (Some id) r)) w s)
    end
  end.
Proof.
  intros Hr%reachable_ok Hi Hst. destruct (sys_tasks _ Hr _ _ Hi) as [Hin Hok].
  rewrite Hst in Hok. cbn in Hok. subst cleanup.
  destruct (sys_senders _ Hr _ Hin) as (Hmap & Hdr & _). destruct (sys_drain _ Hr) as [_ Hcan].
  assert (activity s i = Some (id, rx)) as Hact by (unfold activity; rewrite Hi; cbn; by rewrite Hst).
  pose proof (owned_poll _ _ _ _ _ _ _ (sys_owned _ Hr) (ok_response _ _ (sys_conn _ Hr)) Hact) as Hpoll.
  assert (∀ s', response_table (conn s) (with_table (response_map (task_sender t))
      (delete id (response_table (conn s) (world s))) s' (world s)) !! id ≠ Some rx) as Hgone.
  { intros s'. rewrite <-(map_at_response_table (conn s) (response_map (task_sender t))) by done.
    rewrite map_at_with_table by (apply (ok_map _ _ (sys_conn _ Hr) _ Hmap)). by rewrite lookup_delete_eq. }
  assert (∀ st w, poll_task t rx_first (world s) = (st, w) → sys_step s (set_task i (with_state t st) w s)) as Hstep
    by (intros st' w'; by apply step_poll).
  unfold poll_task in Hstep. rewrite Hst in Hstep. unfold mbind, St_bind in Hstep.
  unfold request_timeout_poll, request_poll, mbind, St_bind. rewrite poll_waiting_run in *.
  rewrite (map_at_response_table (conn s)) in * by done. cbv zeta in *. rewrite Hdr, Hcan in *.
  destruct (oneshot_poll (w_channels (world s)) rx) as [[r|e|]|] eqn:Hp.
  - destruct (rx_first || negb (drain_gone (drain s))); intros [= <- <- <-].
    + split_and!; [done|by apply Hpoll|right; exists r; split; [done|by apply Hpoll]|by apply Hstep].
    + split_and!; [done|by apply Hgone|by left|by apply Hstep].
  - intros [= <- <- <-]. split_and!; [done|by apply Hgone|by left|by apply Hstep].
  - intros [= <- <- <-]. split_and!; [done|by apply Hgone|by left|by apply Hstep].
  - destruct (drain_gone (drain s)) eqn:Hd.
    { intros [= <- <- <-]. split_and!; [done|by apply Hgone|by left|by apply Hstep]. }
    destruct elapsed.
    + destruct (request_drop _ (world s)) as [[] w1] eqn:Hdrop. intros [= <- <- <-].
      split_and!; try done; [|by eapply step_abandon].
      rewrite request_drop_run, (map_at_response_table (conn s)) in Hdrop by done.
      injection Hdrop as <-. apply Hgone.
    + intros [= <- <- <-]. split_and!; [done..|]. rewrite Hst. by apply Hstep.
Qed.
End requests.

(** ** Outbound order *)

Section outbound.
Context `{TK : Tokio} {TL : TokioLaws TK}.

(** An action that only appends to the outbound queue. *)
Definition grows (w w' : World) : Prop :=
  receiver_open (w_outbound w') = receiver_open (w_outbound w) ∧
  ∃ ms, queued (w_outbound w') = queued (w_outbound w) ++ ms.

Lemma grows_same w w' : w_outbound w' = w_outbound w → grows w w'.
Proof. intros E. unfold grows. rewrite E. split; [done|]. exists []. by rewrite app_nil_r. Qed.

Lemma grows_send m w q x : unbounded_send m (w_outbound w) = (x, q) → grows w (with_outbound q w).
Proof.
  intros E. destruct (receiver_open (w_outbound w)) eqn:Ho.
  - destruct (unbounded_send_queue m _ Ho) as [Hq Ho']. rewrite E in Hq, Ho'.
    split; [by rewrite Ho|by exists [m]].
  - pose proof (unbounded_send_law m (w_outbound w)) as Hl. rewrite Ho, E in Hl.
    injection Hl as _ ->. by apply grows_same.
Qed.

Lemma send_grows self m w r w' : send self m w = (r, w') → grows w w'.
Proof.
  unfold send. run_st. destruct (unbounded_send m (w_outbound w)) as [x q] eqn:E.
  intros [= <- <-]. by eapply grows_send.
Qed.

Lemma route_outbound self m w a self' w' :
  route self m w = ((a, self'), w') → w_outbound w' = w_outbound w.
Proof.
  destruct m as [req|resp|notif]; unfold route.
  - run_st. destruct (child_token _ _). by intros [= <- <- <-].
  - destruct (resp_id resp) as [id|]; [|run_st; by intros [= <- <- <-]].
    unfold mbind at 1, St_bind. rewrite deliver_to_map_run.
    destruct (response_table self w !! id); [run_st; by intros [= <- <- <-]|].
    destruct (OutgoingRequests_is_pending _ _); [|run_st; by intros [= <- <- <-]].
    run_st. destruct (OutgoingRequests_complete _ _ _ _) as [[b o] s]. by intros [= <- <- <-].
  - destruct (bool_decide _); [|run_st; by intros [= <- <- <-]].
    destruct (parse_cancel_params _); [|run_st; by intros [= <- <- <-]].
    unfold cancel_in. run_st. destruct (IncomingRequests_cancel _ _ _). by intros [= <- <- <-].
Qed.

Lemma run_op_grows op self w self' w' :
  atomic op = true → run_op op self w = (self', w') → grows w w'.
Proof.
  intros Hat. destruct op as [m|m|id|id t|id|id r|id|id|id|n| |id me p evs|caps evs|evs|rid v evs|id|]; try done; cbn [run_op];
    unfold fmap, St_fmap.
  - destruct (route self m w) as [[a s1] w1] eqn:H. intros [= <- <-].
    by eapply grows_same, route_outbound.
  - destruct (send self m w) as [a w1] eqn:H. intros [= <- <-]. by eapply send_grows.
  - run_st. intros [= <- <-]. by apply grows_same.
  - run_st. intros [= <- <-]. by apply grows_same.
  - run_st. destruct (OutgoingRequests_register _ _ _) as [[c o] s1]. intros [= <- <-]. by apply grows_same.
  - run_st. destruct (OutgoingRequests_complete _ _ _ _) as [[c o] s1]. intros [= <- <-]. by apply grows_same.
  - run_st. destruct (OutgoingRequests_cancel _ _ _) as [[c o] s1]. intros [= <- <-]. by apply grows_same.
  - unfold cancel, mbind, St_bind. destruct (send self _ w) as [r w1] eqn:H. apply send_grows in H.
    unfold OutgoingRequests_cancel. destruct r; run_st; by intros [= <- <-].
  - unfold cancel_incoming, cancel_in. run_st. destruct (IncomingRequests_cancel _ _ _).
    intros [= <- <-]. by apply grows_same.
  - unfold handle_cancel_request. destruct (bool_decide _); [run_st; intros [= <- <-]; by apply grows_same|].
    destruct (parse_cancel_params _); [|run_st; intros [= <- <-]; by apply grows_same].
    unfold cancel_in. run_st. destruct (IncomingRequests_cancel _ _ _).
    intros [= <- <-]. by apply grows_same.
  - unfold client_sender, ClientSender_new, ResponseMap_new.
    destruct (conn_response_map self); run_st; intros [= <- <-]; by apply grows_same.
  - unfold handle_shutdown, mbind, St_bind.
    destruct (on_tokens _ w) as [[] w1] eqn:Ht. destruct (send _ _ w1) as [r w2] eqn:Hs.
    apply send_grows in Hs. intros [= <- <-]. revert Ht. run_st. intros [= <-]. done.
  - run_st. intros [= <- <-]. by apply grows_same.
Qed.

Lemma guard_drop_outbound g w : w_outbound (PendingResponseGuard_drop g w).2 = w_outbound w.
Proof. unfold PendingResponseGuard_drop. by destruct (guard_id g). Qed.

Lemma run_task_grows t w st w' : run_task t w = (st, w') → grows w w'.
Proof.
  unfold run_task. destruct (task_state t) as [[|n]|n id|id rx|id cl rx|id r|];
    try (run_st; intros [= <- <-]; by apply grows_same).
  - unfold mbind, St_bind. rewrite ResponseMap_try_register_run.
    destruct (oneshot_channel _) as [c s]. destruct (bool_decide _); run_st;
      intros [= <- <-]; by apply grows_same.
  - unfold mbind, St_bind, send_registered_request, send_outbound, on_outbound, mbind, St_bind.
    destruct (unbounded_send _ _) as [x q] eqn:E. apply grows_send in E as Hg.
    destruct x; unfold mret, St_ret; intros [= <- <-]; [done|exact Hg..].
Qed.

Lemma poll_task_outbound t b w st w' : poll_task t b w = (st, w') → w_outbound w' = w_outbound w.
Proof.
  unfold poll_task. destruct (task_state t) as [| | |id cl rx| |]; try (run_st; by intros [= <- <-]).
  unfold mbind, St_bind, poll_waiting, mbind, St_bind, select_rx, select_drain.
  pose proof (guard_drop_outbound cl) as H1.
  pose proof (guard_drop_outbound (PendingResponseGuard_disarm cl)) as H2.
  destruct b; destruct (oneshot_poll (w_channels w) rx) as [[]|] eqn:Hp;
    destruct (is_cancelled (w_tokens w) (drain_alive (task_sender t))) eqn:Hc; run_st;
    rewrite ?Hp, ?Hc; cbn;
    repeat match goal with
    | |- context [PendingResponseGuard_drop ?g ?w] =>
      let x := fresh in let E := fresh in
      destruct (PendingResponseGuard_drop g w) as [x ?] eqn:E
    end; intros [= <- <-]; cbn; try done;
    match goal with H : PendingResponseGuard_drop ?g w = _ |- _ =>
      first [specialize (H1 w); rewrite H in H1; exact H1 | specialize (H2 w); rewrite H in H2; exact H2]
    end.
Qed.

Definition queue_of (s : System) : list Message := queued (w_outbound (world s)).

Definition in_flight (d : DrainState) : list Message :=
  match d with DrainWriting m => [m] | _ => [] end.

(** The states of a run, with every message the queue has accepted, in order. *)
Inductive history : list Message → System → Prop :=
| history_init s : sys_init s → history [] s
| history_step acc s s' :
  history acc s → sys_step s s' →
  history (acc ++ drop (length (queue_of s)) (queue_of s')) s'.

Lemma grows_drop w w' :
  grows w w' →
  queued (w_outbound w') =
  queued (w_outbound w) ++ drop (length (queued (w_outbound w))) (queued (w_outbound w')).
Proof. intros [_ [ms ->]]. by rewrite drop_app_length. Qed.

(** The steps of the drain task. *)
Inductive drain_step (s : System) : System → Prop :=
| drain_recv m q :
  drain s = DrainIdle → unbounded_recv (w_outbound (world s)) = (Some m, q) →
  drain_step s (set_drain (DrainWriting m) (with_outbound q (world s)) s)
| drain_sent m :
  drain s = DrainWriting m →
  drain_step s (system_new (world s) (conn s) (senders s) (tasks s) DrainIdle (wire s ++ [m]))
| drain_failed m :
  drain s = DrainWriting m →
  drain_step s (set_drain DrainClosing
    (with_tokens (token_cancel (conn_drain_alive (conn s)) (w_tokens (world s))) (world s)) s)
| drain_stop :
  drain s = DrainClosing →
  drain_step s (set_drain DrainStopped
    (with_outbound (receiver_drop (w_outbound (world s))) (world s)) s).

(** Every other step only appends to the queue. *)
Lemma step_grows s s' :
  sys_step s s' →
  drain_step s s' ∨ (wire s' = wire s ∧ drain s' = drain s ∧ grows (world s) (world s')).
Proof.
  intros Hstep. destruct Hstep; try (right; split_and!; [done..|]); cbn [world].
  - by eapply run_op_grows.
  - apply (run_op_grows OpClientSender (conn s) _ c); [done|]. cbn [run_op].
    unfold fmap, St_fmap. by rewrite H.
  - revert H0. unfold notify, send_outbound, on_outbound, mbind, St_bind.
    destruct (unbounded_send _ _) as [x q] eqn:E. intros [= <- <-]. by eapply grows_send.
  - revert H0. unfold respond, send_outbound, on_outbound, mbind, St_bind.
    destruct (unbounded_send _ _) as [x q] eqn:E. intros [= <- <-]. by eapply grows_send.
  - by apply grows_same.
  - by eapply run_task_grows.
  - by eapply grows_same, poll_task_outbound.
  - apply grows_same. revert H1. unfold request_drop, mbind, St_bind, on_channels.
    intros Hdrop.
    pose proof (guard_drop_outbound cleanup
      (with_channels (drop_receiver rx (w_channels (world s))) (world s))) as Hg.
    rewrite Hdrop in Hg. exact Hg.
  - left. by apply drain_recv.
  - left. by apply drain_sent.
  - left. by eapply drain_failed.
  - left. by apply drain_stop.
Qed.

(** What a step does to the queue, the message in flight and the wire. *)
Lemma step_outbound s s' :
  sys_step s s' → drain_gone (drain s') = false →
  wire s' ++ in_flight (drain s') ++ queue_of s' =
  (wire s ++ in_flight (drain s) ++ queue_of s) ++ drop (length (queue_of s)) (queue_of s').
Proof.
  intros [Hdrain|(Hw & Hd & Hg)]%step_grows Hgone.
  2: { rewrite Hw, Hd. apply grows_drop in Hg. unfold queue_of in *. rewrite <-!app_assoc. do 2 f_equal. exact Hg. }
  destruct Hdrain as [m q H H0|m H|m H|H]; [| |done|done].
  - destruct (unbounded_recv_law (w_outbound (world s))) as (Hh & Ht & _).
    rewrite H0 in Hh, Ht. cbn in Hh, Ht. unfold queue_of. cbn. rewrite H, Ht.
    destruct (queued (w_outbound (world s))) as [|m' l]; [done|]. injection Hh as <-. cbn.
    rewrite drop_ge by lia. by rewrite app_nil_r.
  - unfold queue_of. cbn. rewrite H, drop_all, app_nil_r, <-app_assoc. done.
Qed.

(** The receiver of the queue is gone only when the drain task has ended. *)
Definition open_ok (s : System) : Prop :=
  receiver_open (w_outbound (world s)) = false → drain s = DrainStopped.

Lemma step_open_ok s s' : open_ok s → sys_step s s' → open_ok s'.
Proof.
  unfold open_ok. intros Hok [Hdrain|(_ & Hd & Ho & _)]%step_grows.
  2: { by rewrite Hd, Ho. }
  destruct Hdrain as [m q H H0|m H|m H|H]; cbn; [|intros Hc; specialize (Hok Hc); congruence..|done].
  destruct (unbounded_recv_law (w_outbound (world s))) as (_ & _ & Ho). rewrite H0 in Ho. cbn in Ho.
  rewrite Ho. intros Hc. specialize (Hok Hc). congruence.
Qed.

Lemma init_queue s : sys_init s → w_outbound (world s) = unbounded_channel ∧ drain s = DrainIdle ∧ wire s = [].
Proof.
  intros (w & Hnew & _ & _ & Hd & Hw). split_and!; [|done..]. revert Hnew.
  unfold Connection_new, from_transport, spawn_drain_task.
  run_st. cbn [w_tokens with_outbound]. destruct (token_new _) as [d s1]. cbn.
  destruct (token_new s1) as [t s2]. intros [= _ <-]. done.
Qed.

Lemma init_open_ok s : sys_init s → open_ok s.
Proof.
  intros (Hq & _)%init_queue. unfold open_ok. rewrite Hq, (proj2 unbounded_channel_law). done.
Qed.

Lemma history_reachable acc s : history acc s → reachable s.
Proof. induction 1; [by apply reachable_init|by eapply reachable_step]. Qed.

Lemma history_fifo acc s :
  history acc s →
  wire s `prefix_of` acc ∧
  (drain_gone (drain s) = false → acc = wire s ++ in_flight (drain s) ++ queue_of s).
Proof.
  induction 1 as [s Hinit|acc s s' _ [Hp Heq] Hstep].
  - apply init_queue in Hinit as (Hq & Hd & Hw). rewrite Hw, Hd. split; [apply prefix_nil|].
    intros _. unfold queue_of. by rewrite Hq, (proj1 unbounded_channel_law).
  - destruct (drain_gone (drain s')) eqn:Hd'.
    + split; [|done]. apply prefix_app_r. enough (wire s' = wire s) as -> by done.
      destruct Hstep; cbn in *; congruence.
    + assert (drain_gone (drain s) = false) as Hd.
      { destruct Hstep; cbn in *; try done; by rewrite H. }
      pose proof (step_outbound _ _ Hstep Hd') as Hs. rewrite <-Heq in Hs by done.
      split; [|by intros _]. rewrite <-Hs. by apply prefix_app_r.
Qed.

(** C10: the messages of all senders reach the transport in the order the queue
    accepted them, each once: what is written is always a prefix of what was
    accepted, and while the writer lives nothing is lost, the rest being the message
    in flight and the queue. *)
Theorem outbound_fifo acc s :
  history acc s →
  wire s `prefix_of` acc ∧
  (drain_gone (drain s) = false → acc = wire s ++ in_flight (drain s) ++ queue_of s).
Proof. apply history_fifo. Qed.
End outbound.
