(* ===== verification/Schedule.v ===== *)
(** * Schedule: running the interleaved system on a schedule.

    [exec] performs one chosen step of [System]; a schedule is a list of choices.
    It gives concrete runs in the runtime of [Tokio]: the examples of the theorems
    of [Delivery], and the run in which two client senders of one connection use the
    same request id. *)

From S2P Require Import Prelude RustStd Serde RequestId Error Message Tokio World RequestQueue Io Lifecycle Routing ClientSender Connection Handshake Serving Ownership Effects System Safety Delivery.

Inductive action `{TK : Tokio} : Type :=
| ActConn (op : operation)
| ActClientSender
| ActSpawn (sender : nat) (method : string) (params : option Value)
| ActTask (i : nat)
| ActPoll (i : nat) (rx_first : bool)
| ActAbandon (i : nat)
| ActRecv
| ActSent
| ActFailed
| ActStop.

Definition is_client_sender `{TK : Tokio} (op : operation) : bool :=
  match op with OpClientSender => true | _ => false end.

Section exec.
Context `{TK : Tokio}.

Definition exec (a : action) (s : System) : option System :=
  match a with
  | ActConn op =>
    if atomic op && negb (is_client_sender op) && possible op (conn s) then
      let '(c, w) := run_op op (conn s) (world s) in
      Some (system_new w c (senders s) (tasks s) (drain s) (wire s))
    else None
  | ActClientSender =>
    let '((cs, c), w) := client_sender (conn s) (world s) in
    Some (system_new w c (cs :: senders s) (tasks s) (drain s) (wire s))
  | ActSpawn k method params =>
    cs ← senders s !! k;
    Some (system_new (world s) (conn s) (senders s)
      (tasks s ++ [task_new cs method params (Drawing MAX_RETRIES)]) (drain s) (wire s))
  | ActTask i =>
    t ← tasks s !! i;
    let '(st, w) := run_task t (world s) in Some (set_task i (with_state t st) w s)
  | ActPoll i rx_first =>
    t ← tasks s !! i;
    let '(st, w) := poll_task t rx_first (world s) in Some (set_task i (with_state t st) w s)
  | ActAbandon i =>
    t ← tasks s !! i;
    match task_state t with
    | Selecting id cleanup rx =>
      let '(_, w) := request_drop (Waiting cleanup rx) (world s) in
      Some (set_task i (with_state t Abandoned) w s)
    | _ => None
    end
  | ActRecv =>
    match drain s, unbounded_recv (w_outbound (world s)) with
    | DrainIdle, (Some m, q) => Some (set_drain (DrainWriting m) (with_outbound q (world s)) s)
    | _, _ => None
    end
  | ActSent =>
    match drain s with
    | DrainWriting m => Some (system_new (world s) (conn s) (senders s) (tasks s) DrainIdle (wire s ++ [m]))
    | _ => None
    end
  | ActFailed =>
    match drain s with
    | DrainWriting m => Some (set_drain DrainClosing
        (with_tokens (token_cancel (conn_drain_alive (conn s)) (w_tokens (world s))) (world s)) s)
    | _ => None
    end
  | ActStop =>
    match drain s with
    | DrainClosing => Some (set_drain DrainStopped
        (with_outbound (receiver_drop (w_outbound (world s))) (world s)) s)
    | _ => None
    end
  end.

Fixpoint exec_all (l : list action) (s : System) : option System :=
  match l with
  | [] => Some s
  | a :: l => s ← exec a s; exec_all l s
  end.

Lemma exec_sound a s s' : exec a s = Some s' → sys_step s s'.
Proof.
  destruct a as [op| |k me p|i|i b|i| | | |]; cbn [exec].
  - destruct (atomic op) eqn:Hat; cbn [andb]; [|done].
    destruct (is_client_sender op) eqn:Hcs; cbn [negb andb]; [done|].
    destruct (possible op (conn s)) eqn:Hpos; cbn [andb]; [|done].
    destruct (run_op op (conn s) (world s)) as [c w] eqn:H. intros [= <-].
    eapply step_conn; [done| |done|done]. by intros ->.
  - destruct (client_sender (conn s) (world s)) as [[cs c] w] eqn:H. intros [= <-].
    by apply step_client_sender.
  - destruct (senders s !! k) as [cs|] eqn:H; [|done]. cbn. intros [= <-].
    apply step_spawn. by eapply list_elem_of_lookup_2.
  - destruct (tasks s !! i) as [t|] eqn:H; [|done]. cbn.
    destruct (run_task t (world s)) as [st w] eqn:Hr. intros [= <-]. by apply step_task.
  - destruct (tasks s !! i) as [t|] eqn:H; [|done]. cbn.
    destruct (poll_task t b (world s)) as [st w] eqn:Hr. intros [= <-]. by eapply step_poll.
  - destruct (tasks s !! i) as [t|] eqn:H; [|done]. cbn [mbind option_bind].
    destruct (task_state t) as [| | |id cl rx| |] eqn:Hst; try done.
    destruct (request_drop _ _) as [[] w] eqn:Hr. intros [= <-]. by eapply step_abandon.
  - destruct (drain s) eqn:Hd; try done.
    destruct (unbounded_recv _) as [[m|] q] eqn:Hq; [|done]. intros [= <-]. by apply step_drain_recv.
  - destruct (drain s) eqn:Hd; try done. intros [= <-]. by apply step_drain_sent.
  - destruct (drain s) eqn:Hd; try done. intros [= <-]. by eapply step_drain_failed.
  - destruct (drain s) eqn:Hd; try done. intros [= <-]. by apply step_drain_stop.
Qed.

Lemma exec_all_reachable l s s' : reachable s → exec_all l s = Some s' → reachable s'.
Proof.
  revert s. induction l as [|a l IH]; intros s Hr; cbn [exec_all]; [by intros [= <-]|].
  destruct (exec a s) as [s1|] eqn:H; [|done]. cbn. apply IH.
  eapply reachable_step; [done|]. by eapply exec_sound.
Qed.
End exec.

(** ** Runs in the runtime of [Tokio] *)

Definition empty_world : World (TK := model_tokio) :=
  {| w_tokens := []; w_channels := []; w_outbound := ([], true); w_maps := []; w_counters := [] |}.

Definition start : System (TK := model_tokio) :=
  let '(c, w) := Connection_new (TK := model_tokio) empty_world in
  system_new w c [] [] DrainIdle [].

Lemma start_reachable : reachable start.
Proof. apply reachable_init. by exists empty_world. Qed.

(** The state after a schedule from a new connection. *)
Definition after (l : list action) : System := default start (exec_all l start).

Definition runs (l : list action) : bool :=
  match exec_all l start with Some _ => true | None => false end.

Lemma after_reachable l : runs l = true → reachable (after l).
Proof.
  unfold runs, after. destruct (exec_all l start) as [s|] eqn:Hs; [|done]. intros _. cbn [default]. eapply exec_all_reachable; [apply start_reachable|done].
Qed.

(** One sender asks, the client answers, the task polls. *)
Definition ask : list action :=
  [ActClientSender; ActSpawn 0 "window/showMessageRequest" None; ActTask 0; ActTask 0; ActTask 0].

Definition answer (id : Z) (v : Value) : action :=
  ActConn (OpRoute (MResponse (Response_ok (IdInteger id) v))).

Definition asked : System := after ask.
Definition answered : System := after (ask ++ [answer 1 (VBool true); ActPoll 0 true]).

Lemma asked_reachable : reachable asked.
Proof. apply after_reachable. by vm_compute. Qed.

Lemma answered_reachable : reachable answered.
Proof. apply after_reachable. by vm_compute. Qed.

(** The messages accepted along a schedule. *)
Fixpoint accepted (acc : list Message) (l : list action) (s : System (TK := model_tokio)) :
    list Message :=
  match l with
  | [] => acc
  | a :: l =>
    match exec a s with
    | Some s' => accepted (acc ++ drop (length (queue_of s)) (queue_of s')) l s'
    | None => acc
    end
  end.

Lemma accepted_cons acc a l s :
  accepted acc (a :: l) s =
  match exec a s with
  | Some s' => accepted (acc ++ drop (length (queue_of s)) (queue_of s')) l s'
  | None => acc
  end.
Proof. done. Qed.

Lemma exec_history l acc s s' :
  history acc s → exec_all l s = Some s' → history (accepted acc l s) s'.
Proof.
  revert acc s. induction l as [|a l IH]; intros acc s Hh; [by intros [= <-]|].
  rewrite accepted_cons. cbn [exec_all].
  destruct (exec a s) as [s1|] eqn:H; [|done]. cbn [mbind option_bind]. apply IH.
  apply (history_step acc s s1); [done|by eapply exec_sound].
Qed.

Lemma start_history : history [] start.
Proof. apply history_init. by exists empty_world. Qed.

Lemma response_matches_request_witness :
  ∃ id, Some (IdInteger 1) = Some id ∧ resp_id (Response_ok (IdInteger 1) (VBool true)) = Some id.
Proof.
  eapply (response_matches_request answered 0 _ _ _ answered_reachable); vm_compute; reflexivity.
Defined.

Lemma response_map_no_leak_witness :
  response_table (conn answered) (world answered) = ∅.
Proof.
  apply (response_map_no_leak answered answered_reachable).
  intros [|[|i]] t; vm_compute; [by intros [= <-]|done..].
Defined.

Lemma request_poll_spec_witness :
  ∃ t cleanup, tasks asked !! 0 = Some t ∧ task_state t = Selecting (IdInteger 1) cleanup 0 ∧
    match (poll_task t false (world asked)).1 with
    | Selecting _ _ _ =>
      response_table (conn asked) (world asked) !! IdInteger 1 = Some 0 ∧ drain_gone (drain asked) = false
    | Finished o (Ok r) => o = Some (IdInteger 1) ∧ oneshot_poll (w_channels (world asked)) 0 = Ready (Ok r)
    | Finished o (Err e) => o = Some (IdInteger 1) ∧ e = Disconnected ∧
      (drain_gone (drain asked) = true ∨ oneshot_poll (w_channels (world asked)) 0 = Ready (Err ()))
    | _ => False
    end.
Proof.
  eexists _, _. split; [reflexivity|]. split; [reflexivity|].
  eapply (request_poll_spec asked 0 _ (IdInteger 1) _ 0 false asked_reachable); reflexivity.
Defined.

Lemma routed_response_arrives_witness :
  ∃ t, tasks asked !! 0 = Some t ∧
    let '(c, w) := run_op (OpRoute (MResponse (Response_ok (IdInteger 1) VNull))) (conn asked) (world asked) in
    let '(st, w') := poll_task t false w in
    response_table c w !! IdInteger 1 = None ∧ response_table c w' !! IdInteger 1 = None ∧
    st = Finished (Some (IdInteger 1)) (Ok (Response_ok (IdInteger 1) VNull)).
Proof.
  eexists. split; [reflexivity|].
  destruct (run_op (OpRoute (MResponse (Response_ok (IdInteger 1) VNull))) (conn asked) (world asked))
    as [c w] eqn:E.
  destruct (poll_task _ false w) as [st w'] eqn:Hp.
  eapply (routed_response_arrives asked 0 _ (IdInteger 1) _ 0 _ c w false st w' asked_reachable);
    try exact E; try exact Hp; reflexivity.
Defined.

(** The deadline of the waiting request passes. *)
Lemma request_timeout_spec_witness :
  ∃ t cleanup, tasks asked !! 0 = Some t ∧ task_state t = Selecting (IdInteger 1) cleanup 0 ∧
    sys_step asked (set_task 0 (with_state t Abandoned)
      (request_timeout_poll (task_sender t) true true (Waiting cleanup 0) (world asked)).2 asked).
Proof.
  eexists _, _. split; [vm_compute; reflexivity|]. split; [reflexivity|].
  eapply (request_timeout_spec asked 0 _ (IdInteger 1) _ 0 true true Returned (Ready (Err RequestTimeout)) _
    asked_reachable); vm_compute; reflexivity.
Defined.

Lemma outbound_fifo_witness :
  let l := ask ++ [ActRecv; ActSent; ActConn (OpShutdown (IdInteger 9)); ActRecv] in
  wire (after l) `prefix_of` accepted [] l start ∧
  (drain_gone (drain (after l)) = false →
   accepted [] l start = wire (after l) ++ in_flight (drain (after l)) ++ queue_of (after l)).
Proof.
  apply outbound_fifo. eapply exec_history; [apply start_history|]. vm_compute. reflexivity.
Defined.

(** ** Two client senders of one connection

    Two handles have counters of their own, over one response map. *)

(** The guard of a request removes the entry of its id, whoever registered it: the
    first request has its answer but was not polled again when the second one takes
    the id; dropping the first one then disconnects the second one. *)
Definition evict : list action :=
  [ActClientSender; ActClientSender;
   ActSpawn 1 "first" None; ActTask 0; ActTask 0; ActTask 0; answer 1 (VBool true);
   ActSpawn 0 "second" None; ActTask 1; ActTask 1; ActTask 1; ActAbandon 0; ActPoll 1 true].

(** A request can end with [Disconnected] while the connection is open and its
    writer alive. *)
Theorem guard_drop_disconnects_other :
  ∃ s id t, reachable s ∧ tasks s !! 1 = Some t ∧ drain s = DrainIdle ∧
    MRequest (Request_new id "second" None) ∈ queue_of s ∧
    task_method t = "second" ∧ task_state t = Finished (Some id) (Err Disconnected).
Proof.
  exists (after evict), (IdInteger 1). eexists. split; [apply after_reachable; by vm_compute|].
  split; [vm_compute; reflexivity|]. split_and!; try (vm_compute; reflexivity).
  apply list_elem_of_lookup_2 with (i := 1). by vm_compute.
Qed.
