(* ===== verification/Collide.v ===== *)
(** * Collide: two client senders of one connection.

    [client_sender] gives every handle a counter of its own, which starts at 1, over
    the one response map of the connection.  Ids are unique only while both requests
    are pending: after a request has been dropped, another handle whose counter has
    the same value gives out the same id again, and the late answer to the first
    request ends the second one. *)

From S2P Require Import Prelude RustStd Serde RequestId Error Message Tokio World RequestQueue Io Lifecycle Routing ClientSender Connection Handshake Serving Ownership Effects System Safety Delivery Schedule.

Section collide.
Context `{TK : Tokio} {TL : TokioLaws TK}.

(** A system whose drain task has nothing to do. *)
Definition at_peace (s : System) : Prop :=
  drain s = DrainIdle ∧ receiver_open (w_outbound (world s)) = true ∧ queue_of s = [].

Lemma drain_one s m q :
  drain s = DrainIdle → receiver_open q = true → queued q = [m] → w_outbound (world s) = q →
  ∃ q', let s' := system_new (with_outbound q' (world s)) (conn s) (senders s) (tasks s) DrainIdle (wire s ++ [m]) in
    rtc sys_step s s' ∧ at_peace s'.
Proof.
  intros Hd Ho Hq Hw. destruct (unbounded_recv q) as [o q'] eqn:Hr.
  destruct (unbounded_recv_law q) as (Hh & Ht & Hopen). rewrite Hr, Hq in Hh, Ht. rewrite Hr in Hopen.
  cbn in Hh, Ht, Hopen. subst o. exists q'. cbv zeta. split; [|by split_and!; [|cbn; rewrite Hopen|]].
  apply rtc_l with (set_drain (DrainWriting m) (with_outbound q' (world s)) s);
    [by apply step_drain_recv; [|rewrite Hw]|]. apply rtc_once.
  by apply (step_drain_sent (set_drain (DrainWriting m) (with_outbound q' (world s)) s)).
Qed.

(** From there a sender asks and its request is written, under the id its counter
    stands at, if that is free. *)
Lemma ask_written s cs m p :
  sys_ok s → at_peace s → cs ∈ senders s →
  let id := IdInteger (counter_at cs (world s)) in
  response_table (conn s) (world s) !! id = None →
  ∃ rx w, let s' := system_new w (conn s) (senders s)
      (tasks s ++ [task_new cs m p (Selecting id (PendingResponseGuard_new (response_map cs) id) rx)])
      DrainIdle (wire s ++ [MRequest (Request_new id m p)]) in
    rtc sys_step s s' ∧ at_peace s' ∧
    response_table (conn s) w = <[id := rx]> (response_table (conn s) (world s)) ∧
    ∀ cs', id_counter cs' ≠ id_counter cs → counter_at cs' w = counter_at cs' (world s).
Proof.
  intros Hok (Hd & Ho & Hq) Hin id Hfree. destruct (sys_senders _ Hok _ Hin) as (Hmap & _ & Hcount).
  destruct (oneshot_channel (w_channels (world s))) as [rx sch] eqn:Hch.
  set (w1 := bump cs (world s)).
  set (w2 := with_table (response_map cs) (<[id := rx]> (map_at (response_map cs) w1)) sch w1).
  destruct (unbounded_send_queue (MRequest (Request_new id m p)) _ Ho) as [Hq3 Ho3].
  pose proof (unbounded_send_law (MRequest (Request_new id m p)) (w_outbound (world s))) as Hsend.
  rewrite Ho in Hsend.
  destruct (unbounded_send (MRequest (Request_new id m p)) (w_outbound (world s))) as [r3 q3] eqn:Hs3.
  cbn in Hsend, Hq3, Ho3. injection Hsend as ->. set (w3 := with_outbound q3 w2).
  set (at_state := λ st w, system_new w (conn s) (senders s) (tasks s ++ [task_new cs m p st]) DrainIdle (wire s)).
  assert (∀ st st' w w', run_task (task_new cs m p st) w = (st', w') →
    sys_step (at_state st w) (at_state st' w')) as Hstep.
  { intros st st' w w' Hrun. pose proof (step_task (at_state st w) (length (tasks s)) (task_new cs m p st) st' w') as H.
    unfold set_task, at_state in H. cbn in H. rewrite list_lookup_middle, insert_app_r_alt, Nat.sub_diag in H by lia.
    by apply H. }
  assert (map_at (response_map cs) w1 = response_table (conn s) (world s)) as Hmapat
    by (by rewrite (map_at_response_table (conn s))).
  assert (run_task (task_new cs m p (Drawing MAX_RETRIES)) (world s) = (Registering (pred MAX_RETRIES) id, w1)) as H1.
  { unfold run_task. cbn [task_state task_sender]. change MAX_RETRIES with (S (pred MAX_RETRIES)).
    unfold mbind, St_bind. by rewrite next_id_run. }
  assert (run_task (task_new cs m p (Registering (pred MAX_RETRIES) id)) w1 = (Sending id rx, w2)) as H2.
  { unfold run_task. cbn [task_state task_sender]. unfold mbind, St_bind.
    rewrite ResponseMap_try_register_run. change (w_channels w1) with (w_channels (world s)).
    rewrite Hch, bool_decide_eq_false_2; [done|]. rewrite Hmapat, Hfree. by intros []. }
  assert (run_task (task_new cs m p (Sending id rx)) w2 =
    (Selecting id (PendingResponseGuard_new (response_map cs) id) rx, w3)) as H3.
  { unfold run_task. cbn [task_state task_sender task_method task_params].
    unfold send_registered_request, send_outbound, on_outbound, mbind, St_bind.
    change (w_outbound w2) with (w_outbound (world s)). by rewrite Hs3. }
  set (sel := Selecting id (PendingResponseGuard_new (response_map cs) id) rx) in *.
  unfold queue_of in Hq. rewrite Hq in Hq3.
  destruct (drain_one (at_state sel w3) (MRequest (Request_new id m p)) q3) as (q4 & Hrun & Hpeace);
    [done|by rewrite Ho3|done|done|].
  exists rx, (with_outbound q4 w3). split_and!; [|exact Hpeace| |].
  - eapply rtc_l; [by apply (step_spawn s cs m p)|]. rewrite Hd.
    eapply rtc_l; [by apply (Hstep (Drawing MAX_RETRIES)); exact H1|].
    eapply rtc_l; [by apply Hstep; exact H2|]. eapply rtc_l; [by apply Hstep; exact H3|]. exact Hrun.
  - change (response_table (conn s) (with_outbound q4 w3)) with (response_table (conn s) w2).
    rewrite <-(map_at_response_table (conn s) (response_map cs)) by done. unfold w2.
    rewrite map_at_with_table, Hmapat; [done|]. apply (ok_map _ _ (sys_conn _ Hok) _ Hmap).
  - intros cs' Hne. unfold counter_at. cbn. by rewrite list_lookup_insert_ne.
Qed.

(** The last task is dropped at its [select!]. *)
Lemma drop_waiting s l cs m p id rx :
  sys_ok s → tasks s = l ++ [task_new cs m p (Selecting id (PendingResponseGuard_new (response_map cs) id) rx)] →
  ∃ w, sys_step s (system_new w (conn s) (senders s) (l ++ [task_new cs m p Abandoned]) (drain s) (wire s)) ∧
    response_table (conn s) w !! id = None ∧ w_counters w = w_counters (world s) ∧
    w_outbound w = w_outbound (world s).
Proof.
  intros Hok Ht. set (t := task_new cs m p _) in Ht.
  assert (tasks s !! length l = Some t) as Hl by (rewrite Ht; by apply list_lookup_middle).
  destruct (sys_tasks _ Hok _ _ Hl) as [Hin _]. destruct (sys_senders _ Hok _ Hin) as (Hmap & _).
  destruct (request_drop (Waiting (PendingResponseGuard_new (response_map cs) id) rx) (world s)) as [[] w] eqn:Hdrop.
  exists w. pose proof (step_abandon s (length l) t id _ rx w Hl eq_refl Hdrop) as Hstep.
  unfold set_task in Hstep. rewrite Ht, insert_app_r_alt, Nat.sub_diag in Hstep by lia.
  rewrite request_drop_run in Hdrop. injection Hdrop as <-. split_and!; [exact Hstep| |done..].
  rewrite <-(map_at_response_table (conn s) (response_map cs)) by done.
  rewrite map_at_with_table; [apply lookup_delete_eq|apply (ok_map _ _ (sys_conn _ Hok) _ Hmap)].
Qed.

Lemma reach_ok s s' : sys_ok s → rtc sys_step s s' → sys_ok s'.
Proof. intros Hok. induction 1; [done|]. by eauto using sys_step_ok. Qed.

(** C40: two handles of one connection whose counters have the same value, as those of
    two new ones, put the same id on the wire twice: whenever the drain task has
    nothing left to write and the id is free, there is a run in which a request of
    the first handle is written and dropped, a request of the second is written under
    the same id, and the response the client gives then, to whichever of the two, is
    what the second one returns when it is polled next. *)
Theorem client_senders_reuse_ids s cs1 cs2 m1 p1 m2 p2 resp :
  reachable s → at_peace s → cs1 ∈ senders s → cs2 ∈ senders s →
  id_counter cs1 ≠ id_counter cs2 → counter_at cs1 (world s) = counter_at cs2 (world s) →
  let id := IdInteger (counter_at cs1 (world s)) in
  response_table (conn s) (world s) !! id = None → resp_id resp = Some id →
  ∃ written c w finished t,
    rtc sys_step s written ∧
    wire written = wire s ++ [MRequest (Request_new id m1 p1); MRequest (Request_new id m2 p2)] ∧
    tasks written = tasks s ++ [task_new cs1 m1 p1 Abandoned; t] ∧
    run_op (OpRoute (MResponse resp)) (conn written) (world written) = (c, w) ∧
    rtc sys_step (system_new w c (senders written) (tasks written) (drain written) (wire written)) finished ∧
    tasks finished = tasks s ++ [task_new cs1 m1 p1 Abandoned; task_new cs2 m2 p2 (Finished (Some id) (Ok resp))].
Proof.
  intros Hok%reachable_ok Hpeace Hin1 Hin2 Hne Hsame id Hfree Hid.
  destruct (ask_written s cs1 m1 p1 Hok Hpeace Hin1 Hfree) as (rx1 & w1 & Hrun1 & Hpeace1 & Htab1 & Hcount1).
  cbv zeta in Hrun1, Hpeace1. fold id in Hrun1, Hpeace1, Htab1.
  set (s1 := system_new w1 _ _ _ _ _) in Hrun1, Hpeace1. pose proof (reach_ok _ _ Hok Hrun1) as Hok1.
  destruct (drop_waiting s1 (tasks s) cs1 m1 p1 id rx1 Hok1 eq_refl) as (w2 & Hstep2 & Hfree2 & Hc2 & Hout2).
  set (s2 := system_new w2 _ _ _ _ _) in Hstep2. pose proof (sys_step_ok _ _ Hok1 Hstep2) as Hok2.
  assert (counter_at cs2 w2 = counter_at cs1 (world s)) as Hcount2
    by (unfold counter_at in *; rewrite Hc2; cbn [world s1]; rewrite (Hcount1 cs2) by done; done).
  destruct (ask_written s2 cs2 m2 p2 Hok2) as (rx2 & w3 & Hrun3 & _ & Htab3 & _);
    [|done|cbn [world s2]; by rewrite Hcount2|].
  { destruct Hpeace1 as (_ & Ho1 & Hq1). split_and!; [done|cbn; by rewrite Hout2|].
    unfold queue_of in *. cbn in *. by rewrite Hout2. }
  cbv zeta in Hrun3. cbn [world s2] in Hrun3, Htab3. rewrite Hcount2 in Hrun3, Htab3. fold id in Hrun3, Htab3.
  set (s3 := system_new w3 _ _ _ _ _) in Hrun3. pose proof (reach_ok _ _ Hok2 Hrun3) as Hok3.
  destruct (run_op (OpRoute (MResponse resp)) (conn s3) (world s3)) as [c w] eqn:Hroute.
  assert (tasks s3 = tasks s ++ [task_new cs1 m1 p1 Abandoned;
    task_new cs2 m2 p2 (Selecting id (PendingResponseGuard_new (response_map cs2) id) rx2)]) as Htasks
    by (cbn; by rewrite <-app_assoc).
  assert (tasks s3 !! S (length (tasks s)) =
    Some (task_new cs2 m2 p2 (Selecting id (PendingResponseGuard_new (response_map cs2) id) rx2))) as Hl.
  { rewrite Htasks, lookup_app_r by lia. by replace (S (length (tasks s)) - length (tasks s)) with 1 by lia. }
  destruct (route_reaches s3 _ _ id _ rx2 resp c w Hok3 Hl eq_refl) as (_ & _ & _ & _ & _ & Hpoll); try done.
  { cbn [conn world s3]. rewrite Htab3. apply lookup_insert_eq. }
  destruct (poll_task (task_new cs2 m2 p2 (Selecting id (PendingResponseGuard_new (response_map cs2) id) rx2))
    true w) as [st w'] eqn:Hpolled.
  assert (st = Finished (Some id) (Ok resp)) as ->.
  { revert Hpolled. unfold poll_task, mbind, St_bind. cbn [task_state task_sender]. rewrite poll_waiting_run.
    cbv zeta. rewrite Hpoll. by intros [= <- _]. }
  eexists s3, c, w, _, _. split_and!; [|cbn; by rewrite <-app_assoc|exact Htasks|exact Hroute| |].
  - etrans; [exact Hrun1|]. by eapply rtc_l.
  - apply rtc_once. by eapply (step_poll (system_new w c (senders s3) (tasks s3) (drain s3) (wire s3))).
  - cbn [tasks set_task]. rewrite Htasks, insert_app_r_alt by lia.
    by replace (S (length (tasks s)) - length (tasks s)) with 1 by lia.
Qed.
End collide.

(** ** Example: two new handles *)

Definition two_handles : System := after [ActClientSender; ActClientSender].

Definition handle (counter : nat) : ClientSender (TK := model_tokio) :=
  {| response_map := {| rm_pending := 0 |}; id_counter := counter; drain_alive := 0 |}.

Lemma two_handles_reachable : reachable two_handles.
Proof. apply after_reachable. by vm_compute. Qed.

Lemma client_senders_reuse_ids_witness :
  ∃ written c w finished t,
    rtc sys_step two_handles written ∧
    wire written = [MRequest (Request_new (IdInteger 1) "first" None);
                    MRequest (Request_new (IdInteger 1) "second" None)] ∧
    run_op (OpRoute (MResponse (Response_ok (IdInteger 1) (VString "answer to the first"))))
      (conn written) (world written) = (c, w) ∧
    rtc sys_step (system_new w c (senders written) (tasks written) (drain written) (wire written)) finished ∧
    task_method t = "second" ∧ tasks finished !! 1 = Some t ∧
    task_state t = Finished (Some (IdInteger 1)) (Ok (Response_ok (IdInteger 1) (VString "answer to the first"))).
Proof.
  destruct (client_senders_reuse_ids (TL := model_tokio_laws) two_handles (handle 0) (handle 1) "first" None
    "second" None (Response_ok (IdInteger 1) (VString "answer to the first")) two_handles_reachable)
    as (written & c & w & finished & t & Hrun & Hwire & Htasks & Hroute & Hrun' & Htasks').
  - split_and!; vm_compute; reflexivity.
  - apply list_elem_of_lookup_2 with (i := 1). vm_compute. reflexivity.
  - apply list_elem_of_lookup_2 with (i := 0). vm_compute. reflexivity.
  - vm_compute. congruence.
  - vm_compute. reflexivity.
  - vm_compute. reflexivity.
  - vm_compute. reflexivity.
  - exists written, c, w, finished. eexists. split_and!; [exact Hrun|exact Hwire|exact Hroute|exact Hrun'| | |].
    2: { rewrite Htasks'. reflexivity. }
    all: reflexivity.
Defined.
