(* ===== verification/Unique.v ===== *)
(** * Unique: the requests of one client sender.

    The counterpart of [Schedule.client_senders_reuse_ids]: when all requests of a
    connection go through one handle, whose counter has not wrapped, every request
    has an id of its own, a free one at the first attempt, and ends with the response
    to it unless the writer dies. *)

From S2P Require Import Prelude RustStd Serde RequestId Error Message Tokio World RequestQueue Io Lifecycle Routing ClientSender Connection Handshake Serving Ownership Effects System Safety Delivery Schedule.

Section unique.
Context `{TK : Tokio} {TL : TokioLaws TK}.

(** The id a task has drawn. *)
Definition task_id (st : TaskState) : option RequestId :=
  match st with
  | Registering _ id | Sending id _ | Selecting id _ _ => Some id
  | Finished o _ => o
  | _ => None
  end.

(** At most one handle, whose counter has not reached its end. *)
Definition one_sender (s : System) : Prop :=
  length (senders s) ≤ 1 ∧ ∀ cs, cs ∈ senders s → (counter_at cs (world s) < i32_MAX)%Z.

Inductive fresh_run : System → Prop :=
| fresh_init s : sys_init s → fresh_run s
| fresh_step s s' : fresh_run s → sys_step s s' → one_sender s' → fresh_run s'.

Lemma fresh_reachable s : fresh_run s → reachable s.
Proof. induction 1; [by apply reachable_init|by eapply reachable_step]. Qed.

(** ** The invariant *)

(** What the state of a task says by itself. *)
Definition fresh_state (d : DrainState) (st : TaskState) : Prop :=
  match st with
  | Drawing n => n = MAX_RETRIES
  | Registering n _ => S n = MAX_RETRIES
  | Finished _ (Err e) => e = Disconnected ∧ drain_gone d = true
  | Finished _ Panic => False
  | _ => True
  end.

(** The channel of a waiting task: the sender lives, or it has sent. *)
Definition answered_or_alive (s : channels) (rx : Channel) : Prop :=
  ∃ v, channel_state s rx = Some v ∧ (sender_alive v = false → sent v ≠ None).

Definition id_below (z : Z) (id : RequestId) : Prop := ∃ k, id = IdInteger k ∧ (k < z)%Z.

Record fresh_ok (s : System) : Prop := {
  fresh_sys : sys_ok s;
  fresh_open : open_ok s;
  fresh_one : one_sender s;
  fresh_below : ∀ i t id, tasks s !! i = Some t → task_id (task_state t) = Some id →
    id_below (counter_at (task_sender t) (world s)) id;
  fresh_unique : ∀ i j t u id, tasks s !! i = Some t → tasks s !! j = Some u →
    task_id (task_state t) = Some id → task_id (task_state u) = Some id → i = j;
  fresh_states : ∀ i t, tasks s !! i = Some t → fresh_state (drain s) (task_state t);
  fresh_alive : ∀ i id rx, activity s i = Some (id, rx) → answered_or_alive (w_channels (world s)) rx;
}.

(** All tasks have the same sender. *)
Lemma fresh_same_sender s i j t u :
  fresh_ok s → tasks s !! i = Some t → tasks s !! j = Some u → task_sender t = task_sender u.
Proof.
  intros Hf Ht Hu. destruct (sys_tasks _ (fresh_sys _ Hf) _ _ Ht) as [H1 _].
  destruct (sys_tasks _ (fresh_sys _ Hf) _ _ Hu) as [H2 _].
  destruct (fresh_one _ Hf) as [Hlen _]. destruct (senders s) as [|cs [|? ?]]; cbn in Hlen; [|..|lia].
  - by apply elem_of_nil in H1.
  - apply list_elem_of_singleton in H1, H2. congruence.
Qed.

(** A step of one task: what has to be shown. *)
Lemma fresh_set_task s i t st w :
  fresh_ok s → tasks s !! i = Some t → let s' := set_task i (with_state t st) w s in
  sys_ok s' → open_ok s' → one_sender s' →
  (∀ cs, cs ∈ senders s → (counter_at cs (world s) ≤ counter_at cs w)%Z) →
  (∀ id, task_id st = Some id → task_id (task_state t) = Some id ∨
     ∃ z, id = IdInteger z ∧ (counter_at (task_sender t) (world s) ≤ z < counter_at (task_sender t) w)%Z) →
  fresh_state (drain s) st →
  (∀ j id rx, j ≠ i → activity s j = Some (id, rx) →
     channel_state (w_channels w) rx = channel_state (w_channels (world s)) rx) →
  (∀ id rx, active_state st = Some (id, rx) → answered_or_alive (w_channels w) rx) →
  fresh_ok s'.
Proof.
  intros Hf Hi s' Hok Hopen Hone Hcnt Hid Hst Hframe Halive.
  pose proof (fresh_below _ Hf) as Hbelow. pose proof (fresh_unique _ Hf) as Huniq.
  assert (∀ j u id, j ≠ i → tasks s !! j = Some u → task_id (task_state u) = Some id →
    task_id st ≠ Some id) as Hother.
  { intros j u id Hj Hu Hu' Hs. destruct (Hid _ Hs) as [Ht|(z & -> & Hz)].
    - apply Hj. by eapply Huniq.
    - destruct (Hbelow _ _ _ Hu Hu') as (k & [= <-] & Hk).
      rewrite (fresh_same_sender _ _ _ _ _ Hf Hi Hu) in Hz. lia. }
  split; [done..| | | |]; unfold s'; cbn [tasks set_task world drain].
  - intros j u id [(<- & <- & _)|(Hne & Hu)]%list_lookup_insert_Some Hu'; cbn in *.
    + destruct (Hid _ Hu') as [Ht|(z & -> & Hz)]; [|by exists z; split; [done|lia]].
      destruct (Hbelow _ _ _ Hi Ht) as (k & -> & Hk). exists k. split; [done|].
      pose proof (Hcnt _ (proj1 (sys_tasks _ (fresh_sys _ Hf) _ _ Hi))). lia.
    + destruct (Hbelow _ _ _ Hu Hu') as (k & -> & Hk). exists k. split; [done|].
      pose proof (Hcnt _ (proj1 (sys_tasks _ (fresh_sys _ Hf) _ _ Hu))). lia.
  - intros j k u v id [(<- & <- & _)|(Hne & Hu)]%list_lookup_insert_Some
      [(<- & <- & _)|(Hne' & Hv)]%list_lookup_insert_Some; cbn; intros Hu' Hv'; try done.
    + by destruct (Hother _ _ _ (not_eq_sym Hne') Hv Hv').
    + by destruct (Hother _ _ _ (not_eq_sym Hne) Hu Hu').
    + by eapply Huniq.
  - intros j u [(<- & <- & _)|(Hne & Hu)]%list_lookup_insert_Some; [done|by eapply (fresh_states _ Hf)].
  - intros j id rx. rewrite (activity_set_task _ _ _ _ _ _ Hi). unfold act_set.
    case_decide as E; [by apply Halive|]. intros Hj. unfold answered_or_alive.
    rewrite (Hframe _ _ _ E Hj). by apply (fresh_alive _ Hf) in Hj.
Qed.

(** The entry of an id is the one of the task that has it. *)
Lemma fresh_entry s i t id c :
  fresh_ok s → tasks s !! i = Some t → task_id (task_state t) = Some id →
  response_table (conn s) (world s) !! id = Some c → active_state (task_state t) = Some (id, c).
Proof.
  intros Hf Hi Hid Hc. destruct (own_entry _ _ _ _ (sys_owned _ (fresh_sys _ Hf)) _ _ Hc) as [j Hj].
  unfold Safety.activity in Hj. apply bind_Some in Hj as (u & Hu & Hact).
  assert (i = j) as <-; [|by simplify_eq].
  eapply (fresh_unique _ Hf); [done..|]. by destruct (task_state u); simplify_eq/=.
Qed.

(** Giving up touches the task's own channel only. *)
Lemma fresh_give_up s i t id rx :
  fresh_ok s → tasks s !! i = Some t → active_state (task_state t) = Some (id, rx) →
  let T := response_table (conn s) (world s) in
  let ch := w_channels (world s) in
  frame_but (eq rx) ch (drop_receiver rx (drop_old (T !! id) ch)) ∧
  frame_but (eq rx) ch (drop_old (T !! id) (drop_receiver rx ch)).
Proof.
  intros Hf Hi Hact T ch.
  assert (activity s i = Some (id, rx)) as Hacti by (unfold activity; by rewrite Hi).
  assert (task_id (task_state t) = Some id) as Hid by (by destruct (task_state t); simplify_eq/=).
  destruct (own_channel _ _ _ _ (sys_owned _ (fresh_sys _ Hf)) _ _ _ Hacti) as (a & v & Hrx & _).
  destruct (drop_receiver_law _ _ _ Hrx) as [Hr Hfr].
  destruct (T !! id) as [c|] eqn:Hc; cbn [drop_old]; [|by split; intros d Hd; apply Hfr, not_eq_sym].
  pose proof (fresh_entry _ _ _ _ _ Hf Hi Hid Hc) as Hc'. rewrite Hact in Hc'. injection Hc' as <-.
  destruct (drop_sender_law _ _ _ Hrx) as [Hs Hfs]. destruct (drop_receiver_law _ _ _ Hs) as [_ Hfr2].
  destruct (drop_sender_law _ _ _ Hr) as [_ Hfs2].
  split; intros d Hd%not_eq_sym; [by rewrite Hfr2, Hfs|by rewrite Hfs2, Hfr].
Qed.

(** ** The steps *)

Lemma fresh_activity s i t :
  tasks s !! i = Some t → activity s i = active_state (task_state t).
Proof. intros Hi. unfold activity. by rewrite Hi. Qed.

(** Another task's channel. *)
Lemma fresh_other s i j id rx id' rx' :
  fresh_ok s → activity s i = Some (id, rx) → activity s j = Some (id', rx') → j ≠ i → rx ≠ rx'.
Proof. intros Hf Hi Hj Hne <-. apply Hne. by eapply (own_unique _ _ _ _ (sys_owned _ (fresh_sys _ Hf))). Qed.

(** A task step in which the task neither draws an id nor touches a channel of
    another task. *)
Lemma fresh_own_step s i t st w :
  fresh_ok s → tasks s !! i = Some t → let s' := set_task i (with_state t st) w s in
  sys_ok s' → open_ok s' → w_counters w = w_counters (world s) →
  (∀ id, task_id st = Some id → task_id (task_state t) = Some id) →
  fresh_state (drain s) st →
  (∀ j id rx, j ≠ i → activity s j = Some (id, rx) →
     channel_state (w_channels w) rx = channel_state (w_channels (world s)) rx) →
  (∀ id rx, active_state st = Some (id, rx) → answered_or_alive (w_channels w) rx) →
  fresh_ok s'.
Proof.
  intros Hf Hi s' Hok Hopen Hw Hid Hst Hfr Hal. apply fresh_set_task; try done; [| |by eauto].
  - unfold s', one_sender, counter_at in *. cbn. rewrite Hw. apply (fresh_one _ Hf).
  - intros cs _. unfold counter_at. by rewrite Hw.
Qed.

Lemma fresh_drawing s i t n st w :
  fresh_ok s → tasks s !! i = Some t → task_state t = Drawing n → run_task t (world s) = (st, w) →
  sys_ok (set_task i (with_state t st) w s) → open_ok (set_task i (with_state t st) w s) →
  one_sender (set_task i (with_state t st) w s) → fresh_ok (set_task i (with_state t st) w s).
Proof.
  intros Hf Hi Hst Hrun Hok Hopen Hone. pose proof (fresh_states _ Hf _ _ Hi) as Hs.
  revert Hrun. unfold run_task. rewrite Hst in *. cbn in Hs. destruct n as [|n]; [done|].
  destruct (sys_tasks _ (fresh_sys _ Hf) _ _ Hi) as [Hin _].
  destruct (sys_senders _ (fresh_sys _ Hf) _ Hin) as (_ & _ & Hcnt).
  pose proof (proj2 (fresh_one _ Hf) _ Hin) as Hlt.
  unfold mbind, St_bind. rewrite next_id_run by done. run_st. intros [= <- <-].
  assert (counter_at (task_sender t) (bump (task_sender t) (world s)) =
    (counter_at (task_sender t) (world s) + 1)%Z) as Hb.
  { rewrite counter_at_bump by apply Hcnt. unfold next_counter.
    by rewrite (proj2 (Z.leb_gt _ _)). }
  apply fresh_set_task; try done.
  - intros cs Hcs. destruct (decide (id_counter cs = id_counter (task_sender t))) as [E|Hne].
    + unfold counter_at in *. rewrite E, Hb. lia.
    + unfold counter_at, bump. cbn. by rewrite list_lookup_insert_ne.
  - intros id. cbn. intros [= <-]. right. eexists. split; [done|]. rewrite Hb. lia.
Qed.

Lemma fresh_registering s i t n id st w :
  fresh_ok s → tasks s !! i = Some t → task_state t = Registering n id →
  run_task t (world s) = (st, w) →
  sys_ok (set_task i (with_state t st) w s) → open_ok (set_task i (with_state t st) w s) →
  fresh_ok (set_task i (with_state t st) w s).
Proof.
  intros Hf Hi Hst Hrun Hok Hopen. revert Hrun. unfold run_task. rewrite Hst.
  destruct (sys_tasks _ (fresh_sys _ Hf) _ _ Hi) as [Hin _].
  destruct (sys_senders _ (fresh_sys _ Hf) _ Hin) as (Hmap & _ & _).
  unfold mbind, St_bind. rewrite ResponseMap_try_register_run.
  rewrite (map_at_response_table (conn s)) by done.
  destruct (oneshot_channel (w_channels (world s))) as [c ch] eqn:Hch.
  destruct (oneshot_channel_law _ _ _ Hch) as (Hnone & Hnew & Hfr).
  destruct (response_table (conn s) (world s) !! id) as [d|] eqn:Hid.
  { assert (active_state (task_state t) = Some (id, d)) as Ha
      by (eapply (fresh_entry s i t id d); [done..|by rewrite Hst|done]).
    by rewrite Hst in Ha. }
  rewrite bool_decide_eq_false_2 by (by intros [? ?]). run_st. intros [= <- <-].
  apply fresh_own_step; try done.
  - intros id'. cbn. by rewrite Hst.
  - intros j id' rx Hne Hj. cbn. apply Hfr. intros ->.
    destruct (own_channel _ _ _ _ (sys_owned _ (fresh_sys _ Hf)) _ _ _ Hj) as (a & v & Hs & _). congruence.
  - intros id' rx. cbn. intros [= <- <-]. by eexists.
Qed.

(** The request ends with [Disconnected], its guard dropped. *)
Lemma fresh_end s i t id rx o w ch :
  fresh_ok s → tasks s !! i = Some t → active_state (task_state t) = Some (id, rx) →
  let st := Finished o (Err Disconnected) in
  let T := response_table (conn s) (world s) in
  sys_ok (set_task i (with_state t st) w s) → open_ok (set_task i (with_state t st) w s) →
  o = Some id → drain_gone (drain s) = true →
  w_counters w = w_counters (world s) → w_channels w = ch →
  ch = drop_receiver rx (drop_old (T !! id) (w_channels (world s))) →
  fresh_ok (set_task i (with_state t st) w s).
Proof.
  intros Hf Hi Hact st T Hok Hopen -> Hd Hw Hc ->.
  destruct (fresh_give_up _ _ _ _ _ Hf Hi Hact) as [Hfr _].
  pose proof (fresh_activity _ _ _ Hi) as Ha. rewrite Hact in Ha.
  apply fresh_own_step; try done.
  - intros id'. cbn. intros [= <-]. by destruct (task_state t); simplify_eq/=.
  - intros j id' rx' Hne Hj. rewrite Hc. apply Hfr. eapply fresh_other; [exact Hf|exact Ha|exact Hj|done].
Qed.

Lemma fresh_sending s i t id rx st w :
  fresh_ok s → tasks s !! i = Some t → task_state t = Sending id rx →
  run_task t (world s) = (st, w) →
  sys_ok (set_task i (with_state t st) w s) → open_ok (set_task i (with_state t st) w s) →
  fresh_ok (set_task i (with_state t st) w s).
Proof.
  intros Hf Hi Hst Hrun Hok Hopen. revert Hrun. unfold run_task. rewrite Hst.
  pose proof (fresh_activity _ _ _ Hi) as Ha. rewrite Hst in Ha. cbn in Ha.
  destruct (sys_tasks _ (fresh_sys _ Hf) _ _ Hi) as [Hin _].
  destruct (sys_senders _ (fresh_sys _ Hf) _ Hin) as (Hmap & _ & _).
  unfold send_registered_request, send_outbound, on_outbound, mbind, St_bind, fmap, St_fmap.
  rewrite unbounded_send_law. destruct (receiver_open (w_outbound (world s))) eqn:Ho.
  - unfold mret, St_ret. intros [= <- <-]. apply fresh_own_step; try done.
    + intros id'. cbn. by rewrite Hst.
    + intros id' rx'. cbn. intros [= <- <-]. by eapply (fresh_alive _ Hf).
  - unfold PendingResponseGuard_drop, mbind, St_bind. cbn [guard_id PendingResponseGuard_new guard_map].
    rewrite ResponseMap_cancel_run. rewrite (map_at_response_table (conn s)) by done.
    intros [= <- <-]. eapply (fresh_end s i t id rx); try done; [by rewrite Hst|].
    by rewrite (fresh_open _ Hf Ho).
Qed.

Lemma fresh_same s i t :
  fresh_ok s → tasks s !! i = Some t → fresh_ok (set_task i (with_state t (task_state t)) (world s) s).
Proof.
  intros Hf Hi. pose proof (fresh_activity _ _ _ Hi) as Ha.
  apply fresh_own_step; try done; [by apply same_state_ok; [apply fresh_sys|]|by apply (fresh_open _ Hf)|..].
  - by apply (fresh_states _ Hf) in Hi.
  - intros id rx Hact. eapply (fresh_alive _ Hf). by rewrite Ha.
Qed.

Lemma fresh_run_task s i t st w :
  fresh_ok s → tasks s !! i = Some t → run_task t (world s) = (st, w) →
  one_sender (set_task i (with_state t st) w s) → fresh_ok (set_task i (with_state t st) w s).
Proof.
  intros Hf Hi Hrun Hone. assert (sys_step s (set_task i (with_state t st) w s)) as Hstep by (by apply step_task).
  pose proof (sys_step_ok _ _ (fresh_sys _ Hf) Hstep) as Hok.
  pose proof (step_open_ok _ _ (fresh_open _ Hf) Hstep) as Hopen.
  destruct (task_state t) as [n|n id|id rx|id cl rx|id r|] eqn:Hst.
  - by eapply fresh_drawing.
  - by eapply fresh_registering.
  - by eapply fresh_sending.
  - revert Hrun. unfold run_task. rewrite Hst. run_st. intros [= <- <-]. rewrite <-Hst. by apply fresh_same.
  - revert Hrun. unfold run_task. rewrite Hst. run_st. intros [= <- <-]. rewrite <-Hst. by apply fresh_same.
  - revert Hrun. unfold run_task. rewrite Hst. run_st. intros [= <- <-]. rewrite <-Hst. by apply fresh_same.
Qed.

Lemma fresh_poll_task s i t b st w :
  fresh_ok s → tasks s !! i = Some t → poll_task t b (world s) = (st, w) →
  fresh_ok (set_task i (with_state t st) w s).
Proof.
  intros Hf Hi Hrun. assert (sys_step s (set_task i (with_state t st) w s)) as Hstep by (by eapply step_poll).
  pose proof (sys_step_ok _ _ (fresh_sys _ Hf) Hstep) as Hok.
  pose proof (step_open_ok _ _ (fresh_open _ Hf) Hstep) as Hopen.
  pose proof (fresh_activity _ _ _ Hi) as Ha. revert Hrun. unfold poll_task.
  destruct (task_state t) as [n|n id|id rx|id cl rx|id r|] eqn:Hst;
    try (unfold mret, St_ret; intros [= <- <-]; rewrite <-Hst; by apply fresh_same).
  destruct (sys_tasks _ (fresh_sys _ Hf) _ _ Hi) as [Hin Hsok]. rewrite Hst in Hsok. cbn in Hsok. subst cl.
  destruct (sys_senders _ (fresh_sys _ Hf) _ Hin) as (Hmap & Hdr & _).
  destruct (sys_drain _ (fresh_sys _ Hf)) as [_ Hcan]. cbn in Ha.
  destruct (fresh_alive _ Hf _ _ _ Ha) as (v & Hv & Hsent).
  unfold mbind, St_bind. rewrite poll_waiting_run. cbv zeta. rewrite Hdr, Hcan.
  rewrite (map_at_response_table (conn s)) by done. rewrite (oneshot_poll_law _ _ _ Hv).
  assert (∀ st w, drain_gone (drain s) = true → st = Finished (Some id) (Err Disconnected) →
    w = with_table (response_map (task_sender t)) (delete id (response_table (conn s) (world s)))
      (drop_receiver rx (drop_old (response_table (conn s) (world s) !! id) (w_channels (world s)))) (world s) →
    sys_ok (set_task i (with_state t st) w s) → open_ok (set_task i (with_state t st) w s) →
    fresh_ok (set_task i (with_state t st) w s)) as Hend.
  { intros st0 w0 Hg -> -> Hok0 Hopen0. eapply (fresh_end s i t id rx); try done. by rewrite Hst. }
  destruct (sent v) as [r|] eqn:Hr.
  - destruct (b || negb (drain_gone (drain s))) eqn:Hb; unfold mret, St_ret; intros [= <- <-].
    + apply fresh_own_step; try done; [by rewrite Hst|].
      intros j id' rx' Hne Hj. apply (drop_receiver_law _ _ _ Hv). apply not_eq_sym.
      eapply fresh_other; [exact Hf|exact Ha|exact Hj|done].
    + apply orb_false_iff in Hb as [_ Hb%negb_false_iff]. by apply Hend.
  - destruct (sender_alive v) eqn:Hal; [|by specialize (Hsent eq_refl)].
    destruct (drain_gone (drain s)) eqn:Hg; unfold mret, St_ret; intros [= <- <-]; [by apply Hend|].
    rewrite <-Hst. by apply fresh_same.
Qed.

Lemma fresh_abandon s i t id cleanup rx w :
  fresh_ok s → tasks s !! i = Some t → task_state t = Selecting id cleanup rx →
  request_drop (Waiting cleanup rx) (world s) = ((), w) →
  fresh_ok (set_task i (with_state t Abandoned) w s).
Proof.
  intros Hf Hi Hst Hdrop. assert (sys_step s (set_task i (with_state t Abandoned) w s)) as Hstep by (by eapply step_abandon).
  pose proof (sys_step_ok _ _ (fresh_sys _ Hf) Hstep) as Hok.
  pose proof (step_open_ok _ _ (fresh_open _ Hf) Hstep) as Hopen.
  destruct (sys_tasks _ (fresh_sys _ Hf) _ _ Hi) as [Hin Hsok]. rewrite Hst in Hsok. cbn in Hsok. subst cleanup.
  destruct (sys_senders _ (fresh_sys _ Hf) _ Hin) as (Hmap & _ & _).
  revert Hdrop. rewrite request_drop_run, (map_at_response_table (conn s)) by done. intros [= <-].
  pose proof (fresh_activity _ _ _ Hi) as Ha. rewrite Hst in Ha. cbn in Ha.
  assert (active_state (task_state t) = Some (id, rx)) as Hact by (by rewrite Hst).
  destruct (fresh_give_up _ _ _ _ _ Hf Hi Hact) as [_ Hfr].
  apply fresh_own_step; try done.
  intros j id' rx' Hne Hj. apply Hfr. eapply fresh_other; [exact Hf|exact Ha|exact Hj|done].
Qed.

(** A step that leaves the tasks alone. *)
Lemma fresh_world_step s s' :
  fresh_ok s → sys_ok s' → open_ok s' → one_sender s' → tasks s' = tasks s →
  (∀ cs, cs ∈ senders s → (counter_at cs (world s) ≤ counter_at cs (world s'))%Z) →
  (drain_gone (drain s) = true → drain_gone (drain s') = true) →
  (∀ i id rx, activity s i = Some (id, rx) → answered_or_alive (w_channels (world s')) rx) →
  fresh_ok s'.
Proof.
  intros Hf Hok Hopen Hone Ht Hcnt Hd Hal. split; [done..| | | |].
  - intros i t id. rewrite Ht. intros Hi Hid. destruct (fresh_below _ Hf _ _ _ Hi Hid) as (k & -> & Hk).
    exists k. split; [done|]. pose proof (Hcnt _ (proj1 (sys_tasks _ (fresh_sys _ Hf) _ _ Hi))). lia.
  - rewrite Ht. apply (fresh_unique _ Hf).
  - intros i t. rewrite Ht. intros Hi. pose proof (fresh_states _ Hf _ _ Hi) as Hst.
    destruct (task_state t) as [| | | |o [|e|]|]; try done. destruct Hst as [-> Hg]. split; [done|by apply Hd].
  - intros i id rx Hi. apply (Hal i id). revert Hi. unfold activity. by rewrite Ht.
Qed.

Lemma fresh_quiet_step s s' :
  fresh_ok s → sys_ok s' → open_ok s' → one_sender s' → tasks s' = tasks s →
  w_counters (world s') = w_counters (world s) → w_channels (world s') = w_channels (world s) →
  (drain_gone (drain s) = true → drain_gone (drain s') = true) → fresh_ok s'.
Proof.
  intros Hf Hok Hopen Hone Ht Hcnt Hch Hd. eapply fresh_world_step; try done.
  - intros cs _. unfold counter_at. by rewrite Hcnt.
  - intros i id rx Hi. rewrite Hch. by eapply (fresh_alive _ Hf).
Qed.

Lemma effect_alive s c w i id rx :
  fresh_ok s → table_effect (conn s) (world s) c w → activity s i = Some (id, rx) →
  answered_or_alive (w_channels w) rx.
Proof.
  intros Hf Heff Hi. pose proof (fresh_alive _ Hf _ _ _ Hi) as (v & Hv & Hs).
  destruct (own_channel _ _ _ _ (sys_owned _ (fresh_sys _ Hf)) _ _ _ Hi) as (a & o & Hrx & _ & _ & Hno).
  destruct Heff as [_ Hfr _|j r d Hr Hd _ _ [(ra & Hs1 & Hs2) Hfr]].
  - exists v. split; [|done]. rewrite Hfr; [done|]. intros [?|[k Hk]]; [congruence|by eapply Hno].
  - destruct (decide (rx = d)) as [->|Hne].
    + rewrite Hs1 in Hrx. simplify_eq. eexists. by split.
    + exists v. split; [|done]. rewrite Hfr; [done|by apply not_eq_sym].
Qed.

Lemma fresh_conn_step s op c w :
  fresh_ok s → atomic op = true → op ≠ OpClientSender → possible op (conn s) = true → run_op op (conn s) (world s) = (c, w) →
  let s' := system_new w c (senders s) (tasks s) (drain s) (wire s) in
  sys_ok s' → open_ok s' → fresh_ok s'.
Proof.
  intros Hf Hat Hcs Hpos Hrun s' Hok Hopen.
  assert (match op with OpSendRequest _ _ _ _ | OpInitialize _ _ | OpInitializeStart _ | OpInitializeFinish _ _ _ => False | _ => True end) as Hat'
    by (by destruct op).
  destruct (run_op_effect op _ _ _ _ (sys_conn _ (fresh_sys _ Hf)) Hcs Hat' Hrun) as (Hh & Htab & _).
  pose proof (same_counters _ _ _ _ Hh) as Hk. eapply fresh_world_step; try done.
  - unfold s', one_sender, counter_at. cbn. rewrite Hk. apply (fresh_one _ Hf).
  - intros cs _. unfold counter_at. cbn. by rewrite Hk.
  - intros i id rx Hi. by eapply effect_alive.
Qed.

Lemma fresh_client_sender s cs c w :
  fresh_ok s → client_sender (conn s) (world s) = ((cs, c), w) →
  let s' := system_new w c (cs :: senders s) (tasks s) (drain s) (wire s) in
  sys_ok s' → open_ok s' → one_sender s' → fresh_ok s'.
Proof.
  intros Hf Hrun s' Hok Hopen Hone. pose proof (proj1 Hone) as Hlen. cbn in Hlen.
  assert (senders s = []) as Hnil by (apply nil_length_inv; lia).
  destruct (client_sender_effect _ _ _ _ _ (sys_conn _ (fresh_sys _ Hf)) Hrun) as (_ & _ & Hch & _).
  eapply fresh_world_step; try done.
  - rewrite Hnil. by intros x ?%elem_of_nil.
  - intros i id rx Hi. unfold s'. cbn. rewrite Hch. by eapply (fresh_alive _ Hf).
Qed.

Lemma fresh_spawn s cs method params :
  fresh_ok s →
  let s' := system_new (world s) (conn s) (senders s)
    (tasks s ++ [task_new cs method params (Drawing MAX_RETRIES)]) (drain s) (wire s) in
  sys_ok s' → open_ok s' → fresh_ok s'.
Proof.
  intros Hf s' Hok Hopen.
  assert (∀ j u, tasks s' !! j = Some u → tasks s !! j = Some u ∨ task_state u = Drawing MAX_RETRIES) as Htk.
  { intros j u [Hj|[_ Hj]]%lookup_app_Some; [by left|]. apply list_lookup_singleton_Some in Hj as [_ <-]. by right. }
  split; [done|done|exact (fresh_one _ Hf)|..].
  - intros j u id [Hj|Hu]%Htk Hid; [by eapply (fresh_below _ Hf)|by rewrite Hu in Hid].
  - intros j k u v id [Hj|Hu]%Htk [Hk|Hv]%Htk Hid Hid'; [|by rewrite ?Hu, ?Hv in *..].
    by eapply (fresh_unique _ Hf).
  - intros j u [Hj|Hu]%Htk; [by eapply (fresh_states _ Hf)|by rewrite Hu].
  - intros j id rx (u & [Hj|Hu]%Htk & Ha)%bind_Some; [|by rewrite Hu in Ha].
    eapply (fresh_alive _ Hf j). by rewrite (fresh_activity _ _ _ Hj).
Qed.

Lemma fresh_step_ok s s' : fresh_ok s → sys_step s s' → one_sender s' → fresh_ok s'.
Proof.
  intros Hf Hstep Hone. pose proof (sys_step_ok _ _ (fresh_sys _ Hf) Hstep) as Hok.
  pose proof (step_open_ok _ _ (fresh_open _ Hf) Hstep) as Hopen. destruct Hstep.
  - by eapply fresh_conn_step.
  - by eapply fresh_client_sender.
  - revert H0. unfold notify, send_outbound, on_outbound, mbind, St_bind.
    destruct (unbounded_send _ _) as [x q]. intros [= <- <-]. by eapply fresh_quiet_step.
  - revert H0. unfold respond, send_outbound, on_outbound, mbind, St_bind.
    destruct (unbounded_send _ _) as [x q]. intros [= <- <-]. by eapply fresh_quiet_step.
  - by apply fresh_spawn.
  - by apply fresh_run_task.
  - by eapply fresh_poll_task.
  - by eapply fresh_abandon.
  - eapply fresh_quiet_step; try done. by rewrite H.
  - eapply fresh_quiet_step; try done. by rewrite H.
  - by eapply fresh_quiet_step.
  - by eapply fresh_quiet_step.
Qed.

Lemma fresh_run_ok s : fresh_run s → fresh_ok s.
Proof.
  induction 1 as [s Hinit|s s' _ IH Hstep Hone]; [|by eapply fresh_step_ok].
  pose proof (init_open_ok _ Hinit) as Hopen. pose proof (sys_init_ok _ Hinit) as Hok.
  destruct Hinit as (w & _ & Hs & Ht & _).
  assert (∀ i t, tasks s !! i ≠ Some t) as Hno by (rewrite Ht; by intros []).
  split; [done|done|..].
  - split; rewrite Hs; [cbn; lia|by intros cs ?%elem_of_nil].
  - intros i t id Hi. by destruct (Hno _ _ Hi).
  - intros i j t u id Hi. by destruct (Hno _ _ Hi).
  - intros i t Hi. by destruct (Hno _ _ Hi).
  - intros i id rx (t & Hi & _)%bind_Some. by destruct (Hno _ _ Hi).
Qed.

(** C8: when every request of a connection is made through one client sender that has
    given out fewer than [i32::MAX] ids, no two requests have the same id, no request
    fails to get one, and each that ends has either the response to its own id or,
    the writer having died, Disconnected. *)
Theorem single_sender_requests s :
  fresh_run s →
  (∀ i j t u id, tasks s !! i = Some t → tasks s !! j = Some u →
     task_id (task_state t) = Some id → task_id (task_state u) = Some id → i = j) ∧
  (∀ i t o r, tasks s !! i = Some t → task_state t = Finished o r →
     (∃ id resp, o = Some id ∧ r = Ok resp ∧ resp_id resp = Some id) ∨
     (r = Err Disconnected ∧ drain_gone (drain s) = true)).
Proof.
  intros Hr. pose proof (fresh_run_ok _ Hr) as Hf. split; [apply (fresh_unique _ Hf)|].
  intros i t o r Hi Hst. pose proof (fresh_states _ Hf _ _ Hi) as Hfs.
  destruct (sys_tasks _ (fresh_sys _ Hf) _ _ Hi) as [_ Hok]. rewrite Hst in *. destruct r as [resp|e|].
  - destruct Hok as (id & -> & Hid). left. eauto.
  - destruct Hfs as [-> Hg]. by right.
  - done.
Qed.
End unique.

(** ** Example: two requests of one sender, the second one answered *)

Definition one_sender_b (s : System (TK := model_tokio)) : bool :=
  (length (senders s) <=? 1) && forallb (λ cs, (counter_at cs (world s) <? i32_MAX)%Z) (senders s).

Fixpoint fresh_b (l : list action) (s : System (TK := model_tokio)) : bool :=
  match l with
  | [] => true
  | a :: l => match exec a s with Some s' => one_sender_b s' && fresh_b l s' | None => false end
  end.

Lemma fresh_b_run l s s' : fresh_run s → fresh_b l s = true → exec_all l s = Some s' → fresh_run s'.
Proof.
  revert s. induction l as [|a l IH]; intros s Hr; cbn [exec_all fresh_b]; [by intros _ [= <-]|].
  destruct (exec a s) as [s1|] eqn:H; [|done]. cbn [mbind option_bind].
  intros [[Hlen%Nat.leb_le Hall]%andb_true_iff Hb]%andb_true_iff. apply IH; [|done].
  eapply fresh_step; [done|by eapply exec_sound|]. split; [done|].
  intros cs Hcs%list_elem_of_In. rewrite forallb_forall in Hall. by apply Z.ltb_lt, Hall.
Qed.

Definition two_requests : list action :=
  ask ++ [ActSpawn 0 "client/registerCapability" None; ActTask 1; ActTask 1; ActTask 1;
          answer 2 VNull; ActPoll 1 true].

Lemma two_requests_fresh : fresh_run (after two_requests).
Proof.
  eapply (fresh_b_run two_requests start); [apply fresh_init; by exists empty_world|by vm_compute|].
  vm_compute. reflexivity.
Qed.

(** The second request, as it ended. *)
Definition second_task : Task (TK := model_tokio) :=
  default (task_new {| response_map := {| rm_pending := 0 |}; id_counter := 0; drain_alive := 0 |} "" None Abandoned)
    (tasks (after two_requests) !! 1).

Lemma two_requests_second : tasks (after two_requests) !! 1 = Some second_task.
Proof. vm_compute. reflexivity. Qed.

Lemma second_task_state :
  task_state second_task = Finished (Some (IdInteger 2)) (Ok (Response_ok (IdInteger 2) VNull)).
Proof. vm_compute. reflexivity. Qed.

Lemma single_sender_requests_witness :
  ∃ id resp, Some (IdInteger 2) = Some id ∧ Ok (Response_ok (IdInteger 2) VNull) = @Ok ProtocolError _ resp ∧
    resp_id resp = Some id.
Proof.
  destruct (single_sender_requests _ two_requests_fresh) as [_ H].
  destruct (H 1 _ _ _ two_requests_second second_task_state) as [Hok|[Hno _]]; [exact Hok|discriminate Hno].
Defined.
