(* ===== verification/Closing.v ===== *)
(** * Closing: what the drain task does when nobody can send any more.

    The connection, its client senders and their requests are gone, and with them
    every sender of the outbound queue: [rx.recv()] gives the messages that are left
    and then [None], which ends the [while let] of [spawn_drain_task].  The task
    always ends, and unless a write fails everything the queue had accepted has been
    written by then. *)

From S2P Require Import Prelude RustStd Serde RequestId Error Message Tokio World RequestQueue Io Lifecycle Routing ClientSender Connection Handshake Serving Ownership Effects System Safety Delivery Schedule.

Section closing.
Context `{TK : Tokio}.

(** The next step of the task, when its write, if it is at one, succeeds or not. *)
Definition close_next (written : bool) (s : System) : option System :=
  let w := world s in
  let drop_guard w := with_tokens (token_cancel (conn_drain_alive (conn s)) (w_tokens w)) w in
  match drain s with
  | DrainIdle =>
    let '(o, q) := unbounded_recv (w_outbound w) in
    Some match o with
         | Some m => set_drain (DrainWriting m) (with_outbound q w) s
         | None => set_drain DrainClosing (drop_guard (with_outbound q w)) s
         end
  | DrainWriting m =>
    Some (if written then system_new w (conn s) (senders s) (tasks s) DrainIdle (wire s ++ [m])
          else set_drain DrainClosing (drop_guard w) s)
  | DrainClosing => Some (set_drain DrainStopped (with_outbound (receiver_drop (w_outbound w)) w) s)
  | DrainStopped => None
  end.

(** The run to the end; [written k] says whether the write of the [k]-th message of
    the connection succeeds. *)
Fixpoint close_run (fuel : nat) (written : nat → bool) (s : System) : System :=
  match fuel with
  | O => s
  | S fuel =>
    match close_next (written (length (wire s))) s with
    | Some s' => close_run fuel written s'
    | None => s
    end
  end.

(** The steps are those of the system, but for the end of the loop. *)
Lemma close_next_drain b s s' :
  close_next b s = Some s' →
  drain_step s s' ∨ (drain s = DrainIdle ∧ (unbounded_recv (w_outbound (world s))).1 = None ∧ drain s' = DrainClosing).
Proof.
  unfold close_next. destruct (drain s) as [|m| |] eqn:Hd; [| | |done].
  - destruct (unbounded_recv (w_outbound (world s))) as [[m|] q] eqn:Hq; intros [= <-]; [left|by right].
    by apply drain_recv.
  - intros [= <-]. left. destruct b; [by apply drain_sent|by eapply drain_failed].
  - intros [= <-]. left. by apply drain_stop.
Qed.
End closing.

Section flush.
Context `{TK : Tokio} {TL : TokioLaws TK}.

(** Enough steps: two for a message of the queue, one for the one in flight, and the
    end of the loop, the guard and the receiver. *)
Definition close_fuel (s : System) : nat := 2 * length (queue_of s) + 4.

(** How many of the messages from the [k]-th on are written. *)
Fixpoint written_from (written : nat → bool) (k : nat) (ms : list Message) : list Message :=
  match ms with
  | [] => []
  | m :: ms => if written k then m :: written_from written (S k) ms else []
  end.

Lemma written_from_prefix written k ms : written_from written k ms `prefix_of` ms.
Proof.
  revert k. induction ms as [|m ms IH]; intros k; cbn; [done|].
  destruct (written k); [by apply prefix_cons|apply prefix_nil].
Qed.

Lemma written_from_all written k ms :
  (∀ j, k ≤ j < k + length ms → written j = true) → written_from written k ms = ms.
Proof.
  revert k. induction ms as [|m ms IH]; intros k H; cbn; [done|]. cbn in H.
  rewrite H by lia. f_equal. apply IH. intros j Hj. apply H. lia.
Qed.

(** The token of the drain task. *)
Definition drain_token (s : System) : Prop :=
  lineage (w_tokens (world s)) (conn_drain_alive (conn s)) = Some [conn_drain_alive (conn s)].

Lemma cancel_own_token s :
  drain_token s →
  let ts := token_cancel (conn_drain_alive (conn s)) (w_tokens (world s)) in
  is_cancelled ts (conn_drain_alive (conn s)) = true ∧
  lineage ts (conn_drain_alive (conn s)) = Some [conn_drain_alive (conn s)].
Proof.
  intros Hl ts. destruct (token_cancel_law _ (conn_drain_alive (conn s)) _ _ Hl) as [Hl' Hc].
  split; [|done]. unfold ts. rewrite Hc, bool_decide_eq_true_2; [by rewrite orb_true_r|].
  by apply list_elem_of_singleton.
Qed.

(** What a finished task leaves behind. *)
Definition stopped (s : System) (ms : list Message) : Prop :=
  drain s = DrainStopped ∧ wire s = ms ∧ receiver_open (w_outbound (world s)) = false ∧
  is_cancelled (w_tokens (world s)) (conn_drain_alive (conn s)) = true.

Lemma close_run_stopped fuel written s ms : stopped s ms → stopped (close_run fuel written s) ms.
Proof.
  intros Hs. destruct fuel as [|fuel]; [done|]. cbn. unfold close_next. by rewrite (proj1 Hs).
Qed.

Lemma close_run_closing fuel written s ms :
  drain s = DrainClosing → is_cancelled (w_tokens (world s)) (conn_drain_alive (conn s)) = true →
  1 ≤ fuel → wire s = ms → stopped (close_run fuel written s) ms.
Proof.
  intros Hd Hc Hf <-. destruct fuel as [|fuel]; [lia|]. cbn. unfold close_next. rewrite Hd.
  apply close_run_stopped. split_and!; try done. apply receiver_drop_law.
Qed.

Lemma close_run_idle ms fuel written s :
  drain s = DrainIdle → drain_token s → queue_of s = ms → 2 * length ms + 3 ≤ fuel →
  stopped (close_run fuel written s) (wire s ++ written_from written (length (wire s)) ms).
Proof.
  revert fuel s. induction ms as [|m ms IH]; intros fuel s Hd Ht Hq Hf;
    (destruct fuel as [|fuel]; [lia|]); cbn [close_run]; unfold close_next at 1; rewrite Hd;
    destruct (unbounded_recv_law (w_outbound (world s))) as (Hh & Htl & _);
    unfold queue_of in Hq; rewrite Hq in Hh, Htl;
    destruct (unbounded_recv (w_outbound (world s))) as [o q]; cbn in Hh, Htl; subst o.
  - cbn [written_from]. rewrite app_nil_r. apply close_run_closing; [done| |lia|done].
    exact (proj1 (cancel_own_token _ Ht)).
  - destruct fuel as [|fuel]; [cbn in Hf; lia|]. cbn [close_run]. unfold close_next at 1.
    cbn [drain set_drain wire written_from]. destruct (written (length (wire s))).
    + specialize (IH fuel (system_new (with_outbound q (world s)) (conn s) (senders s) (tasks s) DrainIdle
        (wire s ++ [m]))). cbn [drain wire length] in IH. rewrite length_app in IH. cbn [length] in IH.
      rewrite Nat.add_1_r, <-app_assoc in IH. apply IH; [done..|cbn in Hf; lia].
    + rewrite app_nil_r. apply close_run_closing; [done| |cbn in Hf; lia|done]. exact (proj1 (cancel_own_token _ Ht)).
Qed.

(** C11: once nobody can send any more the drain task ends, cancelling its token and
    closing the queue; it has then written, in order, every message the queue ever
    accepted up to the first one whose write failed, all of them when none did. *)
Theorem drain_flushes acc s written :
  history acc s → drain_gone (drain s) = false →
  ∃ s', close_run (close_fuel s) written s = s' ∧ drain s' = DrainStopped ∧
    receiver_open (w_outbound (world s')) = false ∧
    is_cancelled (w_tokens (world s')) (conn_drain_alive (conn s')) = true ∧
    wire s' = wire s ++ written_from written (length (wire s)) (drop (length (wire s)) acc) ∧
    wire s' `prefix_of` acc ∧
    ((∀ k, k < length acc → written k = true) → wire s' = acc).
Proof.
  intros Hh Hgone. destruct (history_fifo _ _ Hh) as [_ Heq]. specialize (Heq Hgone).
  assert (drain_token s) as Ht.
  { apply history_reachable, reachable_ok, sys_drain in Hh as [(Hl & _) _]. done. }
  assert (stopped (close_run (close_fuel s) written s)
    (wire s ++ written_from written (length (wire s)) (in_flight (drain s) ++ queue_of s)))
    as (Hd & Hw & Ho & Hc).
  { unfold close_fuel. destruct (drain s) as [|m| |] eqn:Hd; try done.
    - cbn [in_flight app]. apply close_run_idle; [done..|lia].
    - remember (2 * length (queue_of s) + 3) as fuel eqn:Hf.
      replace (2 * length (queue_of s) + 4) with (S fuel) by lia.
      cbn [close_run]. unfold close_next at 1. rewrite Hd. cbn [in_flight app written_from].
      destruct (written (length (wire s))).
      + pose proof (close_run_idle (queue_of s) fuel written
          (system_new (world s) (conn s) (senders s) (tasks s) DrainIdle (wire s ++ [m]))) as H.
        cbn [wire] in H. rewrite length_app, <-app_assoc in H. cbn [length] in H.
        rewrite Nat.add_1_r in H. apply H; [done..|lia].
      + rewrite app_nil_r. apply close_run_closing; [done| |lia|done]. exact (proj1 (cancel_own_token _ Ht)). }
  assert (drop (length (wire s)) acc = in_flight (drain s) ++ queue_of s) as Hrest
    by (rewrite Heq; apply drop_app_length).
  eexists. split; [done|]. rewrite Hrest. split_and!; try done.
  - rewrite Hw, Heq. apply prefix_app, written_from_prefix.
  - intros Hall. rewrite Hw, written_from_all; [done|]. intros j Hj. apply Hall.
    rewrite Heq, length_app. lia.
Qed.
End flush.

(** ** Example: the connection is dropped with two messages to write *)

Definition two_left : list action := ask ++ [ActConn (OpShutdown (IdInteger 9)); ActRecv].

Lemma drain_flushes_witness :
  let s := after two_left in
  ∃ s', close_run (close_fuel s) (λ _, true) s = s' ∧ drain s' = DrainStopped ∧
    wire s' = accepted [] two_left start.
Proof.
  cbv zeta. destruct (drain_flushes (accepted [] two_left start) (after two_left) (λ _, true))
    as (s' & Hrun & Hd & _ & _ & _ & _ & Hall).
  - eapply exec_history; [apply start_history|]. vm_compute. reflexivity.
  - vm_compute. reflexivity.
  - exists s'. split_and!; [exact Hrun|exact Hd|]. by apply Hall.
Defined.
