(* ===== verification/Examples.v ===== *)
(** * Examples: the theorems about one connection at concrete inputs, in the runtime of
    [Tokio]. *)

From S2P Require Import Prelude RustStd Serde RequestId Error Message Io Tokio World RequestQueue Lifecycle Routing ClientSender Connection Handshake Serving System Schedule.

(** A server with two requests pending, and a request of its own under id 7. *)
Definition two_requests : list (operation (TK := model_tokio)) :=
  [OpRoute (MRequest (Request_new (IdInteger 5) "textDocument/hover" None));
   OpRoute (MRequest (Request_new (IdString "six") "textDocument/hover" None));
   OpRegister (IdInteger 7)].

Definition serving_five : Connection (TK := model_tokio) * World (TK := model_tokio) :=
  let '(c, w) := Connection_new (TK := model_tokio) empty_world in
  run_ops two_requests c w.

Lemma serving_five_ok : conn_ok serving_five.1 serving_five.2.
Proof.
  destruct (Connection_new_ok (TK := model_tokio) empty_world _ _ eq_refl) as (Hok & Hs & _).
  eapply conn_good_mono; [|exact (serves_conn _ _ _ _ _
    (run_ops_serves two_requests _ _ _ serving_five.1 serving_five.2 Hok Hs eq_refl))].
  by intros i [[[] _] _].
Qed.


Definition hover : Request := Request_new (IdInteger 8) "textDocument/hover" None.

Lemma route_request_witness :
  let '((m, self'), w') := route serving_five.1 (MRequest hover) serving_five.2 in
  self' = with_incoming (incoming (request_queue self')) serving_five.1 ∧
  ∃ token, m = InRequest hover token ∧ incoming_table self' !! IdInteger 8 = Some token ∧
    is_cancelled (Tokio := model_tokio) (w_tokens w') token = false.
Proof.
  destruct (route serving_five.1 (MRequest hover) serving_five.2) as [[m self'] w'] eqn:E.
  destruct (route_request _ _ _ _ _ _ serving_five_ok E) as (_ & Hs & _ & token & -> & Ht & _ & _ & Hc & _).
  split; [exact Hs|]. exists token. rewrite Ht. split_and!; [done|by rewrite lookup_insert_eq|by rewrite Hc].
Defined.

Definition cancel_five : Notification :=
  Notification_new CANCEL_REQUEST_METHOD (Some (cancel_params (IdInteger 5))).

Lemma route_cancel_witness :
  let '((m, _), w') := route serving_five.1 (MNotification cancel_five) serving_five.2 in
  m = CancelHandled ∧ is_cancelled (Tokio := model_tokio) (w_tokens w') 2 = true ∧
  is_cancelled (Tokio := model_tokio) (w_tokens w') 3 = false.
Proof.
  destruct (route serving_five.1 (MNotification cancel_five) serving_five.2) as [[m self'] w'] eqn:E.
  destruct (route_cancel _ _ cancel_five _ _ _ serving_five_ok eq_refl E) as (_ & _ & _ & -> & _ & Ht).
  split_and!; [done|by rewrite (Ht (IdInteger 5) 2 eq_refl)|by rewrite (Ht (IdString "six") 3 eq_refl)].
Defined.

Definition seven : Response := Response_ok (IdInteger 7) (VBool true).

Lemma route_response_witness :
  let '((m, self'), w') := route serving_five.1 (MResponse seven) serving_five.2 in
  m = ResponseRouted ∧ outgoing_table self' = delete (IdInteger 7) (outgoing_table serving_five.1) ∧
  delivered serving_five.2 w' 0 seven.
Proof.
  destruct (route serving_five.1 (MResponse seven) serving_five.2) as [[m self'] w'] eqn:E.
  pose proof (route_response _ _ _ _ _ _ serving_five_ok E) as (_ & _ & _ & H). cbn [resp_id seven Response_ok] in H.
  change (Some (IdInteger 7) ≫= λ id, response_table serving_five.1 serving_five.2 !! id)
    with (None : option Channel) in H.
  change (Some (IdInteger 7) ≫= λ id, outgoing_table serving_five.1 !! id)
    with (Some 0 : option Channel) in H.
  destruct H as (-> & Hd & _ & Ho). split_and!; [done|by apply Ho|done].
Defined.

(** ** Histories *)

Definition history_ops : list (operation (TK := model_tokio)) :=
  two_requests ++ OpShutdown (IdInteger 9) :: [OpRoute (MRequest hover)].

Definition new_connection : Connection (TK := model_tokio) * World (TK := model_tokio) :=
  Connection_new (TK := model_tokio) empty_world.

Definition served : Connection (TK := model_tokio) * World (TK := model_tokio) :=
  run_ops history_ops new_connection.1 new_connection.2.

(** A server that made a token of its own, 0, before its connection, and registers it
    for a request with id 50 that it handles without [route]. *)
Definition own_token_connection : Connection (TK := model_tokio) * World (TK := model_tokio) :=
  Connection_new (TK := model_tokio) (with_tokens (token_new (w_tokens empty_world)).2 empty_world).

Definition own_token_ops : list (operation (TK := model_tokio)) :=
  OpRegisterIncoming (TK := model_tokio) (IdInteger 50) 0 :: two_requests.

Definition own_token_served : Connection (TK := model_tokio) * World (TK := model_tokio) :=
  run_ops (own_token_ops ++ OpShutdown (IdInteger 9) :: [OpRoute (MRequest hover)])
    own_token_connection.1 own_token_connection.2.

Lemma serving_invariant_witness :
  (∀ t, incoming_table own_token_served.1 !! IdInteger 8 = Some t →
     is_cancelled (w_tokens own_token_served.2) t = true) ∧
  (on_shutdown own_token_served.1 own_token_served.2).1 = Ready ().
Proof.
  destruct (serving_invariant own_token_ops (IdInteger 9) [OpRoute (MRequest hover)]
    (with_tokens (token_new (w_tokens empty_world)).2 empty_world) own_token_connection.1 own_token_connection.2
    own_token_served.1 own_token_served.2 (surjective_pairing _) (surjective_pairing _)) as (_ & Ht & Hr).
  split; [|exact Hr]. intros t H. apply (Ht _ _ H). cbn. naive_solver.
Defined.

(** The token the server registered itself is not a child of the shutdown token: its
    request stays uncancelled. *)
Example own_token_not_cancelled :
  incoming_table own_token_served.1 !! IdInteger 50 = Some 0 ∧
  is_cancelled (Tokio := model_tokio) (w_tokens own_token_served.2) 0 = false ∧
  map (λ id, (λ t, is_cancelled (Tokio := model_tokio) (w_tokens own_token_served.2) t) <$>
      incoming_table own_token_served.1 !! id) [IdInteger 5; IdString "six"; IdInteger 8] =
    [Some true; Some true; Some true].
Proof. vm_compute. done. Qed.

Lemma exit_code_witness : ExitCode_as_i32 (handle_exit served.1).1 = 0%Z.
Proof.
  eapply (exit_code history_ops new_connection.1 new_connection.2 served.1 served.2).
  - done.
  - by repeat constructor.
  - apply surjective_pairing.
  - exists two_requests, (IdInteger 9), [OpRoute (MRequest hover)]. split; [done|by repeat constructor].
Defined.

(** ** The handshake *)

Definition a_request (id : Z) (method : string) : Event :=
  Received (Some (Ok (MRequest (Request_new (IdInteger id) method None)))).
Definition a_notification (method : string) : Event :=
  Received (Some (Ok (MNotification (Notification_new method None)))).

Lemma initialize_handshake_witness :
  ∃ w', initialize new_connection.1 VNull
      ([a_request 1 "textDocument/hover"] ++ a_request 2 "initialize" ::
       [a_notification "exit"] ++ a_notification "initialized" :: []) new_connection.2 =
    ((Ready (Ok VNull), with_lifecycle Running new_connection.1, []), w').
Proof.
  destruct (initialize_handshake new_connection.1 VNull new_connection.2
    [a_request 1 "textDocument/hover"] (Request_new (IdInteger 2) "initialize" None) [a_notification "exit"]
    (a_notification "initialized") (Ok ()) []) as (w' & _ & H);
    [done|by repeat constructor|done|by repeat constructor|by apply finish_initialized|].
  exists w'. exact H.
Defined.

Lemma initialize_start_spec_witness :
  ∃ w', initialize_start new_connection.1 ([a_request 1 "textDocument/hover"] ++ [a_notification "exit"])
      new_connection.2 = ((Ready (Err Disconnected), new_connection.1, []), w').
Proof.
  destruct (initialize_start_spec new_connection.1 new_connection.2 [a_request 1 "textDocument/hover"])
    as (w' & _ & _ & H); [done|by repeat constructor|].
  exists w'. apply (H _ (Err Disconnected)). by apply start_exit.
Defined.

Lemma lifecycle_gates_witness :
  is_request_allowed Uninitialized "textDocument/hover" = false ∧
  ∃ w', initialize_start new_connection.1 [Received (Some (Ok (MRequest hover)))] new_connection.2 =
    ((Pending, new_connection.1, []), w').
Proof.
  split; [done|].
  destruct (lifecycle_gates (TL := model_tokio_laws) hover (Notification_new "exit" None) new_connection.1 new_connection.2 eq_refl)
    as ([H _] & _). destruct (H eq_refl) as (w' & Hw & _). by exists w'.
Defined.

Lemma send_request_spec_witness :
  ∃ w', send_request new_connection.1 (IdInteger 7) "workspace/configuration" None
      ([a_notification "initialized"] ++ Received (Some (Ok (MResponse seven))) :: []) new_connection.2 =
    ((Ready (Ok seven), new_connection.1, []), w').
Proof.
  destruct (send_request_spec new_connection.1 (IdInteger 7) "workspace/configuration" None new_connection.2
    [a_notification "initialized"]) as (w' & _ & _ & H); [done|by repeat constructor|].
  exists w'. apply (H _ (Ok seven)). by apply answer_response.
Defined.

(** ** Ids *)

Definition one_sender : ClientSender (TK := model_tokio) * World (TK := model_tokio) :=
  let '((cs, _), w) := client_sender new_connection.1 new_connection.2 in (cs, w).

Lemma one_sender_ok : counter_ok one_sender.1 one_sender.2 ∧ map_ok (response_map one_sender.1) one_sender.2.
Proof.
  split; [by split; [vm_compute; lia|]|]. split; [by vm_compute; lia|].
  split; intros *; change (map_at _ _) with (∅ : gmap RequestId Channel); by rewrite lookup_empty.
Qed.

Lemma next_ids_cycle_witness :
  (next_ids 2 one_sender.1 one_sender.2).1 = [Ok (IdInteger 1); Ok (IdInteger 2)].
Proof.
  destruct (next_ids_cycle one_sender.1 one_sender.2 2 (proj1 one_sender_ok)) as (w' & -> & _).
  by vm_compute.
Defined.

Lemma reserve_request_slot_spec_witness :
  match reserve_request_slot one_sender.1 one_sender.2 with
  | (Ok (id, rx), w') => map_at (response_map one_sender.1) w' !! id = Some rx
  | (Err _, _) => 1000 ≤ size (map_at (response_map one_sender.1) one_sender.2)
  | (Panic, _) => False
  end.
Proof.
  pose proof (reserve_request_slot_spec one_sender.1 one_sender.2
    (proj1 one_sender_ok) (proj2 one_sender_ok)) as H. cbv zeta in H.
  destruct (reserve_request_slot one_sender.1 one_sender.2) as [[[id rx]|e|] w']; [|by destruct H|done].
  destruct H as (_ & -> & _). by rewrite lookup_insert_eq.
Defined.
