(* ===== verification/Codec.v ===== *)
(** * Codec: [src/codec.rs], Content-Length framing of messages.

    The header parser, the decoder as a state machine over its buffer, the encoder;
    what one call does to every buffer. *)

From S2P Require Import Prelude RustStd Serde JsonText RequestId Error Message Io.

Definition CRLF : bytes := ["013"%char; "010"%char].

Definition HEADER_TERMINATOR : bytes := CRLF ++ CRLF.

(** The decoder's state: the content length once the headers are read. *)
Record LspCodec : Set := { content_length : option N }.

Definition LspCodec_new : LspCodec := {| content_length := None |}.

(** [find_subsequence]. *)
Definition find_subsequence (haystack needle : bytes) : option nat :=
  position (λ window, bool_decide (window = needle)) (windows (length needle) haystack).

Definition CONTENT_LENGTH : str := lit "content-length:".

(** The loop of [parse_content_length] over the header lines. *)
Fixpoint content_length_line (lines : list str) : result io_error N :=
  match lines with
  | [] => Err (io_error_new InvalidData (IoMsg "Missing Content-Length header"))
  | line :: lines' =>
    let line_lower := to_ascii_lowercase line in
    match strip_prefix CONTENT_LENGTH line_lower with
    | Some _ =>
      match slice_from line (length CONTENT_LENGTH) with
      | Some value => map_err (io_error_new InvalidData ∘ IoParseInt) (parse_usize (trim value))
      | None => Panic
      end
    | None => content_length_line lines'
    end
  end.

Definition parse_content_length (headers : bytes) : result io_error N :=
  headers_str ← map_err (io_error_new InvalidData ∘ IoUtf8) (from_utf8 headers);
  content_length_line (split (N_of_ascii <$> CRLF) headers_str).

(** One call of a decoder or encoder: its result, the codec and the buffer after. *)
Record step (A : Type) : Type := step_new {
  step_result : result io_error A;
  step_codec : LspCodec;
  step_buffer : bytes;
}.
Arguments step_new {A}.
Arguments step_result {A}.
Arguments step_codec {A}.
Arguments step_buffer {A}.

Section codec.
Context `{SJ : SerdeJson}.

(** [serde_json::from_slice::<Message>] with the error wrapped. *)
Definition message_from_slice (body : bytes) : result io_error Message :=
  map_err (io_error_new InvalidData ∘ IoSerde) (from_slice body ≫= Message_deserialize).

(** The second half of [decode]: the body, once the length is known. *)
Definition decode_body (codec : LspCodec) (src : bytes) : step (option Message) :=
  match content_length codec with
  | None =>
    step_new (Err (io_error_new InvalidData (IoMsg
      "missing Content-Length state: expected parsed headers before body, received empty decoder state")))
      codec src
  | Some n =>
    if (N.of_nat (length src) <? n)%N then step_new (Ok None) codec src
    else
      let body := take (N.to_nat n) src in
      let codec' := {| content_length := None |} in
      step_new (Some <$> message_from_slice body) codec' (drop (N.to_nat n) src)
  end.

(** [Decoder::decode]. *)
Definition decode (codec : LspCodec) (src : bytes) : step (option Message) :=
  match content_length codec with
  | None =>
    match find_subsequence src HEADER_TERMINATOR with
    | None => step_new (Ok None) codec src
    | Some header_end =>
      match parse_content_length (take header_end src) with
      | Ok n =>
        decode_body {| content_length := Some n |}
          (drop (header_end + length HEADER_TERMINATOR) src)
      | Err e => step_new (Err e) codec src
      | Panic => step_new Panic codec src
      end
    end
  | Some _ => decode_body codec src
  end.

(** The header [encode] writes before a body of [n] bytes. *)
Definition frame_header (n : nat) : bytes :=
  list_ascii_of_string "Content-Length: " ++ display_N (N.of_nat n) ++ HEADER_TERMINATOR.

(** [Encoder::encode]: the buffer after a success; an error leaves it unchanged. *)
Definition encode (item : Message) (dst : bytes) : result io_error bytes :=
  json ← map_err (io_error_new InvalidData ∘ IoSerde) (to_vec (Message_serialize item));
  Ok (dst ++ frame_header (length json) ++ json).
End codec.

(** ** Lemmas *)

Section search.
Context {A : Type}.

Lemma windows_app k (l1 l2 : list A) : ∃ l, windows k (l1 ++ l2) = windows k l1 ++ l.
Proof.
  induction l1 as [|a l1 [l IH]]; [by exists (windows k l2)|].
  cbn [windows app]. destruct (Nat.leb_spec k (length (a :: l1))) as [Hk|Hk]; [|by eexists].
  rewrite (proj2 (Nat.leb_le _ _)) by (simpl in *; rewrite length_app; lia).
  exists l. simpl. rewrite IH. f_equal. change (a :: l1 ++ l2) with ((a :: l1) ++ l2).
  by rewrite take_app_le.
Qed.

Lemma position_app (p : A → bool) l1 l2 i :
  position p l1 = Some i → position p (l1 ++ l2) = Some i.
Proof.
  revert i. induction l1 as [|a l1 IH]; intros i; simpl; [done|].
  destruct (p a); [done|]. destruct (position p l1); [|done].
  intros [= <-]. by rewrite (IH _ eq_refl).
Qed.

Lemma position_windows_bound k (p : list A → bool) l i :
  position p (windows k l) = Some i → i + k ≤ length l.
Proof.
  revert i. induction l as [|a l IH]; intros i; [done|]. cbn [windows].
  destruct (Nat.leb_spec k (length (a :: l))); [|done]. simpl.
  destruct (p _); [intros [= <-]; done|].
  destruct (position p (windows k l)); [|done]. intros [= <-].
  specialize (IH _ eq_refl). lia.
Qed.

Lemma position_windows_Some k (p : list A → bool) l i :
  position p (windows k l) = Some i → p (take k (drop i l)) = true.
Proof.
  revert i. induction l as [|a l IH]; intros i; [done|]. cbn [windows].
  destruct (Nat.leb k (length (a :: l))); [|done]. cbn [position].
  destruct (p _) eqn:E; [by intros [= <-]|].
  destruct (position p (windows k l)); [|done]. intros [= <-]. by apply IH.
Qed.
End search.

Lemma find_subsequence_app src more i :
  find_subsequence src HEADER_TERMINATOR = Some i →
  find_subsequence (src ++ more) HEADER_TERMINATOR = Some i.
Proof.
  unfold find_subsequence. intros Hi. destruct (windows_app (length HEADER_TERMINATOR) src more) as [l ->].
  by apply position_app.
Qed.

Lemma find_subsequence_bound src i :
  find_subsequence src HEADER_TERMINATOR = Some i → i + length HEADER_TERMINATOR ≤ length src.
Proof. apply position_windows_bound. Qed.

Lemma find_subsequence_split src i :
  find_subsequence src HEADER_TERMINATOR = Some i →
  src = take i src ++ HEADER_TERMINATOR ++ drop (i + 4) src.
Proof.
  intros Hi. apply position_windows_Some in Hi. apply bool_decide_eq_true in Hi.
  rewrite <-Hi, <-drop_drop, take_drop. by rewrite take_drop.
Qed.

(** The terminator is found right after text without carriage returns. *)
Lemma find_subsequence_terminator pre rest :
  "013"%char ∉ pre →
  find_subsequence (pre ++ HEADER_TERMINATOR ++ rest) HEADER_TERMINATOR = Some (length pre).
Proof.
  unfold find_subsequence. induction pre as [|a pre IH]; intros Hcr.
  - done.
  - rewrite not_elem_of_cons in Hcr. destruct Hcr as [Ha Hcr]. cbn [app windows].
    rewrite (proj2 (Nat.leb_le _ _)) by (simpl; rewrite !length_app; simpl; lia).
    cbn [position]. rewrite bool_decide_eq_false_2; [by rewrite IH|].
    intros [= E _]. by rewrite E in Ha.
Qed.

Lemma starts_with_app {A} `{EqDecision A} (pat s rest : list A) :
  starts_with pat s → starts_with pat (s ++ rest).
Proof.
  revert s. induction pat as [|p pat IH]; intros [|c s]; simpl; try done.
  rewrite !andb_True. intros [? ?]. eauto.
Qed.

(** *** Header lines *)

Definition crlf : str := N_of_ascii <$> CRLF.

Fixpoint join_lines (lines : list str) : str :=
  match lines with
  | [] => []
  | [line] => line
  | line :: lines' => line ++ crlf ++ join_lines lines'
  end.

Lemma split_go_line l rest cur :
  13%N ∉ l → split_go crlf 0 cur (l ++ rest) = split_go crlf 0 (reverse l ++ cur) rest.
Proof.
  revert cur. induction l as [|c l IH]; intros cur Hl; [done|].
  apply not_elem_of_cons in Hl as [Hc Hl]. rewrite reverse_cons, <-app_assoc.
  cbn [app split_go]. assert (starts_with crlf (c :: l ++ rest) = false) as ->.
  { simpl. by rewrite bool_decide_eq_false_2. }
  by apply IH.
Qed.

Lemma split_join_lines lines :
  lines ≠ [] → Forall (λ l, 13%N ∉ l) lines → split crlf (join_lines lines) = lines.
Proof.
  unfold split. intros Hne Hall. induction Hall as [|l lines Hl Hall IH]; [done|].
  assert (∀ cur, reverse (reverse l ++ cur) = reverse cur ++ l) as Hrev.
  { intros cur. by rewrite reverse_app, reverse_involutive. }
  destruct lines as [|l' lines].
  - cbn [join_lines]. rewrite <-(app_nil_r l) at 1. rewrite split_go_line by done. simpl.
    by rewrite Hrev.
  - change (join_lines (l :: l' :: lines)) with (l ++ 13%N :: 10%N :: join_lines (l' :: lines)).
    rewrite split_go_line by done. simpl split_go. rewrite Hrev. simpl. f_equal. by apply IH.
Qed.

Lemma to_ascii_lowercase_app s t :
  to_ascii_lowercase (s ++ t) = to_ascii_lowercase s ++ to_ascii_lowercase t.
Proof. apply fmap_app. Qed.

Lemma lowercase_ascii c : (char_to_ascii_lowercase c < 128)%N → (c < 128)%N.
Proof. unfold char_to_ascii_lowercase. destruct (in_range 65 90 c); lia. Qed.

Lemma slice_from_ascii name value :
  Forall (λ c, c < 128)%N name → slice_from (name ++ value) (length name) = Some value.
Proof.
  induction 1 as [|c name Hc _ IH]; [by destruct value|]. simpl.
  unfold len_utf8. rewrite (proj2 (N.ltb_lt _ _) Hc). simpl. by rewrite Nat.sub_0_r.
Qed.

Lemma slice_from_name name value :
  to_ascii_lowercase name = CONTENT_LENGTH →
  slice_from (name ++ value) (length CONTENT_LENGTH) = Some value.
Proof.
  intros Hname. rewrite <-Hname. unfold to_ascii_lowercase at 1. rewrite length_fmap.
  apply slice_from_ascii.
  assert (Forall (λ c, c < 128)%N (to_ascii_lowercase name)) as H.
  { rewrite Hname. repeat constructor. }
  apply Forall_fmap in H. eapply Forall_impl; [|exact H]. intros c. apply lowercase_ascii.
Qed.

Lemma starts_with_split {A} `{EqDecision A} (pat s : list A) :
  starts_with pat s = true ↔ ∃ rest, s = pat ++ rest.
Proof.
  revert s. induction pat as [|p pat IH]; intros s; simpl; [by split; [eauto|]|].
  destruct s as [|c s]; [split; [done|by intros [? [=]]]|].
  rewrite andb_true_iff, bool_decide_eq_true, IH. split.
  - intros [-> [rest ->]]. by eauto.
  - intros [rest [= -> ->]]. eauto.
Qed.

(** A line whose lowercase form starts with the name splits at the colon. *)
Lemma header_line_split line :
  starts_with CONTENT_LENGTH (to_ascii_lowercase line) = true →
  ∃ name value, line = name ++ value ∧ to_ascii_lowercase name = CONTENT_LENGTH.
Proof.
  intros [rest E]%starts_with_split.
  exists (take (length CONTENT_LENGTH) line), (drop (length CONTENT_LENGTH) line).
  split; [by rewrite take_drop|]. unfold to_ascii_lowercase in *.
  by rewrite fmap_take, E, take_app_length.
Qed.

Lemma strip_prefix_None pat s : starts_with pat s = false → strip_prefix pat s = None.
Proof. unfold strip_prefix. by intros ->. Qed.

(** The effect of one header line. *)
Lemma content_length_line_match name value lines :
  to_ascii_lowercase name = CONTENT_LENGTH →
  content_length_line ((name ++ value) :: lines) =
  map_err (io_error_new InvalidData ∘ IoParseInt) (parse_usize (trim value)).
Proof.
  intros Hname. cbn [content_length_line]. unfold strip_prefix.
  rewrite to_ascii_lowercase_app, Hname.
  rewrite (proj2 (starts_with_split CONTENT_LENGTH _)) by eauto.
  by rewrite slice_from_name.
Qed.

Lemma content_length_line_skip line lines :
  starts_with CONTENT_LENGTH (to_ascii_lowercase line) = false →
  content_length_line (line :: lines) = content_length_line lines.
Proof. intros H. cbn [content_length_line]. by rewrite strip_prefix_None. Qed.

Lemma parse_digits_no_panic acc s : parse_digits acc s ≠ Panic.
Proof. revert acc. induction s as [|c s IH]; intros acc; simpl; [done|]. repeat case_match; auto. Qed.

Lemma parse_usize_no_panic s : parse_usize s ≠ Panic.
Proof. unfold parse_usize. repeat case_match; auto using parse_digits_no_panic. Qed.

#[export] Hint Resolve parse_usize_no_panic : lsp.

Lemma content_length_line_no_panic lines : content_length_line lines ≠ Panic.
Proof.
  induction lines as [|line lines IH]; [done|].
  destruct (starts_with CONTENT_LENGTH (to_ascii_lowercase line)) eqn:E.
  - apply header_line_split in E as (name & value & -> & Hname).
    rewrite content_length_line_match by done. auto with lsp.
  - by rewrite content_length_line_skip.
Qed.

#[export] Hint Resolve content_length_line_no_panic : lsp.

Lemma parse_content_length_no_panic headers : parse_content_length headers ≠ Panic.
Proof. unfold parse_content_length, from_utf8. auto with lsp. Qed.

#[export] Hint Resolve parse_content_length_no_panic : lsp.

Lemma content_length_line_kind lines e :
  content_length_line lines = Err e → io_kind e = InvalidData.
Proof.
  induction lines as [|line lines IH]; [by intros [= <-]|].
  destruct (starts_with CONTENT_LENGTH (to_ascii_lowercase line)) eqn:E.
  - apply header_line_split in E as (name & value & -> & Hname).
    rewrite content_length_line_match by done.
    destruct (parse_usize (trim value)); simpl; [done|by intros [= <-]|done].
  - by rewrite content_length_line_skip.
Qed.

Lemma parse_content_length_kind headers e :
  parse_content_length headers = Err e → io_kind e = InvalidData.
Proof.
  unfold parse_content_length, from_utf8.
  destruct (utf8_decode _) as [s|]; simpl; [apply content_length_line_kind|by intros [= <-]].
Qed.

(** A line of another header. *)
Definition other_header (line : str) : Prop :=
  starts_with CONTENT_LENGTH (to_ascii_lowercase line) = false.

(** C36: of the lines of a header block the first one named Content-Length, in any
    case, decides: its value, without the white space around it, must be a decimal
    [usize]; the lines before it must not be named so, and the lines after it do
    not matter. *)
Theorem content_length_header headers pre name value post :
  from_utf8 headers = Ok (join_lines (pre ++ (name ++ value) :: post)) →
  Forall (λ line, 13%N ∉ line) (pre ++ (name ++ value) :: post) →
  Forall other_header pre → to_ascii_lowercase name = CONTENT_LENGTH →
  parse_content_length headers =
  map_err (io_error_new InvalidData ∘ IoParseInt) (parse_usize (trim value)).
Proof.
  intros Hu Hcr Hpre Hname. unfold parse_content_length. rewrite Hu.
  cbn [map_err mbind result_bind]. change (N_of_ascii <$> CRLF) with crlf.
  rewrite split_join_lines; [|by destruct pre|done]. clear Hu Hcr.
  induction Hpre as [|line pre Hline _ IH]; cbn [app].
  - by apply content_length_line_match.
  - by rewrite content_length_line_skip.
Qed.

Lemma content_length_header_witness :
  parse_content_length (list_ascii_of_string "Content-Type: text" ++ CRLF ++
                        list_ascii_of_string "CONTENT-length:  42 ") = Ok 42%N.
Proof.
  rewrite (content_length_header _ [lit "Content-Type: text"] (lit "CONTENT-length:") (lit "  42 ") []);
    try by vm_compute.
  - repeat constructor; rewrite list_elem_of_In; vm_compute; intuition discriminate.
  - repeat constructor.
Defined.

(** *** The header the encoder writes *)

Lemma digit_not_whitespace b : is_digit b → is_whitespace (N_of_ascii b) = false.
Proof.
  unfold is_digit, is_whitespace, in_range. intros Hb.
  repeat match goal with
  | |- (_ || _) = false => apply orb_false_iff; split
  | |- (?x =? ?y)%N = false => apply N.eqb_neq; lia
  | |- (?x && ?y) = false => apply andb_false_iff; rewrite !N.leb_gt; lia
  end.
Qed.

Lemma trim_start_digits l s :
  Forall is_digit l → l ≠ [] → trim_start ((N_of_ascii <$> l) ++ s) = (N_of_ascii <$> l) ++ s.
Proof.
  intros Hl Hne. destruct Hl as [|b l Hb Hl]; [done|]. simpl. by rewrite digit_not_whitespace.
Qed.

Lemma trim_digits l :
  Forall is_digit l → l ≠ [] → trim (32%N :: (N_of_ascii <$> l)) = N_of_ascii <$> l.
Proof.
  intros Hl Hne. unfold trim, trim_end.
  change (trim_start (32%N :: (N_of_ascii <$> l))) with (trim_start (N_of_ascii <$> l)).
  rewrite <-(app_nil_r (N_of_ascii <$> l)), trim_start_digits, app_nil_r by done.
  rewrite <-fmap_reverse. rewrite <-(app_nil_r (N_of_ascii <$> reverse l)), trim_start_digits, app_nil_r.
  - by rewrite fmap_reverse, reverse_involutive.
  - by apply Forall_reverse.
  - intros E. apply Hne. by rewrite <-(reverse_involutive l), E.
Qed.

Lemma display_N_nonempty n : display_N n ≠ [].
Proof.
  unfold display_N. destruct (dec_go_cons (S (N.size_nat n)) n [] ltac:(lia)) as (b & l & -> & _). done.
Qed.

Lemma is_digit_ascii7 b : is_digit b → ascii7 b.
Proof. unfold is_digit, ascii7. lia. Qed.

Lemma parse_frame_header n :
  (n ≤ usize_MAX)%N →
  parse_content_length (list_ascii_of_string "Content-Length: " ++ display_N n) = Ok n.
Proof.
  intros Hn. pose proof (display_N_digits n) as Hd. unfold parse_content_length.
  rewrite from_utf8_ascii.
  2: { apply Forall_app. split; [repeat constructor|]. eapply Forall_impl; [|exact Hd]. apply is_digit_ascii7. }
  cbn [map_err mbind result_bind]. rewrite fmap_app.
  set (line := (N_of_ascii <$> list_ascii_of_string "Content-Length: ") ++ (N_of_ascii <$> display_N n)).
  assert (split (N_of_ascii <$> CRLF) line = [line]) as ->.
  { apply (split_join_lines [line]); [done|]. constructor; [|done]. unfold line.
    rewrite elem_of_app. intros [H|H]; [by apply list_elem_of_In in H; vm_compute in H; intuition|].
    apply list_elem_of_fmap in H as (b & Eb & Hb). rewrite List.Forall_forall in Hd. apply list_elem_of_In in Hb.
    specialize (Hd b Hb). unfold is_digit in Hd. lia. }
  assert (line = lit "Content-Length:" ++ 32%N :: (N_of_ascii <$> display_N n)) as -> by done.
  rewrite content_length_line_match by done.
  rewrite trim_digits by auto using display_N_nonempty.
  by rewrite parse_display_N.
Qed.

(** *** Decoding *)

Section decoding.
Context `{SJL : SerdeJsonLaws}.

Lemma message_from_slice_no_panic body : message_from_slice body ≠ Panic.
Proof. unfold message_from_slice. auto using from_slice_no_panic with lsp. Qed.

Lemma message_from_slice_kind body e :
  message_from_slice body = Err e → io_kind e = InvalidData.
Proof. unfold message_from_slice. destruct (from_slice body ≫= _); naive_solver. Qed.

(** The three outcomes of the body half, and the two reasons to wait. *)
Lemma decode_body_spec n src :
  decode_body {| content_length := Some n |} src =
  if (N.of_nat (length src) <? n)%N
  then step_new (Ok None) {| content_length := Some n |} src
  else step_new (Some <$> message_from_slice (take (N.to_nat n) src)) LspCodec_new
                (drop (N.to_nat n) src).
Proof. done. Qed.

(** A decoder that waits has nothing to do with what it has: [decode] again
    returns at once. *)
Lemma decode_body_more n src more :
  decode_body {| content_length := Some n |} (src ++ more) =
  match decode_body {| content_length := Some n |} src with
  | step_new (Ok None) c' src' => decode_body c' (src' ++ more)
  | step_new r c' src' => step_new r c' (src' ++ more)
  end.
Proof.
  rewrite (decode_body_spec n src). destruct (N.ltb_spec (N.of_nat (length src)) n) as [|Hn]; [done|].
  rewrite decode_body_spec. rewrite (proj2 (N.ltb_ge _ _)) by (rewrite length_app; lia).
  rewrite take_app_le, drop_app_le by lia.
  by destruct (message_from_slice _).
Qed.

Lemma decode_fresh src :
  decode LspCodec_new src =
  match find_subsequence src HEADER_TERMINATOR with
  | None => step_new (Ok None) LspCodec_new src
  | Some header_end =>
    match parse_content_length (take header_end src) with
    | Ok n => decode_body {| content_length := Some n |} (drop (header_end + 4) src)
    | Err e => step_new (Err e) LspCodec_new src
    | Panic => step_new Panic LspCodec_new src
    end
  end.
Proof. done. Qed.

Lemma decode_waiting n src :
  decode {| content_length := Some n |} src = decode_body {| content_length := Some n |} src.
Proof. done. Qed.

Lemma codec_cases c : c = LspCodec_new ∨ ∃ n, c = {| content_length := Some n |}.
Proof. destruct c as [[n|]]; [right; by exists n|by left]. Qed.

Lemma decode_more_bytes c src more :
  decode c (src ++ more) =
  match decode c src with
  | step_new (Ok None) c' src' => decode c' (src' ++ more)
  | step_new r c' src' => step_new r c' (src' ++ more)
  end.
Proof.
  destruct (codec_cases c) as [->|[n ->]].
  2: { rewrite !decode_waiting, decode_body_more, decode_body_spec.
       destruct (_ <? _)%N; [done|]. by destruct (message_from_slice (take _ _)). }
  rewrite (decode_fresh src). destruct (find_subsequence src HEADER_TERMINATOR) as [i|] eqn:Hi; [|done].
  pose proof (find_subsequence_bound _ _ Hi) as Hb. simpl in Hb.
  rewrite decode_fresh, (find_subsequence_app _ _ _ Hi), take_app_le by lia.
  destruct (parse_content_length (take i src)) as [n| |]; [|done|done].
  rewrite drop_app_le, decode_body_more, decode_body_spec by lia.
  destruct (_ <? _)%N; [done|]. by destruct (message_from_slice (take _ _)).
Qed.

(** Decoding never panics, and every error it reports is of kind
    [InvalidData]; encoding never panics, and fails only with [InvalidData]. *)
Theorem codec_errors c src m dst :
  match step_result (decode c src) with
  | Ok _ => True | Err e => io_kind e = InvalidData | Panic => False
  end ∧
  match encode m dst with
  | Ok _ => True | Err e => io_kind e = InvalidData | Panic => False
  end.
Proof.
  assert (∀ n src, match step_result (decode_body {| content_length := Some n |} src) with
                   | Ok _ => True | Err e => io_kind e = InvalidData | Panic => False end) as Hbody.
  { intros n src'. rewrite decode_body_spec. destruct (_ <? _)%N; [done|]. simpl.
    pose proof (message_from_slice_no_panic (take (N.to_nat n) src')).
    destruct (message_from_slice (take (N.to_nat n) src')) eqn:E; try done.
    by eapply message_from_slice_kind. }
  split.
  - destruct (codec_cases c) as [->|[n ->]]; [|apply Hbody]. rewrite decode_fresh.
    destruct (find_subsequence _ _) as [i|]; [|done].
    pose proof (parse_content_length_no_panic (take i src)).
    destruct (parse_content_length _) eqn:E; [apply Hbody| |done].
    by eapply parse_content_length_kind.
  - unfold encode. pose proof (to_vec_no_panic (Message_serialize m)).
    by destruct (to_vec (Message_serialize m)).
Qed.

(** The bytes of a message on the wire. *)
Definition frame (m : Message) : result io_error bytes := encode m [].

Lemma encode_frame m dst : encode m dst = ((app dst) <$> frame m).
Proof. unfold frame, encode. by destruct (to_vec (Message_serialize m)). Qed.

Lemma frame_header_no_cr n : "013"%char ∉ list_ascii_of_string "Content-Length: " ++ display_N n.
Proof.
  rewrite elem_of_app, !list_elem_of_In. intros [H|H]; [by vm_compute in H; intuition|].
  pose proof (display_N_digits n) as Hd. rewrite List.Forall_forall in Hd.
  specialize (Hd _ H). unfold is_digit in Hd. vm_compute in Hd. by destruct Hd.
Qed.

Lemma decode_frame_header body rest :
  (N.of_nat (length body) ≤ usize_MAX)%N →
  decode LspCodec_new (frame_header (length body) ++ body ++ rest) =
  step_new (Some <$> message_from_slice body) LspCodec_new rest.
Proof.
  intros Hlen. unfold frame_header. set (h := list_ascii_of_string "Content-Length: " ++ display_N (N.of_nat (length body))).
  replace ((list_ascii_of_string "Content-Length: " ++ display_N (N.of_nat (length body)) ++
            HEADER_TERMINATOR) ++ body ++ rest)
    with (h ++ HEADER_TERMINATOR ++ body ++ rest) by (unfold h; by rewrite <-!app_assoc).
  rewrite decode_fresh, find_subsequence_terminator by apply frame_header_no_cr.
  rewrite take_app_length. unfold h at 1. rewrite parse_frame_header by done.
  rewrite drop_app_ge by lia. replace (length h + 4 - length h) with 4 by lia.
  change (drop 4 (HEADER_TERMINATOR ++ body ++ rest)) with (body ++ rest).
  rewrite decode_body_spec, Nat2N.id, take_app_length, drop_app_length.
  by rewrite (proj2 (N.ltb_ge _ _)) by (rewrite length_app; lia).
Qed.

(** The messages whose text form is exact and whose length fits a [usize]. *)
Definition sendable (m : Message) : Prop :=
  Message_wf m ∧ json_ok (Message_serialize m) ∧
  ∀ body, to_vec (Message_serialize m) = Ok body → (N.of_nat (length body) ≤ usize_MAX)%N.

Lemma encode_decode_frame m dst :
  sendable m →
  ∃ bs, encode m dst = Ok (dst ++ bs) ∧
    ∀ rest, decode LspCodec_new (bs ++ rest) =
            step_new (Ok (Some (Message_canon m))) LspCodec_new rest.
Proof.
  intros (Hwf & Hok & Hlen). destruct (to_vec_from_slice _ Hok) as (body & Hto & Hfrom).
  exists (frame_header (length body) ++ body). unfold encode. rewrite Hto. split; [done|].
  intros rest. rewrite <-app_assoc, decode_frame_header by auto. unfold message_from_slice.
  rewrite Hfrom. cbn [mbind result_bind]. by rewrite Message_roundtrip.
Qed.

(** What precedes the body of [n] bytes the decoder reads next. *)
Definition frame_pending (c : LspCodec) (pre : bytes) (n : nat) : Prop :=
  match content_length c with
  | Some k => pre = [] ∧ N.of_nat n = k
  | None => ∃ headers, pre = headers ++ HEADER_TERMINATOR ∧
              parse_content_length headers = Ok (N.of_nat n)
  end.

Lemma decode_body_consumes n src :
  match decode_body {| content_length := Some n |} src with
  | step_new (Ok None) c' src' => c' = {| content_length := Some n |} ∧ src' = src
  | step_new (Ok (Some m)) c' src' =>
    c' = LspCodec_new ∧ ∃ body, src = body ++ src' ∧ message_from_slice body = Ok m ∧
      N.of_nat (length body) = n
  | step_new (Err e) c' src' =>
    c' = LspCodec_new ∧ ∃ body, src = body ++ src' ∧ message_from_slice body = Err e ∧
      N.of_nat (length body) = n
  | step_new Panic _ _ => False
  end.
Proof.
  rewrite decode_body_spec. destruct (N.ltb_spec (N.of_nat (length src)) n); [done|].
  pose proof (message_from_slice_no_panic (take (N.to_nat n) src)).
  assert (N.of_nat (length (take (N.to_nat n) src)) = n) by (rewrite length_take; lia).
  destruct (message_from_slice _) eqn:E; [| |done]; simpl;
    (split; [done|]; eexists; rewrite take_drop; eauto).
Qed.

(** What a call of the decoder took from the front of its buffer. *)
Definition consumed (c : LspCodec) (src : bytes) (s : step (option Message)) : Prop :=
  match s with
  | step_new (Ok None) c' src' =>
    (c' = c ∧ src' = src) ∨
    (c = LspCodec_new ∧ ∃ headers n, src = headers ++ HEADER_TERMINATOR ++ src' ∧
       c' = {| content_length := Some n |} ∧ parse_content_length headers = Ok n)
  | step_new (Ok (Some m)) c' src' =>
    c' = LspCodec_new ∧ ∃ pre body, src = pre ++ body ++ src' ∧
      message_from_slice body = Ok m ∧ frame_pending c pre (length body)
  | step_new (Err e) c' src' =>
    (c = LspCodec_new ∧ c' = c ∧ src' = src ∧
     ∃ headers rest, src = headers ++ HEADER_TERMINATOR ++ rest ∧ parse_content_length headers = Err e) ∨
    (c' = LspCodec_new ∧ ∃ pre body, src = pre ++ body ++ src' ∧
       message_from_slice body = Err e ∧ frame_pending c pre (length body))
  | step_new Panic _ _ => False
  end.

Lemma decode_consumed c src : consumed c src (decode c src).
Proof.
  unfold consumed.
  destruct (codec_cases c) as [->|[n ->]].
  - rewrite decode_fresh. destruct (find_subsequence src HEADER_TERMINATOR) as [i|] eqn:Hi; [|by left].
    apply find_subsequence_split in Hi.
    destruct (parse_content_length (take i src)) as [n|e|] eqn:Hp; [|by left; eauto 10|].
    2: { by apply parse_content_length_no_panic in Hp. }
    pose proof (decode_body_consumes n (drop (i + 4) src)) as Hb.
    destruct (decode_body _ _) as [[[m|]|e|] c' src']; [| |right|done].
    + destruct Hb as (-> & body & Hs & Hm & Hn). split; [done|].
      exists (take i src ++ HEADER_TERMINATOR), body. rewrite <-app_assoc, <-Hs.
      split_and!; [done|done|]. exists (take i src). by rewrite Hn.
    + destruct Hb as [-> ->]. right. eauto 10.
    + destruct Hb as (-> & body & Hs & Hm & Hn). split; [done|].
      exists (take i src ++ HEADER_TERMINATOR), body. rewrite <-app_assoc, <-Hs.
      split_and!; [done|done|]. exists (take i src). by rewrite Hn.
  - rewrite decode_waiting. pose proof (decode_body_consumes n src) as Hb.
    destruct (decode_body _ _) as [[[m|]|e|] c' src']; [| |right|done].
    + destruct Hb as (-> & body & Hs & Hm & Hn). split; [done|]. by exists [], body.
    + left. by destruct Hb.
    + destruct Hb as (-> & body & Hs & Hm & Hn). split; [done|]. by exists [], body.
Qed.

(** C27: a failed call leaves the decoder in one of two ways.  After a malformed
    header nothing is consumed and nothing is learnt, so every later call fails
    with the same error, whatever arrives.  After a malformed body the whole frame
    is consumed, and the decoder is ready for the frame that follows. *)
Theorem decode_failure c src e c' src' :
  decode c src = step_new (Err e) c' src' →
  (c = LspCodec_new ∧ c' = c ∧ src' = src ∧
   ∀ more, decode c' (src' ++ more) = step_new (Err e) c' (src' ++ more)) ∨
  (c' = LspCodec_new ∧ ∃ pre body, src = pre ++ body ++ src' ∧
     message_from_slice body = Err e ∧ frame_pending c pre (length body)).
Proof.
  intros Hd. pose proof (decode_consumed c src) as Hc. rewrite Hd in Hc.
  destruct Hc as [(-> & -> & -> & _)|H]; [left|by right].
  split_and!; [done..|]. intros more. by rewrite decode_more_bytes, Hd.
Qed.

(** C32: a fresh decoder returns a message exactly if the buffer starts with one
    frame of it: a header block up to the first blank line that announces the
    length of the body, and a body of that many bytes that parses.  The buffer is
    left right behind the body, and the decoder is fresh again. *)
Theorem decode_frame src m c' rest :
  decode LspCodec_new src = step_new (Ok (Some m)) c' rest ↔
  c' = LspCodec_new ∧ ∃ headers body,
    src = headers ++ HEADER_TERMINATOR ++ body ++ rest ∧
    find_subsequence src HEADER_TERMINATOR = Some (length headers) ∧
    parse_content_length headers = Ok (N.of_nat (length body)) ∧
    message_from_slice body = Ok m.
Proof.
  rewrite decode_fresh. split.
  - destruct (find_subsequence src HEADER_TERMINATOR) as [i|] eqn:Hi; [|done].
    destruct (parse_content_length (take i src)) as [n|e|] eqn:Hp; [|done..]. intros Hd.
    pose proof (decode_body_consumes n (drop (i + 4) src)) as Hb. rewrite Hd in Hb.
    destruct Hb as (-> & body & Hs & Hm & Hn). split; [done|].
    pose proof (find_subsequence_bound _ _ Hi). exists (take i src), body.
    rewrite <-Hs, Hn, length_take_le by lia. split_and!; auto using find_subsequence_split.
  - intros (-> & headers & body & Hs & Hi & Hp & Hm). rewrite Hi.
    assert (take (length headers) src = headers) as -> by (rewrite Hs; apply take_app_length).
    assert (drop (length headers + 4) src = body ++ rest) as ->.
    { rewrite Hs, <-drop_drop, drop_app_length. done. }
    rewrite Hp, decode_body_spec, Nat2N.id, take_app_length, drop_app_length, Hm.
    destruct (N.ltb_spec (N.of_nat (length (body ++ rest))) (N.of_nat (length body))) as [H|H];
      [rewrite length_app in H; lia|done].
Qed.
End decoding.

(** ** Examples, over the text layer of [JsonText] *)

Definition bad_header : bytes := list_ascii_of_string "Content-Size: 2" ++ HEADER_TERMINATOR.
Definition bad_body : bytes := frame_header 2 ++ list_ascii_of_string "{}".

(** A misspelt header stops the decoder for good; a body that is no message does not. *)
Lemma decode_failure_witness :
  ∃ e c' src', decode LspCodec_new (bad_header ++ bad_body) = step_new (Err e) c' src' ∧
    ((LspCodec_new = LspCodec_new ∧ c' = LspCodec_new ∧ src' = bad_header ++ bad_body ∧
      ∀ more, decode c' (src' ++ more) = step_new (Err e) c' (src' ++ more)) ∨
     (c' = LspCodec_new ∧ ∃ pre body, bad_header ++ bad_body = pre ++ body ++ src' ∧
       message_from_slice body = Err e ∧ frame_pending LspCodec_new pre (length body))).
Proof.
  eexists _, _, _. split; [by vm_compute|]. apply decode_failure. by vm_compute.
Defined.

Example bad_body_recovers :
  decode LspCodec_new (bad_body ++ bad_header) =
  step_new (Err (io_error_new InvalidData (IoSerde (NoVariantMatches "Message")))) LspCodec_new bad_header.
Proof. by vm_compute. Qed.

(** A well-formed frame followed by the start of another. *)
Definition one_frame : bytes :=
  default [] (ok (encode (MRequest (Request_new (IdInteger 7) "shutdown" None)) [])).

Lemma decode_frame_witness :
  decode LspCodec_new (one_frame ++ bad_header) =
    step_new (Ok (Some (MRequest (Request_new (IdInteger 7) "shutdown" None)))) LspCodec_new bad_header ∧
  ∃ headers body, one_frame ++ bad_header = headers ++ HEADER_TERMINATOR ++ body ++ bad_header ∧
    find_subsequence (one_frame ++ bad_header) HEADER_TERMINATOR = Some (length headers) ∧
    parse_content_length headers = Ok (N.of_nat (length body)) ∧
    message_from_slice body = Ok (MRequest (Request_new (IdInteger 7) "shutdown" None)).
Proof.
  assert (decode LspCodec_new (one_frame ++ bad_header) =
    step_new (Ok (Some (MRequest (Request_new (IdInteger 7) "shutdown" None)))) LspCodec_new bad_header)
    as H by by vm_compute.
  split; [exact H|]. exact (proj2 (proj1 (decode_frame _ _ _ _) H)).
Defined.

(** The decoder on a misspelt header, the encoder on a request. *)
Lemma codec_errors_witness :
  ∃ e dst, step_result (decode LspCodec_new bad_header) = Err e ∧ io_kind e = InvalidData ∧
    encode (MRequest (Request_new (IdInteger 7) "shutdown" None)) [] = Ok dst.
Proof.
  destruct (codec_errors LspCodec_new bad_header (MRequest (Request_new (IdInteger 7) "shutdown" None)) [])
    as [Hd _].
  eexists _, _. split_and!; [by vm_compute| |by vm_compute].
  by destruct (step_result (decode LspCodec_new bad_header)).
Defined.
