(* ===== verification/Transport.v ===== *)
(** * Transport: [src/transport.rs], a byte stream framed by the codec.

    Byte streams ([tokio::io::AsyncRead] and [AsyncWrite]) and [Framed] of
    [tokio_util::codec] are not part of the crate: they are classes.  What [Framed]
    does with the crate's codec is stated as rules, from its documentation
    ([FramedLaws]): when it calls the decoder, when it reads, how it ends, and that a
    message is sent by writing its frame. *)

From S2P Require Import Prelude RustStd Serde RequestId Error Message Io Codec Tokio.

(** A byte stream; how many bytes a read gives is up to it, none at its end. *)
Class AsyncRead (IO : Type) : Type := poll_read : IO → poll (result io_error bytes) * IO.

(** A write accepts some bytes of the buffer and says how many. *)
Class AsyncWrite (IO : Type) : Type := {
  poll_write : bytes → IO → poll (result io_error nat) * IO;
  poll_flush : IO → poll (result io_error unit) * IO;
  poll_shutdown : IO → poll (result io_error unit) * IO;
}.

(** [Framed<IO, LspCodec>]: its stream half is polled, its sink half awaited. *)
Class Framed (IO : Type) : Type := {
  framed : Type;
  framed_new : IO → LspCodec → framed;
  framed_poll_next : framed → poll (option (result io_error Message)) * framed;
  framed_send : Message → framed → result io_error unit * framed;
}.
Arguments framed IO {_}.

Section transport.
Context {IO : Type} {FR : Framed IO}.

(** [Transport<T>] is [Framed<T, LspCodec>]. *)
Definition Transport : Type := framed IO.

Definition transport (io : IO) : Transport := framed_new io LspCodec_new.

(** [tokio::io::duplex] gives the two ends of a pipe. *)
Definition duplex_transport (duplex : N → IO * IO) (buffer_size : N) : Transport * Transport :=
  let '(a, b) := duplex buffer_size in
  (transport a, transport b).
End transport.
Arguments Transport IO {_}.

(** ** The rules of [Framed] *)

Section rules.
Context `{SJ : SerdeJson} {IO : Type} {RD : AsyncRead IO} {WR : AsyncWrite IO}.

(** A stream that has not ended: its decoder, the bytes read and not yet decoded, and
    the byte stream, with its end seen or not. *)
Record framed_state : Type := framed_state_new {
  fs_codec : LspCodec;
  fs_buffer : bytes;
  fs_io : IO;
  fs_eof : bool;
}.

(** [Decoder::decode_eof], which the crate does not override: the decoder is called
    once more, and what is left over is an error. *)
Definition decode_eof (leftover : io_error) (codec : LspCodec) (src : bytes) : step (option Message) :=
  match decode codec src with
  | step_new (Ok None) codec' src' =>
    match src' with
    | [] => step_new (Ok None) codec' []
    | _ => step_new (Err leftover) codec' src'
    end
  | r => r
  end.

(** One poll of the stream: what it gives, and the state it leaves; none is said
    after an error or the end. *)
Inductive next_item (leftover : io_error) :
    framed_state → poll (option (result io_error Message)) → option framed_state → Prop :=
| item_message c src io m c' src' :
  decode c src = step_new (Ok (Some m)) c' src' →
  next_item leftover (framed_state_new c src io false) (Ready (Some (Ok m)))
    (Some (framed_state_new c' src' io false))
| item_error c src io e c' src' :
  decode c src = step_new (Err e) c' src' →
  next_item leftover (framed_state_new c src io false) (Ready (Some (Err e))) None
| item_pending c src io c' src' io' :
  decode c src = step_new (Ok None) c' src' → poll_read io = (Pending, io') →
  next_item leftover (framed_state_new c src io false) Pending (Some (framed_state_new c' src' io' false))
| item_read_error c src io c' src' io' e :
  decode c src = step_new (Ok None) c' src' → poll_read io = (Ready (Err e), io') →
  next_item leftover (framed_state_new c src io false) (Ready (Some (Err e))) None
| item_read c src io c' src' io' chunk o s :
  decode c src = step_new (Ok None) c' src' → poll_read io = (Ready (Ok chunk), io') → chunk ≠ [] →
  next_item leftover (framed_state_new c' (src' ++ chunk) io' false) o s →
  next_item leftover (framed_state_new c src io false) o s
| item_eof c src io c' src' io' o s :
  decode c src = step_new (Ok None) c' src' → poll_read io = (Ready (Ok []), io') →
  next_item leftover (framed_state_new c' src' io' true) o s →
  next_item leftover (framed_state_new c src io false) o s
| item_eof_message c src io m c' src' :
  decode_eof leftover c src = step_new (Ok (Some m)) c' src' →
  next_item leftover (framed_state_new c src io true) (Ready (Some (Ok m)))
    (Some (framed_state_new c' src' io true))
| item_eof_error c src io e c' src' :
  decode_eof leftover c src = step_new (Err e) c' src' →
  next_item leftover (framed_state_new c src io true) (Ready (Some (Err e))) None
| item_eof_end c src io c' src' :
  decode_eof leftover c src = step_new (Ok None) c' src' →
  next_item leftover (framed_state_new c src io true) (Ready None) None.

(** Writing all of a buffer and flushing. *)
Inductive write_all : bytes → IO → result io_error unit → IO → Prop :=
| write_done io io' : poll_flush io = (Ready (Ok ()), io') → write_all [] io (Ok ()) io'
| write_flush_pending io io' r io'' :
  poll_flush io = (Pending, io') → write_all [] io' r io'' → write_all [] io r io''
| write_flush_error io io' e : poll_flush io = (Ready (Err e), io') → write_all [] io (Err e) io'
| write_some bs io n io' r io'' :
  poll_write bs io = (Ready (Ok n), io') → 0 < n ≤ length bs →
  write_all (drop n bs) io' r io'' → write_all bs io r io''
| write_pending bs io io' r io'' :
  bs ≠ [] → poll_write bs io = (Pending, io') → write_all bs io' r io'' → write_all bs io r io''
| write_error bs io io' e :
  bs ≠ [] → poll_write bs io = (Ready (Err e), io') → write_all bs io (Err e) io'.
End rules.
Arguments framed_state IO : clear implicits.

Class FramedLaws (IO : Type) `{SJ : SerdeJson} `{RD : AsyncRead IO} `{WR : AsyncWrite IO}
    (FR : Framed IO) : Type := {
  (** The state between two calls, while the stream has not ended and no frame is left
      in the write buffer; after a write that failed, which leaves its frame there,
      nothing is said. *)
  framed_view : framed IO → option (framed_state IO);
  (** The error of bytes left over at the end. *)
  leftover_error : io_error;
  framed_new_law io c : framed_view (framed_new io c) = Some (framed_state_new c [] io false);
  framed_next_law f s o s' : framed_view f = Some s → next_item leftover_error s o s' →
    ∃ f', framed_poll_next f = (o, f') ∧ framed_view f' = s';
  framed_send_law f c src io eof m bs r io' :
    framed_view f = Some (framed_state_new c src io eof) → encode m [] = Ok bs → write_all bs io r io' →
    ∃ f', framed_send m f = (r, f') ∧ (r = Ok () → framed_view f' = Some (framed_state_new c src io' eof));
  framed_send_error f s m e : framed_view f = Some s → encode m [] = Err e →
    ∃ f', framed_send m f = (Err e, f') ∧ framed_view f' = Some s;
}.

(** What a byte stream is supposed to have received: a write appends the bytes it
    accepted, a flush nothing. *)
Class WriteLog (IO : Type) `{WR : AsyncWrite IO} : Type := {
  written : IO → bytes;
  poll_write_log bs io o io' : poll_write bs io = (o, io') →
    written io' = written io ++ match o with Ready (Ok n) => take n bs | _ => [] end;
  poll_flush_log io o io' : poll_flush io = (o, io') → written io' = written io;
}.
