(* ===== verification/Framing.v ===== *)
(** * Framing: the stream of messages a reader takes out of a byte stream.

    A reader calls the decoder of [Codec] until it asks for more bytes
    ([drain]) and appends each chunk that arrives to what is left ([feed]).  The
    theorems say that the messages do not depend on how the bytes were cut into
    chunks, and that what a writer encoded is what a reader sees. *)

From S2P Require Import Prelude RustStd Serde JsonText RequestId Error Message Io Codec.

(** What a reader has after some calls: the messages, how it ended ([Ok] when it
    waits for more bytes), the decoder and the buffer. *)
Record drained : Type := drained_new {
  messages : list Message;
  status : result io_error unit;
  codec : LspCodec;
  buffer : bytes;
}.

Definition prepend (ms : list Message) (d : drained) : drained :=
  drained_new (ms ++ messages d) (status d) (codec d) (buffer d).

(** The bytes still to be decoded, a decoder in the middle of a frame counting
    more: it goes down with every message. *)
Definition measure (c : LspCodec) (src : bytes) : nat :=
  2 * length src + match content_length c with Some _ => 1 | None => 0 end.

Section reader.
Context `{SJ : SerdeJson}.

Fixpoint drain_fuel (fuel : nat) (c : LspCodec) (src : bytes) : drained :=
  match fuel with
  | O => drained_new [] (Ok ()) c src
  | S fuel =>
    match decode c src with
    | step_new (Ok None) c' src' => drained_new [] (Ok ()) c' src'
    | step_new (Ok (Some m)) c' src' => prepend [m] (drain_fuel fuel c' src')
    | step_new (Err e) c' src' => drained_new [] (Err e) c' src'
    | step_new Panic c' src' => drained_new [] Panic c' src'
    end
  end.

Definition drain (c : LspCodec) (src : bytes) : drained := drain_fuel (S (measure c src)) c src.

(** One more chunk; a reader that has failed stops reading. *)
Definition receive (d : drained) (chunk : bytes) : drained :=
  match status d with
  | Ok _ => prepend (messages d) (drain (codec d) (buffer d ++ chunk))
  | _ => drained_new (messages d) (status d) (codec d) (buffer d ++ chunk)
  end.

Definition feed (chunks : list bytes) : drained :=
  foldl receive (drained_new [] (Ok ()) LspCodec_new []) chunks.

(** A writer that sends messages one after the other. *)
Definition encode_all (ms : list Message) : result io_error bytes :=
  foldM (λ dst m, encode m dst) [] ms.
End reader.

Lemma prepend_nil d : prepend [] d = d.
Proof. by destruct d. Qed.

Lemma prepend_app ms1 ms2 d : prepend (ms1 ++ ms2) d = prepend ms1 (prepend ms2 d).
Proof. unfold prepend. simpl. by rewrite app_assoc. Qed.

(** The calls of the decoder one after the other, until one asks for more or fails. *)
Inductive reads `{SJ : SerdeJson} : LspCodec → bytes → drained → Prop :=
| reads_wait c src c' src' :
  decode c src = step_new (Ok None) c' src' → reads c src (drained_new [] (Ok ()) c' src')
| reads_message c src m c' src' d :
  decode c src = step_new (Ok (Some m)) c' src' → reads c' src' d → reads c src (prepend [m] d)
| reads_fail c src e c' src' :
  decode c src = step_new (Err e) c' src' → reads c src (drained_new [] (Err e) c' src').

Section laws.
Context `{SJL : SerdeJsonLaws}.

Lemma decode_measure c src m c' src' :
  decode c src = step_new (Ok (Some m)) c' src' → measure c' src' < measure c src.
Proof.
  intros Hd. pose proof (decode_consumed c src) as H. rewrite Hd in H.
  destruct H as (-> & pre & body & -> & _ & Hp). unfold measure, frame_pending in *.
  rewrite !length_app. destruct c as [[n|]]; simpl in *; [lia|].
  destruct Hp as (headers & -> & _). rewrite length_app. simpl. lia.
Qed.

Lemma drain_fuel_enough fuel fuel' c src :
  measure c src < fuel → measure c src < fuel' → drain_fuel fuel c src = drain_fuel fuel' c src.
Proof.
  revert fuel' c src. induction fuel as [|fuel IH]; intros [|fuel'] c src H1 H2; try lia.
  simpl. destruct (decode c src) as [[[m|]|e|] c' src'] eqn:Hd; try done.
  apply decode_measure in Hd. f_equal. apply IH; lia.
Qed.

Lemma drain_unfold c src :
  drain c src =
  match decode c src with
  | step_new (Ok None) c' src' => drained_new [] (Ok ()) c' src'
  | step_new (Ok (Some m)) c' src' => prepend [m] (drain c' src')
  | step_new (Err e) c' src' => drained_new [] (Err e) c' src'
  | step_new Panic c' src' => drained_new [] Panic c' src'
  end.
Proof.
  unfold drain at 1. cbn [drain_fuel].
  destruct (decode c src) as [[[m|]|e|] c' src'] eqn:Hd; try done.
  apply decode_measure in Hd. f_equal. apply drain_fuel_enough; lia.
Qed.

(** Induction on what is left to decode. *)
Lemma drain_ind (P : LspCodec → bytes → Prop) :
  (∀ c src, (∀ m c' src', decode c src = step_new (Ok (Some m)) c' src' → P c' src') → P c src) →
  ∀ c src, P c src.
Proof.
  intros H c src. remember (measure c src) as k eqn:Hk. revert c src Hk.
  induction (lt_wf k) as [k _ IH]. intros c src ->. apply H. intros m c' src' Hd.
  apply (IH (measure c' src')); [|done]. by eapply decode_measure.
Qed.

(** C33: the reader's loop ends on every buffer: exactly one sequence of calls of
    the decoder leads to a call that asks for more or fails, and [drain] computes
    its messages and the state it ends in. *)
Theorem drain_reads c src d : reads c src d ↔ d = drain c src.
Proof.
  revert d. revert c src. refine (drain_ind _ _). intros c src IH d. rewrite drain_unfold. split.
  - intros H. destruct H as [c src c' src' H|c src m c' src' d H Hr|c src e c' src' H];
      rewrite H; try done. by eapply IH in Hr as ->.
  - intros ->. destruct (decode c src) as [[[m|]|e|] c' src'] eqn:Hd.
    + eapply reads_message; [done|]. by eapply IH.
    + by eapply reads_wait.
    + by eapply reads_fail.
    + pose proof (decode_consumed c src) as Hc. by rewrite Hd in Hc.
Qed.

Lemma drain_more c src more :
  drain c (src ++ more) =
  match status (drain c src) with
  | Ok _ => prepend (messages (drain c src)) (drain (codec (drain c src)) (buffer (drain c src) ++ more))
  | r => drained_new (messages (drain c src)) r (codec (drain c src)) (buffer (drain c src) ++ more)
  end.
Proof.
  revert c src. refine (drain_ind _ _). intros c src IH.
  rewrite (drain_unfold c src), drain_unfold, decode_more_bytes.
  destruct (decode c src) as [[[m|]|e|] c' src'] eqn:Hd; simpl; try done.
  - rewrite (IH m c' src') by done. by destruct (status (drain c' src')).
  - by rewrite prepend_nil, <-drain_unfold.
Qed.

Lemma feed_drain chunks : feed chunks = drain LspCodec_new (concat chunks).
Proof.
  unfold feed. induction chunks as [|chunk chunks IH] using rev_ind; [done|].
  rewrite foldl_snoc, IH, concat_app. simpl. rewrite app_nil_r, drain_more. unfold receive.
  by destruct (status (drain LspCodec_new (concat chunks))).
Qed.

(** C6: the messages a reader sees, its error and the state it ends in depend
    only on the bytes that arrived, never on how they were cut into chunks. *)
Theorem feed_chunks chunks1 chunks2 :
  concat chunks1 = concat chunks2 → feed chunks1 = feed chunks2.
Proof. intros H. by rewrite !feed_drain, H. Qed.

Lemma drain_frames ms bs rest :
  Forall sendable ms → encode_all ms = Ok bs →
  drain LspCodec_new (bs ++ rest) = prepend (Message_canon <$> ms) (drain LspCodec_new rest).
Proof.
  unfold encode_all. revert bs rest.
  induction ms as [|m ms IH] using rev_ind; intros bs rest Hms Henc.
  { injection Henc as <-. by rewrite prepend_nil. }
  rewrite Forall_app, Forall_singleton in Hms. destruct Hms as [Hms Hm].
  rewrite foldM_app in Henc. apply bind_Ok in Henc as (bs0 & Henc & Hm').
  destruct (encode_decode_frame m bs0 Hm) as (bs1 & Henc1 & Hdec).
  cbn [foldM] in Hm'. rewrite Henc1 in Hm'. injection Hm' as <-.
  rewrite <-app_assoc, (IH bs0) by done. rewrite (drain_unfold _ (bs1 ++ rest)), Hdec.
  by rewrite fmap_app, prepend_app.
Qed.

(** C1: what a writer encoded is what a reader sees: a sequence of messages written
    one after the other, sent as any chunks, is read as the same sequence (up to
    explicit nulls), without an error, and nothing is left over. *)
Theorem messages_delivered ms chunks :
  Forall sendable ms → encode_all ms = Ok (concat chunks) →
  feed chunks = drained_new (Message_canon <$> ms) (Ok ()) LspCodec_new [].
Proof.
  intros Hms Henc. rewrite feed_drain. rewrite <-(app_nil_r (concat chunks)).
  rewrite (drain_frames ms) by done. unfold prepend. simpl. by rewrite app_nil_r.
Qed.
End laws.

(** ** Examples, over the text layer of [JsonText] *)

Definition sample_messages : list Message :=
  [MRequest (Request_new (IdInteger 1) "initialize" (Some (VObject [("rootUri", VNull)])));
   MNotification (Notification_new "initialized" None); sample_error_response].

Definition sample_bytes : bytes := default [] (ok (encode_all sample_messages)).

Definition sample_chunks : list bytes :=
  [take 5 sample_bytes; take 40 (drop 5 sample_bytes); drop 45 sample_bytes].

Lemma sendable_compute m :
  Message_wf m && json_ok (Message_serialize m) = true →
  match to_vec (Message_serialize m) with
  | Ok body => N.of_nat (length body) <=? usize_MAX | _ => true end%N = true →
  sendable m.
Proof.
  intros [? ?]%andb_true_iff Hb. split_and!; [by apply Is_true_true..|].
  intros body E. rewrite E in Hb. by apply N.leb_le.
Qed.

Lemma messages_delivered_witness :
  feed sample_chunks = drained_new (Message_canon <$> sample_messages) (Ok ()) LspCodec_new [].
Proof.
  apply messages_delivered.
  - repeat constructor; by apply sendable_compute; vm_compute.
  - by vm_compute.
Defined.

Lemma feed_chunks_witness : feed sample_chunks = feed [sample_bytes].
Proof. apply feed_chunks. by vm_compute. Defined.

Lemma drain_reads_witness : reads LspCodec_new sample_bytes (drain LspCodec_new sample_bytes).
Proof. by apply drain_reads. Defined.
