(* ===== verification/Stream.v ===== *)
(** * Stream: a transport's two ends, over any byte streams.

    The codec under the rules of [Framed]: however the bytes arrive, the items of a
    transport's stream are the messages the codec reads ([Framing]) followed by the
    end or an error; and what one transport sends another one receives.  [pipe] is a
    byte stream and a [Framed] that satisfy the classes. *)

From S2P Require Import Prelude RustStd Serde JsonText RequestId Error Message Io Codec Tokio Transport Framing.

Abbreviation item := (option (result io_error Message)).

(** ** The stream half *)

(** A byte stream that gives these chunks, with pauses, and then its end. *)
Inductive delivers `{RD : AsyncRead IO} : IO → list bytes → Prop :=
| delivers_end io io' : poll_read io = (Ready (Ok []), io') → delivers io []
| delivers_pause io io' chunks :
  poll_read io = (Pending, io') → delivers io' chunks → delivers io chunks
| delivers_chunk io io' chunk chunks :
  poll_read io = (Ready (Ok chunk), io') → chunk ≠ [] → delivers io' chunks →
  delivers io (chunk :: chunks).

(** The items of some polls. *)
Fixpoint items `{FR : Framed IO} (n : nat) (f : Transport IO) : list item :=
  match n with
  | O => []
  | S n =>
    match framed_poll_next f with
    | (Ready x, f') => x :: items n f'
    | (Pending, f') => items n f'
    end
  end.

(** How the stream of a reader ends when its bytes do. *)
Definition ending (leftover : io_error) (d : drained) : list item :=
  match status d with
  | Ok _ => match buffer d with [] => [None] | _ => [Some (Err leftover)] end
  | Err e => [Some (Err e)]
  | Panic => []
  end.

Definition read_items (leftover : io_error) (d : drained) : list item :=
  ((Some ∘ Ok) <$> messages d) ++ ending leftover d.

Section reading.
Context `{SJL : SerdeJsonLaws} {IO : Type} {RD : AsyncRead IO} {WR : AsyncWrite IO}
  {FR : Framed IO} {FL : FramedLaws IO FR}.

(** The items from a state on, to the last one. *)
Inductive item_run : framed_state IO → list item → Prop :=
| run_pending s s' l :
  next_item leftover_error s Pending (Some s') → item_run s' l → item_run s l
| run_item s x s' l :
  next_item leftover_error s (Ready x) (Some s') → item_run s' l → item_run s (x :: l)
| run_last s x : next_item leftover_error s (Ready x) None → item_run s [x].

Lemma items_run s l :
  item_run s l → ∀ f, framed_view f = Some s → ∃ n, items n f = l.
Proof.
  induction 1 as [s s' l Hn _ IH|s x s' l Hn _ IH|s x Hn]; intros f Hf;
    destruct (framed_next_law _ _ _ _ Hf Hn) as (f' & Hp & Hf').
  - destruct (IH _ Hf') as [n Hl]. exists (S n). cbn. by rewrite Hp.
  - destruct (IH _ Hf') as [n Hl]. exists (S n). cbn. by rewrite Hp, Hl.
  - exists 1. cbn. by rewrite Hp.
Qed.

(** A decoder that wants more bytes wants them again. *)
Lemma decode_again c src c' src' :
  decode c src = step_new (Ok None) c' src' → decode c' src' = step_new (Ok None) c' src'.
Proof.
  intros Hd. pose proof (decode_more_bytes c src []) as H. rewrite !app_nil_r, Hd, app_nil_r in H. done.
Qed.

Lemma drain_wait c src c' src' more :
  decode c src = step_new (Ok None) c' src' → drain c (src ++ more) = drain c' (src' ++ more).
Proof.
  intros Hd. rewrite (drain_unfold c), (drain_unfold c'), decode_more_bytes, Hd. done.
Qed.

(** A chunk is read before the next item. *)
Lemma run_read c src io c' src' io' chunk l :
  decode c src = step_new (Ok None) c' src' → poll_read io = (Ready (Ok chunk), io') → chunk ≠ [] →
  item_run (framed_state_new c' (src' ++ chunk) io' false) l →
  item_run (framed_state_new c src io false) l.
Proof.
  intros Hd Hr Hne Hl. inversion Hl; subst.
  - eapply run_pending; [by eapply item_read|done].
  - eapply run_item; [by eapply item_read|done].
  - eapply run_last. by eapply item_read.
Qed.

Lemma run_eof c src io c' src' io' :
  decode c src = step_new (Ok None) c' src' → poll_read io = (Ready (Ok []), io') →
  item_run (framed_state_new c src io false) (ending leftover_error (drained_new [] (Ok ()) c' src')).
Proof.
  intros Hd Hr. pose proof (decode_again _ _ _ _ Hd) as Hd'.
  assert (decode_eof leftover_error c' src' =
    match src' with [] => step_new (Ok None) c' [] | _ => step_new (Err leftover_error) c' src' end) as He
    by (unfold decode_eof; by rewrite Hd').
  unfold ending. cbn. destruct src' as [|a src'].
  - eapply run_last, item_eof; [done..|]. by eapply item_eof_end.
  - eapply run_last, item_eof; [done..|]. by eapply item_eof_error.
Qed.

Lemma read_items_prepend leftover m d :
  read_items leftover (prepend [m] d) = Some (Ok m) :: read_items leftover d.
Proof. done. Qed.

Lemma run_items io chunks :
  delivers io chunks → ∀ c src,
  item_run (framed_state_new c src io false) (read_items leftover_error (drain c (src ++ concat chunks))).
Proof.
  induction 1 as [io io' Hr|io io' chunks Hr _ IH|io io' chunk chunks Hr Hne _ IH]; cbn [concat];
    refine (drain_ind _ _); intros c src IHd;
    (destruct (decode c src) as [[[m|]|e|] c' src'] eqn:Hd;
     [rewrite drain_unfold, decode_more_bytes, Hd, read_items_prepend;
        eapply run_item; [by apply item_message|by apply (IHd m)]
     |rewrite (drain_wait _ _ _ _ _ Hd)
     |rewrite drain_unfold, decode_more_bytes, Hd; by eapply run_last, item_error
     |pose proof (decode_consumed c src) as Hc; by rewrite Hd in Hc]).
  - rewrite app_nil_r, drain_unfold, (decode_again _ _ _ _ Hd). by eapply run_eof.
  - eapply run_pending; [by eapply item_pending|]. apply IH.
  - eapply run_read; [done..|]. rewrite app_assoc. apply IH.
Qed.

(** Polled often enough, a transport gives exactly the messages of the bytes its
    stream delivers, whatever the chunks and pauses, and then its end, or the error
    of the decoder, or the error of an incomplete message. *)
Theorem transport_items io chunks :
  delivers io chunks → ∃ n, items n (transport io) = read_items leftover_error (feed chunks).
Proof.
  intros Hd. rewrite feed_drain. eapply items_run; [by apply (run_items _ _ Hd _ [])|].
  apply framed_new_law.
Qed.
End reading.

(** ** The sink half *)

(** Messages sent one after the other, up to the first error. *)
Fixpoint send_each `{FR : Framed IO} (ms : list Message) (f : Transport IO) :
    result io_error unit * Transport IO :=
  match ms with
  | [] => (Ok (), f)
  | m :: ms =>
    match framed_send m f with
    | (Ok _, f') => send_each ms f'
    | (r, f') => (r, f')
    end
  end.

Section writing.
Context `{SJL : SerdeJsonLaws} {IO : Type} {RD : AsyncRead IO} {WR : AsyncWrite IO}
  {FR : Framed IO} {FL : FramedLaws IO FR} {WL : WriteLog IO}.

(** A frame is written to the stream up to an error, and all of it without one. *)
Lemma write_all_log bs io r io' :
  write_all bs io r io' →
  ∃ pre, written io' = written io ++ pre ∧ pre `prefix_of` bs ∧ (r = Ok () → pre = bs).
Proof.
  induction 1 as [io io' Hf|io io' r io'' Hf _ (pre & Hw & Hp & Hr)|io io' e Hf
    |bs io n io' r io'' Hw' Hn _ (pre & Hw & Hp & Hr)|bs io io' r io'' _ Hw' _ (pre & Hw & Hp & Hr)
    |bs io io' e _ Hw'].
  - exists []. apply poll_flush_log in Hf as ->. by rewrite app_nil_r.
  - apply poll_flush_log in Hf as <-. by exists pre.
  - exists []. apply poll_flush_log in Hf as ->. rewrite app_nil_r. by split_and!.
  - apply poll_write_log in Hw'. exists (take n bs ++ pre). rewrite Hw, Hw', app_assoc. split_and!.
    + done.
    + rewrite <-(take_drop n bs) at 2. by apply prefix_app.
    + intros E. rewrite (Hr E). apply take_drop.
  - apply poll_write_log in Hw'. rewrite app_nil_r in Hw'. rewrite <-Hw'. by exists pre.
  - apply poll_write_log in Hw'. rewrite app_nil_r in Hw'. exists []. rewrite Hw', app_nil_r.
    split_and!; [done|apply prefix_nil|done].
Qed.

(** A stream that takes all that is written to it, sooner or later. *)
Definition accepts_all : Prop := ∀ bs io, ∃ io', write_all bs io (Ok ()) io'.

(** What the writes to it keep. *)
Definition accepts_keeping (P : IO → Prop) : Prop :=
  ∀ bs io, P io → ∃ io', write_all bs io (Ok ()) io' ∧ P io'.

Lemma encode_append m dst bs : encode m [] = Ok bs → encode m dst = Ok (dst ++ bs).
Proof.
  unfold encode. destruct (map_err _ _) as [json|e|]; cbn; [|done..]. by intros [= <-].
Qed.

Lemma encode_all_append ms dst bs :
  encode_all ms = Ok bs → foldM (λ dst m, encode m dst) dst ms = Ok (dst ++ bs).
Proof.
  unfold encode_all. revert dst bs. induction ms as [|m ms IH] using rev_ind; intros dst bs.
  - intros [= <-]. by rewrite app_nil_r.
  - rewrite !foldM_app. intros (bs0 & H & Hm)%bind_Ok. rewrite (IH _ _ H). cbn [foldM] in *.
    change (Ok ?x ≫= ?f) with (f x). cbn beta. apply bind_Ok in Hm as (bs1 & Hm & [= <-]).
    unfold encode in *. destruct (map_err _ _) as [json|e|]; cbn in *; [|done..].
    injection Hm as <-. by rewrite app_assoc.
Qed.

Lemma send_each_ok P ms f c src io eof :
  accepts_keeping P → P io → Forall sendable ms →
  framed_view f = Some (framed_state_new c src io eof) →
  ∃ bs f' io', encode_all ms = Ok bs ∧ send_each ms f = (Ok (), f') ∧
    framed_view f' = Some (framed_state_new c src io' eof) ∧ written io' = written io ++ bs ∧ P io'.
Proof.
  intros Hacc. revert f io. induction ms as [|m ms IH]; intros f io HP Hms Hf.
  { exists [], f, io. rewrite app_nil_r. done. }
  inversion_clear Hms as [|? ? Hm Hms'].
  destruct (encode_decode_frame m [] Hm) as (bs1 & Henc & _). cbn in Henc.
  destruct (Hacc bs1 io HP) as (io1 & Hw & HP1).
  destruct (framed_send_law _ _ _ _ _ _ _ _ _ Hf Henc Hw) as (f1 & Hs & Hf1). specialize (Hf1 eq_refl).
  destruct (write_all_log _ _ _ _ Hw) as (pre & Hlog & _ & Hpre). rewrite (Hpre eq_refl) in Hlog.
  destruct (IH _ _ HP1 Hms' Hf1) as (bs2 & f2 & io2 & Henc2 & Hs2 & Hf2 & Hlog2 & HP2).
  exists (bs1 ++ bs2), f2, io2. split_and!; [|cbn; by rewrite Hs|done|by rewrite Hlog2, Hlog, app_assoc|done].
  unfold encode_all. cbn [foldM]. rewrite Henc. by apply encode_all_append.
Qed.
End writing.

(** C2: what one transport sends, another one receives: messages sent over a stream
    that takes all bytes are, when their bytes reach the other end in any chunks with
    any pauses, the items of the stream there, in order, followed by its end. *)
Theorem transport_roundtrip `{SJL : SerdeJsonLaws}
    `{RD1 : AsyncRead W} `{WR1 : AsyncWrite W} `{FR1 : Framed W} `{FL1 : !FramedLaws W FR1}
    `{WL : !WriteLog W}
    `{RD2 : AsyncRead R} `{WR2 : AsyncWrite R} `{FR2 : Framed R} `{FL2 : !FramedLaws R FR2}
    ms (w : W) :
  accepts_all (IO := W) → Forall sendable ms → written w = [] →
  ∃ f w', send_each ms (transport w) = (Ok (), f) ∧
    framed_view f = Some (framed_state_new LspCodec_new [] w' false) ∧
    ∀ (r : R) chunks, delivers r chunks → concat chunks = written w' →
      ∃ n, items n (transport r) = ((Some ∘ Ok ∘ Message_canon) <$> ms) ++ [None].
Proof.
  intros Hacc Hms Hw.
  destruct (send_each_ok (λ _, True) ms (transport w) LspCodec_new [] w false)
    as (bs & f & w' & Henc & Hs & Hf & Hlog & _); [|done|done|by apply framed_new_law|].
  { intros bs io _. destruct (Hacc bs io) as [io' Hio]. by exists io'. }
  exists f, w'. split_and!; [done..|]. intros r chunks Hd Hc.
  pose proof (run_items _ _ Hd LspCodec_new []) as Hrun. cbn [app] in Hrun.
  rewrite Hw in Hlog. cbn [app] in Hlog. rewrite Hc, Hlog, <-(app_nil_r bs) in Hrun.
  rewrite (drain_frames ms) in Hrun by done.
  destruct (items_run _ _ Hrun (transport r) (framed_new_law r LspCodec_new)) as [n Hn].
  exists n. rewrite Hn. unfold read_items, ending, prepend. cbn. rewrite app_nil_r.
  by rewrite <-list_fmap_compose.
Qed.

(** ** A byte stream and a [Framed] that satisfy the classes

    What a pipe will read is a script; it accepts at most sixteen bytes a write. *)

Record pipe : Type := pipe_new {
  pipe_input : list (poll (result io_error bytes));
  pipe_output : bytes;
}.

#[export] Instance pipe_read : AsyncRead pipe := λ p,
  match pipe_input p with
  | [] => (Pending, p)
  | e :: l => (e, pipe_new l (pipe_output p))
  end.

#[export] Instance pipe_write : AsyncWrite pipe := {|
  poll_write bs p :=
    let n := Nat.min 16 (length bs) in (Ready (Ok n), pipe_new (pipe_input p) (pipe_output p ++ take n bs));
  poll_flush p := (Ready (Ok ()), p);
  poll_shutdown p := (Ready (Ok ()), p);
|}.

#[export] Instance pipe_log : WriteLog pipe.
Proof.
  refine {| written := pipe_output |}.
  - intros bs p o p' [= <- <-]. done.
  - by intros p o p' [= _ <-].
Defined.

(** Streams that read from a script and take all that is written. *)
Class Scripted (IO : Type) `{RD : AsyncRead IO} `{WR : AsyncWrite IO} : Type := {
  script_of : IO → list (poll (result io_error bytes));
  set_script : list (poll (result io_error bytes)) → IO → IO;
  append_to : bytes → IO → IO;
  script_read io : poll_read io =
    match script_of io with [] => (Pending, io) | e :: l => (e, set_script l io) end;
  script_of_set l io : script_of (set_script l io) = l;
  set_script_set l l' io : set_script l (set_script l' io) = set_script l io;
  set_script_of io : set_script (script_of io) io = io;
  write_all_append bs io r io' : write_all bs io r io' → r = Ok () ∧ io' = append_to bs io;
}.

#[export] Instance pipe_scripted : Scripted pipe.
Proof.
  refine {| script_of := pipe_input;
            set_script l p := pipe_new l (pipe_output p);
            append_to bs p := pipe_new (pipe_input p) (pipe_output p ++ bs) |}; try done.
  - by intros [].
  - induction 1 as [p p' Hf|p p' r p'' Hf|p p' e Hf|bs p n p' r p'' Hw Hn _ [-> ->]|bs p p' r p'' _ Hw|bs p p' e _ Hw];
      try done.
    + injection Hf as <-. rewrite app_nil_r. by destruct p.
    + injection Hw as <- <-. cbn. rewrite <-app_assoc. by rewrite take_drop.
Defined.

Lemma pipe_accepts_all : accepts_all (IO := pipe).
Proof.
  intros bs. remember (length bs) as n eqn:Hn. revert bs Hn.
  induction (lt_wf n) as [n _ IH]. intros bs -> p. destruct bs as [|b bs].
  { exists p. by apply write_done. }
  destruct (IH (length (drop (Nat.min 16 (length (b :: bs))) (b :: bs)))) with
    (bs := drop (Nat.min 16 (length (b :: bs))) (b :: bs))
    (io := pipe_new (pipe_input p) (pipe_output p ++ take (Nat.min 16 (length (b :: bs))) (b :: bs)))
    as [p' Hw]; [rewrite length_drop; cbn [length]; lia|done|].
  exists p'. eapply write_some; [reflexivity| |exact Hw]. cbn [length]. lia.
Qed.

Section scripted.
Context `{SJ : SerdeJson} `{SC : Scripted IO}.

Definition leftover_bytes : io_error := io_error_new Other (IoMsg "bytes remaining on stream").

Definition end_next (c : LspCodec) (src : bytes) (io : IO) : poll item * option (framed_state IO) :=
  match decode_eof leftover_bytes c src with
  | step_new (Ok (Some m)) c src => (Ready (Some (Ok m)), Some (framed_state_new c src io true))
  | step_new (Err e) _ _ => (Ready (Some (Err e)), None)
  | _ => (Ready None, None)
  end.

Fixpoint script_next (l : list (poll (result io_error bytes))) (c : LspCodec) (src : bytes) (io : IO) :
    poll item * option (framed_state IO) :=
  match decode c src with
  | step_new (Ok (Some m)) c src =>
    (Ready (Some (Ok m)), Some (framed_state_new c src (set_script l io) false))
  | step_new (Ok None) c src =>
    match l with
    | [] => (Pending, Some (framed_state_new c src (set_script [] io) false))
    | Pending :: l => (Pending, Some (framed_state_new c src (set_script l io) false))
    | Ready (Ok []) :: l => end_next c src (set_script l io)
    | Ready (Ok chunk) :: l => script_next l c (src ++ chunk) io
    | Ready (Err e) :: _ => (Ready (Some (Err e)), None)
    | Ready Panic :: _ => (Ready None, None)
    end
  | step_new (Err e) _ _ => (Ready (Some (Err e)), None)
  | step_new Panic _ _ => (Ready None, None)
  end.

#[export] Instance scripted_Framed : Framed IO := {|
  framed := option (framed_state IO);
  framed_new io c := Some (framed_state_new c [] io false);
  framed_poll_next f :=
    match f with
    | None => (Ready None, None)
    | Some (framed_state_new c src io true) => end_next c src io
    | Some (framed_state_new c src io false) => script_next (script_of io) c src io
    end;
  framed_send m f :=
    match encode m [], f with
    | Ok bs, Some (framed_state_new c src io eof) =>
      (Ok (), Some (framed_state_new c src (append_to bs io) eof))
    | Ok _, None => (Err leftover_bytes, None)
    | Err e, f => (Err e, f)
    | Panic, f => (Panic, f)
    end;
|}.

(** The script is read from the state it belongs to. *)
Lemma script_next_set l l' c src io : script_next l c src (set_script l' io) = script_next l c src io.
Proof.
  revert c src. induction l as [|e l IH]; intros c src; cbn [script_next];
    destruct (decode c src) as [[[m|]|e'|] c' src']; rewrite ?set_script_set; try done.
  destruct e as [[[|a chunk]|e|]|]; rewrite ?set_script_set; done.
Qed.

Lemma script_next_law s o s' :
  next_item leftover_bytes s o s' → framed_poll_next (Some s : Transport IO) = (o, s').
Proof.
  induction 1 as [c src io m c' src' Hd|c src io e c' src' Hd|c src io c' src' io' Hd Hr
    |c src io c' src' io' e Hd Hr|c src io c' src' io' chunk o s Hd Hr Hne _ IH
    |c src io c' src' io' o s Hd Hr _ IH|c src io m c' src' Hd|c src io e c' src' Hd|c src io c' src' Hd];
    try (cbn; unfold end_next; rewrite Hd; done); cbn [framed_poll_next scripted_Framed] in *;
    try (rewrite script_read in Hr);
    pose proof (set_script_of io) as Hs; destruct (script_of io) as [|x l]; cbn [script_next];
    rewrite Hd; simplify_eq; rewrite ?Hs; try done; rewrite script_of_set, script_next_set in IH; by destruct chunk.
Qed.

#[export] Instance scripted_FramedLaws : FramedLaws IO scripted_Framed.
Proof.
  refine {| framed_view f := f : option (framed_state IO); leftover_error := leftover_bytes |}.
  - done.
  - intros f s o s' -> Hn. exists s'. split; [by apply script_next_law|done].
  - intros f c src io eof m bs r io' -> Henc [-> ->]%write_all_append. cbn. rewrite Henc. by eexists.
  - intros f s m e -> Henc. exists (Some s). cbn. by rewrite Henc.
Defined.
End scripted.

(** ** Examples: the messages of [Framing], and a stream that ends inside a message *)

Definition script (chunks : list bytes) : pipe :=
  pipe_new (concat ((λ chunk, [Pending; Ready (Ok chunk)]) <$> chunks) ++ [Ready (Ok [])]) [].

Lemma script_delivers chunks : Forall (λ chunk, chunk ≠ []) chunks → delivers (script chunks) chunks.
Proof.
  induction 1 as [|chunk chunks Hne _ IH]; [by eapply delivers_end|].
  eapply delivers_pause; [reflexivity|]. by eapply delivers_chunk; [reflexivity|done|].
Qed.

Lemma sample_sendable : Forall sendable sample_messages.
Proof. repeat constructor; by apply sendable_compute; vm_compute. Qed.

Lemma transport_items_witness :
  ∃ n, items n (transport (script [take 5 sample_bytes; take 40 (drop 5 sample_bytes)])) =
    [Some (Err leftover_bytes)].
Proof.
  destruct (transport_items (script [take 5 sample_bytes; take 40 (drop 5 sample_bytes)])
    [take 5 sample_bytes; take 40 (drop 5 sample_bytes)]) as [n Hn].
  - apply script_delivers. repeat constructor; by vm_compute.
  - exists n. rewrite Hn. by vm_compute.
Defined.

Lemma sample_chunks_concat : concat sample_chunks = sample_bytes.
Proof. by vm_compute. Qed.

(** What a transport over a pipe has written. *)
Definition sent_by (f : Transport pipe) : bytes :=
  match f : option (framed_state pipe) with Some s => pipe_output (fs_io s) | None => [] end.

Lemma sample_sent : sent_by (send_each sample_messages (transport (pipe_new [] []))).2 = sample_bytes.
Proof. vm_compute. reflexivity. Qed.

Lemma transport_roundtrip_witness :
  ∃ f w n, send_each sample_messages (transport (pipe_new [] [])) = (Ok (), f) ∧
    pipe_output w = sample_bytes ∧
    items n (transport (script sample_chunks)) = ((Some ∘ Ok ∘ Message_canon) <$> sample_messages) ++ [None].
Proof.
  destruct (transport_roundtrip (W := pipe) (R := pipe) sample_messages (pipe_new [] []))
    as (f & w & Hs & Hf & Hr); [apply pipe_accepts_all|apply sample_sendable|reflexivity|].
  assert (pipe_output w = sample_bytes) as Hw.
  { pose proof sample_sent as E. rewrite Hs in E. cbn in E, Hf. rewrite Hf in E. exact E. }
  destruct (Hr (script sample_chunks) sample_chunks) as [n Hn].
  - apply script_delivers. repeat constructor; by vm_compute.
  - change (written w) with (pipe_output w). rewrite Hw. apply sample_chunks_concat.
  - by exists f, w, n.
Defined.
