(* ===== verification/Stdio.v ===== *)
(** * Stdio: [StdioTransport] of [src/connection.rs], standard input and output as one
    byte stream.

    tokio's [Stdin] and [Stdout] are parameters: a stream to read and a stream to
    write.  Reads go to the first, writes to the second, and neither disturbs the
    other, so the theorems of [Stream] hold for the messages of a server that talks
    over standard input and output. *)

From S2P Require Import Prelude RustStd Serde JsonText RequestId Error Message Io Codec Tokio World RequestQueue Lifecycle Routing ClientSender Connection Transport Framing Stream Handshake Serving Ownership Effects System Safety Delivery Schedule.

Record StdioTransport (Stdin Stdout : Type) : Type := StdioTransport_mk {
  stdin : Stdin;
  stdout : Stdout;
}.
Arguments StdioTransport_mk {Stdin Stdout}.
Arguments stdin {Stdin Stdout}.
Arguments stdout {Stdin Stdout}.

Section stdio.
Context {Stdin Stdout : Type} {RD : AsyncRead Stdin} {WR : AsyncWrite Stdout}.
(** [tokio::io::stdin] and [tokio::io::stdout]. *)
Context (io_stdin : Stdin) (io_stdout : Stdout).

Definition StdioTransport_new : StdioTransport Stdin Stdout :=
  {| stdin := io_stdin; stdout := io_stdout |}.

Definition StdioTransport_default : StdioTransport Stdin Stdout := StdioTransport_new.

Definition StdioTransport_poll_read (self : StdioTransport Stdin Stdout) :
    poll (result io_error bytes) * StdioTransport Stdin Stdout :=
  let '(r, i) := poll_read (stdin self) in (r, {| stdin := i; stdout := stdout self |}).

Definition StdioTransport_poll_write (buf : bytes) (self : StdioTransport Stdin Stdout) :
    poll (result io_error nat) * StdioTransport Stdin Stdout :=
  let '(r, o) := poll_write buf (stdout self) in (r, {| stdin := stdin self; stdout := o |}).

Definition StdioTransport_poll_flush (self : StdioTransport Stdin Stdout) :
    poll (result io_error unit) * StdioTransport Stdin Stdout :=
  let '(r, o) := poll_flush (stdout self) in (r, {| stdin := stdin self; stdout := o |}).

Definition StdioTransport_poll_shutdown (self : StdioTransport Stdin Stdout) :
    poll (result io_error unit) * StdioTransport Stdin Stdout :=
  let '(r, o) := poll_shutdown (stdout self) in (r, {| stdin := stdin self; stdout := o |}).

#[export] Instance StdioTransport_read : AsyncRead (StdioTransport Stdin Stdout) :=
  StdioTransport_poll_read.

#[export] Instance StdioTransport_write : AsyncWrite (StdioTransport Stdin Stdout) := {|
  poll_write := StdioTransport_poll_write;
  poll_flush := StdioTransport_poll_flush;
  poll_shutdown := StdioTransport_poll_shutdown;
|}.

(** [Connection::stdio]: a new connection, with the transport it reads and writes. *)
Definition Connection_stdio `{TK : Tokio} `{FR : Framed (StdioTransport Stdin Stdout)} :
    St (Connection * Transport (StdioTransport Stdin Stdout)) :=
  c ← Connection_new;
  mret (c, transport StdioTransport_new).
End stdio.

Section forwarding.
Context {Stdin Stdout : Type} {RD : AsyncRead Stdin} {WR : AsyncWrite Stdout}.

#[export] Instance StdioTransport_log {WL : WriteLog Stdout} : WriteLog (StdioTransport Stdin Stdout).
Proof.
  refine {| written io := written (stdout io) |}.
  - intros bs [i o] r io'. cbn. unfold StdioTransport_poll_write. cbn.
    destruct (poll_write bs o) as [r' o'] eqn:H. intros [= <- <-]. cbn. by apply poll_write_log in H.
  - intros [i o] r io'. cbn. unfold StdioTransport_poll_flush. cbn.
    destruct (poll_flush o) as [r' o'] eqn:H. intros [= <- <-]. cbn. by apply poll_flush_log in H.
Defined.

(** What standard input delivers, the transport delivers. *)
Lemma stdio_delivers i chunks (o : Stdout) :
  delivers i chunks → delivers (StdioTransport_mk i o) chunks.
Proof.
  assert (∀ r i i', poll_read i = (r, i') →
    poll_read (StdioTransport_mk i o) = (r, StdioTransport_mk i' o)) as Hread.
  { intros r i1 i2 H. unfold poll_read at 1, StdioTransport_read, StdioTransport_poll_read. cbn. by rewrite H. }
  induction 1 as [i i' Hr|i i' chunks Hr _ IH|i i' chunk chunks Hr Hne _ IH]; apply Hread in Hr.
  - by eapply delivers_end.
  - by eapply delivers_pause.
  - by eapply delivers_chunk.
Qed.

(** What is written to the transport goes to standard output. *)
Lemma stdio_write_all bs i o r o' :
  write_all bs o r o' → write_all bs (StdioTransport_mk (Stdin := Stdin) i o) r (StdioTransport_mk i o').
Proof.
  assert (∀ bs r o o', poll_write bs o = (r, o') →
    poll_write bs (StdioTransport_mk i o) = (r, StdioTransport_mk i o')) as Hw.
  { intros bs1 r1 o1 o2 H. cbn. unfold StdioTransport_poll_write. cbn. by rewrite H. }
  assert (∀ r o o', poll_flush o = (r, o') →
    poll_flush (StdioTransport_mk i o) = (r, StdioTransport_mk i o')) as Hf.
  { intros r1 o1 o2 H. cbn. unfold StdioTransport_poll_flush. cbn. by rewrite H. }
  induction 1 as [o o' H|o o' r o'' H _ IH|o o' e H|bs o n o' r o'' H Hn _ IH|bs o o' r o'' Hne H _ IH|bs o o' e Hne H].
  - by apply write_done, Hf.
  - by eapply write_flush_pending; [apply Hf|].
  - by apply write_flush_error, Hf.
  - by eapply write_some; [apply Hw| |].
  - by eapply write_pending; [|apply Hw|].
  - by apply write_error; [|apply Hw].
Qed.

Lemma stdio_write_all_inv bs (io : StdioTransport Stdin Stdout) r io' :
  write_all bs io r io' → write_all bs (stdout io) r (stdout io') ∧ stdin io' = stdin io.
Proof.
  assert (∀ bs r (io io' : StdioTransport Stdin Stdout), poll_write bs io = (r, io') →
    poll_write bs (stdout io) = (r, stdout io') ∧ stdin io' = stdin io) as Hw.
  { intros bs1 r1 io1 io2. cbn. unfold StdioTransport_poll_write.
    destruct (poll_write bs1 (stdout io1)). by intros [= <- <-]. }
  assert (∀ r (io io' : StdioTransport Stdin Stdout), poll_flush io = (r, io') →
    poll_flush (stdout io) = (r, stdout io') ∧ stdin io' = stdin io) as Hf.
  { intros r1 io1 io2. cbn. unfold StdioTransport_poll_flush.
    destruct (poll_flush (stdout io1)). by intros [= <- <-]. }
  induction 1 as [io io' [H Hi]%Hf|io io' r io'' [H Hi]%Hf _ [IH Hi']|io io' e [H Hi]%Hf
    |bs io n io' r io'' [H Hi]%Hw Hn _ [IH Hi']|bs io io' r io'' Hne [H Hi]%Hw _ [IH Hi']|bs io io' e Hne [H Hi]%Hw];
    (split; [|congruence]).
  - by apply write_done.
  - by eapply write_flush_pending.
  - by apply write_flush_error.
  - by eapply write_some.
  - by eapply write_pending.
  - by apply write_error.
Qed.

Lemma stdio_accepts i :
  accepts_all (IO := Stdout) → accepts_keeping (λ io : StdioTransport Stdin Stdout, stdin io = i).
Proof.
  intros Ha bs [i' o] Hi. cbn in Hi. subst i'. destruct (Ha bs o) as [o' Hw].
  exists (StdioTransport_mk i o'). split; [by apply stdio_write_all|done].
Qed.
End forwarding.

(** C35: a connection over standard input and output reads its messages from standard
    input alone, as the items of its stream, and writes what it sends to standard
    output alone, frame by frame, in order. *)
Theorem stdio_messages `{SJL : SerdeJsonLaws} `{TK : Tokio} {Stdin Stdout : Type} {RD : AsyncRead Stdin}
    {WR : AsyncWrite Stdout} {WL : WriteLog Stdout}
    {FR : Framed (StdioTransport Stdin Stdout)} {FL : FramedLaws (StdioTransport Stdin Stdout) FR}
    (i : Stdin) (o : Stdout) w :
  let '(c, t) := (Connection_stdio i o w).1 in
  c = (Connection_new w).1 ∧
  (∀ chunks, delivers i chunks → ∃ n, items n t = read_items (leftover_error (FramedLaws := FL)) (feed chunks)) ∧
  (accepts_all (IO := Stdout) → ∀ ms, Forall sendable ms →
     ∃ bs t' o', encode_all ms = Ok bs ∧ send_each ms t = (Ok (), t') ∧ written o' = written o ++ bs ∧
       framed_view t' = Some (framed_state_new LspCodec_new [] {| stdin := i; stdout := o' |} false)).
Proof.
  unfold Connection_stdio, mbind, St_bind. destruct (Connection_new w) as [c w'] eqn:Hc.
  unfold mret, St_ret. cbn [fst]. split_and!; [done|..].
  - intros chunks Hd. rewrite feed_drain. eapply items_run; [|by apply framed_new_law].
    exact (run_items _ _ (stdio_delivers _ _ o Hd) LspCodec_new []).
  - intros Ha ms Hms.
    destruct (send_each_ok (λ io, stdin io = i) ms (transport (StdioTransport_new i o)) LspCodec_new []
      (StdioTransport_new i o) false) as (bs & t & [i' o'] & Henc & Hs & Hf & Hlog & Hi);
      [by apply stdio_accepts|done|done|by apply framed_new_law|].
    cbn in Hi. subst i'. by exists bs, t, o'.
Qed.

(** ** Example: a script on standard input, a pipe as standard output *)

#[export] Instance stdio_scripted : Scripted (StdioTransport pipe pipe).
Proof.
  refine {| script_of io := pipe_input (stdin io);
            set_script l io := {| stdin := pipe_new l (pipe_output (stdin io)); stdout := stdout io |};
            append_to bs io := {| stdin := stdin io; stdout := append_to bs (stdout io) |} |}; try done.
  - intros [i o]. unfold poll_read, StdioTransport_read, StdioTransport_poll_read. cbn.
    unfold poll_read, pipe_read. by destruct (pipe_input i).
  - by intros [[l a] o].
  - intros bs [i o] r [i' o'] [[Hr Ho]%write_all_append Hi]%stdio_write_all_inv. cbn in *. by subst.
Defined.

Lemma stdio_messages_witness :
  ∃ n t o, (Connection_stdio (TK := model_tokio) (script sample_chunks) (pipe_new [] []) empty_world).1.2 = t ∧
    items n t = ((Some ∘ Ok ∘ Message_canon) <$> sample_messages) ++ [None] ∧
    (send_each sample_messages t).1 = Ok () ∧ pipe_output o = sample_bytes.
Proof.
  destruct (stdio_messages (TK := model_tokio) (script sample_chunks) (pipe_new [] []) empty_world)
    as (_ & Hr & Hs).
  destruct (Hr sample_chunks) as [n Hn]; [apply script_delivers; repeat constructor; by vm_compute|].
  destruct (Hs pipe_accepts_all sample_messages sample_sendable) as (bs & t' & o' & Henc & Hsend & Hw & _).
  exists n, (transport (StdioTransport_new (script sample_chunks) (pipe_new [] []))), o'.
  split_and!; [reflexivity| | |].
  - rewrite Hn, feed_drain, sample_chunks_concat. by vm_compute.
  - by rewrite Hsend.
  - change (written o') with (pipe_output o') in Hw. rewrite Hw. unfold sample_bytes. by rewrite Henc.
Defined.
