(* ===== verification/EndToEnd.v ===== *)
(** * EndToEnd: two connections and the bytes between them.

    What a client does, encoded by its codec, decoded and routed by the server. *)

From S2P Require Import Prelude RustStd Serde JsonText RequestId Error Message Io Codec Tokio World RequestQueue Lifecycle Routing ClientSender Connection Handshake Serving Ownership Effects System Safety Delivery Schedule Closing Examples Transport Framing Stream.

Definition cancel_message (id : RequestId) : Message :=
  MNotification (Notification_new CANCEL_REQUEST_METHOD (Some (cancel_params id))).

Lemma parse_cancel_message id :
  RequestId_wf id = true → parse_cancel_params (Some (cancel_params id)) = Some id.
Proof.
  destruct id as [n|s]; [|done]. intros H. change (bool_decide (i32_MIN ≤ n ≤ i32_MAX)%Z = true) in H.
  apply bool_decide_eq_true in H.
  change (parse_cancel_params _) with (i ← as_i64 (Int n); IdInteger <$> i32_try_from i).
  unfold as_i64, i32_try_from, i32_MIN, i32_MAX, i64_MIN, i64_MAX in *.
  rewrite bool_decide_eq_true_2 by lia. cbn [mbind option_bind]. by rewrite bool_decide_eq_true_2 by lia.
Qed.

Section cancellation.
Context `{SJL : SerdeJsonLaws} {TK : Tokio} {TL : TokioLaws TK}.

Lemma cancel_run self w id :
  receiver_open (w_outbound w) = true →
  ∃ self' w', cancel self id w =
      ((Ok (OutgoingRequests_is_pending id (outgoing (request_queue self))), self'), w') ∧
    queued (w_outbound w') = queued (w_outbound w) ++ [cancel_message id] ∧
    outgoing_table self' = delete id (outgoing_table self).
Proof.
  intros Ho. unfold cancel, mbind, St_bind.
  destruct (send_open self (cancel_message id) w Ho) as (w1 & Hs & Hsend).
  unfold cancel_message in Hs. rewrite Hs. run_st. eexists _, _. split; [done|].
  split; [|done]. cbn. apply Hsend.
Qed.

(** C15: a client that cancels request [id] makes the server cancel the token of that
    request and of no other: the notification it queues, encoded, is decoded as
    itself and handled by the server's routing; on the client the request is no
    longer pending. *)
Theorem cancel_end_to_end client wc server ws id :
  receiver_open (w_outbound wc) = true → conn_ok server ws → RequestId_wf id = true →
  sendable (cancel_message id) →
  ∃ client' wc' bs, cancel client id wc =
      ((Ok (OutgoingRequests_is_pending id (outgoing (request_queue client))), client'), wc') ∧
    OutgoingRequests_is_pending id (outgoing (request_queue client')) = false ∧
    queued (w_outbound wc') = queued (w_outbound wc) ++ [cancel_message id] ∧
    encode (cancel_message id) [] = Ok bs ∧
    decode LspCodec_new bs = step_new (Ok (Some (cancel_message id))) LspCodec_new [] ∧
    let '((m, server'), ws') := route server (cancel_message id) ws in
    m = CancelHandled ∧ server' = server ∧
    ∀ i t, incoming_table server !! i = Some t →
      is_cancelled (w_tokens ws') t = is_cancelled (w_tokens ws) t || bool_decide (i = id).
Proof.
  intros Ho Hok Hwf Hsend. destruct (cancel_run client wc id Ho) as (c' & wc' & Hc & Hq & Hout).
  destruct (encode_decode_frame (cancel_message id) [] Hsend) as (bs & Henc & Hdec).
  exists c', wc', bs. split_and!; try done.
  - unfold OutgoingRequests_is_pending. change (out_pending _) with (outgoing_table c').
    by rewrite Hout, lookup_delete_eq.
  - specialize (Hdec []). by rewrite app_nil_r in Hdec.
  - unfold route, cancel_message. rewrite bool_decide_eq_true_2 by done. cbn [notif_params Notification_new].
    rewrite parse_cancel_message by done. unfold mbind, St_bind.
    destruct (cancel_in server id ws) as [b w1] eqn:Hin. unfold mret, St_ret.
    split_and!; try done. by eapply cancel_in_law.
Qed.
End cancellation.

(** ** A handshake over bytes *)

Section handshake.
Context `{SJL : SerdeJsonLaws} {IO : Type} {RD : AsyncRead IO} {WR : AsyncWrite IO}
  {FR : Framed IO} {FL : FramedLaws IO FR} {TK : Tokio} {TL : TokioLaws TK}.

(** The events of a task that awaits the messages a client sent, and nothing else. *)
Definition arrivals (ms : list Message) : list Event := (Received ∘ Some ∘ Ok) <$> ms.

Lemma start_passed_canon m :
  start_passed (Received (Some (Ok m))) → start_passed (Received (Some (Ok (Message_canon m)))).
Proof. by destruct m. Qed.

Lemma finish_passed_canon m :
  finish_passed (Received (Some (Ok m))) → finish_passed (Received (Some (Ok (Message_canon m)))).
Proof. by destruct m. Qed.

Lemma replies_canon ms : replies (arrivals (Message_canon <$> ms)) = replies (arrivals ms).
Proof.
  unfold replies, arrivals. induction ms as [|m ms IH]; [done|]. rewrite !fmap_cons. cbn [concat].
  rewrite IH. by destruct m.
Qed.

Lemma arrivals_canon (P : Event → Prop) ms :
  (∀ m, P (Received (Some (Ok m))) → P (Received (Some (Ok (Message_canon m))))) →
  Forall P (arrivals ms) → Forall P (arrivals (Message_canon <$> ms)).
Proof.
  intros HP. unfold arrivals. rewrite !Forall_fmap. apply List.Forall_impl. intros m. apply HP.
Qed.

(** What a client wrote, however it arrives, is what a task that awaits the stream
    meets, and then the end. *)
Lemma arrivals_of_bytes (io : IO) chunks ms :
  delivers io chunks → Forall sendable ms → encode_all ms = Ok (concat chunks) →
  ∃ k, Received <$> items k (transport io) = arrivals (Message_canon <$> ms) ++ [Received None].
Proof.
  intros Hd Hms Henc.
  destruct (items_run _ _ (run_items _ _ Hd LspCodec_new []) (transport io) (framed_new_law io LspCodec_new))
    as [k Hk]. exists k. cbn [app] in Hk. rewrite <-(app_nil_r (concat chunks)) in Hk.
  rewrite (drain_frames _ _ _ Hms Henc) in Hk. unfold read_items, ending, prepend in Hk. cbn in Hk.
  rewrite Hk, app_nil_r. unfold arrivals. by rewrite fmap_app, <-!list_fmap_compose.
Qed.

(** C14: the bytes of a client that starts a session, in any chunks with any pauses,
    make [initialize] on a new transport complete the handshake: the requests before
    and in between are rejected in order, the capabilities are sent, the parameters
    of the [initialize] request are returned, and exactly the messages sent after
    [initialized] are left to be received. *)
Theorem handshake_over_bytes self caps w (io : IO) chunks pre1 req pre2 n post :
  receiver_open (w_outbound w) = true → delivers io chunks →
  Forall sendable (pre1 ++ MRequest req :: pre2 ++ MNotification n :: post) →
  encode_all (pre1 ++ MRequest req :: pre2 ++ MNotification n :: post) = Ok (concat chunks) →
  Forall start_passed (arrivals pre1) → req_method req = INITIALIZE_METHOD →
  Forall finish_passed (arrivals pre2) → notif_method n = INITIALIZED_METHOD →
  ∃ k w', sends w (replies (arrivals pre1) ++
                   MResponse (Response_ok (req_id req) (initialize_result_of caps)) :: replies (arrivals pre2)) w' ∧
    initialize self caps (Received <$> items k (transport io)) w =
    ((Ready (Ok (default VNull (req_params req))), with_lifecycle Running self,
      arrivals (Message_canon <$> post) ++ [Received None]), w').
Proof.
  intros Ho Hd Hms Henc Hpre1 Hreq Hpre2 Hn.
  destruct (arrivals_of_bytes io chunks _ Hd Hms Henc) as [k Hk]. exists k.
  destruct (initialize_run self caps w (arrivals (Message_canon <$> pre1))
    (Request_new (req_id req) (req_method req) (drop_null (req_params req)))
    (arrivals (Message_canon <$> pre2))) as (w' & Hs & Hrun); try done.
  - by apply arrivals_canon; [apply start_passed_canon|].
  - by apply arrivals_canon; [apply finish_passed_canon|].
  - specialize (Hrun (Received (Some (Ok (Message_canon (MNotification n))))) (Ok ())
      (arrivals (Message_canon <$> post) ++ [Received None]) ltac:(by apply finish_initialized)).
    rewrite !replies_canon in Hs. exists w'. split; [done|]. rewrite Hk. revert Hrun.
    unfold arrivals. rewrite !fmap_app, !fmap_cons, !fmap_app, !fmap_cons, <-!app_assoc.
    cbn [app]. rewrite <-!app_assoc. destruct req as [i m p]. by destruct p as [[]|].
Qed.
End handshake.

(** ** What the peer has received *)

Section peer.
Context `{SJL : SerdeJsonLaws} {TK : Tokio} {TL : TokioLaws TK}.

Lemma encode_all_prefix ms1 ms2 bs :
  encode_all (ms1 ++ ms2) = Ok bs → ∃ bs1, encode_all ms1 = Ok bs1 ∧ bs1 `prefix_of` bs.
Proof.
  unfold encode_all. rewrite foldM_app. intros (bs1 & H1 & H2)%bind_Ok. exists bs1. split; [done|].
  clear H1. revert bs1 bs H2. induction ms2 as [|m ms2 IH]; intros bs1 bs; cbn [foldM]; [by intros [= <-]|].
  intros (bs2 & Hm & H2)%bind_Ok. transitivity bs2; [|by apply (IH _ _ H2)].
  unfold encode in Hm. destruct (map_err _ _); cbn in Hm; [|done..]. injection Hm as <-. by apply prefix_app_r.
Qed.

(** Of the bytes that arrive, more give more messages. *)
Lemma feed_prefix chunks1 chunks2 :
  concat chunks1 `prefix_of` concat chunks2 → status (feed chunks2) = Ok () →
  messages (feed chunks1) `prefix_of` messages (feed chunks2) ∧ status (feed chunks1) = Ok ().
Proof.
  rewrite !feed_drain. intros [more ->]. rewrite drain_more.
  destruct (status (Framing.drain LspCodec_new (concat chunks1))) as [[]|e|]; cbn; try done.
  intros _. split; [by apply prefix_app_r|done].
Qed.

(** A decoder that read no message and stands between two frames with nothing left
    was given nothing. *)
Lemma drain_nothing c src :
  Framing.drain c src = drained_new [] (Ok ()) LspCodec_new [] → src = [].
Proof.
  rewrite drain_unfold. destruct (decode c src) as [[[m|]|e|] c' src'] eqn:Hd; try done.
  intros [= -> ->]. revert Hd. unfold decode, decode_body.
  repeat case_match; intros; simplify_eq; try done; by destruct (message_from_slice _).
Qed.

(** No frame is read before its last byte is there. *)
Lemma frames_arrived ms bs src :
  Forall sendable ms → encode_all ms = Ok bs → src `prefix_of` bs →
  length ms ≤ length (messages (Framing.drain LspCodec_new src)) → src = bs.
Proof.
  intros Hms Hbs [more ->] Hlen.
  pose proof (drain_frames _ _ [] Hms Hbs) as Hall. rewrite app_nil_r, drain_more in Hall.
  destruct (status (Framing.drain LspCodec_new src)) as [u|e|]; [|by injection Hall..].
  destruct (Framing.drain (codec _) _) as [ms2 st c2 b2] eqn:Hd.
  unfold prepend in Hall. cbn [messages status codec buffer] in Hall.
  change (Framing.drain LspCodec_new []) with (drained_new [] (Ok ()) LspCodec_new []) in Hall.
  cbn [messages status codec buffer] in Hall. rewrite app_nil_r in Hall. injection Hall as Hm -> -> ->.
  assert (ms2 = []) as -> by (apply (f_equal length) in Hm; rewrite length_app, length_fmap in Hm;
    apply nil_length_inv; lia).
  apply drain_nothing, app_nil in Hd as [_ ->]. by rewrite app_nil_r.
Qed.

Lemma feed_encoded ms bs :
  Forall sendable ms → encode_all ms = Ok bs →
  messages (feed [bs]) = Message_canon <$> ms ∧ status (feed [bs]) = Ok ().
Proof.
  intros Hms Hbs. rewrite feed_drain. cbn [concat]. rewrite (drain_frames _ _ _ Hms Hbs).
  cbn. by rewrite app_nil_r.
Qed.

Lemma prefix_length_fmap (ms : list Message) l :
  (Message_canon <$> ms) `prefix_of` l → length ms ≤ length l.
Proof. intros H%prefix_length. by rewrite length_fmap in H. Qed.

(** C12: of the messages that the senders of a connection have queued, the peer reads
    an initial part, in order, unaltered and without an error, whatever initial part
    of their frames has reached it in whatever chunks.  A message is among those it
    has read exactly when its frame has arrived in full: when the bytes of the
    successful writes have arrived it has read all the messages they wrote, and a
    frame that arrives only in part, as after a write that failed, adds nothing. *)
Theorem peer_receives acc s ba :
  history acc s → Forall sendable acc → encode_all acc = Ok ba →
  ∃ bw, encode_all (wire s) = Ok bw ∧
    ∀ chunks, concat chunks `prefix_of` ba →
      messages (feed chunks) `prefix_of` (Message_canon <$> acc) ∧ status (feed chunks) = Ok () ∧
      (bw `prefix_of` concat chunks → (Message_canon <$> wire s) `prefix_of` messages (feed chunks)) ∧
      ∀ ms bs, ms `prefix_of` acc → encode_all ms = Ok bs →
        (Message_canon <$> ms) `prefix_of` messages (feed chunks) ↔ bs `prefix_of` concat chunks.
Proof.
  intros Hh Hsend Hba. destruct (history_fifo _ _ Hh) as [Hwire _].
  assert (∀ ms, ms `prefix_of` acc → Forall sendable ms) as Hpre.
  { intros ms [rest ->]. by apply Forall_app in Hsend as [? _]. }
  assert (∃ bw, encode_all (wire s) = Ok bw) as [bw Hbw].
  { destruct Hwire as [rest ->]. by destruct (encode_all_prefix _ _ _ Hba) as (bw & ? & _); exists bw. }
  exists bw. split; [done|]. intros chunks Hc. destruct (feed_encoded _ _ Hsend Hba) as [Hall Hok].
  destruct (feed_prefix chunks [ba]) as [Hp Hs]; [by rewrite concat_cons, app_nil_r|done|].
  rewrite Hall in Hp.
  assert (∀ ms bs, ms `prefix_of` acc → encode_all ms = Ok bs → bs `prefix_of` concat chunks →
    (Message_canon <$> ms) `prefix_of` messages (feed chunks)) as Hread.
  { intros ms bs Hms Hbs Hle. rewrite <-(proj1 (feed_encoded _ _ (Hpre _ Hms) Hbs)).
    apply feed_prefix; [by rewrite concat_cons, app_nil_r|done]. }
  split_and!; try done; [by apply Hread|]. intros ms bs Hms Hbs. split; [|by apply Hread].
  intros Hle%prefix_length_fmap. rewrite feed_drain in Hle.
  assert (bs `prefix_of` ba) as Hbs'.
  { destruct Hms as [rest ->]. destruct (encode_all_prefix _ _ _ Hba) as (b1 & Hb1 & ?). congruence. }
  destruct (prefix_weak_total _ _ _ Hc Hbs') as [H|H]; [|done].
  by rewrite (frames_arrived _ _ _ (Hpre _ Hms) Hbs H Hle).
Qed.
End peer.

(** ** Error responses *)

Lemma error_response_roundtrip id code message :
  RequestId_wf id = true →
  Message_deserialize (Message_serialize (MResponse (Response_err id (ResponseError_new code message)))) =
  Ok (MResponse (Response_err id (ResponseError_new code message))).
Proof.
  intros Hid. rewrite Message_roundtrip; [done|]. cbn. unfold Response_wf, ResponseError_wf. cbn.
  rewrite Hid. by destruct code.
Qed.

(** The error responses the crate builds, for a request it does not know, a
    request that was cancelled or one that comes too early, are read by the client
    as error responses to that very request, with the code that says so. *)
Theorem error_responses_recognised req :
  RequestId_wf (req_id req) = true →
  Forall (λ '(resp, code),
    ∃ r, Message_deserialize (Message_serialize (MResponse resp)) = Ok (MResponse r) ∧
      resp_id r = Some (req_id req) ∧ Response_is_err r = true ∧
      (Response_error r ≫= ResponseError_error_code) = Some code)
    [(method_not_found_response req, MethodNotFound);
     (cancelled_response (req_id req), RequestCancelled);
     (not_initialized_response (req_id req), ServerNotInitialized)].
Proof.
  intros Hid. repeat constructor; eexists; (split; [by apply error_response_roundtrip|done]).
Qed.
(** ** Examples *)

Lemma error_responses_recognised_witness :
  ∃ r, Message_deserialize (Message_serialize (MResponse
         (method_not_found_response (Request_new (IdString "a") "nope" None)))) = Ok (MResponse r) ∧
    (Response_error r ≫= ResponseError_error_code) = Some MethodNotFound.
Proof.
  pose proof (error_responses_recognised (Request_new (IdString "a") "nope" None) eq_refl) as H.
  apply Forall_cons_iff in H as [(r & Hr & _ & _ & Hc) _]. by exists r.
Defined.

Lemma cancel_end_to_end_witness :
  let '((m, _), ws') := route serving_five.1 (cancel_message (IdInteger 5)) serving_five.2 in
  m = CancelHandled ∧
  is_cancelled (Tokio := model_tokio) (w_tokens ws') 2 = true ∧
  is_cancelled (Tokio := model_tokio) (w_tokens ws') 3 = false.
Proof.
  destruct (cancel_end_to_end (TL := model_tokio_laws) serving_five.1 serving_five.2 serving_five.1 serving_five.2 (IdInteger 5)
    eq_refl serving_five_ok eq_refl) as (c' & w' & bs & _ & _ & _ & _ & _ & H).
  - split_and!; [done|by vm_compute|]. intros body Hb. vm_compute in Hb. injection Hb as <-. by vm_compute.
  - destruct (route _ _ _) as [[m server'] ws']. destruct H as (-> & _ & Ht). split; [done|]. split.
    + by rewrite (Ht (IdInteger 5) 2 eq_refl).
    + by rewrite (Ht (IdString "six") 3 eq_refl).
Defined.

(** A client that asks too early, starts the session and then opens a document. *)
Definition early : Message := MRequest (Request_new (IdString "h") "textDocument/hover" None).
Definition start_request : Request :=
  Request_new (IdInteger 1) INITIALIZE_METHOD (Some (VObject [("rootUri", VNull)])).
Definition started : Notification := Notification_new INITIALIZED_METHOD (Some (VObject [])).
Definition opened : Message := MNotification (Notification_new "textDocument/didOpen" (Some (VArray []))).

Definition session : list Message := [early; MRequest start_request; MNotification started; opened].
Definition session_bytes : bytes := default [] (ok (encode_all session)).

Lemma session_sendable : Forall sendable session.
Proof. repeat constructor; by apply sendable_compute; vm_compute. Qed.

Lemma session_encoded : encode_all session = Ok (concat [take 100 session_bytes; drop 100 session_bytes]).
Proof. by vm_compute. Qed.

Lemma handshake_over_bytes_witness :
  ∃ k w', (initialize (conn start) (VObject []) (Received <$>
      items k (transport (script [take 100 session_bytes; drop 100 session_bytes]))) (world start)).1 =
    (Ready (Ok (VObject [("rootUri", VNull)])), with_lifecycle Running (conn start),
      arrivals [opened] ++ [Received None]) ∧
    queued (w_outbound (world start)) ++
      [MResponse (not_initialized_response (IdString "h"));
       MResponse (Response_ok (IdInteger 1) (VObject [("capabilities", VObject [])]))] =
    queued (w_outbound w').
Proof.
  destruct (handshake_over_bytes (TL := model_tokio_laws) (conn start) (VObject []) (world start)
    (script [take 100 session_bytes; drop 100 session_bytes])
    [take 100 session_bytes; drop 100 session_bytes] [early] start_request [] started [opened])
    as (k & w' & Hs & Hrun).
  - reflexivity.
  - apply script_delivers. repeat constructor; by vm_compute.
  - exact session_sendable.
  - exact session_encoded.
  - repeat constructor. by vm_compute.
  - reflexivity.
  - constructor.
  - reflexivity.
  - exists k, w'. split; [by rewrite Hrun|]. symmetry. apply Hs.
Defined.

(** Two requests accepted, one of them written, the peer in the middle of the second. *)
Definition half_written : list action := ask ++ [ActRecv; ActSent; ActConn (OpShutdown (IdInteger 9)); ActRecv].
Definition queued_messages : list Message := accepted [] half_written start.
Definition queued_bytes : bytes := default [] (ok (encode_all queued_messages)).

Lemma half_written_history : history (accepted [] half_written start) (after half_written).
Proof. eapply exec_history; [apply start_history|]. vm_compute. reflexivity. Qed.

Lemma queued_sendable : Forall sendable queued_messages.
Proof.
  assert (queued_messages = [MRequest (Request_new (IdInteger 1) "window/showMessageRequest" None);
    MResponse (Response_ok (IdInteger 9) VNull)]) as -> by (vm_compute; reflexivity).
  repeat constructor; by apply sendable_compute; vm_compute.
Qed.

Lemma queued_encoded : encode_all queued_messages = Ok queued_bytes.
Proof. vm_compute. reflexivity. Qed.

Lemma wire_encoded : encode_all (wire (after half_written)) = Ok (take 83 queued_bytes).
Proof. vm_compute. reflexivity. Qed.

Lemma half_written_prefix : wire (after half_written) `prefix_of` queued_messages.
Proof. exists (drop 1 queued_messages). by vm_compute. Qed.

(** One frame and a part of the second have arrived; then only a part of the first. *)
Lemma peer_receives_witness :
  let chunks := [take 30 queued_bytes; take 70 (drop 30 queued_bytes)] in
  (Message_canon <$> wire (after half_written)) `prefix_of` messages (feed chunks) ∧
  messages (feed chunks) `prefix_of` (Message_canon <$> queued_messages) ∧ status (feed chunks) = Ok () ∧
  ¬ (Message_canon <$> wire (after half_written)) `prefix_of` messages (feed [take 30 queued_bytes]).
Proof.
  cbv zeta.
  destruct (peer_receives (TL := model_tokio_laws) queued_messages (after half_written) queued_bytes
    half_written_history queued_sendable queued_encoded) as (bw & Hbw & H).
  assert (∀ b1 b2 : bytes, @Ok io_error bytes b1 = Ok b2 → b1 = b2) as Hinj by (by intros b1 b2 [= ->]).
  rewrite wire_encoded in Hbw. apply Hinj in Hbw. subst bw.
  destruct (H [take 30 queued_bytes; take 70 (drop 30 queued_bytes)]) as (H1 & H2 & H3 & _);
    [by exists (drop 100 queued_bytes); vm_compute|].
  destruct (H [take 30 queued_bytes]) as (_ & _ & _ & H4); [by exists (drop 30 queued_bytes); vm_compute|].
  split_and!; [|exact H1|exact H2|].
  - apply H3. by exists (take 17 (drop 83 queued_bytes)); vm_compute.
  - rewrite (H4 _ _ half_written_prefix wire_encoded). intros Hle%prefix_length. by vm_compute in Hle; lia.
Defined.
