(* ===== verification/Document.v ===== *)
(** * Document: the text of a document and its positions, in
    [examples/formatter_server.rs].

    A position of the protocol is a line and a column in UTF-16 code units; the
    contents of a document is a Rust string, cut at byte offsets.  [None] stands
    for a panic: an index out of range, a slice that is not at a character
    boundary, or a [u32] overflow.  The theorems show that a document of at most
    [u32::MAX] bytes meets none of them, so that the build profile (checked or
    wrapping overflow) makes no difference. *)

From S2P Require Import Prelude RustStd.

(** [lsp_types::Position], [Range], [TextEdit] and
    [TextDocumentContentChangeEvent]; [range_length] is not used. *)
Record Position : Set := position_new { line : N; character : N }.
Record Range : Set := range_new { range_start : Position; range_end : Position }.
Record TextEdit : Set := edit_new { edit_range : Range; new_text : str }.
Record TextDocumentContentChangeEvent : Set := change_new {
  change_range : option Range;
  change_text : str;
}.

Record DocumentState : Set := document_new { content : str; version : Z }.

Definition NL : N := 10.
Definition CR : N := 13.

(** ** Positions and offsets *)

(** The [b'\r'] arms: past the carriage return, and past a line feed after it. *)
Definition after_cr (bytes : list N) (offset : nat) : option nat :=
  let offset := offset + 1 in
  if offset <? length bytes then
    b ← bytes !! offset;
    Some (if (b =? NL)%N then offset + 1 else offset)
  else Some offset.

(** The loop of [line_start_offset]; every round advances the offset, so as many
    rounds as there are bytes, and one, are enough. *)
Fixpoint line_start_loop (fuel : nat) (content : str) (target_line : N) (offset : nat)
    (current_line : N) : option (nat * N) :=
  match fuel with
  | O => None
  | S fuel =>
    let bytes := as_bytes content in
    if (offset <? length bytes) && (current_line <? target_line)%N then
      b ← bytes !! offset;
      if (b =? NL)%N then
        current_line ← u32_add current_line 1;
        line_start_loop fuel content target_line (offset + 1) current_line
      else if (b =? CR)%N then
        offset ← after_cr bytes offset;
        current_line ← u32_add current_line 1;
        line_start_loop fuel content target_line offset current_line
      else
        rest ← slice_from content offset;
        line_start_loop fuel content target_line
          (offset + match head rest with Some ch => len_utf8 ch | None => 1 end) current_line
    else Some (offset, current_line)
  end.

Definition line_start_offset (content : str) (target_line : N) : option nat :=
  '(offset, current_line) ← line_start_loop (S (str_len content)) content target_line 0 0;
  Some (if (current_line =? target_line)%N then offset else str_len content).

(** The loop of [position_to_offset] over the characters of the line. *)
Fixpoint column_loop (chars : str) (column : N) (offset : nat) (utf16_units : N) : option nat :=
  match chars with
  | [] => Some offset
  | ch :: chars =>
    if (ch =? NL)%N || (ch =? CR)%N then Some offset
    else
      next_units ← u32_add utf16_units (len_utf16 ch);
      if (column <? next_units)%N then Some offset
      else column_loop chars column (offset + len_utf8 ch) next_units
  end.

Definition position_to_offset (content : str) (pos : Position) : option nat :=
  line_start ← line_start_offset content (line pos);
  if str_len content <=? line_start then Some (str_len content)
  else
    rest ← slice_from content line_start;
    column_loop rest (character pos) line_start 0.

(** The loop of [end_position_utf16]. *)
Fixpoint end_position_loop (fuel : nat) (content : str) (offset : nat) (position : Position) :
    option Position :=
  match fuel with
  | O => None
  | S fuel =>
    let bytes := as_bytes content in
    if offset <? length bytes then
      b ← bytes !! offset;
      if (b =? NL)%N then
        line ← u32_add (line position) 1;
        end_position_loop fuel content (offset + 1) (position_new line 0)
      else if (b =? CR)%N then
        offset ← after_cr bytes offset;
        line ← u32_add (line position) 1;
        end_position_loop fuel content offset (position_new line 0)
      else
        rest ← slice_from content offset;
        match head rest with
        | Some ch =>
          character ← u32_add (character position) (len_utf16 ch);
          end_position_loop fuel content (offset + len_utf8 ch) (position_new (line position) character)
        | None => Some position
        end
    else Some position
  end.

Definition end_position_utf16 (content : str) : option Position :=
  end_position_loop (S (str_len content)) content 0 (position_new 0 0).

(** ** Edits *)

(** One change of [apply_incremental_changes]. The capacity reserved for the new
    contents is not modelled. *)
Definition apply_change (doc : DocumentState) (change : TextDocumentContentChangeEvent) :
    option DocumentState :=
  match change_range change with
  | Some range =>
    start_offset ← position_to_offset (content doc) (range_start range);
    end_offset ← position_to_offset (content doc) (range_end range);
    if (start_offset <=? end_offset) && (end_offset <=? str_len (content doc)) then
      before ← slice_to (content doc) start_offset;
      after ← slice_from (content doc) end_offset;
      Some (document_new (before ++ change_text change ++ after) (version doc))
    else Some doc
  | None => Some (document_new (change_text change) (version doc))
  end.

Definition apply_incremental_changes (doc : DocumentState)
    (changes : list TextDocumentContentChangeEvent) : option DocumentState :=
  foldl (λ doc change, doc ≫= λ doc, apply_change doc change) (Some doc) changes.

(** [create_uppercase_edit]; [str::to_uppercase] follows the Unicode tables, which
    are an argument. *)
Definition create_uppercase_edit (to_uppercase : str → str) (content : str) :
    option (list TextEdit) :=
  if bool_decide (content = []) then Some []
  else
    end_ ← end_position_utf16 content;
    Some [edit_new (range_new (position_new 0 0) end_) (to_uppercase content)].

(** ** Specification: the lines of a text

    A text is a list of lines, each with its terminator; the last line has none. *)

Fixpoint split_lines (s : str) : list (str * str) :=
  match s with
  | [] => [([], [])]
  | c :: s1 =>
    if (c =? NL)%N then ([], [NL]) :: split_lines s1
    else if (c =? CR)%N then
      match s1 with
      | d :: s2 => if (d =? NL)%N then ([], [CR; NL]) :: split_lines s2
                   else ([], [CR]) :: split_lines s1
      | [] => ([], [CR]) :: split_lines s1
      end
    else
      match split_lines s1 with
      | (t, e) :: ls => (c :: t, e) :: ls
      | [] => [([c], [])]
      end
  end.

Definition line_text (l : str * str) : str := l.1 ++ l.2.

(** The length of a text in UTF-16 code units, and its longest prefix of at most
    [units] of them. *)
Fixpoint utf16_len (s : str) : N :=
  match s with [] => 0 | c :: s' => len_utf16 c + utf16_len s' end.

Fixpoint utf16_prefix (units : N) (s : str) : str :=
  match s with
  | [] => []
  | c :: s' => if (len_utf16 c <=? units)%N then c :: utf16_prefix (units - len_utf16 c) s' else []
  end.

(** The text before a position: the lines before its line, and the prefix of its
    line; a position after the last line is the end of the text. *)
Definition text_before (s : str) (pos : Position) : str :=
  match split_lines s !! N.to_nat (line pos) with
  | Some (text, _) =>
    (take (N.to_nat (line pos)) (split_lines s) ≫= line_text) ++ utf16_prefix (character pos) text
  | None => s
  end.

(** The position of the end of a text. *)
Definition end_position (s : str) : Position :=
  position_new (N.of_nat (length (split_lines s) - 1))
    (utf16_len (List.last (split_lines s) ([], [])).1).

(** The order of positions in a document. *)
Definition position_le (p q : Position) : Prop :=
  (line p < line q ∨ line p = line q ∧ character p ≤ character q)%N.

(** A [u32] position, and a document whose size fits [u32]. *)
Definition small (s : str) : Prop := (N.of_nat (str_len s) ≤ u32_MAX)%N.

(** ** Lemmas: the structure of a text *)

(** [e] is a line terminator in front of [s]. *)
Definition eol (e s : str) : Prop :=
  e = [NL] ∨ e = [CR; NL] ∨ (e = [CR] ∧ head s ≠ Some NL).

Lemma eol_length e s : eol e s → 1 ≤ length e ∧ 1 ≤ str_len e.
Proof. intros [->|[->|[-> _]]]; simpl; lia. Qed.

Lemma eol_cr e s : eol e s → e ≠ [NL] → ∃ e', e = CR :: e'.
Proof. intros [->|[->|[-> _]]]; eauto; done. Qed.

Lemma split_lines_eol e s : eol e s → split_lines (e ++ s) = ([], e) :: split_lines s.
Proof.
  intros [->|[->|[-> Hs]]]; [done..|]. simpl. destruct s as [|d s]; [done|].
  destruct (N.eqb_spec d NL) as [->|]; [done|]. done.
Qed.

Lemma split_lines_cases s : ∃ t e ls, split_lines s = (t, e) :: ls.
Proof.
  destruct s as [|c s]; simpl; [eauto|]. repeat case_match; eauto.
Qed.

Lemma split_lines_char c s t e ls :
  c ≠ NL → c ≠ CR → split_lines s = (t, e) :: ls → split_lines (c :: s) = (c :: t, e) :: ls.
Proof. intros H1%N.eqb_neq H2%N.eqb_neq Hs. simpl. by rewrite H1, H2, Hs. Qed.

(** Induction along the loops: over terminators and the other characters. *)
Lemma text_ind (P : str → Prop) :
  P [] → (∀ e s, eol e s → P s → P (e ++ s)) →
  (∀ c s, c ≠ NL → c ≠ CR → P s → P (c :: s)) → ∀ s, P s.
Proof.
  intros Hnil Heol Hchar s.
  remember (length s) as n eqn:Hn. revert s Hn.
  induction (lt_wf n) as [n _ IH]. intros [|c s] ->; [done|].
  destruct (decide (c = NL)) as [->|Hnl].
  { apply (Heol [NL]); [by left|]. eapply IH; [|done]. simpl. lia. }
  destruct (decide (c = CR)) as [->|Hcr]; [|apply Hchar; [done..|]; eapply IH; [|done]; simpl; lia].
  destruct (decide (head s = Some NL)) as [Hs|Hs].
  - destruct s as [|d s]; simplify_eq/=. apply (Heol [CR; NL]); [by right; left|].
    eapply IH; [|done]. lia.
  - apply (Heol [CR]); [by right; right|]. eapply IH; [|done]. simpl. lia.
Qed.

Lemma lines_text s : split_lines s ≫= line_text = s.
Proof.
  induction s as [|e s He IH|c s H1 H2 IH] using text_ind; [done|by rewrite split_lines_eol, bind_cons, IH|].
  destruct (split_lines_cases s) as (t & e & ls & Hs). rewrite (split_lines_char _ _ _ _ _ H1 H2 Hs).
  rewrite Hs, bind_cons in IH. rewrite bind_cons. by rewrite <-IH.
Qed.

(** The lines from line [k] on are the lines of the text from there. *)
Lemma split_lines_drop s k :
  k < length (split_lines s) →
  split_lines (drop k (split_lines s) ≫= line_text) = drop k (split_lines s).
Proof.
  revert k. induction s as [|e s He IH|c s H1 H2 IH] using text_ind; intros [|k] Hk;
    try (rewrite drop_0, lines_text; done).
  - simpl in Hk. lia.
  - rewrite split_lines_eol in * by done. apply IH. simpl in Hk. lia.
  - destruct (split_lines_cases s) as (t & e & ls & Hs).
    rewrite (split_lines_char _ _ _ _ _ H1 H2 Hs) in *. rewrite Hs in IH. by apply (IH (S k)).
Qed.

Lemma split_lines_length s : length (split_lines s) ≤ S (str_len s).
Proof.
  induction s as [|e s He IH|c s H1 H2 IH] using text_ind; [done| |].
  - destruct (eol_length e s He). rewrite split_lines_eol, str_len_app by done. simpl. lia.
  - destruct (split_lines_cases s) as (t & e & ls & Hs).
    rewrite (split_lines_char _ _ _ _ _ H1 H2 Hs). rewrite Hs in IH. simpl in *. lia.
Qed.

Lemma utf16_len_app s t : utf16_len (s ++ t) = (utf16_len s + utf16_len t)%N.
Proof. induction s as [|c s IH]; simpl; lia. Qed.

Lemma utf16_len_bound s : (utf16_len s ≤ N.of_nat (str_len s))%N.
Proof. induction s as [|c s IH]; simpl; [done|]. pose proof (len_utf16_bound c). lia. Qed.

Lemma utf16_prefix_of units s : utf16_prefix units s `prefix_of` s.
Proof.
  revert units. induction s as [|c s IH]; intros units; simpl; [done|].
  case_match; [by apply prefix_cons|by apply prefix_nil].
Qed.

Lemma utf16_prefix_mono m n s : (m ≤ n)%N → utf16_prefix m s `prefix_of` utf16_prefix n s.
Proof.
  revert m n. induction s as [|c s IH]; intros m n Hmn; simpl; [done|].
  destruct (N.leb_spec (len_utf16 c) m); [|by apply prefix_nil].
  rewrite (proj2 (N.leb_le _ _)) by lia. apply prefix_cons, IH. lia.
Qed.

Lemma utf16_prefix_app s t : utf16_prefix (utf16_len s) (s ++ t) = s.
Proof.
  induction s as [|c s IH]; simpl.
  - destruct t as [|c t]; [done|]. simpl. pose proof (len_utf16_bound c).
    by rewrite (proj2 (N.leb_gt _ _)) by lia.
  - rewrite (proj2 (N.leb_le _ _)) by lia. f_equal.
    etrans; [|exact IH]. f_equal. lia.
Qed.

(** ** Lemmas: the loops *)

Lemma byte_at pre c rest :
  ∃ b, as_bytes (pre ++ c :: rest) !! str_len pre = Some b ∧
    (b =? NL)%N = (c =? NL)%N ∧ (b =? CR)%N = (c =? CR)%N.
Proof.
  destruct (as_bytes_lookup pre c rest) as (b & Hb & H). exists b. split; [done|].
  unfold NL, CR. destruct H as [[_ ->]|[Hc Hb']]; [done|].
  split; rewrite (proj2 (N.eqb_neq _ _)) by lia; symmetry; apply N.eqb_neq; lia.
Qed.

Lemma after_cr_eol pre e s :
  eol e s → head e = Some CR →
  after_cr (as_bytes (pre ++ e ++ s)) (str_len pre) = Some (str_len (pre ++ e)).
Proof.
  intros He Hcr. unfold after_cr. rewrite as_bytes_length, str_len_app, Nat.add_1_r.
  destruct He as [->|[->|[-> Hs]]]; [done| |].
  - rewrite !str_len_app. rewrite (proj2 (Nat.ltb_lt _ _)) by (simpl; lia).
    destruct (byte_at (pre ++ [CR]) NL s) as (b & Hb & Hnl & _).
    rewrite <-app_assoc, str_len_app, Nat.add_1_r in Hb. simpl in *. rewrite Hb. simpl.
    rewrite Hnl. simpl. f_equal. lia.
  - destruct s as [|d s].
    + rewrite !str_len_app. simpl. rewrite (proj2 (Nat.ltb_ge _ _)) by lia. f_equal. lia.
    + rewrite !str_len_app. pose proof (len_utf8_pos d).
      rewrite (proj2 (Nat.ltb_lt _ _)) by (simpl; lia).
      destruct (byte_at (pre ++ [CR]) d s) as (b & Hb & Hnl & _).
      rewrite <-app_assoc, str_len_app, Nat.add_1_r in Hb. simpl in *. rewrite Hb. simpl.
      rewrite Hnl. destruct (N.eqb_spec d NL) as [->|]; [done|]. f_equal. lia.
Qed.

(** One round of a loop at the offset of [rest]. *)
Lemma line_round_eol fuel pre e s target current :
  eol e s → (current < target)%N →
  line_start_loop (S fuel) (pre ++ e ++ s) target (str_len pre) current =
  current ← u32_add current 1;
  line_start_loop fuel ((pre ++ e) ++ s) target (str_len (pre ++ e)) current.
Proof.
  intros He Hlt. rewrite <-app_assoc. cbn [line_start_loop].
  rewrite (proj2 (N.ltb_lt _ _) Hlt), as_bytes_length, (proj2 (Nat.ltb_lt _ _)).
  2: { destruct (eol_length e s He). rewrite !str_len_app. lia. }
  cbn [andb]. destruct (decide (e = [NL])) as [->|Hne].
  - destruct (byte_at pre NL s) as (b & Hb & Hnl & _). cbn [app] in *. rewrite Hb.
    cbn [mbind option_bind]. rewrite Hnl. by rewrite str_len_app.
  - destruct (eol_cr e s He Hne) as [e' E].
    destruct (byte_at pre CR (e' ++ s)) as (b & Hb & Hnl & Hcr).
    pose proof (after_cr_eol pre e s He) as Ha. rewrite E in *. cbn [app head] in *.
    rewrite Hb. cbn [mbind option_bind]. rewrite Hnl, Hcr. simpl. by rewrite Ha.
Qed.

Lemma line_round_char fuel pre c s target current :
  c ≠ NL → c ≠ CR → (current < target)%N →
  line_start_loop (S fuel) (pre ++ c :: s) target (str_len pre) current =
  line_start_loop fuel ((pre ++ [c]) ++ s) target (str_len (pre ++ [c])) current.
Proof.
  intros Hnl Hcr Hlt. rewrite <-app_assoc. cbn [line_start_loop].
  rewrite (proj2 (N.ltb_lt _ _) Hlt), as_bytes_length, (proj2 (Nat.ltb_lt _ _)).
  2: { rewrite str_len_app. simpl. pose proof (len_utf8_pos c). lia. }
  cbn [andb]. destruct (byte_at pre c s) as (b & Hb & Hbn & Hbc). rewrite Hb.
  cbn [mbind option_bind]. rewrite Hbn, Hbc, (proj2 (N.eqb_neq _ _) Hnl), (proj2 (N.eqb_neq _ _) Hcr).
  rewrite slice_from_app, str_len_app.
  cbn [head mbind option_bind str_len app]. by rewrite Nat.add_0_r.
Qed.

Lemma line_loop_stop fuel content target offset current :
  str_len content ≤ offset ∨ (target ≤ current)%N →
  line_start_loop (S fuel) content target offset current = Some (offset, current).
Proof.
  intros H. cbn [line_start_loop]. rewrite as_bytes_length.
  destruct (Nat.ltb_spec offset (str_len content)), (N.ltb_spec current target); try done.
  destruct H; lia.
Qed.

Lemma line_loop_spec rest pre fuel target current :
  length rest < fuel → (current ≤ target)%N →
  (current + N.of_nat (length (split_lines rest)) ≤ N.succ u32_MAX)%N →
  line_start_loop fuel (pre ++ rest) target (str_len pre) current =
  Some (str_len (pre ++ (take (N.to_nat (target - current)) (split_lines rest) ≫= line_text)),
        N.min target (current + N.of_nat (length (split_lines rest) - 1))).
Proof.
  revert pre fuel current.
  induction rest as [|e s He IH|c s H1 H2 IH] using text_ind; intros pre [|fuel] current Hf Hle Hb;
    try (simpl in Hf; lia);
    (destruct (N.eq_dec current target) as [->|Hne];
      [rewrite line_loop_stop by lia; f_equal; f_equal; [|lia];
       by rewrite N.sub_diag, take_0, app_nil_r|]).
  - rewrite line_loop_stop by (left; by rewrite app_nil_r). f_equal. f_equal; [|simpl; lia].
    f_equal. destruct (N.to_nat (target - current)) as [|k]; simpl; rewrite ?take_nil; simpl;
      by rewrite app_nil_r.
  - rewrite line_round_eol by (done || lia). rewrite split_lines_eol in * by done.
    cbn [length] in *. destruct (split_lines_cases s) as (t' & e' & ls & Hs).
    assert (1 ≤ length (split_lines s)) by (rewrite Hs; simpl; lia).
    rewrite u32_add_Some by lia. cbn [mbind option_bind].
    rewrite length_app in Hf. destruct (eol_length e s He).
    rewrite IH by lia. f_equal. f_equal; [|lia].
    assert (N.to_nat (target - current) = S (N.to_nat (target - (current + 1)))) as -> by lia.
    rewrite firstn_cons, bind_cons. by rewrite <-app_assoc.
  - rewrite line_round_char by (done || lia).
    destruct (split_lines_cases s) as (t & e & ls & Hs). rewrite IH; clear IH.
    + rewrite (split_lines_char _ _ _ _ _ H1 H2 Hs), Hs. f_equal. f_equal.
      destruct (N.to_nat (target - current)) as [|k] eqn:E; [lia|].
      rewrite !firstn_cons, !bind_cons, <-!app_assoc. done.
    + simpl in Hf. lia.
    + done.
    + rewrite (split_lines_char _ _ _ _ _ H1 H2 Hs) in Hb. by rewrite Hs.
Qed.

(** [line_start_offset] gives the length of the lines before. *)
Lemma line_start_spec content target :
  small content →
  line_start_offset content target =
  Some (str_len (take (N.to_nat target) (split_lines content) ≫= line_text)).
Proof.
  intros Hs. unfold line_start_offset, small in *.
  pose proof (split_lines_length content). pose proof (length_str_len content).
  pose proof (line_loop_spec content [] (S (str_len content)) target 0) as E. cbn [app str_len] in E.
  rewrite E by lia. cbn [mbind option_bind]. rewrite N.sub_0_r. f_equal.
  case_match eqn:Ht; [done|]. apply N.eqb_neq in Ht.
  rewrite take_ge by lia. by rewrite lines_text.
Qed.

Lemma column_loop_spec s t e ls column offset units :
  split_lines s = (t, e) :: ls → (units ≤ column)%N → (units + utf16_len t ≤ u32_MAX)%N →
  column_loop s column offset units = Some (offset + str_len (utf16_prefix (column - units) t)).
Proof.
  revert t offset units. induction s as [|e' s He IH|c s H1 H2 IH] using text_ind;
    intros t offset units Hs Hu Hb.
  - simplify_eq/=. f_equal. lia.
  - rewrite split_lines_eol in Hs by done. simplify_eq.
    destruct He as [->|[->|[-> _]]]; simpl; f_equal; lia.
  - destruct (split_lines_cases s) as (t' & e' & ls' & Hs').
    rewrite (split_lines_char _ _ _ _ _ H1 H2 Hs') in Hs. simplify_eq. cbn [column_loop utf16_prefix utf16_len] in *.
    rewrite (proj2 (N.eqb_neq _ _) H1), (proj2 (N.eqb_neq _ _) H2). cbn [orb].
    rewrite u32_add_Some by lia. cbn [mbind option_bind].
    destruct (N.leb_spec (len_utf16 c) (column - units)).
    + rewrite (proj2 (N.ltb_ge _ _)) by lia. rewrite (IH t') by (done || lia).
      f_equal. simpl. rewrite <-Nat.add_assoc. do 3 f_equal. f_equal. lia.
    + rewrite (proj2 (N.ltb_lt _ _)) by lia. f_equal. simpl. lia.
Qed.

Lemma str_len_nil s : str_len s = 0 → s = [].
Proof. destruct s as [|c s]; [done|]. simpl. pose proof (len_utf8_pos c). lia. Qed.

Lemma position_to_offset_run content pos :
  small content → position_to_offset content pos = Some (str_len (text_before content pos)).
Proof.
  intros Hsm. unfold position_to_offset, text_before. rewrite line_start_spec by done.
  cbn [mbind option_bind]. set (k := N.to_nat (line pos)).
  destruct (split_lines content !! k) as [[t e]|] eqn:Hk.
  2: { apply lookup_ge_None in Hk. rewrite take_ge, lines_text by done.
       by rewrite (proj2 (Nat.leb_le _ _)). }
  set (before := take k (split_lines content) ≫= line_text).
  set (rest := drop k (split_lines content) ≫= line_text).
  assert (content = before ++ rest) as Hc.
  { unfold before, rest. by rewrite <-bind_app, take_drop, lines_text. }
  assert (split_lines rest = drop k (split_lines content)) as Hrest
    by (apply split_lines_drop; by eapply lookup_lt_Some).
  rewrite (drop_S _ _ _ Hk) in Hrest.
  assert (rest = t ++ e ++ (drop (S k) (split_lines content) ≫= line_text)) as Hr.
  { unfold rest. rewrite (drop_S _ _ _ Hk), bind_cons. unfold line_text. by rewrite <-app_assoc. }
  assert (str_len content = str_len before + str_len rest) as Hl by (by rewrite Hc at 1; apply str_len_app).
  destruct (Nat.leb_spec (str_len content) (str_len before)).
  - assert (rest = []) as E by (apply str_len_nil; lia). rewrite E in Hr.
    symmetry in Hr. apply app_eq_nil in Hr as [-> _]. simpl. rewrite app_nil_r. f_equal. lia.
  - rewrite Hc at 1. rewrite slice_from_app. cbn [mbind option_bind].
    rewrite (column_loop_spec _ _ _ _ _ _ _ Hrest); [|lia|].
    + by rewrite N.sub_0_r, str_len_app.
    + pose proof (utf16_len_bound t). rewrite Hr, str_len_app in Hl. unfold small in Hsm. lia.
Qed.

Lemma text_before_prefix s pos : text_before s pos `prefix_of` s.
Proof.
  unfold text_before. destruct (split_lines s !! N.to_nat (line pos)) as [[t e]|] eqn:Hk; [|done].
  assert (s = (take (N.to_nat (line pos)) (split_lines s) ≫= line_text) ++ (t ++ e) ++
              (drop (S (N.to_nat (line pos))) (split_lines s) ≫= line_text)) as E.
  { rewrite <-(lines_text s) at 1. rewrite <-(take_drop_middle _ _ _ Hk) at 1.
    by rewrite bind_app, bind_cons. }
  rewrite E at 2. apply prefix_app. rewrite <-app_assoc. apply prefix_app_r, utf16_prefix_of.
Qed.

(** The position reached from [p] over a text. *)
Definition advance (p : Position) (s : str) : Position :=
  match split_lines s with
  | [(t, _)] => position_new (line p) (character p + utf16_len t)
  | ls => position_new (line p + N.of_nat (length ls - 1)) (utf16_len (List.last ls ([], [])).1)
  end.

Lemma advance_eol p e s :
  eol e s → advance p (e ++ s) = advance (position_new (line p + 1) 0) s.
Proof.
  intros He. unfold advance. rewrite split_lines_eol by done.
  destruct (split_lines_cases s) as (t & e' & ls & ->).
  destruct ls as [|l ls]; [done|]. cbn [length line]. f_equal. lia.
Qed.

Lemma advance_char p c s :
  c ≠ NL → c ≠ CR →
  advance p (c :: s) = advance (position_new (line p) (character p + len_utf16 c)) s.
Proof.
  intros H1 H2. unfold advance. destruct (split_lines_cases s) as (t & e & ls & Hs).
  rewrite (split_lines_char _ _ _ _ _ H1 H2 Hs), Hs.
  destruct ls as [|l ls]; [|done]. simpl. f_equal. lia.
Qed.

Lemma end_position_advance s : end_position s = advance (position_new 0 0) s.
Proof.
  unfold end_position, advance. destruct (split_lines_cases s) as (t & e & ls & ->).
  by destruct ls.
Qed.

Lemma end_loop_spec rest pre fuel p :
  length rest < fuel →
  (line p + N.of_nat (str_len rest) ≤ u32_MAX)%N →
  (character p + N.of_nat (str_len rest) ≤ u32_MAX)%N →
  end_position_loop fuel (pre ++ rest) (str_len pre) p = Some (advance p rest).
Proof.
  revert pre fuel p.
  induction rest as [|e s He IH|c s H1 H2 IH] using text_ind; intros pre [|fuel] p Hf Hl Hc;
    try (simpl in Hf; lia); cbn [end_position_loop]; rewrite as_bytes_length.
  - rewrite app_nil_r, Nat.ltb_irrefl. destruct p. unfold advance. simpl. by rewrite N.add_0_r.
  - rewrite str_len_app in Hl, Hc. rewrite length_app in Hf.
    destruct (eol_length e s He).
    rewrite (proj2 (Nat.ltb_lt _ _)) by (rewrite !str_len_app; lia).
    rewrite advance_eol, <-(IH (pre ++ e) fuel), <-app_assoc by (try done; simpl; lia).
    destruct (decide (e = [NL])) as [->|Hne].
    + destruct (byte_at pre NL s) as (b & Hb & Hnl & _). cbn [app] in *. rewrite Hb.
      cbn [mbind option_bind]. rewrite Hnl, u32_add_Some by lia. by rewrite str_len_app.
    + destruct (eol_cr e s He Hne) as [e' E].
      destruct (byte_at pre CR (e' ++ s)) as (b & Hb & Hnl & Hcr).
      pose proof (after_cr_eol pre e s He) as Ha. rewrite E in *. cbn [app head] in *.
      rewrite Hb. cbn [mbind option_bind]. rewrite Hnl, Hcr. simpl N.eqb. cbv iota.
      rewrite Ha by done. cbn [mbind option_bind]. by rewrite u32_add_Some by lia.
  - cbn [str_len] in Hl, Hc. pose proof (len_utf8_pos c). pose proof (len_utf16_bound c).
    rewrite (proj2 (Nat.ltb_lt _ _)) by (rewrite str_len_app; simpl; lia).
    destruct (byte_at pre c s) as (b & Hb & Hbn & Hbc). rewrite Hb. cbn [mbind option_bind].
    rewrite Hbn, Hbc, (proj2 (N.eqb_neq _ _) H1), (proj2 (N.eqb_neq _ _) H2), slice_from_app.
    cbn [mbind option_bind head]. rewrite u32_add_Some by lia. cbn [mbind option_bind].
    rewrite advance_char, <-(IH (pre ++ [c]) fuel), <-app_assoc by (simpl in *; try done; lia).
    rewrite str_len_app. cbn [str_len]. by rewrite Nat.add_0_r.
Qed.

Lemma end_position_run content :
  small content → end_position_utf16 content = Some (end_position content).
Proof.
  intros Hs. unfold end_position_utf16, small in *. pose proof (length_str_len content).
  rewrite end_position_advance.
  by apply (end_loop_spec content []); simpl; lia.
Qed.

(** A cut of a text that is not inside a carriage return and line feed. *)
Definition clean_cut (pre post : str) : Prop := List.last pre NL ≠ CR ∨ head post ≠ Some NL.

(** A cut lets the line of its left half run on into the right half. *)
Lemma split_lines_cut pre post :
  clean_cut pre post →
  ∃ ls t t' e' ls', split_lines pre = ls ++ [(t, [])] ∧ split_lines post = (t', e') :: ls' ∧
    split_lines (pre ++ post) = ls ++ (t ++ t', e') :: ls'.
Proof.
  destruct (split_lines_cases post) as (t' & e' & ls' & Hpost). rewrite Hpost.
  induction pre as [|e s He IH|c s H1 H2 IH] using text_ind; intros Hcut.
  - eexists [], [], t', e', ls'. done.
  - assert (eol e (s ++ post)) as He'.
    { destruct He as [->|[->|[-> Hs]]]; [by left|by right; left|right; right; split; [done|]].
      destruct s as [|d s]; [|done]. by destruct Hcut. }
    destruct IH as (ls & t & t1 & e1 & ls1 & Hs & [= <- <- <-] & Hsp).
    { destruct Hcut as [Hcut|]; [left|by right]. destruct s as [|d s]; [done|].
      intros Hlast. apply Hcut. rewrite <-Hlast.
      destruct He as [->|[->|[-> _]]]; done. }
    exists (([], e) :: ls), t, t', e', ls'. rewrite <-app_assoc, !split_lines_eol, Hs, Hsp by done. done.
  - destruct IH as (ls & t & t1 & e1 & ls1 & Hs & [= <- <- <-] & Hsp).
    { destruct Hcut as [Hcut|]; [left|by right]. by destruct s. }
    destruct ls as [|[t0 e0] ls].
    + exists [], (c :: t), t', e', ls'. cbn [app] in *.
      by rewrite (split_lines_char _ _ _ _ _ H1 H2 Hs), (split_lines_char _ _ _ _ _ H1 H2 Hsp).
    + exists ((c :: t0, e0) :: ls), t, t', e', ls'. cbn [app] in *.
      by rewrite (split_lines_char _ _ _ _ _ H1 H2 Hs), (split_lines_char _ _ _ _ _ H1 H2 Hsp).
Qed.

Lemma text_before_end pre post :
  clean_cut pre post → text_before (pre ++ post) (end_position pre) = pre.
Proof.
  intros Hcut. destruct (split_lines_cut pre post Hcut) as (ls & t & t' & e' & ls' & Hpre & _ & Hs).
  unfold text_before, end_position. rewrite Hpre, Hs. cbn [line character].
  rewrite List.last_last, length_app, Nat.add_sub, Nat2N.id, list_lookup_middle by done.
  cbn [fst]. rewrite take_app_length, utf16_prefix_app.
  rewrite <-(lines_text pre), Hpre, bind_app. f_equal. unfold line_text. simpl.
  by rewrite !app_nil_r.
Qed.

Lemma take_lines_prefix k k' (s : str) :
  k ≤ k' → (take k (split_lines s) ≫= line_text) `prefix_of` (take k' (split_lines s) ≫= line_text).
Proof.
  intros Hk. rewrite <-(take_drop k (take k' (split_lines s))), bind_app, take_take, Nat.min_l by done.
  by apply prefix_app_r.
Qed.

(** A later position has more text before it. *)
Lemma text_before_mono s p q : position_le p q → text_before s p `prefix_of` text_before s q.
Proof.
  intros Hle. destruct Hle as [Hlt|[Heq Hch]].
  - unfold text_before at 2. destruct (split_lines s !! N.to_nat (line q)) as [[t e]|] eqn:Hq;
      [|apply text_before_prefix].
    apply prefix_app_r. etrans; [|apply (take_lines_prefix (S (N.to_nat (line p)))); lia].
    unfold text_before. destruct (split_lines s !! N.to_nat (line p)) as [[t' e']|] eqn:Hp.
    + rewrite (take_S_r _ _ _ Hp), bind_app. apply prefix_app. simpl. rewrite app_nil_r.
      apply prefix_app_r, utf16_prefix_of.
    + apply lookup_ge_None in Hp. apply lookup_lt_Some in Hq. lia.
  - unfold text_before. rewrite Heq. destruct (split_lines s !! _) as [[t e]|]; [|done].
    by apply prefix_app, utf16_prefix_mono.
Qed.

(** ** Positions *)

(** C24: the byte scanners agree with the lines of the text: the offset of a position
    is the length of the text before it, and the end position has the index of the
    last line and its length in UTF-16 units.  Neither of them panics, so every
    offset is a character boundary inside the document. *)
Theorem positions_spec content pos :
  small content →
  position_to_offset content pos = Some (str_len (text_before content pos)) ∧
  (∃ after, content = text_before content pos ++ after) ∧
  end_position_utf16 content = Some (end_position content).
Proof.
  intros Hs. split_and!; [by apply position_to_offset_run|apply text_before_prefix|].
  by apply end_position_run.
Qed.

(** C25: [end_position_utf16] and [position_to_offset] are inverse to each other: the
    end position of the first part of a document is the position of the cut, unless
    the cut separates a carriage return from its line feed. *)
Theorem positions_inverse pre post :
  small (pre ++ post) → clean_cut pre post →
  (p ← end_position_utf16 pre; position_to_offset (pre ++ post) p) = Some (str_len pre).
Proof.
  intros Hs Hcut. rewrite end_position_run by (unfold small in *; rewrite str_len_app in Hs; lia).
  cbn [mbind option_bind]. by rewrite position_to_offset_run, text_before_end.
Qed.

(** ** Edits *)

Lemma apply_range s v p q text :
  small s → apply_change (document_new s v) (change_new (Some (range_new p q)) text) =
  if str_len (text_before s p) <=? str_len (text_before s q) then
    Some (document_new (text_before s p ++ text ++ drop (length (text_before s q)) s) v)
  else Some (document_new s v).
Proof.
  intros Hs. unfold apply_change. cbn [change_range content range_start range_end change_text version].
  rewrite !position_to_offset_run by done. cbn [mbind option_bind].
  destruct (text_before_prefix s p) as [sp Hp], (text_before_prefix s q) as [sq Hq].
  set (tp := text_before s p) in *. set (tq := text_before s q) in *.
  rewrite (proj2 (Nat.leb_le (str_len tq) (str_len s))) by (rewrite Hq, str_len_app; lia).
  rewrite andb_true_r. destruct (str_len tp <=? str_len tq); [|done].
  rewrite Hp at 1. rewrite slice_to_app. cbn [mbind option_bind].
  rewrite Hq at 1. rewrite slice_from_app. cbn [mbind option_bind].
  assert (drop (length tq) s = sq) as -> by (rewrite Hq at 1; apply drop_app_length). done.
Qed.

(** C23: the change the client sends for an edit of [middle] in [pre ++ middle ++ post]
    replaces exactly that part, whatever characters the document has. *)
Theorem edit_replaces pre middle post v text p q :
  small (pre ++ middle ++ post) → clean_cut pre (middle ++ post) → clean_cut (pre ++ middle) post →
  end_position_utf16 pre = Some p → end_position_utf16 (pre ++ middle) = Some q →
  apply_change (document_new (pre ++ middle ++ post) v) (change_new (Some (range_new p q)) text) =
  Some (document_new (pre ++ text ++ post) v).
Proof.
  intros Hs H1 H2 Hp Hq. pose proof Hs as Hs'. unfold small in Hs'. rewrite !str_len_app in Hs'.
  rewrite end_position_run in Hp by (unfold small; lia).
  rewrite end_position_run in Hq by (unfold small; rewrite str_len_app; lia).
  simplify_eq. rewrite apply_range by done. rewrite text_before_end by done.
  rewrite app_assoc, text_before_end, drop_app_length by done.
  by rewrite (proj2 (Nat.leb_le _ _)) by (rewrite str_len_app; lia).
Qed.

(** The bytes of a document and of the texts of its changes. *)
Definition total_size (doc : DocumentState) (changes : list TextDocumentContentChangeEvent) : nat :=
  str_len (content doc) + sum_list_with (λ c, str_len (change_text c)) changes.

Lemma apply_change_size doc change :
  small (content doc) →
  ∃ doc', apply_change doc change = Some doc' ∧ version doc' = version doc ∧
    str_len (content doc') ≤ str_len (content doc) + str_len (change_text change).
Proof.
  destruct doc as [s v], change as [[[p q]|] text]; intros Hs.
  - rewrite apply_range by done. cbn [content change_text] in *. case_match eqn:Hle.
    + eexists. split_and!; [done..|]. cbn [content]. apply Nat.leb_le in Hle.
      destruct (text_before_prefix s q) as [k Hq]. assert (drop (length (text_before s q)) s = k) as ->
        by (rewrite Hq at 2; apply drop_app_length).
      apply (f_equal str_len) in Hq. rewrite str_len_app in *. rewrite str_len_app. lia.
    + eexists. split_and!; [done..|]. cbn [content]. lia.
  - eexists. split_and!; [done..|]. simpl. lia.
Qed.

(** A list of changes is applied without a panic, in order and without a change
    of the version, whatever their ranges are (a range that is turned around or past
    the end included), as long as the document and the new texts fit [u32] bytes. *)
Lemma changes_applied doc changes :
  (N.of_nat (total_size doc changes) ≤ u32_MAX)%N →
  ∃ doc', apply_incremental_changes doc changes = Some doc' ∧ version doc' = version doc ∧
    str_len (content doc') ≤ total_size doc changes.
Proof.
  unfold apply_incremental_changes, total_size.
  revert doc. induction changes as [|change changes IH]; intros doc Hs; [exists doc; split_and!; [done..|simpl; lia]|].
  cbn [foldl sum_list_with] in *.
  destruct (apply_change_size doc change) as (doc1 & Hc & Hv & Hl); [unfold small; lia|].
  cbn [mbind option_bind]. rewrite Hc. destruct (IH doc1) as (doc' & -> & Hv' & Hl'); [lia|].
  exists doc'. split_and!; [done|congruence|lia].
Qed.

(** The change that an edit of the server asks the client to make. *)
Definition change_of_edit (e : TextEdit) : TextDocumentContentChangeEvent :=
  change_new (Some (edit_range e)) (new_text e).

(** The edit of the formatter covers the whole document: who applies it has the
    document in upper case.  An empty document needs no edit. *)
Theorem uppercase_edit_applied up s v :
  small s → ∃ edits, create_uppercase_edit up s = Some edits ∧
    apply_incremental_changes (document_new s v) (change_of_edit <$> edits) =
    Some (document_new (if decide (s = []) then [] else up s) v).
Proof.
  intros Hs. unfold create_uppercase_edit. case_bool_decide as He.
  - eexists. split; [done|]. subst. by rewrite decide_True.
  - rewrite end_position_run by done. eexists. split; [done|]. rewrite decide_False by done.
    unfold apply_incremental_changes. cbn [fmap list_fmap foldl mbind option_bind].
    unfold change_of_edit. cbn [edit_range new_text]. rewrite apply_range by done.
    assert (text_before s (end_position s) = s) as ->.
    { rewrite <-(app_nil_r s) at 1. apply text_before_end. by right. }
    assert (text_before s (position_new 0 0) = []) as ->.
    { change (position_new 0 0) with (end_position []).
      apply (text_before_end [] s). by left. }
    rewrite (proj2 (Nat.leb_le _ _)) by (simpl; lia). by rewrite drop_all, app_nil_r.
Qed.

(** ** Examples *)

(** ["hé\r\n😀x\nz"]: one, two and four bytes to a character, one and two units. *)
Definition sample_text : str := lit "h" ++ [233; 13; 10; 128512]%N ++ lit "x" ++ [10]%N ++ lit "z".

Lemma sample_small : small sample_text.
Proof. by vm_compute. Qed.

(** The column after the emoji, a column inside it, and a line that is not there. *)
Example sample_offsets :
  (position_to_offset sample_text <$>
    [position_new 1 2; position_new 1 1; position_new 0 9; position_new 7 0]) =
  [Some 9; Some 5; Some 3; Some 12].
Proof. by vm_compute. Qed.

Lemma positions_spec_witness :
  position_to_offset sample_text (position_new 1 2) = Some 9 ∧
  (∃ after, sample_text = text_before sample_text (position_new 1 2) ++ after) ∧
  end_position_utf16 sample_text = Some (position_new 2 1).
Proof.
  destruct (positions_spec sample_text (position_new 1 2) sample_small) as (H1 & H2 & H3).
  split_and!; [rewrite H1; by vm_compute|exact H2|rewrite H3; by vm_compute].
Defined.

Lemma positions_inverse_witness :
  (p ← end_position_utf16 (take 5 sample_text); position_to_offset sample_text p) = Some 9.
Proof.
  apply (positions_inverse (take 5 sample_text) (drop 5 sample_text)); [by vm_compute|].
  by left.
Defined.

Lemma edit_replaces_witness :
  apply_change (document_new sample_text 1)
    (change_new (Some (range_new (position_new 1 0) (position_new 1 2))) (lit ":-)")) =
  Some (document_new (take 4 sample_text ++ lit ":-)" ++ drop 5 sample_text) 1).
Proof.
  apply (edit_replaces (take 4 sample_text) [128512]%N (drop 5 sample_text));
    [by vm_compute|by left|by left|by vm_compute..].
Defined.

(** A range past the end and one that is turned around. *)
Definition odd_changes : list TextDocumentContentChangeEvent :=
  [change_new (Some (range_new (position_new 9 9) (position_new 9 9))) (lit "!");
   change_new (Some (range_new (position_new 2 0) (position_new 0 0))) (lit "?")].

Example odd_changes_applied :
  apply_incremental_changes (document_new sample_text 4) odd_changes =
  Some (document_new (sample_text ++ lit "!") 4).
Proof. by vm_compute. Qed.

(** [str::to_uppercase] on ASCII letters. *)
Definition ascii_uppercase (s : str) : str := (λ c, if in_range 97 122 c then c - 32 else c)%N <$> s.

Lemma uppercase_edit_applied_witness :
  ∃ edits, create_uppercase_edit ascii_uppercase sample_text = Some edits ∧
    apply_incremental_changes (document_new sample_text 1) (change_of_edit <$> edits) =
    Some (document_new (ascii_uppercase sample_text) 1).
Proof. exact (uppercase_edit_applied ascii_uppercase sample_text 1 sample_small). Defined.
