(* ===== verification/Formatter.v ===== *)
(** * Formatter: the server of [examples/formatter_server.rs] over a connection.

    The parameters and results of its methods are structures of [lsp_types], read and
    written through serde_json: what the server calls of that crate is the interface
    [LspTypes].  A [DocumentState] and its edits are those of [Document].  A panic is
    [None], or the verdict [Panicked].  Output on stderr is not modelled. *)

From S2P Require Import Prelude RustStd Serde RequestId Error Message Io Tokio World RequestQueue Lifecycle Routing ClientSender Connection Handshake Serving Delivery Schedule Document.

(** The two levels the server logs with. *)
Inductive MessageType : Set := INFO | LOG.

(** [serde_json::from_value] and [to_value] at the types of the server ([None], and
    [inl] with the text of the error), [Uri] as a key, its [Debug], the client info
    an [InitializeParams] logs, and [str::to_uppercase]. *)
Class LspTypes : Type := {
  Uri : Type;
  Uri_eq_dec :: EqDecision Uri;
  Uri_countable :: Countable Uri;
  Uri_debug : Uri → string;
  client_info_of : Value → option string;
  DidOpenTextDocumentParams_of : Value → option (Uri * DocumentState);
  DidChangeTextDocumentParams_of :
    Value → option (Uri * Z * list TextDocumentContentChangeEvent);
  DidCloseTextDocumentParams_of : Value → option Uri;
  DocumentFormattingParams_of : Value → option Uri;
  LogMessageParams_to_value : MessageType → string → string + Value;
  edits_to_value : list TextEdit → string + Value;
  server_capabilities_value : string + Value;
  to_uppercase : str → str;
}.

(** [ServerState]. *)
Record ServerState `{LT : LspTypes} : Type := { documents : gmap Uri DocumentState }.

Inductive FormatError : Set := Cancelled | DocumentNotFound.

(** One poll of the [select!] in [format_document]: whether the 200 ms have passed,
    and whether the timer is looked at before the token. *)
Record Tick : Set := tick_new { timer_elapsed : bool; timer_first : bool }.

(** What the loop of [run_server] does after a message. *)
Inductive verdict : Set := Continue | Break | Exit (code : ExitCode) | Hang | Panicked.

(** How [run_server] ends: it waits for events, or in a request; it has returned, the
    process has exited, or it panicked. *)
Inductive server_end : Set :=
| ServerWaiting
| ServerHanging
| ServerReturned
| ServerExited (code : Z)
| ServerPanicked.

Section formatter.
Context `{TK : Tokio} `{LT : LspTypes}.

Definition ServerState_new : ServerState := {| documents := ∅ |}.

Definition log_message (sender : ClientSender) (typ : MessageType) (message : string) : St unit :=
  match LogMessageParams_to_value typ message with
  | inr value => notify sender "window/logMessage" (Some value);; mret ()
  | inl _ => mret ()
  end.

(** ** Formatting *)

(** [format_document] after the [select!] chose the timer. *)
Definition format_finish (sender : ClientSender) (doc : DocumentState) (token : Token) :
    St (option (result FormatError (list TextEdit))) :=
  cancelled ← (λ w, (is_cancelled (w_tokens w) token, w));
  if cancelled : bool then mret (Some (Err Cancelled))
  else
    match create_uppercase_edit to_uppercase (content doc) with
    | Some edits =>
      log_message sender LOG ("Formatting complete: " +:+
        string_of_list_ascii (display_N (N.of_nat (length edits))) +:+ " edits");;
      mret (Some (Ok edits))
    | None => mret None
    end.

Definition format_cancelled (sender : ClientSender) :
    St (option (result FormatError (list TextEdit))) :=
  log_message sender LOG "Formatting cancelled";; mret (Some (Err Cancelled)).

(** One poll of [format_document] at its [select!]. *)
Definition format_poll (sender : ClientSender) (doc : DocumentState) (token : Token) (tick : Tick) :
    St (poll (option (result FormatError (list TextEdit)))) :=
  cancelled ← (λ w, (is_cancelled (w_tokens w) token, w));
  if timer_elapsed tick && (timer_first tick || negb cancelled)
  then Ready <$> format_finish sender doc token
  else if cancelled then Ready <$> format_cancelled sender
  else mret Pending.

Fixpoint format_wait (sender : ClientSender) (doc : DocumentState) (token : Token) (ticks : list Tick) :
    St (poll (option (result FormatError (list TextEdit))) * list Tick) :=
  match ticks with
  | [] => mret (Pending, [])
  | tick :: ticks =>
    r ← format_poll sender doc token tick;
    match r with
    | Ready o => mret (Ready o, ticks)
    | Pending => format_wait sender doc token ticks
    end
  end.

Definition format_document (sender : ClientSender) (state : ServerState) (uri : Uri) (token : Token)
    (ticks : list Tick) : St (poll (option (result FormatError (list TextEdit))) * list Tick) :=
  match documents state !! uri with
  | None => mret (Ready (Some (Err DocumentNotFound)), ticks)
  | Some doc =>
    log_message sender LOG ("Formatting document: " +:+ Uri_debug uri);;
    format_wait sender doc token ticks
  end.

(** ** Requests *)

Definition FORMATTING_METHOD : string := "textDocument/formatting".

Definition invalid_formatting_params (id : RequestId) : Response :=
  Response_err id (ResponseError_new InvalidParams "Invalid formatting params").

(** The response to what [format_document] returned. *)
Definition format_response (id : RequestId) (r : result FormatError (list TextEdit)) : option Response :=
  match r with
  | Ok edits =>
    match edits_to_value edits with
    | inr value => Some (Response_ok id value)
    | inl err =>
      Some (Response_err id (ResponseError_new InternalError
        ("Failed to serialize formatting edits: expected JSON value, received serialization error: "
         +:+ err)))
    end
  | Err Cancelled => Some (cancelled_response id)
  | Err DocumentNotFound =>
    Some (Response_err id (ResponseError_new InvalidParams "Document not found"))
  | Panic => None
  end.

Definition handle_request (sender : ClientSender) (state : ServerState) (req : Request)
    (token : Token) (ticks : list Tick) : St (poll (option Response) * list Tick) :=
  if bool_decide (req_method req = FORMATTING_METHOD) then
    match req_params req ≫= DocumentFormattingParams_of with
    | None => mret (Ready (Some (invalid_formatting_params (req_id req))), ticks)
    | Some uri =>
      '(r, ticks) ← format_document sender state uri token ticks;
      mret (match r with
            | Ready o => Ready (o ≫= format_response (req_id req))
            | Pending => Pending
            end, ticks)
    end
  else mret (Ready (Some (method_not_found_response req)), ticks).

(** ** Notifications *)

Definition parse_notification_params {A} (of_value : Value → option A) (notif : Notification) :
    option A := notif_params notif ≫= of_value.

Definition handle_notification (state : ServerState) (notif : Notification) : option ServerState :=
  let method := notif_method notif in
  if bool_decide (method = "textDocument/didOpen") then
    match parse_notification_params DidOpenTextDocumentParams_of notif with
    | Some (uri, doc) => Some {| documents := <[uri := doc]> (documents state) |}
    | None => Some state
    end
  else if bool_decide (method = "textDocument/didChange") then
    match parse_notification_params DidChangeTextDocumentParams_of notif with
    | Some (uri, version, changes) =>
      match documents state !! uri with
      | Some doc =>
        doc ← apply_incremental_changes doc changes;
        Some {| documents := <[uri := document_new (content doc) version]> (documents state) |}
      | None => Some state
      end
    | None => Some state
    end
  else if bool_decide (method = "textDocument/didClose") then
    match parse_notification_params DidCloseTextDocumentParams_of notif with
    | Some uri => Some {| documents := delete uri (documents state) |}
    | None => Some state
    end
  else Some state.

(** ** The loop *)

Definition complete_incoming (id : RequestId) (conn : Connection) : Connection :=
  with_incoming (IncomingRequests_complete id (incoming (request_queue conn))).2 conn.

(** The arms of the [match] on [conn.route(msg)]. *)
Definition handle_incoming (sender : ClientSender) (state : ServerState) (conn : Connection)
    (msg : IncomingMessage) (ticks : list Tick) :
    St (verdict * ServerState * Connection * list Tick) :=
  match msg with
  | InRequest req token =>
    if bool_decide (req_method req = SHUTDOWN_METHOD) then
      '(_, conn) ← handle_shutdown conn (req_id req);
      mret (Continue, state, conn, ticks)
    else
      '(r, ticks) ← handle_request sender state req token ticks;
      match r with
      | Ready (Some response) =>
        sent ← respond sender response;
        mret (match sent with
              | Ok _ => (Continue, state, complete_incoming (req_id req) conn, ticks)
              | Err _ => (Break, state, conn, ticks)
              | Panic => (Panicked, state, conn, ticks)
              end)
      | Ready None => mret (Panicked, state, conn, ticks)
      | Pending => mret (Hang, state, conn, ticks)
      end
  | InNotification notif =>
    if bool_decide (notif_method notif = EXIT_METHOD) then
      let '(code, conn) := handle_exit conn in mret (Exit code, state, conn, ticks)
    else
      mret (match handle_notification state notif with
            | Some state => (Continue, state, conn, ticks)
            | None => (Panicked, state, conn, ticks)
            end)
  | _ => mret (Continue, state, conn, ticks)
  end.

(** The [while let] of [run_server]. *)
Fixpoint server_loop (sender : ClientSender) (state : ServerState) (conn : Connection)
    (events : list Event) (ticks : list Tick) :
    St (server_end * ServerState * Connection * list Tick) :=
  match events with
  | [] => mret (ServerWaiting, state, conn, ticks)
  | Elapsed :: events => server_loop sender state conn events ticks
  | Received None :: _ | Received (Some (Err _)) :: _ => mret (ServerReturned, state, conn, ticks)
  | Received (Some Panic) :: _ => mret (ServerPanicked, state, conn, ticks)
  | Received (Some (Ok msg)) :: events =>
    '(msg, conn) ← route conn msg;
    '(v, state, conn, ticks) ← handle_incoming sender state conn msg ticks;
    match v with
    | Continue => server_loop sender state conn events ticks
    | Break => mret (ServerReturned, state, conn, ticks)
    | Exit code => mret (ServerExited (ExitCode_as_i32 code), state, conn, ticks)
    | Hang => mret (ServerHanging, state, conn, ticks)
    | Panicked => mret (ServerPanicked, state, conn, ticks)
    end
  end.

Definition run_server (conn : Connection) (sender : ClientSender) (events : list Event)
    (ticks : list Tick) : St (server_end * ServerState * Connection * list Tick) :=
  log_message sender INFO "Formatter server ready";;
  server_loop sender ServerState_new conn events ticks.

(** [main], from the new connection on, when nothing runs beside it; the process with
    its drain task is in [Process]. *)
Definition main_server (events : list Event) (ticks : list Tick) : St server_end :=
  conn ← Connection_new;
  match server_capabilities_value with
  | inl _ => mret ServerReturned
  | inr capabilities =>
    '(r, conn, events) ← initialize conn capabilities events;
    match r with
    | Pending => mret ServerWaiting
    | Ready (Err _) => mret ServerReturned
    | Ready Panic => mret ServerPanicked
    | Ready (Ok params) =>
      '(sender, conn) ← client_sender conn;
      match client_info_of params with
      | Some info => log_message sender INFO ("Client initialized: " +:+ info)
      | None => mret ()
      end;;
      '(e, _, _, _) ← run_server conn sender events ticks;
      mret e
    end
  end.
End formatter.

(** ** Specification

    The server as a function of the messages alone: what it answers, when the
    connection is shutting down or not. *)

Section specification.
Context `{LT : LspTypes}.

(** The answer to a request other than [shutdown]. *)
Definition answer (down : bool) (state : ServerState) (req : Request) : option Response :=
  if bool_decide (req_method req = FORMATTING_METHOD) then
    match req_params req ≫= DocumentFormattingParams_of with
    | None => Some (invalid_formatting_params (req_id req))
    | Some uri =>
      match documents state !! uri with
      | None => format_response (req_id req) (Err DocumentNotFound)
      | Some doc =>
        if down then Some (cancelled_response (req_id req))
        else
          edits ← create_uppercase_edit to_uppercase (content doc);
          format_response (req_id req) (Ok edits)
      end
    end
  else Some (method_not_found_response req).

(** The responses to a sequence of messages; the answer to a [shutdown] is null. *)
Fixpoint serve (down : bool) (state : ServerState) (ms : list Message) : option (list Response) :=
  match ms with
  | [] => Some []
  | MRequest req :: ms =>
    if bool_decide (req_method req = SHUTDOWN_METHOD) then
      cons (Response_ok (req_id req) VNull) <$> serve true state ms
    else
      r ← answer down state req;
      cons r <$> serve down state ms
  | MNotification notif :: ms =>
    state ← handle_notification state notif;
    serve down state ms
  | MResponse _ :: ms => serve down state ms
  end.

(** Whether a request other than [shutdown] comes to the [select!] of
    [format_document]: it is a formatting of an open document. *)
Definition formats (state : ServerState) (req : Request) : bool :=
  bool_decide (req_method req = FORMATTING_METHOD) &&
  match req_params req ≫= DocumentFormattingParams_of with
  | Some uri => bool_decide (is_Some (documents state !! uri))
  | None => false
  end.

(** The polls that are left when a formatting has ended: it ends at the first poll that
    finds the timer run out, or at its first poll when it is cancelled. *)
Fixpoint polls_after (down : bool) (ticks : list Tick) : option (list Tick) :=
  match ticks with
  | [] => None
  | tick :: ticks => if down || timer_elapsed tick then Some ticks else polls_after down ticks
  end.

Definition request_polls (down : bool) (state : ServerState) (req : Request) (ticks : list Tick) :
    option (list Tick) :=
  if formats state req then polls_after down ticks else Some ticks.

Definition message_polls (down : bool) (state : ServerState) (m : Message) (ticks : list Tick) :
    option (list Tick) :=
  match m with
  | MRequest req =>
    if bool_decide (req_method req = SHUTDOWN_METHOD) then Some ticks
    else request_polls down state req ticks
  | _ => Some ticks
  end.

Definition state_after (state : ServerState) (m : Message) : ServerState :=
  match m with MNotification notif => default state (handle_notification state notif) | _ => state end.

(** The text a notification brings in, and the size of the largest document. *)
Definition text_of (notif : Notification) : nat :=
  let method := notif_method notif in
  if bool_decide (method = "textDocument/didOpen") then
    match parse_notification_params DidOpenTextDocumentParams_of notif with
    | Some (_, doc) => str_len (content doc)
    | None => 0
    end
  else if bool_decide (method = "textDocument/didChange") then
    match parse_notification_params DidChangeTextDocumentParams_of notif with
    | Some (_, _, changes) => sum_list_with (λ c, str_len (change_text c)) changes
    | None => 0
    end
  else 0.

Definition text_of_message (m : Message) : nat :=
  match m with MNotification notif => text_of notif | _ => 0 end.

Definition documents_bound (bound : nat) (state : ServerState) : Prop :=
  ∀ uri doc, documents state !! uri = Some doc → str_len (content doc) ≤ bound.

(** Neither of the messages that end or stop the loop. *)
Definition not_exit (m : Message) : Prop :=
  match m with MNotification notif => notif_method notif ≠ EXIT_METHOD | _ => True end.
End specification.

Definition is_cancel (m : Message) : bool :=
  match m with MNotification notif => bool_decide (notif_method notif = CANCEL_REQUEST_METHOD) | _ => false end.

Definition is_shutdown (m : Message) : bool :=
  match m with MRequest req => bool_decide (req_method req = SHUTDOWN_METHOD) | _ => false end.

(** How far the server comes with the polls it gets: the messages it has handled, those
    it has not, the first of which waits for its timer, and the polls left. *)
Fixpoint progress `{LT : LspTypes} (down : bool) (state : ServerState) (ms : list Message)
    (ticks : list Tick) : list Message * list Message * list Tick :=
  match ms with
  | [] => ([], [], ticks)
  | m :: ms' =>
    match message_polls down state m ticks with
    | Some ticks =>
      let '(handled, waiting, ticks) := progress (down || is_shutdown m) (state_after state m) ms' ticks in
      (m :: handled, waiting, ticks)
    | None => ([], ms, [])
    end
  end.

(** How many timers run out. *)
Definition timers (ticks : list Tick) : nat := length (filter (λ t, timer_elapsed t = true) ticks).

(** The state after messages that are not [exit]. *)
Definition lifecycle_after (ms : list Message) (st : LifecycleState) : LifecycleState :=
  if existsb is_shutdown ms then ShuttingDown else st.

(** The responses among the messages that were sent. *)
Definition responses (ms : list Message) : list Response :=
  omap (λ m, match m with MResponse r => Some r | _ => None end) ms.

(** ** Lemmas *)

Lemma responses_app ms1 ms2 : responses (ms1 ++ ms2) = responses ms1 ++ responses ms2.
Proof. apply omap_app. Qed.

Lemma responses_notifications ns : responses (MNotification <$> ns) = [].
Proof. by induction ns. Qed.

Section documents.
Context `{LT : LspTypes}.

(** A notification is handled without a panic as long as the texts are small. *)
Lemma handle_notification_bound bound state notif :
  documents_bound bound state → (N.of_nat (bound + text_of notif) ≤ u32_MAX)%N →
  ∃ state', handle_notification state notif = Some state' ∧
    documents_bound (bound + text_of notif) state'.
Proof.
  intros Hb Hs. assert (documents_bound (bound + text_of notif) state) as Hb'.
  { intros uri doc Hd. specialize (Hb _ _ Hd). lia. }
  unfold handle_notification, text_of in *.
  case_bool_decide; [destruct (parse_notification_params _ _) as [[uri doc]|]; [|by eauto]|].
  { eexists. split; [done|]. intros u d Hd. cbn [documents] in Hd.
    apply lookup_insert_Some in Hd as [[<- <-]|[_ Hd]]; [lia|by eapply Hb']. }
  case_bool_decide.
  - destruct (parse_notification_params _ _) as [[[uri v] changes]|]; [|by eauto].
    destruct (documents state !! uri) as [doc|] eqn:Hd; [|by eauto].
    pose proof (Hb _ _ Hd). destruct (changes_applied doc changes) as (doc' & -> & _ & Hl);
      [unfold total_size; lia|].
    eexists. split; [done|]. intros u d Hu. cbn [documents] in Hu.
    apply lookup_insert_Some in Hu as [[<- <-]|[_ Hu]]; [|by eapply Hb'].
    cbn [content]. unfold total_size in Hl. lia.
  - case_bool_decide; [|by eauto]. destruct (parse_notification_params _ _) as [uri|]; [|by eauto].
    eexists. split; [done|]. intros u d Hd. cbn [documents] in Hd.
    apply lookup_delete_Some in Hd as [_ Hd]. by eapply Hb'.
Qed.

(** The edit of a small document is made without a panic. *)
Lemma create_uppercase_edit_small bound state uri doc :
  documents_bound bound state → (N.of_nat bound ≤ u32_MAX)%N → documents state !! uri = Some doc →
  ∃ edits, create_uppercase_edit to_uppercase (content doc) = Some edits.
Proof.
  intros Hb Hs Hd. specialize (Hb _ _ Hd). unfold create_uppercase_edit.
  case_bool_decide; [by eauto|]. rewrite end_position_run by (unfold small; lia). by eexists.
Qed.

(** The specification answers as long as the texts are small. *)
Lemma answer_small bound down state req :
  documents_bound bound state → (N.of_nat bound ≤ u32_MAX)%N → ∃ r, answer down state req = Some r.
Proof.
  intros Hb Hs. unfold answer. case_bool_decide; [|by eauto].
  destruct (req_params req ≫= DocumentFormattingParams_of) as [uri|]; [|by eauto].
  destruct (documents state !! uri) as [doc|] eqn:Hd; [|by eexists]. destruct down; [by eauto|].
  destruct (create_uppercase_edit_small _ _ _ _ Hb Hs Hd) as [edits ->]. cbn.
  destruct (edits_to_value edits); by eauto.
Qed.

Lemma serve_small bound down state ms :
  documents_bound bound state → (N.of_nat (bound + sum_list_with text_of_message ms) ≤ u32_MAX)%N →
  ∃ rs, serve down state ms = Some rs.
Proof.
  revert bound down state. induction ms as [|m ms IH]; intros bound down state Hb Hs; [by exists []|].
  cbn [sum_list_with serve] in *. destruct m as [req|resp|notif]; cbn [text_of_message] in Hs.
  - assert (∀ down, ∃ rs, serve down state ms = Some rs) as H by (intros d; by eapply IH).
    case_bool_decide; [destruct (H true) as [rs ->]; by eexists|].
    destruct (answer_small bound down state req Hb) as [r ->]; [lia|].
    destruct (H down) as [rs Hrs]. cbn [mbind option_bind]. rewrite Hrs. by eexists.
  - by eapply IH.
  - destruct (handle_notification_bound bound state notif Hb) as (state' & -> & Hb'); [lia|].
    cbn [mbind option_bind]. eapply IH; [exact Hb'|lia].
Qed.

(** A cancel notification does nothing to the documents. *)
Lemma handle_cancel_notification state notif :
  notif_method notif = CANCEL_REQUEST_METHOD → handle_notification state notif = Some state.
Proof. intros H. unfold handle_notification. rewrite H. done. Qed.

Lemma progress_app down state ms ticks handled waiting ticks' :
  progress down state ms ticks = (handled, waiting, ticks') → ms = handled ++ waiting.
Proof.
  revert down state ticks handled waiting ticks'. induction ms as [|m ms IH]; intros down state ticks h r t;
    cbn [progress]; [by intros [= <- <- <-]|].
  destruct (message_polls _ _ _ _) as [ticks1|]; [|by intros [= <- <- <-]].
  destruct (progress _ _ ms ticks1) as [[h1 r1] t1] eqn:E. intros [= <- <- <-].
  cbn. f_equal. by eapply IH.
Qed.

(** What waits is a formatting. *)
Lemma progress_waiting down state ms ticks handled m rest ticks' :
  progress down state ms ticks = (handled, m :: rest, ticks') →
  ticks' = [] ∧ ∃ req, m = MRequest req ∧ req_method req = FORMATTING_METHOD.
Proof.
  revert down state ticks handled ticks'. induction ms as [|m' ms IH]; intros down state ticks h t;
    cbn [progress]; [done|].
  destruct (message_polls _ _ m' _) as [ticks1|] eqn:Hp.
  - destruct (progress _ _ ms ticks1) as [[h1 r1] t1] eqn:E. intros [= <- -> <-]. by eapply IH.
  - intros [= <- <- <- <-]. split; [done|]. revert Hp. unfold message_polls, request_polls, formats.
    destruct m' as [req| |]; [|done..]. case_bool_decide; [done|].
    case_bool_decide; [by eauto|done].
Qed.

Lemma polls_after_timers down ticks :
  match polls_after down ticks with
  | Some ticks' => timers ticks ≤ S (timers ticks')
  | None => timers ticks = 0
  end.
Proof.
  unfold timers. induction ticks as [|tick ticks IH]; [done|]. cbn [polls_after]. rewrite filter_cons.
  destruct (timer_elapsed tick) eqn:Ht.
  - rewrite decide_True, orb_true_r by done. cbn [length]. lia.
  - rewrite decide_False, orb_false_r by done. destruct down; [lia|exact IH].
Qed.

(** As many timers as messages are enough. *)
Lemma progress_enough down state ms ticks handled waiting ticks' :
  progress down state ms ticks = (handled, waiting, ticks') → length ms ≤ timers ticks → waiting = [].
Proof.
  revert down state ticks handled waiting ticks'. induction ms as [|m ms IH]; intros down state ticks h r t;
    cbn [progress length]; [by intros [= <- <- <-]|].
  assert (match message_polls down state m ticks with
          | Some ticks' => timers ticks ≤ S (timers ticks')
          | None => timers ticks = 0
          end) as Hp.
  { unfold message_polls, request_polls. pose proof (polls_after_timers down ticks).
    destruct m as [req| |]; [|lia..]. case_bool_decide; [lia|]. destruct (formats state req); [done|lia]. }
  destruct (message_polls _ _ _ _) as [ticks1|]; [|lia].
  destruct (progress _ _ ms ticks1) as [[h1 r1] t1] eqn:E. intros [= <- <- <-] Hlen.
  eapply IH; [exact E|lia].
Qed.

(** Cancel notifications use up no poll. *)
Lemma progress_without_cancel down state ms ticks handled waiting ticks' :
  progress down state ms ticks = (handled, waiting, ticks') →
  progress down state (filter (λ m, is_cancel m = false) ms) ticks =
  (filter (λ m, is_cancel m = false) handled, filter (λ m, is_cancel m = false) waiting, ticks').
Proof.
  revert down state ticks handled waiting ticks'. induction ms as [|m ms IH]; intros down state ticks h r t.
  { by intros [= <- <- <-]. }
  cbn [progress]. rewrite filter_cons. case_decide as Hc.
  - cbn [progress]. destruct (message_polls down state m ticks) as [ticks1|].
    + destruct (progress _ _ ms ticks1) as [[h1 r1] t1] eqn:E. intros [= <- <- <-].
      rewrite (IH _ _ _ _ _ _ E), filter_cons. by rewrite decide_True by done.
    + intros [= <- <- <-]. by rewrite filter_cons, decide_True by done.
  - destruct m as [req| |notif]; cbn [is_cancel] in Hc; [done..|].
    apply not_false_iff_true, bool_decide_eq_true in Hc. cbn [message_polls is_shutdown state_after].
    rewrite handle_cancel_notification by done. cbn [default]. rewrite orb_false_r.
    destruct (progress _ _ ms ticks) as [[h1 r1] t1] eqn:E. intros [= <- <- <-].
    rewrite filter_cons, decide_False; [by apply IH|]. cbn [is_cancel]. by rewrite bool_decide_eq_true_2.
Qed.

Lemma serve_without_cancel down state ms :
  serve down state (filter (λ m, is_cancel m = false) ms) = serve down state ms.
Proof.
  revert down state. induction ms as [|m ms IH]; intros down state; [done|].
  rewrite filter_cons. destruct m as [req|r|notif]; cbn [is_cancel].
  - rewrite decide_True by done. cbn [serve]. case_bool_decide; [by rewrite IH|].
    destruct (answer _ _ _); [cbn; by rewrite IH|done].
  - rewrite decide_True by done. cbn [serve]. apply IH.
  - case_bool_decide as Hc.
    + rewrite decide_False by done. cbn [serve]. rewrite handle_cancel_notification by done. apply IH.
    + rewrite decide_True by done. cbn [serve]. destruct (handle_notification _ _); [apply IH|done].
Qed.
End documents.

Section server.
Context `{TK : Tokio} {TL : TokioLaws TK} `{LT : LspTypes}.

(** Sending through a sender: the message is queued, unless the writer is gone. *)
Lemma notify_sends sender method params w :
  ∃ r ns w', notify sender method params w = (r, w') ∧ sends w (MNotification <$> ns) w'.
Proof.
  unfold notify. run_st.
  pose proof (unbounded_send_law (MNotification (Notification_new method params)) (w_outbound w)) as Hs.
  destruct (receiver_open (w_outbound w)) eqn:Ho; rewrite Hs.
  - destruct (unbounded_send_queue (MNotification (Notification_new method params)) _ Ho) as [Hq Ho'].
    eexists _, [Notification_new method params], _. split; [done|]. split; cbn; congruence.
  - eexists _, [], _. split; [done|]. destruct w. apply sends_nil.
Qed.

Lemma log_message_sends sender typ message w :
  ∃ ns w', log_message sender typ message w = ((), w') ∧ sends w (MNotification <$> ns) w'.
Proof.
  unfold log_message. destruct (LogMessageParams_to_value typ message) as [e|v].
  - exists [], w. split; [done|apply sends_nil].
  - destruct (notify_sends sender "window/logMessage" (Some v) w) as (r & ns & w' & Hn & Hs).
    exists ns, w'. split; [|done]. unfold mbind, St_bind. by rewrite Hn.
Qed.

Lemma respond_sends sender r w :
  receiver_open (w_outbound w) = true →
  ∃ w', respond sender r w = (Ok (), w') ∧ sends w [MResponse r] w'.
Proof.
  intros Ho. unfold respond. run_st.
  pose proof (unbounded_send_law (MResponse r) (w_outbound w)) as Hs.
  destruct (unbounded_send_queue (MResponse r) _ Ho) as [Hq Ho'].
  rewrite Ho in Hs. rewrite Hs. eexists. split; [done|]. split; cbn; congruence.
Qed.

Lemma sends_notifications w1 w2 w3 ns1 ns2 :
  sends w1 (MNotification <$> ns1) w2 → sends w2 (MNotification <$> ns2) w3 →
  sends w1 (MNotification <$> (ns1 ++ ns2)) w3.
Proof. rewrite fmap_app. apply sends_app. Qed.

(** What a poll of the formatting gives, by the token and the timer. *)
Lemma format_poll_law sender doc token tick edits w :
  create_uppercase_edit to_uppercase (content doc) = Some edits →
  ∃ ns w', sends w (MNotification <$> ns) w' ∧
    format_poll sender doc token tick w =
    (if is_cancelled (w_tokens w) token then Ready (Some (Err Cancelled))
     else if timer_elapsed tick then Ready (Some (Ok edits)) else Pending, w').
Proof.
  intros He. unfold format_poll, format_finish, format_cancelled, mbind, fmap, St_bind, St_fmap.
  destruct (is_cancelled (w_tokens w) token) eqn:Hc; destruct (timer_elapsed tick);
    destruct (timer_first tick); cbn [andb orb negb]; rewrite ?Hc, ?He;
    try (exists [], w; split; [apply sends_nil|done]);
    match goal with |- context [log_message ?s ?t ?m w] =>
      destruct (log_message_sends s t m w) as (ns & w' & Hl & Hs) end;
    exists ns, w'; (split; [done|]); by rewrite Hl.
Qed.

(** C26: the formatting can be cancelled at any time before it returns: a cancelled
    token gives [Cancelled], also when the timer has run out and the [select!] looks
    at it first; otherwise the edits come exactly when the timer has run out. *)
Theorem format_cancellation sender doc token tick w :
  small (content doc) →
  ∃ edits ns w', create_uppercase_edit to_uppercase (content doc) = Some edits ∧
    sends w (MNotification <$> ns) w' ∧
    format_poll sender doc token tick w =
    (if is_cancelled (w_tokens w) token then Ready (Some (Err Cancelled))
     else if timer_elapsed tick then Ready (Some (Ok edits)) else Pending, w').
Proof.
  intros Hs. destruct (create_uppercase_edit to_uppercase (content doc)) as [edits|] eqn:He.
  - destruct (format_poll_law sender doc token tick edits w He) as (ns & w' & Hp). eauto.
  - exfalso. revert He. unfold create_uppercase_edit. case_bool_decide; [done|].
    by rewrite end_position_run.
Qed.

Lemma format_wait_law sender doc token edits ticks w :
  create_uppercase_edit to_uppercase (content doc) = Some edits →
  let down := is_cancelled (w_tokens w) token in
  ∃ ns w', sends w (MNotification <$> ns) w' ∧
    format_wait sender doc token ticks w =
    (match polls_after down ticks with
     | Some ticks' => (Ready (Some (if down then Err Cancelled else Ok edits)), ticks')
     | None => (Pending, [])
     end, w').
Proof.
  intros He down. subst down. revert w. induction ticks as [|tick ticks IH]; intros w.
  { exists [], w. split; [apply sends_nil|done]. }
  cbn [format_wait polls_after]. unfold mbind, St_bind.
  destruct (format_poll_law sender doc token tick edits w He) as (ns & w1 & Hs & ->).
  destruct (is_cancelled (w_tokens w) token) eqn:Hc; cbn [orb]; [by exists ns, w1|].
  destruct (timer_elapsed tick); [by exists ns, w1|].
  destruct (IH w1) as (ns2 & w2 & Hs2 & Hw). rewrite (sends_tokens _ _ _ Hs), Hc in Hw.
  exists (ns ++ ns2), w2. split; [by eapply sends_notifications|done].
Qed.

(** A request is answered as specified when it ends; a formatting that waits is not. *)
Lemma handle_request_law bound sender state req token ticks w :
  documents_bound bound state → (N.of_nat bound ≤ u32_MAX)%N →
  ∃ r ns w', answer (is_cancelled (w_tokens w) token) state req = Some r ∧
    sends w (MNotification <$> ns) w' ∧
    handle_request sender state req token ticks w =
    (match request_polls (is_cancelled (w_tokens w) token) state req ticks with
     | Some ticks' => (Ready (Some r), ticks')
     | None => (Pending, [])
     end, w').
Proof.
  intros Hb Hs. unfold handle_request, answer, request_polls, formats. case_bool_decide as Hm; cbn [andb].
  2: { eexists _, [], w. split_and!; [done|apply sends_nil|done]. }
  destruct (req_params req ≫= DocumentFormattingParams_of) as [uri|].
  2: { eexists _, [], w. split_and!; [done|apply sends_nil|done]. }
  unfold format_document. destruct (documents state !! uri) as [doc|] eqn:Hd.
  2: { rewrite bool_decide_eq_false_2 by by intros []. eexists _, [], w. split_and!; [done|apply sends_nil|done]. }
  rewrite bool_decide_eq_true_2 by done.
  destruct (create_uppercase_edit_small _ _ _ _ Hb Hs Hd) as [edits He].
  unfold mbind, St_bind.
  match goal with |- context [log_message ?s ?t ?m w] =>
    destruct (log_message_sends s t m w) as (ns1 & w1 & Hl & Hs1) end.
  rewrite Hl. destruct (format_wait_law sender doc token edits ticks w1 He) as (ns2 & w2 & Hs2 & ->).
  rewrite (sends_tokens _ _ _ Hs1), He. cbn [option_bind].
  exists (if is_cancelled (w_tokens w) token then cancelled_response (req_id req)
          else default (cancelled_response (req_id req)) (format_response (req_id req) (Ok edits))),
    (ns1 ++ ns2), w2.
  assert (format_response (req_id req) (Ok edits) =
    Some (default (cancelled_response (req_id req)) (format_response (req_id req) (Ok edits)))) as Hr
    by (cbn; by destruct (edits_to_value edits)).
  split_and!; [|by eapply sends_notifications|].
  - by destruct (is_cancelled (w_tokens w) token).
  - destruct (polls_after _ ticks); [|done]. by destruct (is_cancelled (w_tokens w) token); [|cbn [option_bind]; rewrite Hr].
Qed.

(** What the loop depends on in the routing of a message. *)
Lemma route_cases conn m w im conn1 w1 :
  conn_ok conn w → route conn m w = ((im, conn1), w1) →
  conn_ok conn1 w1 ∧ w_outbound w1 = w_outbound w ∧ lifecycle_state conn1 = lifecycle_state conn ∧
  is_cancelled (w_tokens w1) (shutdown_token conn1) = is_cancelled (w_tokens w) (shutdown_token conn) ∧
  match m with
  | MRequest req => ∃ t, im = InRequest req t ∧
      is_cancelled (w_tokens w1) t = is_cancelled (w_tokens w) (shutdown_token conn) ∧
      incoming_table conn1 = <[req_id req := t]> (incoming_table conn)
  | MNotification n => (im = InNotification n ∨ im = CancelHandled ∧ notif_method n = CANCEL_REQUEST_METHOD) ∧
      incoming_table conn1 = incoming_table conn
  | MResponse _ => (im = ResponseRouted ∨ ∃ r, im = ResponseUnknown r) ∧
      incoming_table conn1 = incoming_table conn
  end.
Proof.
  intros Hok Hr. split; [by eapply route_keeps|]. split; [by eapply route_outbound|].
  split; [by eapply route_lifecycle|]. destruct m as [req|resp|n].
  - revert Hr. unfold route. run_st. destruct (child_token _ _) as [t s] eqn:Hc. intros [= <- <- <-].
    destruct (child_token_law _ _ _ _ _ (ok_shutdown _ _ Hok) Hc) as (Hnone & _ & Hcanc & Hf).
    assert (shutdown_token conn ≠ t) as Hne by (pose proof (ok_shutdown _ _ Hok); congruence).
    split; [by apply Hf|]. by exists t.
  - destruct (route_response_tokens _ _ _ _ _ _ Hr) as (Ht & Hd & Hi).
    split_and!; [by rewrite Ht, Hd| |done]. revert Hr. unfold route.
    destruct (resp_id resp) as [id|]; [|run_st; intros [= <- <- <-]; by eauto].
    unfold mbind at 1, St_bind. destruct (deliver_to_map conn id resp w) as [[] w2].
    + run_st. intros [= <- <- <-]. by left.
    + destruct (OutgoingRequests_is_pending _ _); [|run_st; intros [= <- <- <-]; by eauto].
      run_st. destruct (OutgoingRequests_complete _ _ _ _) as [[b o] s]. intros [= <- <- <-]. by left.
  - revert Hr. unfold route. case_bool_decide as Hm; [|run_st; intros [= <- <- <-]; by eauto].
    destruct (parse_cancel_params _) as [id|]; [|run_st; intros [= <- <- <-]; by eauto].
    unfold mbind, St_bind. destruct (cancel_in conn id w) as [b w2] eqn:Hc.
    intros [= <- <- <-]. split; [by eapply cancel_in_law|]. by eauto.
Qed.

Lemma shutdown_law conn id w :
  conn_ok conn w → receiver_open (w_outbound w) = true →
  ∃ r conn' w', handle_shutdown conn id w = ((r, conn'), w') ∧ conn_ok conn' w' ∧
    queued (w_outbound w') = queued (w_outbound w) ++ [MResponse (Response_ok id VNull)] ∧
    receiver_open (w_outbound w') = true ∧ incoming_table conn' = incoming_table conn ∧
    lifecycle_state conn' = ShuttingDown ∧ is_cancelled (w_tokens w') (shutdown_token conn') = true.
Proof.
  intros Hok Ho. destruct (handle_shutdown conn id w) as [[r conn'] w'] eqn:Hh.
  destruct (shutdown_serves _ _ _ _ _ _ Hok Hh) as [[Hok' _ Ht _] Hc].
  exists r, conn', w'. rewrite Ht. revert Hh. unfold handle_shutdown, mbind, St_bind.
  destruct (on_tokens _ w) as [[] w1] eqn:Htok.
  assert (w_outbound w1 = w_outbound w) as Hout by (revert Htok; run_st; by intros [= <-]).
  destruct (send_open (with_lifecycle ShuttingDown conn) (MResponse (Response_ok id VNull)) w1)
    as (w2 & Hsend & Hs); [by rewrite Hout|].
  rewrite Hsend. intros [= <- <- <-]. split_and!; try done.
  - by rewrite (sends_queued _ _ _ Hs), Hout.
  - by rewrite (sends_open _ _ _ Hs), Hout.
Qed.

(** The requests a connection keeps pending: those it had, and the shutdowns. *)
Definition only_shutdowns (ms : list Message) (conn conn' : Connection) : Prop :=
  ∀ id, is_Some (incoming_table conn' !! id) →
    is_Some (incoming_table conn !! id) ∨
    ∃ req, MRequest req ∈ ms ∧ req_id req = id ∧ req_method req = SHUTDOWN_METHOD.

(** How a routed message [im] of [m] is handled: the loop goes on, in a good state, and
    what is sent carries the responses of the specification; or it waits for a timer. *)
Definition handled (bound : nat) (sender : ClientSender) (state : ServerState) (conn : Connection)
    (m : Message) (ticks : list Tick) (w : World)
    (im : IncomingMessage) (conn1 : Connection) (w1 : World) : Prop :=
  let down := is_cancelled (w_tokens w) (shutdown_token conn) in
  ∃ w' out,
    queued (w_outbound w') = queued (w_outbound w) ++ out ∧ receiver_open (w_outbound w') = true ∧
    documents_bound (bound + text_of_message m) (state_after state m) ∧
    match message_polls down state m ticks with
    | Some ticks' => ∃ conn',
      handle_incoming sender state conn1 im ticks w1 = ((Continue, state_after state m, conn', ticks'), w') ∧
      conn_ok conn' w' ∧ only_shutdowns [m] conn conn' ∧
      lifecycle_state conn' = lifecycle_after [m] (lifecycle_state conn) ∧
      is_cancelled (w_tokens w') (shutdown_token conn') = down || is_shutdown m ∧
      ∀ ms, serve down state (m :: ms) =
            app (responses out) <$> serve (down || is_shutdown m) (state_after state m) ms
    | None =>
      handle_incoming sender state conn1 im ticks w1 = ((Hang, state, conn1, []), w') ∧
      conn_ok conn1 w' ∧ w_tokens w' = w_tokens w1 ∧ responses out = []
    end.

Section one_message.
Context (bound : nat) (sender : ClientSender) (state : ServerState) (conn : Connection)
  (ticks : list Tick) (w : World) (conn1 : Connection) (w1 : World).
Context (Ho : receiver_open (w_outbound w) = true) (Hok1 : conn_ok conn1 w1)
  (Hout : w_outbound w1 = w_outbound w)
  (Hlife : lifecycle_state conn1 = lifecycle_state conn)
  (Hdown : is_cancelled (w_tokens w1) (shutdown_token conn1) = is_cancelled (w_tokens w) (shutdown_token conn))
  (Hb : documents_bound bound state).

Lemma shutdown_handled req t :
  req_method req = SHUTDOWN_METHOD → incoming_table conn1 = <[req_id req := t]> (incoming_table conn) →
  handled bound sender state conn (MRequest req) ticks w (InRequest req t) conn1 w1.
Proof.
  intros Hm Hin. unfold handled. cbn [handle_incoming text_of_message message_polls state_after is_shutdown].
  rewrite Nat.add_0_r, !bool_decide_eq_true_2, orb_true_r by done.
  destruct (shutdown_law conn1 (req_id req) w1) as (r & conn' & w' & Hsd & Hok' & Hq & Ho' & Hi & Hl & Hc);
    [done|by rewrite Hout|].
  exists w', [MResponse (Response_ok (req_id req) VNull)].
  split_and!; [by rewrite Hq, Hout|done|done|]. exists conn'. unfold mbind, St_bind. rewrite Hsd.
  split_and!; try done.
  - intros id. rewrite Hi, Hin. intros [t' [[<- _]|[_ Hid]]%lookup_insert_Some]; [right|by left].
    exists req. split_and!; [by apply list_elem_of_singleton|done..].
  - unfold lifecycle_after. cbn [existsb is_shutdown]. by rewrite bool_decide_eq_true_2.
  - intros ms. cbn [serve]. by rewrite bool_decide_eq_true_2.
Qed.

Lemma request_handled req t :
  (N.of_nat bound ≤ u32_MAX)%N → req_method req ≠ SHUTDOWN_METHOD →
  is_cancelled (w_tokens w1) t = is_cancelled (w_tokens w) (shutdown_token conn) →
  incoming_table conn1 = <[req_id req := t]> (incoming_table conn) →
  handled bound sender state conn (MRequest req) ticks w (InRequest req t) conn1 w1.
Proof.
  intros Hs Hm Htok Hin. unfold handled. cbn [handle_incoming text_of_message message_polls state_after is_shutdown].
  rewrite Nat.add_0_r, !bool_decide_eq_false_2, orb_false_r by done.
  destruct (handle_request_law bound sender state req t ticks w1 Hb Hs)
    as (r & ns & w2 & Ha & Hs2 & Hh). rewrite Htok in Ha, Hh.
  destruct (request_polls _ _ _ _) as [ticks'|].
  - destruct (respond_sends sender r w2) as (w3 & Hresp & Hs3); [by rewrite (sends_open _ _ _ Hs2), Hout|].
    pose proof (sends_app _ _ _ _ _ Hs2 Hs3) as Hs4.
    exists w3, ((MNotification <$> ns) ++ [MResponse r]).
    split_and!; [by rewrite (sends_queued _ _ _ Hs4), Hout|by rewrite (sends_open _ _ _ Hs4), Hout|done|].
    exists (complete_incoming (req_id req) conn1). unfold mbind, St_bind. rewrite Hh, Hresp. split_and!; try done.
    + apply complete_keeps. eapply conn_ok_same; [exact Hok1|..]; try done; apply Hs4.
    + intros id [t' Hid]. left.
      change (incoming_table _) with (delete (req_id req) (incoming_table conn1)) in Hid.
      apply lookup_delete_Some in Hid as [Hne Hid].
      rewrite Hin, lookup_insert_ne in Hid by done. by eexists.
    + unfold lifecycle_after. cbn [existsb is_shutdown]. by rewrite bool_decide_eq_false_2.
    + rewrite (sends_tokens _ _ _ Hs4). exact Hdown.
    + intros ms. cbn [serve]. rewrite bool_decide_eq_false_2 by done.
      by rewrite Ha, responses_app, responses_notifications.
  - exists w2, (MNotification <$> ns). unfold mbind, St_bind. rewrite Hh.
    split_and!; try done; [by rewrite (sends_queued _ _ _ Hs2), Hout|by rewrite (sends_open _ _ _ Hs2), Hout| | |].
    + eapply conn_ok_same; [exact Hok1|..]; try done; apply Hs2.
    + by rewrite (sends_tokens _ _ _ Hs2).
    + apply responses_notifications.
Qed.

(** A message that is not answered. *)
Lemma unanswered_handled m im :
  handle_incoming sender state conn1 im ticks w1 =
    ((Continue, state_after state m, conn1, ticks), w1) →
  message_polls (is_cancelled (w_tokens w) (shutdown_token conn)) state m ticks = Some ticks →
  documents_bound (bound + text_of_message m) (state_after state m) →
  incoming_table conn1 = incoming_table conn → is_shutdown m = false →
  (∀ down ms, serve down state (m :: ms) = serve down (state_after state m) ms) →
  handled bound sender state conn m ticks w im conn1 w1.
Proof.
  intros Hh Hp Hb' Hin Hnot Hserve. unfold handled. rewrite Hp, Hnot, orb_false_r.
  exists w1, []. split_and!; [by rewrite app_nil_r, Hout|by rewrite Hout|done|].
  exists conn1. split_and!; try done; [intros id; rewrite Hin; by left| |].
  - unfold lifecycle_after. cbn [existsb]. by rewrite Hnot.
  - intros ms. rewrite Hserve. by destruct (serve _ _ ms).
Qed.
End one_message.

Lemma message_law bound sender state conn m ticks w :
  conn_ok conn w → receiver_open (w_outbound w) = true → not_exit m →
  documents_bound bound state → (N.of_nat (bound + text_of_message m) ≤ u32_MAX)%N →
  ∃ im conn1 w1, route conn m w = ((im, conn1), w1) ∧
    match m with
    | MRequest req => ∃ t, im = InRequest req t ∧
        is_cancelled (w_tokens w1) t = is_cancelled (w_tokens w) (shutdown_token conn)
    | _ => True
    end ∧ is_cancelled (w_tokens w1) (shutdown_token conn1) = is_cancelled (w_tokens w) (shutdown_token conn) ∧
    lifecycle_state conn1 = lifecycle_state conn ∧
    handled bound sender state conn m ticks w im conn1 w1.
Proof.
  intros Hok Ho Hex Hb Hs. destruct (route conn m w) as [[im conn1] w1] eqn:Hr.
  destruct (route_cases _ _ _ _ _ _ Hok Hr) as (Hok1 & Hout & Hlife & Hdown & Him).
  exists im, conn1, w1. split; [done|].
  destruct m as [req|resp|n]; cbn [text_of_message] in Hs.
  - destruct Him as (t & -> & Htok & Hin). rewrite Nat.add_0_r in Hs. split_and!; [by exists t|done|done|].
    destruct (decide (req_method req = SHUTDOWN_METHOD)); [by apply shutdown_handled|by apply request_handled].
  - destruct Him as [Him Hin]. split_and!; try done. apply unanswered_handled; try done.
    + by destruct Him as [->|[r ->]].
    + cbn [text_of_message]. by rewrite Nat.add_0_r.
  - destruct Him as [Him Hin]. split_and!; try done.
    destruct (handle_notification_bound bound state n Hb Hs) as (state' & Hn & Hb').
    apply unanswered_handled; try done; cbn [state_after]; rewrite ?Hn; try done.
    + destruct Him as [->|[-> Hm]]; cbn [handle_incoming].
      * rewrite bool_decide_eq_false_2 by exact Hex. by rewrite Hn.
      * rewrite handle_cancel_notification in Hn by done. by simplify_eq.
    + intros down ms. cbn [serve]. by rewrite Hn.
Qed.

(** ** The loop *)

Definition incoming_events (ms : list Message) : list Event := (λ m, Received (Some (Ok m))) <$> ms.

Lemma lifecycle_after_cons m ms st :
  lifecycle_after (m :: ms) st = lifecycle_after ms (lifecycle_after [m] st).
Proof. unfold lifecycle_after. cbn [existsb]. by destruct (is_shutdown m), (existsb is_shutdown ms). Qed.

Lemma only_shutdowns_cons m ms conn1 conn2 conn3 :
  only_shutdowns [m] conn1 conn2 → only_shutdowns ms conn2 conn3 → only_shutdowns (m :: ms) conn1 conn3.
Proof.
  intros H1 H2 id [Hid|(req & Hreq & E)]%H2.
  - destruct (H1 _ Hid) as [|(req & Hreq & E)]; [by left|right]. exists req. split; [|done].
    apply list_elem_of_singleton in Hreq as ->. apply list_elem_of_here.
  - right. exists req. split; [by apply list_elem_of_further|done].
Qed.

(** What a loop over messages comes to: it goes on with what comes after them, or it
    waits for a timer. *)
Definition loop_law (loop : list Event → St (server_end * ServerState * Connection * list Tick))
    (sender : ClientSender) (state : ServerState) (conn : Connection) (ms : list Message)
    (ticks : list Tick) (w : World) : Prop :=
  let down := is_cancelled (w_tokens w) (shutdown_token conn) in
  let '(handled, waiting, ticks') := progress down state ms ticks in
  ∃ out state' conn' w',
    serve down state handled = Some (responses out) ∧
    queued (w_outbound w') = queued (w_outbound w) ++ out ∧
    match waiting with
    | [] =>
      (∀ rest, loop (incoming_events ms ++ rest) w = server_loop sender state' conn' rest ticks' w') ∧
      only_shutdowns ms conn conn' ∧ lifecycle_state conn' = lifecycle_after ms (lifecycle_state conn)
    | _ => ∀ rest, loop (incoming_events ms ++ rest) w = ((ServerHanging, state', conn', ticks'), w')
    end.

Lemma server_loop_law ms bound sender state conn ticks w :
  conn_ok conn w → receiver_open (w_outbound w) = true → Forall not_exit ms →
  documents_bound bound state →
  (N.of_nat (bound + sum_list_with text_of_message ms) ≤ u32_MAX)%N →
  loop_law (λ events, server_loop sender state conn events ticks) sender state conn ms ticks w.
Proof.
  intros Hok Ho Hex Hb Hs. revert bound state conn ticks w Hok Ho Hb Hs.
  induction Hex as [|m ms Hm _ IH]; intros bound state conn ticks w Hok Ho Hb Hs; unfold loop_law.
  { exists [], state, conn, w. split_and!; try done; [by rewrite app_nil_r|]. intros id. by left. }
  cbn [progress sum_list_with] in *.
  destruct (message_law bound sender state conn m ticks w)
    as (im & conn1 & w1 & Hr & _ & _ & _ & w2 & out & Hq & Ho2 & Hb2 & Hh); [try done; lia..|].
  destruct (message_polls _ state m ticks) as [ticks1|].
  - destruct Hh as (conn2 & Hh & Hok2 & Honly & Hlife & Hdown & Hserve).
    specialize (IH (bound + text_of_message m) (state_after state m) conn2 ticks1 w2 Hok2 Ho2 Hb2 ltac:(lia)).
    unfold loop_law in IH. rewrite Hdown in IH.
    destruct (progress _ _ ms ticks1) as [[handled waiting] ticks'].
    destruct IH as (out2 & state' & conn' & w' & Hserve2 & Hq2 & Hrun).
    assert (∀ rest, server_loop sender state conn (incoming_events (m :: ms) ++ rest) ticks w =
      server_loop sender (state_after state m) conn2 (incoming_events ms ++ rest) ticks1 w2) as Hstep.
    { intros rest. cbn [incoming_events fmap list_fmap server_loop app]. unfold mbind, St_bind. by rewrite Hr, Hh. }
    exists (out ++ out2), state', conn', w'. split_and!.
    + by rewrite Hserve, Hserve2, responses_app.
    + by rewrite Hq2, Hq, app_assoc.
    + destruct waiting; [|intros rest; by rewrite Hstep]. destruct Hrun as (Hrun & Honly2 & Hlife2).
      split_and!; [intros rest; by rewrite Hstep|by eapply only_shutdowns_cons|].
      by rewrite Hlife2, Hlife, <-lifecycle_after_cons.
  - destruct Hh as (Hh & _ & _ & Hrs). exists out, state, conn1, w2. split_and!; [by rewrite Hrs|done|].
    intros rest. cbn [incoming_events fmap list_fmap server_loop app]. unfold mbind, St_bind. by rewrite Hr, Hh.
Qed.

Lemma run_server_law ms sender conn ticks w :
  conn_ok conn w → receiver_open (w_outbound w) = true → Forall not_exit ms →
  (N.of_nat (sum_list_with text_of_message ms) ≤ u32_MAX)%N →
  loop_law (λ events, run_server conn sender events ticks) sender ServerState_new conn ms ticks w.
Proof.
  intros Hok Ho Hex Hs.
  destruct (log_message_sends sender INFO "Formatter server ready" w) as (ns & w1 & Hl & Hs1).
  assert (conn_ok conn w1) as Hok1 by (eapply conn_ok_same; [exact Hok|..]; try done; apply Hs1).
  pose proof (server_loop_law ms 0 sender ServerState_new conn ticks w1 Hok1) as Hlaw.
  unfold loop_law in *. rewrite (sends_tokens _ _ _ Hs1), (sends_open _ _ _ Hs1) in Hlaw.
  specialize (Hlaw Ho Hex ltac:(done) Hs).
  destruct (progress _ _ ms ticks) as [[handled waiting] ticks'].
  destruct Hlaw as (out & state' & conn' & w' & Hserve & Hq & Hrun).
  assert (∀ rest, run_server conn sender (incoming_events ms ++ rest) ticks w =
    server_loop sender ServerState_new conn (incoming_events ms ++ rest) ticks w1) as Hstep.
  { intros rest. unfold run_server, mbind, St_bind. by rewrite Hl. }
  exists ((MNotification <$> ns) ++ out), state', conn', w'. split_and!.
  - by rewrite Hserve, responses_app, responses_notifications.
  - by rewrite Hq, (sends_queued _ _ _ Hs1), app_assoc.
  - destruct waiting; [destruct Hrun as (Hrun & ? & ?); split_and!|]; try done; intros rest; by rewrite Hstep.
Qed.

(** With nothing after the messages, the server waits for more, or in a formatting. *)
Lemma run_server_waits ms sender conn ticks w :
  conn_ok conn w → receiver_open (w_outbound w) = true → Forall not_exit ms →
  (N.of_nat (sum_list_with text_of_message ms) ≤ u32_MAX)%N →
  let down := is_cancelled (w_tokens w) (shutdown_token conn) in
  let '(handled, waiting, ticks') := progress down ServerState_new ms ticks in
  ∃ out state' conn' w',
    run_server conn sender (incoming_events ms) ticks w =
      ((match waiting with [] => ServerWaiting | _ => ServerHanging end, state', conn', ticks'), w') ∧
    queued (w_outbound w') = queued (w_outbound w) ++ out ∧
    serve down ServerState_new handled = Some (responses out) ∧
    (waiting = [] → only_shutdowns ms conn conn').
Proof.
  intros Hok Ho Hex Hs. pose proof (run_server_law ms sender conn ticks w Hok Ho Hex Hs) as Hlaw.
  unfold loop_law in Hlaw. cbv zeta. destruct (progress _ _ ms ticks) as [[handled waiting] ticks'].
  destruct Hlaw as (out & state' & conn' & w' & Hserve & Hq & Hrun). exists out, state', conn', w'.
  rewrite <-(app_nil_r (incoming_events ms)).
  destruct waiting; [destruct Hrun as (Hrun & Honly & _)|]; by rewrite Hrun.
Qed.

(** C21: as long as the texts keep within the [u32] positions the server implements its
    specification, however often its timers are polled before they run out: it queues one response to every request it has handled, in
    order, the one that the messages before it determine, and no other.  Unless a
    formatting waits for a timer that does not run out, that is every request: the
    server then waits for more messages, and no request but a [shutdown] stays pending. *)
Theorem requests_answered ms sender conn ticks w :
  conn_ok conn w → receiver_open (w_outbound w) = true → Forall not_exit ms →
  (N.of_nat (sum_list_with text_of_message ms) ≤ u32_MAX)%N →
  ∃ handled waiting out e state' conn' ticks' w',
    run_server conn sender (incoming_events ms) ticks w = ((e, state', conn', ticks'), w') ∧
    ms = handled ++ waiting ∧
    queued (w_outbound w') = queued (w_outbound w) ++ out ∧
    serve (is_cancelled (w_tokens w) (shutdown_token conn)) ServerState_new handled = Some (responses out) ∧
    match waiting with
    | [] => e = ServerWaiting ∧ only_shutdowns ms conn conn'
    | m :: _ => e = ServerHanging ∧ ticks' = [] ∧
        ∃ req, m = MRequest req ∧ req_method req = FORMATTING_METHOD
    end ∧
    (length ms ≤ timers ticks → waiting = []).
Proof.
  intros Hok Ho Hex Hs. pose proof (run_server_waits ms sender conn ticks w Hok Ho Hex Hs) as Hlaw.
  cbv zeta in Hlaw. destruct (progress _ _ ms ticks) as [[handled waiting] ticks'] eqn:Hp.
  destruct Hlaw as (out & state' & conn' & w' & Hrun & Hq & Hserve & Honly).
  exists handled, waiting, out, (match waiting with [] => ServerWaiting | _ => ServerHanging end),
    state', conn', ticks', w'.
  split_and!; try done; [by eapply progress_app| |by eapply progress_enough].
  destruct waiting; [by split; [|apply Honly]|]. split; [done|by eapply progress_waiting].
Qed.

(** C39: the server awaits each request before it reads the next message, so a
    [$/cancelRequest] is read only after the request it names was answered: with and
    without the cancellations, for any polls of its timers, the server comes equally
    far and queues the same responses.  A formatting that waits for its timer goes on
    waiting when its cancellation follows. *)
Theorem cancellation_without_effect ms sender conn ticks w :
  conn_ok conn w → receiver_open (w_outbound w) = true → Forall not_exit ms →
  (N.of_nat (sum_list_with text_of_message ms) ≤ u32_MAX)%N →
  ∃ e ticks' out1 out2 state1 state2 conn1 conn2 w1 w2,
    run_server conn sender (incoming_events ms) ticks w = ((e, state1, conn1, ticks'), w1) ∧
    run_server conn sender (incoming_events (filter (λ m, is_cancel m = false) ms)) ticks w =
      ((e, state2, conn2, ticks'), w2) ∧
    queued (w_outbound w1) = queued (w_outbound w) ++ out1 ∧
    queued (w_outbound w2) = queued (w_outbound w) ++ out2 ∧
    responses out1 = responses out2.
Proof.
  intros Hok Ho Hex Hs. pose proof (run_server_waits ms sender conn ticks w Hok Ho Hex Hs) as Hlaw.
  pose proof (run_server_waits (filter (λ m, is_cancel m = false) ms) sender conn ticks w Hok Ho) as Hlaw'.
  cbv zeta in Hlaw, Hlaw'. destruct (progress _ _ ms ticks) as [[handled waiting] ticks'] eqn:Hp.
  rewrite (progress_without_cancel _ _ _ _ _ _ _ Hp) in Hlaw'.
  destruct Hlaw as (out & s1 & c1 & w1 & Hrun & Hq & Hserve & _).
  destruct Hlaw' as (out' & s2 & c2 & w2 & Hrun' & Hq' & Hserve' & _).
  - apply Forall_forall. intros m Hm%list_elem_of_In. apply list_elem_of_filter in Hm as [_ Hm].
    apply list_elem_of_In in Hm. revert m Hm. by apply Forall_forall.
  - etrans; [|exact Hs]. clear. induction ms as [|m ms IH]; [done|].
    rewrite filter_cons. cbn [sum_list_with]. case_decide; cbn [sum_list_with]; lia.
  - rewrite serve_without_cancel, Hserve in Hserve'. injection Hserve' as Hrs.
    assert (match filter (λ m, is_cancel m = false) waiting with [] => ServerWaiting | _ => ServerHanging end =
      match waiting with [] => ServerWaiting | _ => ServerHanging end) as He.
    { destruct waiting as [|m rest]; [done|].
      destruct (progress_waiting _ _ _ _ _ _ _ _ Hp) as (_ & req & -> & _). by rewrite filter_cons, decide_True. }
    rewrite He in Hrun'. eauto 15.
Qed.
End server.

(** ** Examples: a runtime, and structures of [lsp_types] in a fixed form *)

(** A document's uri is its params; a document is opened with a text of one letter. *)
#[export] Instance model_lsp : LspTypes := {|
  Uri := string;
  Uri_debug := id;
  client_info_of := λ _, None;
  DidOpenTextDocumentParams_of v :=
    match v with VString uri => Some (uri, document_new (lit "a") 1) | _ => None end;
  DidChangeTextDocumentParams_of v :=
    match v with
    | VString uri => Some (uri, 2%Z, [change_new (Some (range_new (position_new 0 1) (position_new 0 1))) (lit "b")])
    | _ => None
    end;
  DidCloseTextDocumentParams_of v := match v with VString uri => Some uri | _ => None end;
  DocumentFormattingParams_of v := match v with VString uri => Some uri | _ => None end;
  LogMessageParams_to_value _ message := inr (VString message);
  edits_to_value edits :=
    inr (VArray ((λ e, VString (string_of_list_ascii (ascii_of_N <$> new_text e))) <$> edits));
  server_capabilities_value := inr (VObject []);
  to_uppercase := ascii_uppercase;
|}.

Definition formatter_connection : (ClientSender (TK := model_tokio) * Connection (TK := model_tokio)) * World (TK := model_tokio) :=
  let '(conn, w) := Connection_new (TK := model_tokio) empty_world in client_sender conn w.

Definition doc_notification (method : string) : Message :=
  MNotification (Notification_new method (Some (VString "file:///a"))).

Definition format_call (id : Z) : Message :=
  MRequest (Request_new (IdInteger id) FORMATTING_METHOD (Some (VString "file:///a"))).

(** Open, change, format and cancel; then shut down and format again. *)
Definition session : list Message :=
  [doc_notification "textDocument/didOpen"; doc_notification "textDocument/didChange"; format_call 1;
   MNotification (Notification_new CANCEL_REQUEST_METHOD (Some (cancel_params (IdInteger 1))));
   MRequest (Request_new (IdInteger 2) SHUTDOWN_METHOD None); format_call 3].

(** The first formatting is polled twice before its timer runs out, the second once. *)
Definition late_ticks : list Tick :=
  [tick_new false true; tick_new false false; tick_new true true; tick_new false false] ++
  replicate 5 (tick_new true true).

(** The polls of a timer that does not run out. *)
Definition early_ticks : list Tick := replicate 9 (tick_new false false).

Definition session_connection : Connection (TK := model_tokio) := formatter_connection.1.2.
Definition session_sender : ClientSender (TK := model_tokio) := formatter_connection.1.1.
Definition session_world : World (TK := model_tokio) := formatter_connection.2.

Lemma session_ok : conn_ok session_connection session_world.
Proof.
  destruct (Connection_new (TK := model_tokio) empty_world) as [conn w] eqn:Hnew.
  destruct (Connection_new_ok (TK := model_tokio) empty_world _ _ Hnew) as (Hok & _).
  assert (client_sender conn w = ((session_sender, session_connection), session_world)) as Hc
    by (injection Hnew as <- <-; reflexivity).
  by eapply client_sender_keeps.
Qed.

(** The formatting is answered although its cancellation follows at once; after the
    shutdown the next one is cancelled, and only the shutdown stays pending. *)
Example session_responses :
  let '((e, _, conn', _), w') :=
    run_server session_connection session_sender (incoming_events session) late_ticks session_world in
  e = ServerWaiting ∧
  responses (w_outbound w').1 =
    [Response_ok (IdInteger 1) (VArray [VString "AB"]); Response_ok (IdInteger 2) VNull;
     cancelled_response (IdInteger 3)] ∧
  (map_to_list (incoming_table conn')).*1 = [IdInteger 2].
Proof. by vm_compute. Qed.

Lemma session_not_exit : Forall not_exit session.
Proof. by repeat constructor. Qed.

Lemma session_open : receiver_open (TokioLaws := model_tokio_laws) (w_outbound session_world) = true.
Proof. by vm_compute. Qed.

Lemma session_size : (N.of_nat (sum_list_with text_of_message session) ≤ u32_MAX)%N.
Proof. by vm_compute. Qed.

Lemma session_ticks : length session ≤ timers late_ticks.
Proof. vm_compute. lia. Qed.

(** While the timer has not run out, the formatting waits, and its cancellation is not
    even read. *)
Example session_waits :
  let '((e, _, _, _), w') :=
    run_server session_connection session_sender (incoming_events session) early_ticks session_world in
  e = ServerHanging ∧ responses (w_outbound w').1 = [].
Proof. by vm_compute. Qed.

Lemma requests_answered_witness :
  ∃ out state' conn' ticks' w',
    run_server session_connection session_sender (incoming_events session) late_ticks session_world =
      ((ServerWaiting, state', conn', ticks'), w') ∧
    queued (TokioLaws := model_tokio_laws) (w_outbound w') = queued (TokioLaws := model_tokio_laws) (w_outbound session_world) ++ out ∧
    serve (is_cancelled (w_tokens session_world) (shutdown_token session_connection)) ServerState_new session =
      Some (responses out) ∧
    only_shutdowns session session_connection conn'.
Proof.
  destruct (requests_answered (TL := model_tokio_laws) session session_sender session_connection late_ticks
    session_world session_ok session_open session_not_exit session_size)
    as (handled & waiting & out & e & state' & conn' & ticks' & w' & Hrun & Hms & Hq & Hserve & He & Henough).
  rewrite (Henough session_ticks) in Hms, He. rewrite app_nil_r in Hms. destruct He as [-> Honly].
  rewrite <-Hms in Hserve. by exists out, state', conn', ticks', w'.
Defined.

(** The formatting waits, and then its timer runs out; both times its cancellation
    changes nothing. *)
Lemma cancellation_without_effect_witness :
  Forall (λ ticks, ∃ e t out1 out2 s1 s2 c1 c2 w1 w2,
    run_server session_connection session_sender (incoming_events session) ticks session_world =
      (e, s1, c1, t, w1) ∧
    run_server session_connection session_sender
      (incoming_events (filter (λ m, is_cancel m = false) session)) ticks session_world =
      (e, s2, c2, t, w2) ∧
    queued (w_outbound w1) = queued (TokioLaws := model_tokio_laws) (w_outbound session_world) ++ out1 ∧
    queued (w_outbound w2) = queued (TokioLaws := model_tokio_laws) (w_outbound session_world) ++ out2 ∧
    responses out1 = responses out2) [early_ticks; late_ticks].
Proof.
  apply Forall_forall. intros ticks _.
  destruct (cancellation_without_effect (TL := model_tokio_laws) session session_sender session_connection ticks
    session_world session_ok session_open session_not_exit session_size)
    as (e & t & out1 & out2 & s1 & s2 & c1 & c2 & w1 & w2 & H1 & H2 & Hrest).
  exists e, t, out1, out2, s1, s2, c1, c2, w1, w2. exact (conj H1 (conj H2 Hrest)).
Defined.

(** A cancelled formatting whose timer has run out as well. *)
Lemma format_cancellation_witness :
  ∃ w' : World (TK := model_tokio),
    let '(token, s) := token_new (Tokio := model_tokio) (w_tokens session_world) in
    let w := with_tokens (token_cancel (Tokio := model_tokio) token s) session_world in
    format_poll session_sender (document_new (lit "a") 1) token (tick_new true true) w =
    (Ready (Some (Err Cancelled)), w').
Proof.
  destruct (format_cancellation (TL := model_tokio_laws) session_sender (document_new (lit "a") 1)
    (token_new (Tokio := model_tokio) (w_tokens session_world)).1 (tick_new true true)
    (with_tokens (token_cancel (Tokio := model_tokio)
       (token_new (Tokio := model_tokio) (w_tokens session_world)).1
       (token_new (Tokio := model_tokio) (w_tokens session_world)).2) session_world)
    ltac:(by vm_compute)) as (edits & ns & w' & _ & _ & Hp).
  exists w'. exact Hp.
Defined.
