(* ===== verification/Process.v ===== *)
(** * Process: the formatter server as a process, [main] next to the drain task.

    [main_server] of [Formatter] is [main] when nothing else runs.  Here it is a
    machine that stops wherever [main] awaits: for an item of its stream, or for the
    timer of a formatting ([main_event], [formatting_poll]); run alone it is
    [main_server].  A process interleaves it with the drain task, which writes the
    queue to the standard output: [main] only queues its answers, and nothing waits
    for them to be written when it returns or calls [std::process::exit]. *)

From S2P Require Import Prelude RustStd Serde RequestId Error Message Io Tokio World RequestQueue Lifecycle Routing ClientSender Connection Handshake Serving Ownership Effects System Safety Delivery Schedule EndToEnd Document Formatter.

(** ** [main], from one await to the next

    The sends between two awaits are one step of the machine. *)

Section machine.
Context `{TK : Tokio} `{LT : LspTypes}.

(** Where [main] awaits, or how it ended: in [initialize_start], in
    [initialize_finish], in the loop of [run_server], in [format_document]. *)
Inductive MainState : Type :=
| MainStarting (capabilities : Value)
| MainFinishing (params : Value)
| MainServing (sender : ClientSender) (state : ServerState)
| MainFormatting (sender : ClientSender) (state : ServerState) (req : Request) (token : Token)
    (doc : DocumentState)
| MainDone (e : server_end).

Definition main_begin : MainState :=
  match server_capabilities_value with
  | inl _ => MainDone ServerReturned
  | inr capabilities => MainStarting capabilities
  end.

Definition starting_event (capabilities : Value) (conn : Connection)
    (item : option (result io_error Message)) : St (MainState * Connection) :=
  '(o, conn) ← initialize_start_step conn item;
  match o with
  | None => mret (MainStarting capabilities, conn)
  | Some (Ok (id, params)) =>
    r ← send conn (MResponse (Response_ok id (initialize_result_of capabilities)));
    mret (match r with
          | Ok _ => MainFinishing params
          | Err _ => MainDone ServerReturned
          | Panic => MainDone ServerPanicked
          end, conn)
  | Some (Err _) => mret (MainDone ServerReturned, conn)
  | Some Panic => mret (MainDone ServerPanicked, conn)
  end.

Definition finishing_event (params : Value) (conn : Connection)
    (item : option (result io_error Message)) : St (MainState * Connection) :=
  '(o, conn) ← initialize_finish_step conn item;
  match o with
  | None => mret (MainFinishing params, conn)
  | Some (Ok _) =>
    '(sender, conn) ← client_sender conn;
    match client_info_of params with
    | Some info => log_message sender INFO ("Client initialized: " +:+ info)
    | None => mret ()
    end;;
    log_message sender INFO "Formatter server ready";;
    mret (MainServing sender ServerState_new, conn)
  | Some (Err _) => mret (MainDone ServerReturned, conn)
  | Some Panic => mret (MainDone ServerPanicked, conn)
  end.

(** [handle_incoming] hangs where it gets no poll of its timer: at the [select!] of a
    formatting. *)
Definition main_awaits (sender : ClientSender) (state : ServerState) (msg : IncomingMessage) : MainState :=
  match msg with
  | InRequest req token =>
    match (req_params req ≫= DocumentFormattingParams_of) ≫= (λ uri, documents state !! uri) with
    | Some doc => MainFormatting sender state req token doc
    | None => MainDone ServerPanicked
    end
  | _ => MainDone ServerPanicked
  end.

Definition main_verdict (sender : ClientSender) (state : ServerState) (msg : IncomingMessage)
    (v : verdict) : MainState :=
  match v with
  | Continue => MainServing sender state
  | Break => MainDone ServerReturned
  | Exit code => MainDone (ServerExited (ExitCode_as_i32 code))
  | Hang => main_awaits sender state msg
  | Panicked => MainDone ServerPanicked
  end.

Definition serving_event (sender : ClientSender) (state : ServerState) (conn : Connection)
    (item : option (result io_error Message)) : St (MainState * Connection) :=
  match item with
  | None | Some (Err _) => mret (MainDone ServerReturned, conn)
  | Some Panic => mret (MainDone ServerPanicked, conn)
  | Some (Ok msg) =>
    '(msg, conn) ← route conn msg;
    '(v, state, conn, _) ← handle_incoming sender state conn msg [];
    mret (main_verdict sender state msg v, conn)
  end.

(** One event: an item of the stream, or the deadline of the handshake. *)
Definition main_event (st : MainState) (conn : Connection) (e : Event) : St (MainState * Connection) :=
  match st, e with
  | MainStarting capabilities, Received item => starting_event capabilities conn item
  | MainFinishing params, Received item => finishing_event params conn item
  | MainFinishing _, Elapsed => mret (MainDone ServerReturned, conn)
  | MainServing sender state, Received item => serving_event sender state conn item
  | _, _ => mret (st, conn)
  end.

(** One poll of the timer of a formatting, and what comes after it. *)
Definition formatting_poll (sender : ClientSender) (state : ServerState) (req : Request)
    (token : Token) (doc : DocumentState) (conn : Connection) (tick : Tick) :
    St (MainState * Connection) :=
  r ← format_poll sender doc token tick;
  match r with
  | Pending => mret (MainFormatting sender state req token doc, conn)
  | Ready o =>
    match o ≫= format_response (req_id req) with
    | Some response =>
      sent ← respond sender response;
      mret (match sent with
            | Ok _ => (MainServing sender state, complete_incoming (req_id req) conn)
            | Err _ => (MainDone ServerReturned, conn)
            | Panic => (MainDone ServerPanicked, conn)
            end)
    | None => mret (MainDone ServerPanicked, conn)
    end
  end.

(** ** The machine alone *)

Fixpoint polls_run (st : MainState) (conn : Connection) (ticks : list Tick) :
    St (MainState * Connection * list Tick) :=
  match st, ticks with
  | MainFormatting sender state req token doc, tick :: ticks =>
    '(st, conn) ← formatting_poll sender state req token doc conn tick;
    polls_run st conn ticks
  | _, _ => mret (st, conn, ticks)
  end.

Fixpoint main_run (st : MainState) (conn : Connection) (events : list Event) (ticks : list Tick) :
    St server_end :=
  match st with
  | MainDone e => mret e
  | MainFormatting _ _ _ _ _ => mret ServerHanging
  | _ =>
    match events with
    | [] => mret ServerWaiting
    | e :: events =>
      '(st, conn) ← main_event st conn e;
      '(st, conn, ticks) ← polls_run st conn ticks;
      main_run st conn events ticks
    end
  end.
End machine.

Section alone.
Context `{TK : Tokio} `{LT : LspTypes}.

Lemma bind_run {A B} (m : St A) (f : A → St B) w : (m ≫= f) w = let '(a, w') := m w in f a w'.
Proof. done. Qed.

Lemma polls_run_stops st conn ticks w :
  (∀ sender state req token doc, st ≠ MainFormatting sender state req token doc) →
  polls_run st conn ticks w = ((st, conn, ticks), w).
Proof. intros H. destruct st; destruct ticks; try done; by destruct (H sender state req token doc). Qed.

(** What is done with the answer of a formatting. *)
Definition after_format (sender : ClientSender) (state : ServerState) (req : Request) (conn : Connection)
    (token : Token) (doc : DocumentState) (ticks : list Tick)
    (r : poll (option (result FormatError (list TextEdit)))) : St (MainState * Connection * list Tick) :=
  match r with
  | Pending => mret (MainFormatting sender state req token doc, conn, ticks)
  | Ready o =>
    match o ≫= format_response (req_id req) with
    | Some response =>
      sent ← respond sender response;
      mret (match sent with
            | Ok _ => (MainServing sender state, complete_incoming (req_id req) conn, ticks)
            | Err _ => (MainDone ServerReturned, conn, ticks)
            | Panic => (MainDone ServerPanicked, conn, ticks)
            end)
    | None => mret (MainDone ServerPanicked, conn, ticks)
    end
  end.

Lemma polls_run_formatting sender state req token doc conn ticks w :
  polls_run (MainFormatting sender state req token doc) conn ticks w =
  ('(r, ticks) ← format_wait sender doc token ticks;
   after_format sender state req conn token doc ticks r) w.
Proof.
  revert w. induction ticks as [|tick ticks IH]; intros w; [done|].
  cbn [polls_run format_wait]. rewrite !bind_run. unfold formatting_poll. rewrite !bind_run.
  destruct (format_poll sender doc token tick w) as [[o|] w1].
  - transitivity (after_format sender state req conn token doc ticks (Ready o) w1); [|done].
    unfold after_format. destruct (o ≫= format_response (req_id req)) as [response|].
    + rewrite !bind_run. destruct (respond sender response w1) as [[u|e|] w2]; unfold mret, St_ret;
        by apply polls_run_stops.
    + unfold mret, St_ret. by apply polls_run_stops.
  - transitivity (polls_run (MainFormatting sender state req token doc) conn ticks w1); [done|].
    by rewrite IH.
Qed.

(** A request is handled without a poll, or comes to the [select!]. *)
Lemma handle_request_cases sender state req token w :
  (∃ o w', ∀ ticks, handle_request sender state req token ticks w = ((Ready o, ticks), w')) ∨
  (∃ doc w', (req_params req ≫= DocumentFormattingParams_of) ≫= (λ uri, documents state !! uri) = Some doc ∧
    ∀ ticks, handle_request sender state req token ticks w =
      ('(r, ticks) ← format_wait sender doc token ticks;
       mret (match r with
             | Ready o => Ready (o ≫= format_response (req_id req))
             | Pending => Pending
             end, ticks)) w').
Proof.
  unfold handle_request. case_bool_decide; [|left; by eexists _, w].
  destruct (req_params req ≫= DocumentFormattingParams_of) as [uri|]; [|left; by eexists _, w].
  unfold format_document. cbn [mbind option_bind].
  destruct (documents state !! uri) as [doc|]; [|left; by eexists _, w].
  right. destruct (log_message sender LOG ("Formatting document: " +:+ Uri_debug uri) w) as [[] w1] eqn:Hl.
  exists doc, w1. split; [done|]. intros ticks. rewrite !bind_run, Hl. by destruct (format_wait _ _ _ _ w1) as [[[o|] t] w2].
Qed.

(** What the loop makes of a verdict. *)
Definition after_verdict (sender : ClientSender) (events : list Event)
    (r : verdict * ServerState * Connection * list Tick) : St server_end :=
  let '(v, state, conn, ticks) := r in
  match v with
  | Continue => main_run (MainServing sender state) conn events ticks
  | Break => mret ServerReturned
  | Exit code => mret (ServerExited (ExitCode_as_i32 code))
  | Hang => mret ServerHanging
  | Panicked => mret ServerPanicked
  end.

Lemma handled_plainly sender state conn im events ticks v s c w w' :
  v ≠ Hang → (∀ ticks, handle_incoming sender state conn im ticks w = ((v, s, c, ticks), w')) →
  ('(v, state, conn, _) ← handle_incoming sender state conn im [];
   '(st, conn, ticks) ← polls_run (main_verdict sender state im v) conn ticks;
   main_run st conn events ticks) w =
  (r ← handle_incoming sender state conn im ticks; after_verdict sender events r) w.
Proof.
  intros Hv Hh. rewrite !bind_run, !Hh. unfold after_verdict. destruct v; try done;
    rewrite bind_run, polls_run_stops by done; by destruct events.
Qed.

Lemma handled_alone sender state conn im events ticks w :
  ('(v, state, conn, _) ← handle_incoming sender state conn im [];
   '(st, conn, ticks) ← polls_run (main_verdict sender state im v) conn ticks;
   main_run st conn events ticks) w =
  (r ← handle_incoming sender state conn im ticks; after_verdict sender events r) w.
Proof.
  destruct im as [req token|notif| | |].
  2: { destruct (decide (notif_method notif = EXIT_METHOD)) as [He|He].
       - destruct (handle_exit conn) as [code c] eqn:Hx. eapply handled_plainly;
           [|intros t; cbn [handle_incoming]; rewrite bool_decide_eq_true_2 by done; by rewrite Hx]. done.
       - destruct (handle_notification state notif) as [state'|] eqn:Hn;
           (eapply handled_plainly; [|intros t; cbn [handle_incoming];
             rewrite bool_decide_eq_false_2 by done; by rewrite Hn]); done. }
  2-4: by apply (handled_plainly sender state conn _ events ticks Continue state conn w w).
  destruct (decide (req_method req = SHUTDOWN_METHOD)) as [Hs|Hs].
  { destruct (handle_shutdown conn (req_id req) w) as [[r c] w1] eqn:Hsd.
    eapply handled_plainly; [|intros t; cbn [handle_incoming]; rewrite bool_decide_eq_true_2 by done;
      by rewrite bind_run, Hsd]. done. }
  destruct (handle_request_cases sender state req token w) as [(o & w1 & Hh)|(doc & w1 & Hdoc & Hh)].
  { destruct o as [response|].
    - destruct (respond sender response w1) as [sent w2] eqn:Hr.
      destruct sent as [u|e|]; (eapply handled_plainly; [|intros t; cbn [handle_incoming];
        rewrite bool_decide_eq_false_2 by done; by rewrite bind_run, Hh, bind_run, Hr]); done.
    - eapply handled_plainly; [|intros t; cbn [handle_incoming];
        rewrite bool_decide_eq_false_2 by done; by rewrite bind_run, Hh]. done. }
  assert (handle_incoming sender state conn (InRequest req token) [] w = ((Hang, state, conn, []), w1)) as Hempty
    by (cbn [handle_incoming]; rewrite bool_decide_eq_false_2 by done; by rewrite bind_run, Hh).
  rewrite !bind_run, Hempty. cbn [main_verdict main_awaits]. rewrite Hdoc, bind_run, polls_run_formatting.
  cbn [handle_incoming]. rewrite bool_decide_eq_false_2 by done. rewrite !bind_run, Hh, !bind_run.
  destruct (format_wait sender doc token ticks w1) as [[[o|] ticks'] w2]; [|by destruct events].
  unfold after_format, mret, St_ret.
  destruct (o ≫= format_response (req_id req)) as [response|]; [|by destruct events].
  rewrite !bind_run. destruct (respond sender response w2) as [[u|e|] w3]; by destruct events.
Qed.

Lemma main_run_serving sender state conn msg events ticks w :
  main_run (MainServing sender state) conn (Received (Some (Ok msg)) :: events) ticks w =
  ('(msg, conn) ← route conn msg;
   r ← handle_incoming sender state conn msg ticks;
   after_verdict sender events r) w.
Proof.
  cbn [main_run main_event serving_event]. rewrite !bind_run.
  destruct (route conn msg w) as [[im conn1] w1]. rewrite <-handled_alone, !bind_run.
  by destruct (handle_incoming sender state conn1 im [] w1) as [[[[v s] c] t] w2].
Qed.

Lemma main_run_loop sender state conn events ticks w :
  main_run (MainServing sender state) conn events ticks w =
  ('(e, _, _, _) ← server_loop sender state conn events ticks; mret e) w.
Proof.
  revert state conn ticks w. induction events as [|e events IH]; intros state conn ticks w; [done|].
  destruct e as [[[msg|err|]|]|].
  - rewrite main_run_serving. cbn [server_loop]. rewrite !bind_run.
    destruct (route conn msg w) as [[im conn1] w1]. rewrite !bind_run.
    destruct (handle_incoming sender state conn1 im ticks w1) as [[[[v s] c] t] w2].
    destruct v; [apply IH|done..].
  - cbn [main_run main_event serving_event server_loop]. rewrite !bind_run. unfold mret, St_ret.
    rewrite bind_run, polls_run_stops by done. by destruct events.
  - cbn [main_run main_event serving_event server_loop]. rewrite !bind_run. unfold mret, St_ret.
    rewrite bind_run, polls_run_stops by done. by destruct events.
  - cbn [main_run main_event serving_event server_loop]. rewrite !bind_run. unfold mret, St_ret.
    rewrite bind_run, polls_run_stops by done. by destruct events.
  - cbn [main_run main_event server_loop]. rewrite bind_run. unfold mret at 1, St_ret.
    rewrite bind_run, polls_run_stops by done. apply IH.
Qed.

(** What [main] does with the result of the handshake. *)
Definition after_handshake (params : Value) (r : poll (result ProtocolError unit)) (conn : Connection)
    (events : list Event) (ticks : list Tick) : St server_end :=
  match r with
  | Pending => mret ServerWaiting
  | Ready (Err _) => mret ServerReturned
  | Ready Panic => mret ServerPanicked
  | Ready (Ok _) =>
    '(sender, conn) ← client_sender conn;
    match client_info_of params with
    | Some info => log_message sender INFO ("Client initialized: " +:+ info)
    | None => mret ()
    end;;
    '(e, _, _, _) ← run_server conn sender events ticks;
    mret e
  end.

Lemma main_run_finishing params conn events ticks w :
  main_run (MainFinishing params) conn events ticks w =
  ('(r, conn, events) ← timeout_loop (Err InitializeTimeout) initialize_finish_step conn events;
   after_handshake params r conn events ticks) w.
Proof.
  revert conn w. induction events as [|e events IH]; intros conn w; [done|].
  destruct e as [item|].
  - cbn [main_run main_event timeout_loop]. unfold finishing_event. rewrite !bind_run.
    destruct (initialize_finish_step conn item w) as [[o conn1] w1].
    destruct o as [[u|err|]|]; unfold after_handshake, mret, St_ret;
      rewrite ?bind_run, ?polls_run_stops by done.
    + destruct (client_sender conn1 w1) as [[sender conn2] w2]. rewrite !bind_run.
      set (greet := match client_info_of params with Some _ => _ | None => _ end).
      destruct (greet w2) as [[] w3]. unfold run_server. rewrite !bind_run.
      destruct (log_message sender INFO "Formatter server ready" w3) as [[] w4].
      rewrite bind_run, polls_run_stops by done. rewrite main_run_loop. by rewrite bind_run.
    + by destruct events.
    + by destruct events.
    + apply IH.
  - cbn [main_run main_event timeout_loop]. unfold mret, St_ret.
    rewrite !bind_run, polls_run_stops by done. by destruct events.
Qed.

Lemma main_run_starting caps conn events ticks w :
  main_run (MainStarting caps) conn events ticks w =
  ('(r, conn, events) ← initialize conn caps events;
   after_handshake (match r with Ready (Ok params) => params | _ => VNull end)
     (match r with
      | Ready (Ok _) => Ready (Ok ())
      | Ready (Err e) => Ready (Err e)
      | Ready Panic => Ready Panic
      | Pending => Pending
      end) conn events ticks) w.
Proof.
  unfold initialize, initialize_start. revert conn w. induction events as [|e events IH]; intros conn w; [done|].
  destruct e as [item|].
  - cbn [main_run main_event receive_loop]. unfold starting_event. rewrite !bind_run.
    destruct (initialize_start_step conn item w) as [[o conn1] w1].
    destruct o as [[[id params]|err|]|].
    + unfold initialize_finish. rewrite !bind_run. fold (initialize_result_of caps).
      destruct (send conn1 _ w1) as [[u|err|] w2] eqn:Hsend; unfold mret, St_ret;
        rewrite ?bind_run, ?Hsend, ?polls_run_stops by done; [|by destruct events..].
      rewrite main_run_finishing, !bind_run.
      by destruct (timeout_loop _ _ conn1 events w2) as [[[[[v|e2|]|] conn2] ev2] w3].
    + unfold mret, St_ret. rewrite !bind_run, polls_run_stops by done. by destruct events.
    + unfold mret, St_ret. rewrite !bind_run, polls_run_stops by done. by destruct events.
    + unfold mret, St_ret. rewrite bind_run, polls_run_stops by done. rewrite IH. by rewrite !bind_run.
  - cbn [main_run main_event receive_loop]. rewrite bind_run. unfold mret at 1, St_ret.
    rewrite bind_run, polls_run_stops by done.
    apply IH.
Qed.

(** [main] as a machine that nothing else interrupts is [main]. *)
Theorem main_alone events ticks w :
  main_server events ticks w = (conn ← Connection_new; main_run main_begin conn events ticks) w.
Proof.
  unfold main_server, main_begin. rewrite !bind_run. destruct (Connection_new w) as [conn w1].
  destruct server_capabilities_value as [err|caps]; [by destruct events|].
  rewrite main_run_starting, !bind_run.
  by destruct (initialize conn caps events w1) as [[[[[v|e2|]|] conn2] ev2] w3].
Qed.
End alone.

(** ** The process: [main] and the drain task *)

(** [last_words], [end_of]: what a client writes last, nothing or [exit] and whatever
    follows it, and how [main] ends then. *)
Inductive last_words : list Message → Prop :=
| says_nothing : last_words []
| says_exit n rest : notif_method n = EXIT_METHOD → last_words (MNotification n :: rest).

Definition end_of (st : LifecycleState) (rest : list Message) : server_end :=
  match rest with
  | [] => ServerReturned
  | _ => ServerExited (if bool_decide (st = ShuttingDown) then 0 else 1)
  end.

(** The exit status of the process, if [main] has ended. *)
Definition exit_status (e : server_end) : option Z :=
  match e with
  | ServerReturned => Some 0%Z
  | ServerExited code => Some code
  | ServerPanicked => Some 101%Z
  | ServerWaiting | ServerHanging => None
  end.

(** The items of a stream that gives these messages and then its end. *)
Definition items_of (ms : list Message) : list (option (result io_error Message)) :=
  ((Some ∘ Ok) <$> ms) ++ [None].

Section process.
Context `{TK : Tokio} `{LT : LspTypes}.

(** Where [main] is, its connection with the drain task, and the items its stream will
    give. *)
Record Process : Type := process_new {
  p_main : MainState;
  p_sys : System;
  p_input : list (option (result io_error Message));
}.

Definition with_conn (c : Connection) (w : World) (s : System) : System :=
  system_new w c (senders s) (tasks s) (drain s) (wire s).

Definition ended (st : MainState) : bool := match st with MainDone _ => true | _ => false end.

(** The steps of a process; the label says whether something goes wrong: the client is
    too slow with the handshake, or a write of the drain task fails.  When [main] has
    returned or called [exit] the drain task may still run for a while, and nothing
    waits for it. *)
Inductive proc_step : bool → Process → Process → Prop :=
| proc_item st item input s st' c w :
  (∀ sender state req token doc, st ≠ MainFormatting sender state req token doc) → ended st = false →
  main_event st (conn s) (Received item) (world s) = ((st', c), w) →
  proc_step false (process_new st s (item :: input)) (process_new st' (with_conn c w s) input)
| proc_poll sender state req token doc tick s input st' c w :
  formatting_poll sender state req token doc (conn s) tick (world s) = ((st', c), w) →
  proc_step false (process_new (MainFormatting sender state req token doc) s input)
    (process_new st' (with_conn c w s) input)
| proc_deadline params s input st' c w :
  main_event (MainFinishing params) (conn s) Elapsed (world s) = ((st', c), w) →
  proc_step true (process_new (MainFinishing params) s input) (process_new st' (with_conn c w s) input)
| proc_drain st s s' input :
  drain_step s s' →
  proc_step (drain_gone (drain s')) (process_new st s input) (process_new st s' input).

(** A new process. *)
Definition proc_init (w : World) (input : list (option (result io_error Message))) (p : Process) : Prop :=
  ∃ c w', Connection_new w = (c, w') ∧
    p = process_new main_begin (system_new w' c [] [] DrainIdle []) input.

(** The states of any run, and of the runs in which nothing goes wrong. *)
Definition proc_run (w : World) (input : list (option (result io_error Message))) (p : Process) : Prop :=
  ∃ p0, proc_init w input p0 ∧ rtc (λ p p', ∃ fault, proc_step fault p p') p0 p.

Definition proc_run_well (w : World) (input : list (option (result io_error Message))) (p : Process) : Prop :=
  ∃ p0, proc_init w input p0 ∧ rtc (proc_step false) p0 p.
End process.

Section sends.
Context `{TK : Tokio} {TL : TokioLaws TK} `{LT : LspTypes}.

Lemma Connection_new_queue w self w' :
  Connection_new w = (self, w') → receiver_open (w_outbound w') = true ∧ queued (w_outbound w') = [].
Proof.
  unfold Connection_new, from_transport, spawn_drain_task. run_st. cbn [w_tokens with_outbound].
  destruct (token_new (w_tokens w)) as [d s1]. cbn. destruct (token_new s1) as [t s2].
  intros [= <- <-]. cbn. destruct unbounded_channel_law. done.
Qed.

(** Making a client sender neither sends nor cancels. *)
Lemma client_sender_quiet self w s self' w' :
  client_sender self w = ((s, self'), w') →
  w_outbound w' = w_outbound w ∧ w_tokens w' = w_tokens w ∧
  shutdown_token self' = shutdown_token self ∧ lifecycle_state self' = lifecycle_state self.
Proof.
  unfold client_sender, ClientSender_new, ResponseMap_new.
  destruct (conn_response_map self); run_st; by intros [= <- <- <-].
Qed.

(** The greeting [main] logs, if the parameters name the client. *)
Lemma greeting_sends (sender : ClientSender) params w :
  ∃ ns w', (match client_info_of params with
            | Some info => log_message sender INFO ("Client initialized: " +:+ info)
            | None => mret ()
            end) w = ((), w') ∧ sends w (MNotification <$> ns) w'.
Proof.
  destruct (client_info_of params) as [info|]; [apply log_message_sends|].
  exists [], w. split; [done|apply sends_nil].
Qed.

End sends.

(** ** What [main] still owes

    The answers to what is left of its input; and [fin], how it will end. *)

Section owing.
Context `{TK : Tokio} {TL : TokioLaws TK} `{LT : LspTypes} (fin : server_end).

(** What a client says in the loop, and last, to a server in such a state. *)
Record talk (down : bool) (bound : nat) (state : ServerState) (life : LifecycleState)
    (ms rest : list Message) (rs : list Response) : Prop := {
  talk_stays : Forall not_exit ms;
  talk_last : last_words rest;
  talk_bound : documents_bound bound state;
  talk_size : (N.of_nat (bound + sum_list_with text_of_message ms) ≤ u32_MAX)%N;
  talk_answers : serve down state ms = Some rs;
  talk_end : fin = end_of (lifecycle_after ms life) rest;
}.

Inductive owes (w : World) (c : Connection) :
    MainState → list (option (result io_error Message)) → list Response → Prop :=
| owes_starting caps pre1 req pre2 n ms rest rs :
  conn_ok c w → is_cancelled (w_tokens w) (shutdown_token c) = false →
  Forall start_passed (arrivals pre1) → req_method req = INITIALIZE_METHOD →
  Forall finish_passed (arrivals pre2) → notif_method n = INITIALIZED_METHOD →
  talk false 0 ServerState_new Running ms rest rs →
  owes w c (MainStarting caps) (items_of (pre1 ++ MRequest req :: pre2 ++ MNotification n :: ms ++ rest))
    (responses (replies (arrivals pre1)) ++
     Response_ok (req_id req) (initialize_result_of caps) :: responses (replies (arrivals pre2)) ++ rs)
| owes_finishing params pre2 n ms rest rs :
  conn_ok c w → is_cancelled (w_tokens w) (shutdown_token c) = false →
  Forall finish_passed (arrivals pre2) → notif_method n = INITIALIZED_METHOD →
  talk false 0 ServerState_new Running ms rest rs →
  owes w c (MainFinishing params) (items_of (pre2 ++ MNotification n :: ms ++ rest))
    (responses (replies (arrivals pre2)) ++ rs)
| owes_serving sender state bound ms rest rs :
  conn_ok c w → talk (is_cancelled (w_tokens w) (shutdown_token c)) bound state (lifecycle_state c) ms rest rs →
  owes w c (MainServing sender state) (items_of (ms ++ rest)) rs
| owes_formatting sender state req token doc bound ms rest r rs :
  conn_ok c w → talk (is_cancelled (w_tokens w) (shutdown_token c)) bound state (lifecycle_state c) ms rest rs →
  req_method req = FORMATTING_METHOD →
  (req_params req ≫= DocumentFormattingParams_of) ≫= (λ uri, documents state !! uri) = Some doc →
  is_cancelled (w_tokens w) token = is_cancelled (w_tokens w) (shutdown_token c) →
  answer (is_cancelled (w_tokens w) token) state req = Some r →
  owes w c (MainFormatting sender state req token doc) (items_of (ms ++ rest)) (r :: rs)
| owes_done input : owes w c (MainDone fin) input [].

(** A step of [main] queues some of the answers it owes, and owes the others; it sends
    nothing when it ends. *)
Definition pays (w : World) (rs : list Response) (st' : MainState) (c' : Connection) (w' : World)
    (input : list (option (result io_error Message))) : Prop :=
  ∃ out rs', queued (w_outbound w') = queued (w_outbound w) ++ out ∧
    receiver_open (w_outbound w') = true ∧ rs = responses out ++ rs' ∧ owes w' c' st' input rs' ∧
    (ended st' = true → out = []).

Lemma pays_sends w out w' rs rs' st' c' input :
  receiver_open (w_outbound w) = true → sends w out w' → rs = responses out ++ rs' →
  owes w' c' st' input rs' → ended st' = false → pays w rs st' c' w' input.
Proof.
  intros Ho Hs Hrs Howes He. exists out, rs'. split_and!; [apply Hs| |done..|by rewrite He].
  by rewrite (sends_open _ _ _ Hs).
Qed.

Lemma conn_ok_sends c w out w' : conn_ok c w → sends w out w' → conn_ok c w'.
Proof. intros Hok Hs. by eapply conn_ok_same; [exact Hok|apply Hs..| | |]. Qed.

Lemma replies_arrivals m pre :
  responses (replies (arrivals (m :: pre))) =
  responses (reply (Received (Some (Ok m)))) ++ responses (replies (arrivals pre)).
Proof. by rewrite <-responses_app. Qed.

Lemma starting_pays caps item input c w rs st' c' w' :
  receiver_open (w_outbound w) = true → owes w c (MainStarting caps) (item :: input) rs →
  starting_event caps c item w = ((st', c'), w') → pays w rs st' c' w' input.
Proof.
  intros Ho Howes. remember (MainStarting caps) as st eqn:Est. remember (item :: input) as items eqn:Eit.
  destruct Howes as [caps' pre1 req pre2 n ms rest rs Hok Hc Hpre1 Hreq Hpre2 Hn Htalk| | | |]; try done.
  injection Est as ->. unfold starting_event. rewrite bind_run. destruct pre1 as [|m pre1].
  - injection Eit as <- <-. rewrite (start_decides_step _ _ _ _ (start_initialize req Hreq)). cbn [is_Ok].
    rewrite bind_run.
    destruct (send_open (with_lifecycle Initializing c)
      (MResponse (Response_ok (req_id req) (initialize_result_of caps))) w Ho) as (w1 & Hsend & Hs).
    rewrite Hsend. intros [= <- <- <-]. eapply pays_sends; [done|done|reflexivity| |done].
    apply owes_finishing; try done; [|by rewrite (sends_tokens _ _ _ Hs)].
    eapply conn_ok_sends; [|done]. by eapply conn_ok_same.
  - injection Eit as <- <-. apply Forall_cons_iff in Hpre1 as [Hm Hpre1].
    destruct (start_passed_passes c _ Hm w Ho) as (w1 & -> & Hs).
    intros [= <- <- <-]. eapply pays_sends; [done|done|by rewrite replies_arrivals, <-app_assoc| |done].
    apply owes_starting; try done; [by eapply conn_ok_sends|by rewrite (sends_tokens _ _ _ Hs)].
Qed.

Lemma finishing_pays params item input c w rs st' c' w' :
  receiver_open (w_outbound w) = true → owes w c (MainFinishing params) (item :: input) rs →
  finishing_event params c item w = ((st', c'), w') → pays w rs st' c' w' input.
Proof.
  intros Ho Howes. remember (MainFinishing params) as st eqn:Est. remember (item :: input) as items eqn:Eit.
  destruct Howes as [|params' pre2 n ms rest rs Hok Hc Hpre2 Hn Htalk| | |]; try done.
  injection Est as ->. unfold finishing_event. rewrite bind_run. destruct pre2 as [|m pre2].
  - injection Eit as <- <-.
    assert (initialize_finish_step c (Some (Ok (MNotification n))) w =
      ((Some (Ok ()), with_lifecycle Running c), w)) as ->
      by (cbn [initialize_finish_step]; by rewrite bool_decide_eq_true_2).
    rewrite bind_run.
    destruct (client_sender (with_lifecycle Running c) w) as [[sender c2] w2] eqn:Hcs.
    destruct (client_sender_quiet _ _ _ _ _ Hcs) as (Hout & Htok & Hsh & Hlife).
    rewrite bind_run. destruct (greeting_sends sender params w2) as (ns & w3 & -> & Hs3).
    rewrite bind_run.
    destruct (log_message_sends sender INFO "Formatter server ready" w3) as (ns2 & w4 & -> & Hs4).
    pose proof (sends_notifications _ _ _ _ _ Hs3 Hs4) as Hs. intros [= <- <- <-].
    assert (conn_ok c2 w4) as Hok'.
    { eapply conn_ok_sends; [|done]. eapply client_sender_keeps; [|done]. by eapply conn_ok_same. }
    exists (MNotification <$> (ns ++ ns2)), rs. split_and!; try done.
    + by rewrite (sends_queued _ _ _ Hs), Hout.
    + by rewrite (sends_open _ _ _ Hs), Hout.
    + by rewrite responses_notifications.
    + eapply owes_serving; [done|]. rewrite (sends_tokens _ _ _ Hs), Htok, Hsh, Hlife.
      change (shutdown_token (with_lifecycle Running c)) with (shutdown_token c). by rewrite Hc.
  - injection Eit as <- <-. apply Forall_cons_iff in Hpre2 as [Hm Hpre2].
    destruct (finish_passed_passes c _ Hm w Ho) as (w1 & -> & Hs).
    intros [= <- <- <-]. eapply pays_sends; [done|done|by rewrite replies_arrivals, <-app_assoc| |done].
    apply owes_finishing; try done; [by eapply conn_ok_sends|by rewrite (sends_tokens _ _ _ Hs)].
Qed.

Lemma route_exit c n w : notif_method n = EXIT_METHOD → route c (MNotification n) w = ((InNotification n, c), w).
Proof. intros Hn. unfold route. rewrite bool_decide_eq_false_2 by by rewrite Hn. done. Qed.

(** The last words end the loop. *)
Lemma last_pays sender state item input c w rest st' c' w' :
  receiver_open (w_outbound w) = true → last_words rest → fin = end_of (lifecycle_state c) rest →
  items_of rest = item :: input →
  serving_event sender state c item w = ((st', c'), w') → pays w [] st' c' w' input.
Proof.
  intros Ho Hrest Hfin Hit.
  assert (∀ c1 i, pays w [] (MainDone fin) c1 w i) as Hdone.
  { intros c1 i. exists [], []. split_and!; try done; [by rewrite app_nil_r|constructor]. }
  destruct Hrest as [|n rest Hn]; injection Hit as <- <-; cbn [serving_event].
  - intros [= <- <- <-]. cbn [end_of] in Hfin. rewrite <-Hfin. apply Hdone.
  - rewrite bind_run, route_exit by done. cbn [handle_incoming]. rewrite bool_decide_eq_true_2 by done.
    unfold handle_exit. rewrite bind_run. cbn [main_verdict].
    intros [= <- <- <-].
    assert (fin = ServerExited (ExitCode_as_i32
      (if bool_decide (lifecycle_state c = ShuttingDown) then ExitSuccess else ExitError))) as <-
      by (rewrite Hfin; cbn [end_of]; by case_bool_decide).
    apply Hdone.
Qed.

Lemma waits_formats down state m :
  message_polls down state m [] = None →
  ∃ req doc, m = MRequest req ∧ req_method req = FORMATTING_METHOD ∧
    (req_params req ≫= DocumentFormattingParams_of) ≫= (λ uri, documents state !! uri) = Some doc.
Proof.
  unfold message_polls, request_polls, formats. destruct m as [req| |]; [|done..].
  case_bool_decide; [done|]. case_bool_decide; [|done]. cbn [andb].
  destruct (req_params req ≫= _) as [uri|] eqn:Hp; [|done]. case_bool_decide as Hd; [|done].
  intros _. destruct Hd as [doc Hdoc]. exists req, doc. by rewrite Hp.
Qed.

Lemma serving_pays sender state item input c w rs st' c' w' :
  receiver_open (w_outbound w) = true → owes w c (MainServing sender state) (item :: input) rs →
  serving_event sender state c item w = ((st', c'), w') → pays w rs st' c' w' input.
Proof.
  intros Ho Howes. remember (MainServing sender state) as st eqn:Est. remember (item :: input) as items eqn:Eit.
  destruct Howes as [| |sender' state' bound ms rest rs Hok Htalk| |]; try done.
  injection Est as -> ->. destruct Htalk as [Hms Hrest Hb Hs Hrs Hfin]. destruct ms as [|m ms].
  { injection Hrs as <-. by eapply last_pays. }
  injection Eit as <- <-. apply Forall_cons_iff in Hms as [Hm Hms]. cbn [sum_list_with] in Hs.
  destruct (message_law bound sender state c m [] w Hok Ho Hm Hb ltac:(lia))
    as (im & c1 & w1 & Hr & Htok & Hdown & Hlife & w2 & out & Hq & Ho2 & Hb2 & Hh).
  cbn [serving_event]. rewrite bind_run, Hr, bind_run.
  destruct (message_polls _ state m []) as [ticks1|] eqn:Hpolls.
  - destruct Hh as (c2 & -> & Hok2 & _ & Hl2 & Hd2 & Hserve). intros [= <- <- <-].
    rewrite Hserve in Hrs. destruct (serve _ (state_after state m) ms) as [rs2|] eqn:Hrs2; [|done].
    injection Hrs as <-. exists out, rs2. split_and!; try done.
    eapply owes_serving; [done|]. rewrite Hd2. eapply (Build_talk _ (bound + text_of_message m)); try done; [lia|].
    by rewrite Hl2, <-lifecycle_after_cons.
  - destruct (waits_formats _ _ _ Hpolls) as (req & doc & -> & Hmeth & Hdoc). destruct Htok as (t & -> & Htok).
    destruct Hh as (-> & Hok2 & Htoks & Hout). cbn [main_verdict main_awaits]. rewrite Hdoc.
    intros [= <- <- <-]. cbn [serve] in Hrs. rewrite bool_decide_eq_false_2 in Hrs by by rewrite Hmeth.
    destruct (answer _ state req) as [r|] eqn:Ha; [|done]. cbn [mbind option_bind] in Hrs.
    destruct (serve _ state ms) as [rs2|] eqn:Hrs2; [|done]. injection Hrs as <-.
    exists out, (r :: rs2). split_and!; try done; [by rewrite Hout|].
    eapply (owes_formatting _ _ _ _ _ _ _ bound); try done; rewrite Htoks; [|by rewrite Htok|by rewrite Htok].
    rewrite Hdown. eapply Build_talk; try done. rewrite Hfin, Hlife. unfold lifecycle_after.
    cbn [existsb is_shutdown]. rewrite bool_decide_eq_false_2; [done|by rewrite Hmeth].
Qed.

Lemma formatting_pays sender state req token doc tick input c w rs st' c' w' :
  receiver_open (w_outbound w) = true → owes w c (MainFormatting sender state req token doc) input rs →
  formatting_poll sender state req token doc c tick w = ((st', c'), w') →
  pays w rs st' c' w' input ∧
  (timer_elapsed tick = true → st' = MainServing sender state).
Proof.
  intros Ho Howes. remember (MainFormatting sender state req token doc) as st eqn:Est.
  destruct Howes as [| | |sender' state' req' token' doc' bound ms rest r rs Hok Htalk Hmeth Hdoc Htok Ha|]; try done.
  injection Est as -> -> -> -> ->. pose proof Htalk as [_ _ Hb Hs _ _].
  pose proof Hdoc as Hdoc'. apply bind_Some in Hdoc' as (uri & Hparams & Huri).
  destruct (create_uppercase_edit_small _ _ _ _ Hb ltac:(lia) Huri) as [edits He].
  unfold formatting_poll. rewrite bind_run.
  destruct (format_poll_law sender doc token tick edits w He) as (ns & w1 & Hs1 & ->).
  assert (conn_ok c w1) as Hok1 by by eapply conn_ok_sends.
  assert (answer (is_cancelled (w_tokens w) token) state req =
    (if is_cancelled (w_tokens w) token then Some (cancelled_response (req_id req))
     else format_response (req_id req) (Ok edits))) as Hans.
  { unfold answer. rewrite bool_decide_eq_true_2, Hparams, Huri by done. by rewrite He. }
  assert (timer_elapsed tick = true ∨ is_cancelled (w_tokens w) token = true →
    ∃ o, (if is_cancelled (w_tokens w) token then Ready (Some (Err Cancelled))
          else if timer_elapsed tick then Ready (Some (Ok edits)) else Pending) = Ready o ∧
      o ≫= format_response (req_id req) = Some r) as Hready.
  { rewrite <-Ha, Hans. destruct (is_cancelled (w_tokens w) token); [by eexists|].
    intros [->|?]; [by eexists|done]. }
  destruct (decide (timer_elapsed tick = true ∨ is_cancelled (w_tokens w) token = true)) as [He'|Hn].
  - destruct (Hready He') as (o & -> & ->). rewrite bind_run.
    destruct (respond_sends sender r w1) as (w3 & -> & Hs3); [by rewrite (sends_open _ _ _ Hs1)|].
    intros [= <- <- <-]. split; [|done]. pose proof (sends_app _ _ _ _ _ Hs1 Hs3) as Hs4.
    eapply pays_sends; [done|done| | |done].
    { by rewrite responses_app, responses_notifications. }
    eapply owes_serving; [by apply complete_keeps; eapply conn_ok_sends|].
    rewrite (sends_tokens _ _ _ Hs4). exact Htalk.
  - assert (is_cancelled (w_tokens w) token = false ∧ timer_elapsed tick = false) as [Hc Ht]
      by (destruct (is_cancelled (w_tokens w) token), (timer_elapsed tick); naive_solver).
    rewrite Hc, Ht. intros [= <- <- <-]. split; [|congruence].
    eapply pays_sends; [done|done|by rewrite responses_notifications| |done].
    eapply owes_formatting; rewrite ?(sends_tokens _ _ _ Hs1); try done.
Qed.
End owing.

(** ** Runs *)

Section runs.
Context `{TK : Tokio} {TL : TokioLaws TK} `{LT : LspTypes} (fin : server_end) (due : list Response).

(** Everything the connection has sent: written, being written, or queued. *)
Definition sent_so_far (s : System) : list Message := wire s ++ in_flight (drain s) ++ queue_of s.

(** As long as nothing went wrong. *)
Record well (p : Process) : Prop := {
  well_drain : drain_gone (drain (p_sys p)) = false;
  well_open : receiver_open (w_outbound (world (p_sys p))) = true;
  well_owes : ∃ rs, due = responses (sent_so_far (p_sys p)) ++ rs ∧
    owes fin (world (p_sys p)) (conn (p_sys p)) (p_main p) (p_input p) rs;
}.

(** After something went wrong no more is written, or [main] has ended. *)
Definition unwell (p : Process) : Prop :=
  (drain_gone (drain (p_sys p)) = true ∧ responses (wire (p_sys p)) `prefix_of` due) ∨
  (ended (p_main p) = true ∧ responses (sent_so_far (p_sys p)) `prefix_of` due).

Lemma sent_prefix s : responses (wire s) `prefix_of` responses (sent_so_far s).
Proof. unfold sent_so_far. rewrite responses_app. by apply prefix_app_r. Qed.

Lemma well_prefix p : well p → responses (sent_so_far (p_sys p)) `prefix_of` due.
Proof. intros [_ _ (rs & -> & _)]. by apply prefix_app_r. Qed.

Lemma drain_step_wire s s' :
  drain_step s s' → drain_gone (drain s') = true → wire s' = wire s.
Proof. by intros []. Qed.

Lemma drain_step_same s s' :
  drain_step s s' → drain_gone (drain s') = false →
  sent_so_far s' = sent_so_far s ∧ conn s' = conn s ∧
  receiver_open (w_outbound (world s')) = receiver_open (w_outbound (world s)) ∧
  world s' = with_outbound (w_outbound (world s')) (world s).
Proof.
  intros Hstep Hgone. unfold sent_so_far, queue_of. destruct Hstep as [m q Hd Hq|m Hd|m Hd|Hd]; try done.
  - destruct (unbounded_recv_law (w_outbound (world s))) as (Hh & Ht & Hopen). rewrite Hq in Hh, Ht, Hopen.
    cbn in Hh, Ht, Hopen. cbn. rewrite Hd, Ht, Hopen. split_and!; try done.
    destruct (queued (w_outbound (world s))) as [|m' l]; [done|]. by injection Hh as <-.
  - cbn. rewrite Hd, <-app_assoc. split_and!; try done. by destruct (world s).
Qed.

Lemma owes_same w c st input rs q :
  owes fin w c st input rs → owes fin (with_outbound q w) c st input rs.
Proof.
  assert (conn_ok c w → conn_ok c (with_outbound q w)) by (intros ?; by eapply conn_ok_same).
  intros []; econstructor; eauto.
Qed.

Lemma well_pays s rs st' c' w' input' :
  drain_gone (drain s) = false → due = responses (sent_so_far s) ++ rs →
  pays fin (world s) rs st' c' w' input' → well (process_new st' (with_conn c' w' s) input').
Proof.
  intros Hgone Hdue (out & rs' & Hq & Ho & Hrs & Howes & _). split; [done|done|].
  exists rs'. split; [|done]. cbn [p_sys]. unfold sent_so_far, queue_of in *. cbn [with_conn wire drain world].
  by rewrite Hdue, Hrs, Hq, !responses_app, <-!app_assoc.
Qed.

(** The steps of [main] when nothing goes wrong. *)
Lemma item_pays st item input c w rs st' c' w' :
  (∀ sender state req token doc, st ≠ MainFormatting sender state req token doc) → ended st = false →
  receiver_open (w_outbound w) = true → owes fin w c st (item :: input) rs →
  main_event st c (Received item) w = ((st', c'), w') → pays fin w rs st' c' w' input.
Proof.
  intros Hf He Ho Howes. destruct st; cbn [main_event]; try done.
  - by apply starting_pays.
  - by eapply finishing_pays.
  - by apply serving_pays.
  - by destruct (Hf sender state req token doc).
Qed.

Lemma well_step p p' : well p → proc_step false p p' → well p'.
Proof.
  intros [Hgone Ho (rs & Hdue & Howes)]. remember false as fault eqn:Hfault.
  intros Hstep. destruct Hstep as [st item input s st' c w Hf He Hev|sender state req token doc tick s input st' c w Hp
    |params s input st' c w Hev|st s s' input Hd]; cbn [p_sys p_main p_input] in *; try done.
  - eapply well_pays; [done|done|]. by eapply item_pays.
  - eapply well_pays; [done|done|]. by eapply formatting_pays.
  - destruct (drain_step_same _ _ Hd Hfault) as (Hsent & Hc & Hopen & Hw).
    split; cbn [p_sys p_main p_input]; [done|by rewrite Hopen|]. exists rs. rewrite Hsent. split; [done|].
    rewrite Hc, Hw. by apply owes_same.
Qed.

Lemma any_step fault p p' : well p ∨ unwell p → proc_step fault p p' → well p' ∨ unwell p'.
Proof.
  intros [Hw|Hwrong] Hstep.
  - destruct fault; [right|left; by eapply well_step]. pose proof (well_prefix _ Hw) as Hpre.
    remember true as fault eqn:Hfault. destruct Hstep as [| |params s input st' c w Hev|st s s' input Hd]; try done.
    + right. cbn in *. by injection Hev as <- <- <-.
    + left. cbn in *. rewrite (drain_step_wire _ _ Hd Hfault). split; [done|]. by etrans; [apply sent_prefix|].
  - right. destruct Hstep as [st item input s st' c w Hf He Hev|sender state req token doc tick s input st' c w Hp
      |params s input st' c w Hev|st s s' input Hd];
      (destruct Hwrong as [[Hgone Hpre]|[Hended Hpre]]; cbn [p_sys p_main p_input] in *); try (congruence || done);
      try (left; by split).
    + left. destruct Hd as [m q Hdr _|m Hdr|m Hdr|Hdr]; cbn; rewrite Hdr in Hgone; done.
    + destruct (drain_gone (drain s')) eqn:Hgone.
      * left. split; [done|]. cbn. rewrite (drain_step_wire _ _ Hd Hgone). by etrans; [apply sent_prefix|].
      * right. split; [done|]. cbn. by rewrite (proj1 (drain_step_same _ _ Hd Hgone)).
Qed.

Lemma well_run p p' : well p → rtc (proc_step false) p p' → well p'.
Proof. intros Hw. induction 1; [done|]. by eauto using well_step. Qed.

Lemma any_run p p' :
  well p → rtc (λ p p', ∃ fault, proc_step fault p p') p p' → well p' ∨ unwell p'.
Proof.
  intros Hw Hrun. assert (well p ∨ unwell p) as H by by left. clear Hw.
  induction Hrun as [|p1 p2 p3 [fault Hstep] _ IH]; [done|]. apply IH. by eapply any_step.
Qed.

(** ** [main] can always go on, and the drain task can keep up with it *)

Lemma flush_idle st s input ms :
  drain s = DrainIdle → queue_of s = ms →
  ∃ s', rtc (proc_step false) (process_new st s input) (process_new st s' input) ∧
    wire s' = wire s ++ ms ∧ sent_so_far s' = wire s'.
Proof.
  revert s. induction ms as [|m ms IH]; intros s Hd Hq.
  { exists s. unfold sent_so_far. rewrite Hd, Hq, !app_nil_r. done. }
  destruct (unbounded_recv (w_outbound (world s))) as [o q] eqn:Hr.
  destruct (unbounded_recv_law (w_outbound (world s))) as (Hh & Ht & _).
  rewrite Hr in Hh, Ht. unfold queue_of in Hq. rewrite Hq in Hh, Ht. cbn in Hh, Ht. subst o.
  set (s1 := set_drain (DrainWriting m) (with_outbound q (world s)) s).
  set (s2 := system_new (world s1) (conn s1) (senders s1) (tasks s1) DrainIdle (wire s1 ++ [m])).
  destruct (IH s2) as (s' & Hrun & Hw & Hsent); [done|done|]. exists s'. split_and!; [|rewrite Hw; cbn; by rewrite <-app_assoc|done].
  apply rtc_l with (process_new st s1 input); [by eapply (proc_drain st s s1), drain_recv|].
  apply rtc_l with (process_new st s2 input); [by eapply (proc_drain st s1 s2), drain_sent|done].
Qed.

Lemma flush p :
  well p → ∃ p', rtc (proc_step false) p p' ∧ p_main p' = p_main p ∧ p_input p' = p_input p ∧
    sent_so_far (p_sys p') = wire (p_sys p').
Proof.
  intros Hw. destruct p as [st s input]. cbn in *.
  destruct (drain s) as [|m| |] eqn:Hd; [| |by destruct Hw as [Hg _ _]; cbn in Hg; rewrite Hd in Hg..].
  - destruct (flush_idle st s input _ Hd eq_refl) as (s' & Hrun & _ & Hsent). by exists (process_new st s' input).
  - set (s1 := system_new (world s) (conn s) (senders s) (tasks s) DrainIdle (wire s ++ [m])).
    destruct (flush_idle st s1 input _ eq_refl eq_refl) as (s' & Hrun & _ & Hsent).
    exists (process_new st s' input). split_and!; try done.
    apply rtc_l with (process_new st s1 input); [by eapply (proc_drain st s s1), drain_sent|done].
Qed.

(** What is left to do for [main]. *)
Definition work (p : Process) : nat :=
  2 * length (p_input p) + match p_main p with MainFormatting _ _ _ _ _ => 1 | _ => 0 end.

(** A formatting goes on when its timer has run out, anything else with the next item. *)
Lemma main_goes_on p :
  well p → ended (p_main p) = false →
  ∃ p', proc_step false p p' ∧ work p' < work p ∧ wire (p_sys p') = wire (p_sys p) ∧
    (ended (p_main p') = true → sent_so_far (p_sys p') = sent_so_far (p_sys p)).
Proof.
  intros [Hgone Ho (rs & Hdue & Howes)] He. destruct p as [st s input]. cbn [p_sys p_main p_input] in *.
  assert (∀ st' c' w' input', pays fin (world s) rs st' c' w' input' → ended st' = true →
    sent_so_far (with_conn c' w' s) = sent_so_far s) as Hsent.
  { intros st' c' w' input' (out & rs' & Hq & _ & _ & _ & Hout) He'. rewrite (Hout He'), app_nil_r in Hq.
    unfold sent_so_far, queue_of. cbn. by rewrite Hq. }
  assert (∀ item rest, input = item :: rest → (∀ sender state req token doc, st ≠ MainFormatting sender state req token doc) →
    ∃ p', proc_step false (process_new st s input) p' ∧ work p' < work (process_new st s input) ∧
      wire (p_sys p') = wire s ∧ (ended (p_main p') = true → sent_so_far (p_sys p') = sent_so_far s)) as Hitem.
  { intros item rest -> Hf. destruct (main_event st (conn s) (Received item) (world s)) as [[st' c'] w'] eqn:Hev.
    exists (process_new st' (with_conn c' w' s) rest). split_and!; [by constructor| |done|].
    - unfold work. cbn [p_input p_main length]. destruct st; try lia; destruct st'; lia.
    - cbn [p_main p_sys]. eapply Hsent. by eapply item_pays. }
  pose proof Howes as Howes'.
  destruct Howes as [caps pre1 req pre2 n ms rest rs|params pre2 n ms rest rs|sender state bound ms rest rs
    |sender state req token doc bound ms rest r rs|]; [| | | |done].
  1-3: unfold items_of in *; destruct (_ <$> _) as [|item l]; by eapply Hitem.
  destruct (formatting_poll sender state req token doc (conn s) (tick_new true true) (world s))
    as [[st' c'] w'] eqn:Hp.
  destruct (formatting_pays fin _ _ _ _ _ _ _ _ _ _ _ _ _ Ho Howes' Hp) as [Hpays Hst].
  exists (process_new st' (with_conn c' w' s) (items_of (ms ++ rest))). split_and!; [by econstructor| |done|].
  - unfold work. cbn [p_input p_main]. rewrite (Hst eq_refl). lia.
  - cbn [p_main p_sys]. by eapply Hsent.
Qed.

(** Everything owed can be written before [main] ends. *)
Lemma can_end p :
  well p → ended (p_main p) = false →
  ∃ p', rtc (proc_step false) p p' ∧ p_main p' = MainDone fin ∧ responses (wire (p_sys p')) = due.
Proof.
  remember (work p) as k eqn:Hk. revert p Hk. induction (lt_wf k) as [k _ IH]. intros p -> Hw He.
  destruct (flush p Hw) as (p1 & Hrun1 & Hm1 & Hi1 & Hs1).
  assert (well p1) as Hw1 by by eapply well_run. assert (ended (p_main p1) = false) as He1 by by rewrite Hm1.
  destruct (main_goes_on p1 Hw1 He1) as (p2 & Hstep & Hlt & Hwire & Hsent).
  assert (well p2) as Hw2 by by eapply well_step.
  assert (work p1 = work p) as Hwork by (unfold work; by rewrite Hm1, Hi1). rewrite Hwork in Hlt.
  destruct (ended (p_main p2)) eqn:He2.
  - exists p2. split; [by eapply rtc_r|]. specialize (Hsent eq_refl).
    destruct Hw2 as [_ _ (rs & Hdue & Howes)]. rewrite Hsent, Hs1, <-Hwire in Hdue.
    destruct Howes; try done. by rewrite app_nil_r in Hdue.
  - destruct (IH _ Hlt p2 eq_refl Hw2 He2) as (p3 & Hrun3 & H3). exists p3. split; [|done].
    etrans; [exact Hrun1|]. by eapply rtc_l.
Qed.

(** Without an accident [main] ends as it should, having sent everything it owed. *)
Lemma ended_well p e : well p → p_main p = MainDone e → e = fin ∧ responses (sent_so_far (p_sys p)) = due.
Proof.
  intros [_ _ (rs & -> & Howes)] Hm. rewrite Hm in Howes. inversion Howes. by rewrite app_nil_r.
Qed.

(** And [main] can end before the drain task has written anything more. *)
Lemma can_lose p :
  well p → ended (p_main p) = false →
  ∃ p', rtc (proc_step false) p p' ∧ p_main p' = MainDone fin ∧ wire (p_sys p') = wire (p_sys p).
Proof.
  remember (work p) as k eqn:Hk. revert p Hk. induction (lt_wf k) as [k _ IH]. intros p -> Hw He.
  destruct (main_goes_on p Hw He) as (p2 & Hstep & Hlt & Hwire & _).
  assert (well p2) as Hw2 by by eapply well_step. destruct (p_main p2) as [| | | |e] eqn:Hm2;
    [destruct (IH _ Hlt p2 eq_refl Hw2) as (p3 & Hrun3 & Hm3 & Hwire3); [by rewrite Hm2|];
     exists p3; split_and!; [by eapply rtc_l|done|by rewrite Hwire3]..|].
  exists p2. destruct (ended_well _ _ Hw2 Hm2) as [<- _]. split_and!; [by apply rtc_once|done|done].
Qed.
End runs.

Section sessions.
Context `{TK : Tokio} {TL : TokioLaws TK} `{LT : LspTypes}.

Lemma init_well w caps pre1 req pre2 n ms rest rs fin p :
  server_capabilities_value = inr caps →
  Forall start_passed (arrivals pre1) → req_method req = INITIALIZE_METHOD →
  Forall finish_passed (arrivals pre2) → notif_method n = INITIALIZED_METHOD →
  talk fin false 0 ServerState_new Running ms rest rs →
  proc_init w (items_of (pre1 ++ MRequest req :: pre2 ++ MNotification n :: ms ++ rest)) p →
  well fin (responses (replies (arrivals pre1)) ++
    Response_ok (req_id req) (initialize_result_of caps) :: responses (replies (arrivals pre2)) ++ rs) p ∧
  ended (p_main p) = false ∧ wire (p_sys p) = [].
Proof.
  intros Hcaps Hpre1 Hreq Hpre2 Hn Htalk (c & w' & Hnew & ->).
  destruct (Connection_new_ok _ _ _ Hnew) as (Hok & _ & Hc & _).
  destruct (Connection_new_queue _ _ _ Hnew) as [Ho Hq]. unfold main_begin. rewrite Hcaps.
  split; [|done]. split; [done|done|]. eexists. cbn [p_sys p_main p_input world conn].
  split; [|by apply owes_starting]. unfold sent_so_far, queue_of. cbn. by rewrite Hq.
Qed.

(** A session from items to its end. *)
Lemma session_runs w caps pre1 req pre2 n ms rest rs fin :
  server_capabilities_value = inr caps →
  Forall start_passed (arrivals pre1) → req_method req = INITIALIZE_METHOD →
  Forall finish_passed (arrivals pre2) → notif_method n = INITIALIZED_METHOD →
  talk fin false 0 ServerState_new Running ms rest rs →
  let input := items_of (pre1 ++ MRequest req :: pre2 ++ MNotification n :: ms ++ rest) in
  let due := responses (replies (arrivals pre1)) ++
    Response_ok (req_id req) (initialize_result_of caps) :: responses (replies (arrivals pre2)) ++ rs in
  (∀ p, proc_run w input p → responses (wire (p_sys p)) `prefix_of` due) ∧
  (∀ p, proc_run_well w input p →
    (∀ e, p_main p = MainDone e → e = fin ∧ responses (sent_so_far (p_sys p)) = due) ∧
    (ended (p_main p) = false →
      (∃ p', rtc (proc_step false) p p' ∧ p_main p' = MainDone fin ∧ responses (wire (p_sys p')) = due) ∧
      (∃ p', rtc (proc_step false) p p' ∧ p_main p' = MainDone fin ∧ wire (p_sys p') = wire (p_sys p)))).
Proof.
  intros Hcaps Hpre1 Hreq Hpre2 Hn Htalk input due. split.
  - intros p (p0 & Hinit & Hrun). destruct (init_well _ _ _ _ _ _ _ _ _ _ _ Hcaps Hpre1 Hreq Hpre2 Hn Htalk Hinit) as [Hw _].
    destruct (any_run _ _ _ _ Hw Hrun) as [Hw'|[[_ Hpre]|[_ Hpre]]]; [|done|].
    + etrans; [apply sent_prefix|]. by eapply well_prefix.
    + by etrans; [apply sent_prefix|].
  - intros p (p0 & Hinit & Hrun). destruct (init_well _ _ _ _ _ _ _ _ _ _ _ Hcaps Hpre1 Hreq Hpre2 Hn Htalk Hinit) as [Hw _].
    pose proof (well_run _ _ _ _ Hw Hrun) as Hw'. split; [intros e He; by eapply ended_well|].
    intros He. split; [by apply can_end|by eapply can_lose].
Qed.
End sessions.
