(* ===== verification/Session.v ===== *)
(** * Session: a whole session of the formatter server, from the bytes on its
    standard input to its exit status.

    The process of [Process] on what a client writes: the handshake of [Handshake],
    the loop of [Formatter] and the end of [main], over the transport of [Stdio]. *)

From S2P Require Import Prelude RustStd Serde JsonText RequestId Error Message Io Codec Tokio World RequestQueue Lifecycle Routing ClientSender Connection Handshake Serving Ownership Effects System Safety Delivery Schedule Closing Examples Transport Framing Stream Stdio EndToEnd Document Formatter Process.

Lemma last_words_canon rest : last_words rest → last_words (Message_canon <$> rest).
Proof. destruct 1; constructor; done. Qed.

Lemma not_exit_canon ms : Forall not_exit ms → Forall not_exit (Message_canon <$> ms).
Proof. rewrite Forall_fmap. apply List.Forall_impl. by intros []. Qed.

Lemma is_shutdown_canon ms : existsb is_shutdown (Message_canon <$> ms) = existsb is_shutdown ms.
Proof. induction ms as [|m ms IH]; [done|]. cbn. rewrite IH. by destruct m. Qed.

(** The status of the process by what the client said in the loop and last. *)
Definition status_after (ms rest : list Message) : Z :=
  match rest with
  | [] => 0
  | _ => if existsb is_shutdown ms then 0 else 1
  end.

Lemma end_status ms rest :
  exit_status (end_of (lifecycle_after (Message_canon <$> ms) Running) (Message_canon <$> rest)) =
  Some (status_after ms rest).
Proof.
  unfold lifecycle_after. rewrite is_shutdown_canon. destruct rest; [done|].
  rewrite fmap_cons. cbn [end_of status_after exit_status].
  by destruct (existsb is_shutdown ms); [rewrite bool_decide_eq_true_2|rewrite bool_decide_eq_false_2].
Qed.

Lemma arrivals_items ms : arrivals ms ++ [Received None] = Received <$> items_of ms.
Proof. unfold arrivals, items_of. by rewrite fmap_app, <-!list_fmap_compose. Qed.

#[local] Instance Received_inj : Inj (=) (=) Received.
Proof. by intros x y [= ->]. Qed.

(** C5: a session of the formatter server from bytes to exit status, for a client that
    sends well-formed messages, completes the handshake and keeps its texts within the
    [u32] positions.  What the server is due to answer: rejections, in order, of the requests that come before the handshake
    is complete, the result of [initialize], then one answer to every further
    request, in order, as the specification says.  In every run, with the drain task
    interleaved with [main] in any way, also when a write fails or the handshake
    takes too long, the responses written are an initial part of these.  Unless one
    of the two happens, [main] ends only when it has sent them all, with status 0 if
    a [shutdown] came before the [exit] and 1 if not; the end of the input without an
    [exit] is status 0.  Until then it can always go on to its end, with every answer
    written; but it does not wait for the drain task, and can end with nothing more
    written than there was. *)
Theorem formatter_session `{SJL : SerdeJsonLaws} `{TK : Tokio} {TL : TokioLaws TK} `{LT : LspTypes}
    {Stdin Stdout : Type} {RD : AsyncRead Stdin} {WR : AsyncWrite Stdout}
    {FR : Framed (StdioTransport Stdin Stdout)} {FL : FramedLaws (StdioTransport Stdin Stdout) FR}
    (i : Stdin) (o : Stdout) chunks pre1 req pre2 n ms rest w caps :
  server_capabilities_value = inr caps → delivers i chunks →
  Forall sendable (pre1 ++ MRequest req :: pre2 ++ MNotification n :: ms ++ rest) →
  encode_all (pre1 ++ MRequest req :: pre2 ++ MNotification n :: ms ++ rest) = Ok (concat chunks) →
  Forall start_passed (arrivals pre1) → req_method req = INITIALIZE_METHOD →
  Forall finish_passed (arrivals pre2) → notif_method n = INITIALIZED_METHOD →
  Forall not_exit ms → last_words rest →
  (N.of_nat (sum_list_with text_of_message (Message_canon <$> ms)) ≤ u32_MAX)%N →
  ∃ k rs,
    let input := items k (transport (StdioTransport_new i o)) in
    let due := responses (replies (arrivals pre1)) ++
      Response_ok (req_id req) (initialize_result_of caps) :: responses (replies (arrivals pre2)) ++ rs in
    serve false ServerState_new (Message_canon <$> ms) = Some rs ∧
    (∀ p, proc_run w input p → responses (wire (p_sys p)) `prefix_of` due) ∧
    ∀ p, proc_run_well w input p →
      match p_main p with
      | MainDone e => exit_status e = Some (status_after ms rest) ∧ responses (sent_so_far (p_sys p)) = due
      | _ =>
        (∃ p' e, rtc (proc_step false) p p' ∧ p_main p' = MainDone e ∧ responses (wire (p_sys p')) = due) ∧
        (∃ p' e, rtc (proc_step false) p p' ∧ p_main p' = MainDone e ∧ wire (p_sys p') = wire (p_sys p))
      end.
Proof.
  intros Hcaps Hd Hms Henc Hpre1 Hreq Hpre2 Hn Hex Hrest Hs.
  destruct (arrivals_of_bytes (StdioTransport_new i o) chunks _ (stdio_delivers _ _ o Hd) Hms Henc) as [k Hk].
  rewrite arrivals_items in Hk. apply (inj (fmap Received)) in Hk.
  destruct (serve_small 0 false ServerState_new (Message_canon <$> ms)) as [rs Hrs]; [done|done|].
  set (fin := end_of (lifecycle_after (Message_canon <$> ms) Running) (Message_canon <$> rest)).
  destruct (session_runs w caps (Message_canon <$> pre1)
    (Request_new (req_id req) (req_method req) (drop_null (req_params req)))
    (Message_canon <$> pre2) (Notification_new (notif_method n) (drop_null (notif_params n)))
    (Message_canon <$> ms) (Message_canon <$> rest) rs fin) as [Hany Hwell]; try done.
  { by apply arrivals_canon; [apply start_passed_canon|]. }
  { by apply arrivals_canon; [apply finish_passed_canon|]. }
  { split; try done; [by apply not_exit_canon|by apply last_words_canon]. }
  assert (Message_canon <$> (pre1 ++ MRequest req :: pre2 ++ MNotification n :: ms ++ rest) =
    (Message_canon <$> pre1) ++ MRequest (Request_new (req_id req) (req_method req) (drop_null (req_params req))) ::
    (Message_canon <$> pre2) ++ MNotification (Notification_new (notif_method n) (drop_null (notif_params n))) ::
    (Message_canon <$> ms) ++ (Message_canon <$> rest)) as Hcanon
    by (by rewrite !fmap_app, !fmap_cons, !fmap_app, !fmap_cons, !fmap_app).
  rewrite <-Hcanon, <-Hk in Hany, Hwell.
  rewrite !replies_canon in Hany, Hwell. exists k, rs. split_and!; [done|exact Hany|].
  intros p Hp. destruct (Hwell p Hp) as [Hend Hgo].
  destruct (p_main p) as [| | | |e]; [destruct (Hgo eq_refl) as [(p1 & ? & ? & ?) (p2 & ? & ? & ?)]; eauto 10..|].
  destruct (Hend e eq_refl) as [-> Hdue]. split; [apply end_status|done].
Qed.

(** ** Example: the session of [Formatter], after a handshake and before an [exit] *)

Definition exit_notification : Message := MNotification (Notification_new EXIT_METHOD None).

Definition whole_session : list Message :=
  [early] ++ MRequest start_request :: [] ++ MNotification started :: Formatter.session ++ [exit_notification].

Definition whole_bytes : bytes := default [] (ok (encode_all whole_session)).

Definition whole_chunks : list bytes := [take 100 whole_bytes; take 300 (drop 100 whole_bytes); drop 400 whole_bytes].

Lemma whole_sendable : Forall sendable whole_session.
Proof. repeat constructor; by apply sendable_compute; vm_compute. Qed.

Lemma whole_encoded : encode_all whole_session = Ok (concat whole_chunks).
Proof. by vm_compute. Qed.

Definition whole_process (input : list item) : Process (TK := model_tokio) :=
  let '(c, w) := Connection_new (TK := model_tokio) empty_world in
  process_new main_begin (system_new w c [] [] DrainIdle []) input.

Lemma formatter_session_witness :
  ∃ k p e, proc_run_well empty_world
      (items k (transport (StdioTransport_new (script whole_chunks) (pipe_new [] [])))) p ∧
    p_main p = MainDone e ∧ exit_status e = Some 0%Z ∧
    responses (wire (p_sys p)) =
      [not_initialized_response (IdString "h");
       Response_ok (IdInteger 1) (VObject [("capabilities", VObject [])]);
       Response_ok (IdInteger 1) (VArray [VString "AB"]); Response_ok (IdInteger 2) VNull;
       cancelled_response (IdInteger 3)].
Proof.
  destruct (formatter_session (TL := model_tokio_laws) (script whole_chunks) (pipe_new [] []) whole_chunks
    [early] start_request [] started Formatter.session [exit_notification] empty_world (VObject []))
    as (k & rs & Hserve & _ & Hwell).
  - reflexivity.
  - apply script_delivers. repeat constructor; by vm_compute.
  - exact whole_sendable.
  - exact whole_encoded.
  - repeat constructor. by vm_compute.
  - reflexivity.
  - constructor.
  - reflexivity.
  - exact session_not_exit.
  - by constructor.
  - by vm_compute.
  - set (p0 := whole_process (items k (transport (StdioTransport_new (script whole_chunks) (pipe_new [] []))))).
    assert (proc_init empty_world
      (items k (transport (StdioTransport_new (script whole_chunks) (pipe_new [] [])))) p0) as Hinit
      by (eexists _, _; split; reflexivity).
    destruct (Hwell p0) as [(p & e & Hrun & Hm & Hw) _]; [exists p0; split; [exact Hinit|apply rtc_refl]|].
    pose proof (Hwell p) as Hp. rewrite Hm in Hp.
    assert (proc_run_well empty_world
      (items k (transport (StdioTransport_new (script whole_chunks) (pipe_new [] [])))) p) as Hp'
      by (exists p0; split; [exact Hinit|exact Hrun]).
    exists k, p, e. split; [exact Hp'|]. split; [exact Hm|]. destruct (Hp Hp') as [He _]. split; [exact He|].
    rewrite Hw. clear -Hserve. vm_compute in Hserve. injection Hserve as <-. reflexivity.
Defined.
