(* ===== verification/Typing.v ===== *)
(** * Typing: what is read has the types of the program.

    The Rust types promise more than their representation here: an id or a code is an
    [i32], a [Value] is in normal form ([Message_wf]).  Every message that leaves the
    deserializer has these properties and no explicit null in an optional place, so
    it is a fixed point of sending and reading, whatever bytes arrived. *)

From S2P Require Import Prelude RustStd Serde JsonText RequestId Error Message Io Codec Framing Tokio Routing World RequestQueue Lifecycle ClientSender Connection.

(** A message of the Rust types, as it is read. *)
Definition Message_typed (m : Message) : Prop := Message_wf m = true ∧ Message_canon m = m.

Definition optional_typed (o : option Value) : Prop :=
  forallb value_wf (option_list o) = true ∧ drop_null o = o.

(** ** The parts of a message *)

Lemma de_option_typed p o : de_option (Ok ∘ de_value) p = Ok o → optional_typed o.
Proof.
  intros H. assert (o = None ∨ o = Some (de_value p) ∧ drop_null (Some (de_value p)) = Some (de_value p))
    as [->|[-> Hn]] by (destruct p; cbn in H; simplify_eq; auto); [done|].
  split; [|done]. change (value_wf (de_value p) && true = true). by rewrite de_value_wf.
Qed.

Lemma has_option_typed name fs o : has_option name (Ok ∘ de_value) fs o → optional_typed o.
Proof. intros [[_ ->]|(v & _ & Hv)]; [done|by eapply de_option_typed]. Qed.

Lemma RequestId_deserialize_typed j i : RequestId_deserialize j = Ok i → RequestId_wf i = true.
Proof. by intros [_ H%Is_true_true]%RequestId_deserialize_Ok. Qed.

Lemma de_i32_range j z : de_i32 j = Ok z → (i32_MIN ≤ z ≤ i32_MAX)%Z.
Proof.
  unfold de_i32, i32_try_from. destruct j as [| |[n|]| | |]; try done. case_bool_decide; [|done].
  by intros [= <-].
Qed.

Lemma ResponseError_typed c m d :
  (i32_MIN ≤ c ≤ i32_MAX)%Z → optional_typed d →
  let e := {| err_code := c; err_message := m; err_data := d |} in
  ResponseError_wf e = true ∧ ResponseError_canon e = e.
Proof.
  intros Hc [Hd Hn] e. unfold ResponseError_wf, ResponseError_canon, e. cbn [err_code err_data err_message].
  by rewrite bool_decide_eq_true_2, Hd, Hn.
Qed.

Lemma ResponseError_deserialize_typed j e :
  ResponseError_deserialize j = Ok e → ResponseError_wf e = true ∧ ResponseError_canon e = e.
Proof.
  destruct j as [| | | |l|fs]; try done.
  - unfold ResponseError_deserialize, visit_struct, ResponseError_seq.
    destruct l as [|c [|m [|d [|]]]]; try done.
    intros (c' & Hc & H)%bind_Ok. apply bind_Ok in H as (m' & _ & H).
    apply bind_Ok in H as (d' & Hd & [= <-]).
    apply ResponseError_typed; [by eapply de_i32_range|by eapply de_option_typed].
  - intros ((v & _ & Hc) & _ & Hd)%ResponseError_deserialize_object. destruct e as [c m d].
    apply ResponseError_typed; [by eapply de_i32_range|by eapply has_option_typed].
Qed.

(** ** The three kinds *)

Lemma Request_typed id m p :
  RequestId_wf id = true → optional_typed p → Message_typed (MRequest (Request_new id m p)).
Proof.
  intros Hid [Hp Hn]. split; [|cbn; by rewrite Hn].
  change (RequestId_wf id && forallb value_wf (option_list p) = true). by rewrite Hid, Hp.
Qed.

Lemma Notification_typed m p : optional_typed p → Message_typed (MNotification (Notification_new m p)).
Proof. intros [Hp Hn]. split; [exact Hp|cbn; by rewrite Hn]. Qed.

Lemma Request_deserialize_typed j r : Request_deserialize j = Ok r → Message_typed (MRequest r).
Proof.
  destruct j as [| | | |l|fs]; try done.
  - unfold Request_deserialize, RequestRepr_deserialize, visit_struct, RequestRepr_seq.
    destruct l as [|j [|i [|m [|p [|]]]]]; try done.
    intros (repr & H & H2)%bind_Ok. apply bind_Ok in H as (j' & _ & H).
    apply bind_Ok in H as (i' & Hi & H). apply bind_Ok in H as (m' & _ & H).
    apply bind_Ok in H as (p' & Hp & [= <-]). apply bind_Ok in H2 as (u & _ & [= <-]).
    apply Request_typed; [by eapply RequestId_deserialize_typed|by eapply de_option_typed].
  - intros (_ & (v & _ & Hi) & _ & Hp)%Request_deserialize_object. destruct r as [i m p].
    apply Request_typed; [by eapply RequestId_deserialize_typed|by eapply has_option_typed].
Qed.

Lemma Notification_deserialize_typed j n :
  Notification_deserialize j = Ok n → Message_typed (MNotification n).
Proof.
  destruct j as [| | | |l|fs]; try done.
  - unfold Notification_deserialize, NotificationRepr_deserialize, visit_struct, NotificationRepr_seq.
    destruct l as [|j [|m [|p [|]]]]; try done.
    intros (repr & H & H2)%bind_Ok. apply bind_Ok in H as (j' & _ & H).
    apply bind_Ok in H as (m' & _ & H). apply bind_Ok in H as (p' & Hp & [= <-]).
    apply bind_Ok in H2 as (u & _ & [= <-]).
    by eapply Notification_typed, de_option_typed.
  - intros (_ & _ & Hp)%Notification_deserialize_object. destruct n as [m p].
    by eapply Notification_typed, has_option_typed.
Qed.

(** A value of an object that was read is in normal form. *)
Lemma last_member_typed k fs v : last_member k fs = Some v → value_wf v = true.
Proof. unfold last_member. intros (j & _ & ->)%fmap_Some. apply de_value_wf. Qed.

Lemma Response_deserialize_typed j r : Response_deserialize j = Ok r → Message_typed (MResponse r).
Proof.
  destruct j as [| | | |l|fs]; try done. intros (_ & Hid & Hb)%Response_deserialize_object.
  destruct r as [id b]. cbn [resp_id resp_body] in *.
  assert (forallb RequestId_wf (option_list id) = true) as Hi.
  { destruct (last_member "id" fs) as [[]|]; try (by subst);
      destruct Hid as (i & -> & Hi); cbn; by rewrite (RequestId_deserialize_typed _ _ Hi). }
  assert (match b with Success v => value_wf v | Error e => ResponseError_wf e end = true ∧
          match b with Success v => True | Error e => ResponseError_canon e = e end) as [Hw Hc].
  { destruct (last_member "error" fs) as [e|];
      [destruct e|]; try (destruct Hb as (v & Hv & ->); split; [by eapply last_member_typed|done]);
      destruct Hb as (e & -> & He); by apply ResponseError_deserialize_typed in He. }
  split; [unfold Message_wf, Response_wf; cbn [resp_id resp_body]; by rewrite Hi, Hw|].
  cbn. destruct b as [v|e]; [done|]. by rewrite Hc.
Qed.

Lemma Message_deserialize_typed j m : Message_deserialize j = Ok m → Message_typed m.
Proof.
  unfold Message_deserialize.
  destruct (Request_deserialize j) eqn:Hq; [intros [= <-]; by eapply Request_deserialize_typed|..];
    (destruct (Response_deserialize j) eqn:Hr; [intros [= <-]; by eapply Response_deserialize_typed|..];
     destruct (Notification_deserialize j) eqn:Hn; try done;
     intros [= <-]; by eapply Notification_deserialize_typed).
Qed.

(** A message that was read is sent and read unchanged. *)
Lemma Message_typed_fixed m :
  Message_typed m → Message_deserialize (Message_serialize m) = Ok m.
Proof. intros [Hwf Hc]. rewrite Message_roundtrip, Hc; [done|by apply Is_true_true]. Qed.

(** ** The reader *)

Section reader.
Context `{SJL : SerdeJsonLaws}.

Lemma decode_typed c src m c' src' :
  decode c src = step_new (Ok (Some m)) c' src' → Message_typed m.
Proof.
  intros Hd. pose proof (decode_consumed c src) as H. rewrite Hd in H.
  destruct H as (_ & pre & body & _ & Hm & _). revert Hm. unfold message_from_slice.
  destruct (from_slice body ≫= Message_deserialize) as [m0| |] eqn:Hb; try done. intros [= ->].
  apply bind_Ok in Hb as (j & _ & Hj). by eapply Message_deserialize_typed.
Qed.

Lemma drain_typed c src : Forall Message_typed (messages (drain c src)).
Proof.
  revert c src. refine (drain_ind _ _). intros c src IH. rewrite drain_unfold.
  destruct (decode c src) as [[[m|]|e|] c' src'] eqn:Hd; try by constructor.
  cbn. constructor; [by eapply decode_typed|by eapply IH].
Qed.

Lemma receive_typed chunks d :
  Forall Message_typed (messages d) → Forall Message_typed (messages (foldl receive d chunks)).
Proof.
  revert d. induction chunks as [|chunk chunks IH]; intros d Hd; [done|]. apply IH.
  unfold receive. destruct (status d); [|done..]. cbn. apply Forall_app. split; [done|apply drain_typed].
Qed.

(** The messages the connection answers a request with on its own. *)
Definition standard_replies (req : Request) : list Message :=
  MResponse <$> [method_not_found_response req; cancelled_response (req_id req);
                 not_initialized_response (req_id req); Response_ok (req_id req) VNull].

Lemma standard_replies_typed req :
  Request_wf req = true → Forall Message_typed (standard_replies req).
Proof.
  unfold Request_wf. intros [Hid _]%andb_prop.
  assert (∀ code text, Message_typed (MResponse (Response_err (req_id req) (ResponseError_new code text)))) as Herr.
  { intros code text. split; [|done].
    change (RequestId_wf (req_id req) && true && ResponseError_wf (ResponseError_new code text) = true).
    rewrite Hid. by destruct code. }
  repeat constructor; try apply Herr.
  change (RequestId_wf (req_id req) && true && true = true). by rewrite Hid.
Qed.

(** C30: whatever bytes arrive, in whatever chunks, every message the reader hands out
    is a value of the Rust types (its ids and codes are [i32]s, its values are in
    normal form) and is sent and read unchanged; so are the responses the crate
    makes to such a request. *)
Theorem read_messages_typed chunks :
  Forall (λ m, Message_wf m = true ∧ Message_deserialize (Message_serialize m) = Ok m ∧
               match m with MRequest req => Forall Message_typed (standard_replies req) | _ => True end)
    (messages (feed chunks)).
Proof.
  assert (Forall Message_typed (messages (feed chunks))) as Hall by (apply receive_typed; constructor).
  revert Hall. apply List.Forall_impl. intros m Hm. pose proof (Message_typed_fixed _ Hm).
  destruct Hm as [Hwf _]. split_and!; [done..|]. destruct m as [req| |]; [|done..].
  by apply standard_replies_typed.
Qed.
End reader.

(** ** Example: an array is a request too, its members in the order of the fields *)

Definition array_request : bytes :=
  let body := default [] (ok (to_vec (VArray [VString "2.0"; VNumber (Int 7); VString "shutdown"; VNull]))) in
  frame_header (length body) ++ body.

Lemma read_messages_typed_witness :
  messages (feed [array_request]) = [MRequest (Request_new (IdInteger 7) "shutdown" None)] ∧
  Forall (λ m, Message_wf m = true ∧ Message_deserialize (Message_serialize m) = Ok m ∧
               match m with MRequest req => Forall Message_typed (standard_replies req) | _ => True end)
    (messages (feed [array_request])).
Proof. split; [by vm_compute|apply read_messages_typed]. Defined.
