(* ===== verification/Testing.v ===== *)
(** * Testing: the vocabulary of the crate's unit tests.

    A test is a computation that may panic: [Some ()] when it passes, [None] when an
    assertion or an [unwrap] fails.  The files [Test*] translate the tests of the
    source file by file and run them on the model. *)

From S2P Require Import Prelude RustStd Serde JsonText RequestId Error Message Io Tokio.

Abbreviation test := (option unit).

(** [panic!], [assert!], [assert_eq!], [assert_ne!]. *)
Definition panic {A} : option A := None.
Definition assert (b : bool) : test := if b then Some () else None.
Definition assert_eq `{EqDecision A} (x y : A) : test := assert (bool_decide (x = y)).
Definition assert_ne `{EqDecision A} (x y : A) : test := assert (bool_decide (x ≠ y)).

(** [unwrap] of a [Result], and [unwrap_err]; of an [Option] it is the value itself. *)
Definition unwrap {E A} (r : result E A) : option A := ok r.
Definition unwrap_err {E A} (r : result E A) : option E := match r with Err e => Some e | _ => None end.

(** [is_some], [is_none], [is_ok], [is_err]. *)
Definition is_some {A} (o : option A) : bool := match o with Some _ => true | None => false end.
Definition is_none {A} (o : option A) : bool := negb (is_some o).
Definition is_err {E A} (r : result E A) : bool := match r with Err _ => true | _ => false end.

(** [str::contains] and [str::starts_with] with a string literal, of text in bytes. *)
Definition str_starts_with (text : bytes) (pat : string) : bool :=
  starts_with (list_ascii_of_string pat) text.

Fixpoint contains (text : bytes) (pat : string) : bool :=
  str_starts_with text pat || match text with [] => false | _ :: text' => contains text' pat end.

(** A JSON text in a literal, with single quotes for the double ones. *)
Definition raw (s : string) : bytes :=
  (λ c, if bool_decide (c = "'"%char) then dq else c) <$> list_ascii_of_string s.

(** [contains] a literal with double quotes in it. *)
Definition contains_raw (text : bytes) (pat : string) : bool :=
  contains text (string_of_list_ascii (raw pat)).

(** The [json!] macro builds its objects as sorted maps. *)
Definition json_macro (v : json) : Value := de_value v.

(** [serde_json::to_string] and [serde_json::from_str]. *)
Definition to_string (j : json) : option bytes := unwrap (text_to_vec j).
Definition from_str {A} (d : json → de A) (text : bytes) : de A := j ← text_from_slice text; d j.

(** [to_string] of an error, for the messages serde fixes or the crate builds. *)
Fixpoint de_error_text (e : de_error) : bytes :=
  match e with
  | Custom msg => list_ascii_of_string msg
  | MissingField f => list_ascii_of_string ("missing field `" +:+ f +:+ "`")
  | CustomFrom e => de_error_text e
  | _ => []
  end.

(** Indexing a value by a string gives null where there is nothing. *)
Definition index (v : Value) (k : string) : Value := default VNull (value_get k v).

(** A suite passes when every test of it does. *)
Definition passes_all (l : list test) : Prop := Forall (eq (Some ())) l.

Ltac run_tests := vm_compute; repeat constructor.
