(* ===== verification/TestRequestId.v ===== *)
(** * TestRequestId: the unit tests of [src/request_id.rs]. *)

From S2P Require Import Prelude RustStd Serde JsonText RequestId Error Message Testing.

Definition integer_serialization_roundtrip : test :=
  let id := IdInteger 42 in
  json ← to_string (RequestId_serialize id);
  assert_eq json (raw "42");;
  parsed ← unwrap (from_str RequestId_deserialize json);
  assert_eq parsed id.

Definition string_serialization_roundtrip : test :=
  let id := IdString "abc-123" in
  json ← to_string (RequestId_serialize id);
  assert_eq json (raw "'abc-123'");;
  parsed ← unwrap (from_str RequestId_deserialize json);
  assert_eq parsed id.

Definition integer_deserialization_from_json_number : test :=
  id ← unwrap (from_str RequestId_deserialize (raw "42"));
  assert_eq id (IdInteger 42).

Definition string_deserialization_from_json_string : test :=
  id ← unwrap (from_str RequestId_deserialize (raw "'abc'"));
  assert_eq id (IdString "abc").

Definition display_integer : test := assert_eq (RequestId_fmt (IdInteger 42)) "42".

Definition display_string : test := assert_eq (RequestId_fmt (IdString "abc-123")) "abc-123".

Definition from_i32 : test := assert_eq (RequestId_from_i32 42) (IdInteger 42).

Definition from_string : test := assert_eq (RequestId_from_String "abc") (IdString "abc").

Definition from_str : test := assert_eq (RequestId_from_str "test") (IdString "test").

Definition hash_works_for_hashmap_keys : test :=
  let map : gmap RequestId string := ∅ in
  let map := <[IdInteger 1 := "first"]> map in
  let map := <[IdString "abc" := "second"]> map in
  assert_eq (map !! IdInteger 1) (Some "first");;
  assert_eq (map !! IdString "abc") (Some "second").

Definition integer_and_string_with_same_value_are_not_equal : test :=
  let int_id := IdInteger 1 in
  let str_id := IdString "1" in
  assert_ne int_id str_id.

Definition tests : list test :=
  [integer_serialization_roundtrip; string_serialization_roundtrip;
   integer_deserialization_from_json_number; string_deserialization_from_json_string;
   display_integer; display_string; from_i32; from_string; from_str;
   hash_works_for_hashmap_keys; integer_and_string_with_same_value_are_not_equal].

Lemma request_id_tests_pass : passes_all tests.
Proof. run_tests. Qed.
