(* ===== verification/TestError.v ===== *)
(** * TestError: the unit tests of [src/error.rs]. *)

From S2P Require Import Prelude RustStd Serde JsonText RequestId Error Message Testing.

Definition error_code_to_i32 : test :=
  assert_eq (ErrorCode_to_i32 ParseError) (-32700)%Z;;
  assert_eq (ErrorCode_to_i32 InvalidRequest) (-32600)%Z;;
  assert_eq (ErrorCode_to_i32 MethodNotFound) (-32601)%Z;;
  assert_eq (ErrorCode_to_i32 InvalidParams) (-32602)%Z;;
  assert_eq (ErrorCode_to_i32 InternalError) (-32603)%Z;;
  assert_eq (ErrorCode_to_i32 ServerNotInitialized) (-32002)%Z;;
  assert_eq (ErrorCode_to_i32 UnknownErrorCode) (-32001)%Z;;
  assert_eq (ErrorCode_to_i32 RequestFailed) (-32803)%Z;;
  assert_eq (ErrorCode_to_i32 ServerCancelled) (-32802)%Z;;
  assert_eq (ErrorCode_to_i32 ContentModified) (-32801)%Z;;
  assert_eq (ErrorCode_to_i32 RequestCancelled) (-32800)%Z.

Definition i32_to_error_code : test :=
  assert_eq (ErrorCode_try_from (-32700)) (Ok ParseError);;
  assert_eq (ErrorCode_try_from (-32601)) (Ok MethodNotFound);;
  assert_eq (ErrorCode_try_from (-32800)) (Ok RequestCancelled);;
  assert_eq (ErrorCode_try_from (-99999)) (Err (-99999)%Z).

Definition response_error_construction : test :=
  let error := ResponseError_new MethodNotFound "Method not found" in
  assert_eq (err_code error) (-32601)%Z;;
  assert_eq (err_message error) "Method not found";;
  assert (is_none (err_data error)).

Definition response_error_with_data : test :=
  let error := ResponseError_with_data (ResponseError_new InvalidParams "Invalid params")
    (json_macro (VObject [("field", VString "uri")])) in
  assert_eq (err_code error) (-32602)%Z;;
  assert (is_some (err_data error));;
  data ← err_data error;
  assert_eq (value_get "field" data) (Some (VString "uri")).

Definition response_error_serialization_without_data : test :=
  let error := ResponseError_new ParseError "Parse error" in
  json ← to_string (ResponseError_serialize error);
  assert (negb (contains json "data"));;
  assert (contains json "-32700");;
  assert (contains json "Parse error").

Definition response_error_serialization_with_data : test :=
  let error := ResponseError_with_data (ResponseError_new InvalidParams "Missing field")
    (json_macro (VObject [("missing", VString "uri")])) in
  json ← to_string (ResponseError_serialize error);
  assert (contains json "data");;
  assert (contains json "missing").

Definition response_error_deserialization : test :=
  let json := raw "{'code':-32601,'message':'Method not found'}" in
  error ← unwrap (from_str ResponseError_deserialize json);
  assert_eq (err_code error) (-32601)%Z;;
  assert_eq (err_message error) "Method not found";;
  assert (is_none (err_data error)).

Definition response_error_deserialization_with_data : test :=
  let json := raw "{'code':-32602,'message':'Invalid','data':{'field':'uri'}}" in
  error ← unwrap (from_str ResponseError_deserialize json);
  assert_eq (err_code error) (-32602)%Z;;
  assert (is_some (err_data error)).

Definition response_error_raw_code : test :=
  let error := ResponseError_new_raw (-99999) "Custom error" in
  assert_eq (err_code error) (-99999)%Z;;
  assert (is_none (ResponseError_error_code error)).

Definition skip_serializing_if_works : test :=
  let error := ResponseError_new InternalError "Error" in
  let json := de_value (ResponseError_serialize error) in
  obj ← as_object json;
  assert (negb (contains_key "data" obj)).

Definition tests : list test :=
  [error_code_to_i32; i32_to_error_code; response_error_construction; response_error_with_data;
   response_error_serialization_without_data; response_error_serialization_with_data;
   response_error_deserialization; response_error_deserialization_with_data;
   response_error_raw_code; skip_serializing_if_works].

Lemma error_tests_pass : passes_all tests.
Proof. run_tests. Qed.
