(* ===== verification/TestMessage.v ===== *)
(** * TestMessage: the unit tests of [src/message.rs]. *)

From S2P Require Import Prelude RustStd Serde JsonText RequestId Error Message Testing.

Definition request_roundtrip : test :=
  let req := Request_new (RequestId_from_i32 1) "test/method" None in
  json ← to_string (Request_serialize req);
  parsed ← unwrap (from_str Request_deserialize json);
  assert (contains_raw json "'jsonrpc':'2.0'");;
  assert_eq (req_id parsed) (IdInteger 1);;
  assert_eq (req_method parsed) "test/method";;
  assert (is_none (req_params parsed)).

Definition request_with_params_roundtrip : test :=
  let params := json_macro (VObject [("textDocument", VObject [("uri", VString "file:///test.rs")])]) in
  let req := Request_new (RequestId_from_i32 42) "textDocument/completion" (Some params) in
  json ← to_string (Request_serialize req);
  parsed ← unwrap (from_str Request_deserialize json);
  assert_eq (req_id parsed) (IdInteger 42);;
  assert_eq (req_method parsed) "textDocument/completion";;
  p ← req_params parsed;
  assert_eq p params.

Definition request_without_params_omits_field : test :=
  let req := Request_new (RequestId_from_i32 1) "test" None in
  json ← to_string (Request_serialize req);
  assert (negb (contains json "params")).

Definition request_with_string_id : test :=
  let req := Request_new (RequestId_from_str "abc-123") "test" None in
  json ← to_string (Request_serialize req);
  assert (contains_raw json "'abc-123'");;
  parsed ← unwrap (from_str Request_deserialize json);
  assert_eq (req_id parsed) (IdString "abc-123").

Definition request_deserialization_rejects_missing_jsonrpc : test :=
  let json := raw "{'id':1,'method':'test'}" in
  error ← unwrap_err (from_str Request_deserialize json);
  assert (contains (de_error_text error) "missing field `jsonrpc`").

Definition request_deserialization_rejects_wrong_jsonrpc_version : test :=
  let json := raw "{'jsonrpc':'1.0','id':1,'method':'test'}" in
  error ← unwrap_err (from_str Request_deserialize json);
  assert (contains_raw (de_error_text error) "expected jsonrpc field to equal '2.0'").

Definition response_ok_roundtrip : test :=
  let result := json_macro (VObject [("items", VArray []); ("isIncomplete", VBool false)]) in
  let resp := Response_ok (RequestId_from_i32 1) result in
  json ← to_string (Response_serialize resp);
  parsed ← unwrap (from_str Response_deserialize json);
  assert (contains_raw json "'jsonrpc':'2.0'");;
  assert_eq (resp_id parsed) (Some (IdInteger 1));;
  assert (is_none (Response_error parsed));;
  r ← Response_into_result parsed;
  assert_eq r result.

Definition response_serialization_hardcodes_jsonrpc_version : test :=
  json ← to_string (Response_serialize (Response_ok (RequestId_from_i32 1) VNull));
  assert (contains_raw json "'jsonrpc':'2.0'").

Definition response_deserialization_rejects_missing_jsonrpc : test :=
  let json := raw "{'id':1,'result':null}" in
  error ← unwrap_err (from_str Response_deserialize json);
  assert (contains (de_error_text error) "missing jsonrpc field").

Definition response_err_roundtrip : test :=
  let error := ResponseError_new MethodNotFound "Method not found" in
  let resp := Response_err (RequestId_from_i32 1) error in
  json ← to_string (Response_serialize resp);
  parsed ← unwrap (from_str Response_deserialize json);
  assert_eq (resp_id parsed) (Some (IdInteger 1));;
  assert (is_none (Response_result parsed));;
  err ← Response_into_error parsed;
  assert_eq (err_code err) (-32601)%Z;;
  assert_eq (err_message err) "Method not found".

Definition response_parse_error_has_null_id : test :=
  let error := ResponseError_new ParseError "Parse error" in
  let resp := Response_parse_error error in
  json ← to_string (Response_serialize resp);
  assert (contains_raw json "'id':null");;
  parsed ← unwrap (from_str Response_deserialize json);
  assert (is_none (resp_id parsed));;
  assert (is_some (Response_error parsed)).

Definition response_with_string_id : test :=
  let resp := Response_ok (RequestId_from_str "uuid-123") VNull in
  json ← to_string (Response_serialize resp);
  parsed ← unwrap (from_str Response_deserialize json);
  assert_eq (resp_id parsed) (Some (IdString "uuid-123")).

Definition response_ok_omits_error_field : test :=
  let resp := Response_ok (RequestId_from_i32 1) VNull in
  json ← to_string (Response_serialize resp);
  assert (negb (contains json "error")).

Definition response_err_omits_result_field : test :=
  let error := ResponseError_new InternalError "Error" in
  let resp := Response_err (RequestId_from_i32 1) error in
  json ← to_string (Response_serialize resp);
  assert (negb (contains json "result")).

Definition notification_roundtrip : test :=
  let notif := Notification_new "textDocument/didOpen" None in
  json ← to_string (Notification_serialize notif);
  parsed ← unwrap (from_str Notification_deserialize json);
  assert (contains_raw json "'jsonrpc':'2.0'");;
  assert_eq (notif_method parsed) "textDocument/didOpen";;
  assert (is_none (notif_params parsed)).

Definition notification_with_params_roundtrip : test :=
  let params := json_macro (VObject [("textDocument", VObject [("uri", VString "file:///test.rs")])]) in
  let notif := Notification_new "textDocument/didOpen" (Some params) in
  json ← to_string (Notification_serialize notif);
  parsed ← unwrap (from_str Notification_deserialize json);
  assert_eq (notif_method parsed) "textDocument/didOpen";;
  p ← notif_params parsed;
  assert_eq p params.

Definition notification_deserialization_rejects_wrong_jsonrpc_version : test :=
  let json := raw "{'jsonrpc':'1.0','method':'test'}" in
  error ← unwrap_err (from_str Notification_deserialize json);
  assert (contains_raw (de_error_text error) "expected jsonrpc field to equal '2.0'").

Definition notification_without_params_omits_field : test :=
  let notif := Notification_new "test" None in
  json ← to_string (Notification_serialize notif);
  assert (negb (contains json "params")).

Definition message_discriminates_request : test :=
  let json := raw "{'jsonrpc':'2.0','id':1,'method':'test'}" in
  msg ← unwrap (from_str Message_deserialize json);
  assert (Message_is_request msg);;
  assert (negb (Message_is_response msg));;
  assert (negb (Message_is_notification msg));;
  match msg with
  | MRequest req => assert_eq (req_id req) (IdInteger 1);; assert_eq (req_method req) "test"
  | _ => panic
  end.

Definition message_discriminates_request_with_params : test :=
  let json := raw "{'jsonrpc':'2.0','id':1,'method':'test','params':{'key':'value'}}" in
  msg ← unwrap (from_str Message_deserialize json);
  assert (Message_is_request msg);;
  match msg with
  | MRequest req => assert (is_some (req_params req))
  | _ => panic
  end.

Definition message_discriminates_response_ok : test :=
  let json := raw "{'jsonrpc':'2.0','id':1,'result':null}" in
  msg ← unwrap (from_str Message_deserialize json);
  assert (Message_is_response msg);;
  assert (negb (Message_is_request msg));;
  assert (negb (Message_is_notification msg));;
  match msg with
  | MResponse resp =>
    assert_eq (resp_id resp) (Some (IdInteger 1));;
    assert (is_some (Response_result resp));;
    assert (is_none (Response_error resp))
  | _ => panic
  end.

Definition message_discriminates_response_err : test :=
  let json := raw "{'jsonrpc':'2.0','id':1,'error':{'code':-32600,'message':'Invalid Request'}}" in
  msg ← unwrap (from_str Message_deserialize json);
  assert (Message_is_response msg);;
  match msg with
  | MResponse resp =>
    assert_eq (resp_id resp) (Some (IdInteger 1));;
    assert (is_none (Response_result resp));;
    err ← Response_into_error resp;
    assert_eq (err_code err) (-32600)%Z
  | _ => panic
  end.

Definition message_discriminates_notification : test :=
  let json := raw "{'jsonrpc':'2.0','method':'test'}" in
  msg ← unwrap (from_str Message_deserialize json);
  assert (Message_is_notification msg);;
  assert (negb (Message_is_request msg));;
  assert (negb (Message_is_response msg));;
  match msg with
  | MNotification notif => assert_eq (notif_method notif) "test"
  | _ => panic
  end.

Definition message_discriminates_notification_with_params : test :=
  let json := raw "{'jsonrpc':'2.0','method':'test','params':{'key':'value'}}" in
  msg ← unwrap (from_str Message_deserialize json);
  assert (Message_is_notification msg);;
  match msg with
  | MNotification notif => assert (is_some (notif_params notif))
  | _ => panic
  end.

Definition request_with_string_id_discrimination : test :=
  let json := raw "{'jsonrpc':'2.0','id':'abc-123','method':'test'}" in
  msg ← unwrap (from_str Message_deserialize json);
  assert (Message_is_request msg);;
  match msg with
  | MRequest req => assert_eq (req_id req) (IdString "abc-123")
  | _ => panic
  end.

Definition response_with_null_id_discrimination : test :=
  let json := raw "{'jsonrpc':'2.0','error':{'code':-32700,'message':'Parse error'}}" in
  msg ← unwrap (from_str Message_deserialize json);
  assert (Message_is_response msg);;
  match msg with
  | MResponse resp => assert (is_none (resp_id resp));; assert (is_some (Response_error resp))
  | _ => panic
  end.

Definition response_with_explicit_null_id : test :=
  let json := raw "{'jsonrpc':'2.0','id':null,'error':{'code':-32700,'message':'Parse error'}}" in
  parsed ← unwrap (from_str Response_deserialize json);
  assert (is_none (resp_id parsed)).

Definition message_roundtrip_request : test :=
  let req := Request_new (RequestId_from_i32 42) "textDocument/hover"
    (Some (json_macro (VObject [("position", VObject [("line", VNumber (Int 0))])]))) in
  let msg := MRequest req in
  json ← to_string (Message_serialize msg);
  parsed ← unwrap (from_str Message_deserialize json);
  assert (Message_is_request parsed).

Definition message_roundtrip_response : test :=
  let resp := Response_ok (RequestId_from_i32 42) (json_macro (VObject [("contents", VString "documentation")])) in
  let msg := MResponse resp in
  json ← to_string (Message_serialize msg);
  parsed ← unwrap (from_str Message_deserialize json);
  assert (Message_is_response parsed).

Definition message_roundtrip_notification : test :=
  let notif := Notification_new "$/cancelRequest" (Some (json_macro (VObject [("id", VNumber (Int 42))]))) in
  let msg := MNotification notif in
  json ← to_string (Message_serialize msg);
  parsed ← unwrap (from_str Message_deserialize json);
  assert (Message_is_notification parsed).

Definition response_with_complex_result : test :=
  let result := json_macro (VObject [("capabilities", VObject
    [("textDocumentSync", VNumber (Int 1));
     ("completionProvider", VObject [("triggerCharacters", VArray [VString "."; VString ":"])]);
     ("hoverProvider", VBool true)])]) in
  let resp := Response_ok (RequestId_from_i32 0) result in
  json ← to_string (Response_serialize resp);
  parsed ← unwrap (from_str Response_deserialize json);
  r ← Response_into_result parsed;
  assert_eq r result.

Definition response_error_with_data : test :=
  let error := ResponseError_with_data (ResponseError_new InvalidParams "Missing field")
    (json_macro (VObject [("missing", VArray [VString "uri"; VString "position"])])) in
  let resp := Response_err (RequestId_from_i32 1) error in
  json ← to_string (Response_serialize resp);
  parsed ← unwrap (from_str Response_deserialize json);
  err ← Response_into_error parsed;
  assert (is_some (err_data err));;
  data ← err_data err;
  match value_get "missing" data with
  | Some (VArray (v :: _)) => assert_eq v (VString "uri")
  | _ => panic
  end.

Definition response_both_result_and_error_prefers_error : test :=
  let json := raw "{'jsonrpc':'2.0','id':1,'result':'ok','error':{'code':-32600,'message':'bad'}}" in
  resp ← unwrap (from_str Response_deserialize json);
  assert (is_some (Response_error resp));;
  e ← Response_error resp;
  assert_eq (err_code e) (-32600)%Z.

Definition response_error_null_with_result_treats_as_success : test :=
  let json := raw "{'jsonrpc':'2.0','id':1,'result':'ok','error':null}" in
  resp ← unwrap (from_str Response_deserialize json);
  assert (is_some (Response_result resp));;
  r ← Response_result resp;
  assert_eq r (VString "ok").

Definition response_neither_result_nor_error_rejected : test :=
  let json := raw "{'jsonrpc':'2.0','id':1}" in
  err ← unwrap_err (from_str Response_deserialize json);
  assert (contains (de_error_text err) "result").

Definition response_error_null_without_result_rejected : test :=
  let json := raw "{'jsonrpc':'2.0','id':1,'error':null}" in
  err ← unwrap_err (from_str Response_deserialize json);
  assert (contains (de_error_text err) "null").

Definition response_result_null_is_valid_success : test :=
  let json := raw "{'jsonrpc':'2.0','id':1,'result':null}" in
  resp ← unwrap (from_str Response_deserialize json);
  assert (is_some (Response_result resp));;
  r ← Response_result resp;
  assert (is_null r).

Definition from_request_for_message : test :=
  let req := Request_new (RequestId_from_i32 1) "test" None in
  let msg := Message_from_Request req in
  assert (Message_is_request msg).

Definition from_response_for_message : test :=
  let resp := Response_ok (RequestId_from_i32 1) VNull in
  let msg := Message_from_Response resp in
  assert (Message_is_response msg).

Definition from_notification_for_message : test :=
  let notif := Notification_new "test" None in
  let msg := Message_from_Notification notif in
  assert (Message_is_notification msg).

Definition message_as_request : test :=
  let msg := MRequest (Request_new (RequestId_from_i32 1) "test" None) in
  assert (is_some (Message_as_request msg));;
  r ← Message_as_request msg;
  assert_eq (req_method r) "test";;
  assert (is_none (Message_as_response msg));;
  assert (is_none (Message_as_notification msg)).

Definition message_as_response : test :=
  let msg := MResponse (Response_ok (RequestId_from_i32 1) VNull) in
  assert (is_some (Message_as_response msg));;
  r ← Message_as_response msg;
  assert (Response_is_ok r);;
  assert (is_none (Message_as_request msg));;
  assert (is_none (Message_as_notification msg)).

Definition message_as_notification : test :=
  let msg := MNotification (Notification_new "test" None) in
  assert (is_some (Message_as_notification msg));;
  n ← Message_as_notification msg;
  assert_eq (notif_method n) "test";;
  assert (is_none (Message_as_request msg));;
  assert (is_none (Message_as_response msg)).

Definition message_into_request : test :=
  let msg := MRequest (Request_new (RequestId_from_i32 1) "test" None) in
  req ← Message_into_request msg;
  assert_eq (req_method req) "test".

Definition message_into_response : test :=
  let msg := MResponse (Response_ok (RequestId_from_i32 1) VNull) in
  resp ← Message_into_response msg;
  assert (Response_is_ok resp).

Definition message_into_notification : test :=
  let msg := MNotification (Notification_new "test" None) in
  notif ← Message_into_notification msg;
  assert_eq (notif_method notif) "test".

Definition message_into_wrong_variant_returns_none : test :=
  let msg := MRequest (Request_new (RequestId_from_i32 1) "test" None) in
  assert (is_none (Message_into_response msg));;
  let msg := MResponse (Response_ok (RequestId_from_i32 1) VNull) in
  assert (is_none (Message_into_notification msg));;
  let msg := MNotification (Notification_new "test" None) in
  assert (is_none (Message_into_request msg)).

Definition tests : list test :=
  [request_roundtrip; request_with_params_roundtrip; request_without_params_omits_field;
   request_with_string_id; request_deserialization_rejects_missing_jsonrpc;
   request_deserialization_rejects_wrong_jsonrpc_version; response_ok_roundtrip;
   response_serialization_hardcodes_jsonrpc_version; response_deserialization_rejects_missing_jsonrpc;
   response_err_roundtrip; response_parse_error_has_null_id; response_with_string_id;
   response_ok_omits_error_field; response_err_omits_result_field; notification_roundtrip;
   notification_with_params_roundtrip; notification_deserialization_rejects_wrong_jsonrpc_version;
   notification_without_params_omits_field; message_discriminates_request;
   message_discriminates_request_with_params; message_discriminates_response_ok;
   message_discriminates_response_err; message_discriminates_notification;
   message_discriminates_notification_with_params; request_with_string_id_discrimination;
   response_with_null_id_discrimination; response_with_explicit_null_id; message_roundtrip_request;
   message_roundtrip_response; message_roundtrip_notification; response_with_complex_result;
   response_error_with_data; response_both_result_and_error_prefers_error;
   response_error_null_with_result_treats_as_success; response_neither_result_nor_error_rejected;
   response_error_null_without_result_rejected; response_result_null_is_valid_success;
   from_request_for_message; from_response_for_message; from_notification_for_message;
   message_as_request; message_as_response; message_as_notification; message_into_request;
   message_into_response; message_into_notification; message_into_wrong_variant_returns_none].

Lemma message_tests_pass : passes_all tests.
Proof. run_tests. Qed.
