(* ===== verification/TestCodec.v ===== *)
(** * TestCodec: the unit tests of [src/codec.rs].

    A test owns a codec and a buffer; a call of the codec gives them back. *)

From S2P Require Import Prelude RustStd Serde JsonText RequestId Error Message Io Codec Testing.

(** [codec.decode(&mut buf)] and [codec.encode(msg, &mut buf).unwrap()]. *)
Definition codec_decode (codec : LspCodec) (buf : bytes) : result io_error (option Message) * LspCodec * bytes :=
  let '(step_new r codec buf) := decode codec buf in (r, codec, buf).

Definition codec_encode (msg : Message) (buf : bytes) : option bytes := unwrap (encode msg buf).

(** [codec.decode(&mut buf).unwrap().unwrap()]. *)
Definition decode_message (codec : LspCodec) (buf : bytes) : option (Message * LspCodec * bytes) :=
  let '(r, codec, buf) := codec_decode codec buf in
  o ← unwrap r; msg ← o; Some (msg, codec, buf).

(** [assert!(codec.decode(&mut buf).unwrap().is_none())]. *)
Definition decode_none (codec : LspCodec) (buf : bytes) : option (LspCodec * bytes) :=
  let '(r, codec, buf) := codec_decode codec buf in
  o ← unwrap r; assert (is_none o);; Some (codec, buf).

Definition separator : str := N_of_ascii <$> HEADER_TERMINATOR.

(** The bytes of a string, and [format!] of a frame. *)
Definition text_bytes (s : str) : bytes := ascii_of_N <$> as_bytes s.

Definition framed (body : bytes) : bytes :=
  list_ascii_of_string "Content-Length: " ++ display_N (N.of_nat (length body)) ++ HEADER_TERMINATOR ++ body.

(** The part before the first separator and the part after it, [splitn(2, ..)]. *)
Definition splitn_2 (s : str) : list str :=
  match position (starts_with separator) ((λ k, drop k s) <$> seq 0 (length s)) with
  | Some k => [take k s; drop (k + length separator) s]
  | None => [s]
  end.

(** [output.contains] of the separator. *)
Definition contains_separator (s : str) : bool := 1 <? length (splitn_2 s).

Definition json_body : bytes := raw "{'jsonrpc':'2.0','id':1,'method':'test'}".

Definition encode_request_test : test :=
  let req := Request_new (RequestId_from_i32 1) "test/method" None in
  let msg := MRequest req in
  buf ← codec_encode msg [];
  output ← unwrap (from_utf8 buf);
  assert (starts_with (lit "Content-Length: ") output);;
  assert (contains_separator output);;
  let parts := splitn_2 output in
  assert_eq (length parts) 2;;
  header ← parts !! 0;
  body ← parts !! 1;
  parsed ← unwrap (text_from_slice (text_bytes body));
  assert_eq (value_get "method" parsed) (Some (VString "test/method"));;
  assert_eq (value_get "id" parsed) (Some (VNumber (Int 1)));;
  assert_eq (value_get "jsonrpc" parsed) (Some (VString "2.0"));;
  number ← strip_prefix (lit "Content-Length: ") header;
  content_length ← unwrap (parse_usize number);
  assert_eq content_length (N.of_nat (str_len body)).

Definition encode_response_test : test :=
  let resp := Response_ok (RequestId_from_i32 42) (json_macro (VObject [("result", VString "value")])) in
  let msg := MResponse resp in
  buf ← codec_encode msg [];
  output ← unwrap (from_utf8 buf);
  assert (starts_with (lit "Content-Length: ") output);;
  assert (contains_separator output);;
  body ← split separator output !! 1;
  parsed ← unwrap (text_from_slice (text_bytes body));
  assert_eq (value_get "id" parsed) (Some (VNumber (Int 42)));;
  assert (is_some (value_get "result" parsed)).

Definition encode_notification_test : test :=
  let notif := Notification_new "textDocument/didOpen" (Some (json_macro (VObject [("uri", VString "file:///test")]))) in
  let msg := MNotification notif in
  buf ← codec_encode msg [];
  output ← unwrap (from_utf8 buf);
  assert (starts_with (lit "Content-Length: ") output);;
  body ← split separator output !! 1;
  parsed ← unwrap (text_from_slice (text_bytes body));
  assert_eq (value_get "method" parsed) (Some (VString "textDocument/didOpen"));;
  assert (is_none (value_get "id" parsed)).

Definition decode_complete_message_test : test :=
  '(msg, codec, buf) ← decode_message LspCodec_new (framed json_body);
  assert (Message_is_request msg);;
  match msg with MRequest req => assert_eq (req_method req) "test" | _ => Some () end.

Definition decode_partial_header_test : test :=
  let buf := list_ascii_of_string "Content-Length: " in
  '(codec, buf) ← decode_none LspCodec_new buf;
  let buf := buf ++ list_ascii_of_string "40" ++ CRLF in
  '(codec, buf) ← decode_none codec buf;
  let buf := buf ++ CRLF in
  '(codec, buf) ← decode_none codec buf;
  assert_eq (length json_body) 40;;
  let buf := buf ++ json_body in
  '(msg, codec, buf) ← decode_message codec buf;
  assert (Message_is_request msg).

Definition decode_partial_body_test : test :=
  let buf := list_ascii_of_string "Content-Length: " ++ display_N (N.of_nat (length json_body)) ++ HEADER_TERMINATOR in
  let buf := buf ++ take 20 json_body in
  '(codec, buf) ← decode_none LspCodec_new buf;
  let buf := buf ++ drop 20 json_body in
  '(msg, codec, buf) ← decode_message codec buf;
  assert (Message_is_request msg).

Definition decode_multiple_messages_test : test :=
  let json1 := raw "{'jsonrpc':'2.0','id':1,'method':'first'}" in
  let json2 := raw "{'jsonrpc':'2.0','id':2,'method':'second'}" in
  let buf := framed json1 ++ framed json2 in
  '(msg1, codec, buf) ← decode_message LspCodec_new buf;
  match msg1 with MRequest req => assert_eq (req_method req) "first" | _ => panic end;;
  assert_ne buf [];;
  '(msg2, codec, buf) ← decode_message codec buf;
  match msg2 with MRequest req => assert_eq (req_method req) "second" | _ => panic end;;
  assert_eq buf [].

Definition encode_decode_roundtrip_test : test :=
  let request := MRequest (Request_new (RequestId_from_i32 123) "textDocument/completion"
    (Some (json_macro (VObject [("position", VObject [("line", VNumber (Int 10))])])))) in
  let response := MResponse (Response_ok (RequestId_from_i32 456) (json_macro (VObject [("items", VArray [])]))) in
  let notification := MNotification (Notification_new "textDocument/didSave" None) in
  buf ← codec_encode request [];
  buf ← codec_encode response buf;
  buf ← codec_encode notification buf;
  '(decoded_request, codec, buf) ← decode_message LspCodec_new buf;
  assert (Message_is_request decoded_request);;
  match request, decoded_request with
  | MRequest orig, MRequest dec =>
    assert_eq (req_id orig) (req_id dec);; assert_eq (req_method orig) (req_method dec)
  | _, _ => Some ()
  end;;
  '(decoded_response, codec, buf) ← decode_message codec buf;
  assert (Message_is_response decoded_response);;
  '(decoded_notification, codec, buf) ← decode_message codec buf;
  assert (Message_is_notification decoded_notification);;
  assert_eq buf [].

(** The method of the test, with the UTF-8 bytes of two characters beyond ASCII. *)
Definition unicode_method : string :=
  string_of_list_ascii (text_bytes (lit "test/" ++ [26085; 26412]%N)).

Definition content_length_byte_count_test : test :=
  let req := Request_new (RequestId_from_i32 1) unicode_method None in
  let msg := MRequest req in
  buf ← codec_encode msg [];
  output ← unwrap (from_utf8 buf);
  let parts := splitn_2 output in
  header ← parts !! 0;
  body ← parts !! 1;
  number ← strip_prefix (lit "Content-Length: ") header;
  content_length ← unwrap (parse_usize number);
  assert_eq content_length (N.of_nat (str_len body));;
  assert (length body <? str_len body).

Definition case_insensitive_header_parsing : test :=
  let buf := list_ascii_of_string "content-length: " ++ display_N (N.of_nat (length json_body)) ++
             HEADER_TERMINATOR ++ json_body in
  '(msg, codec, buf) ← decode_message LspCodec_new buf;
  assert (Message_is_request msg).

Definition response_error_roundtrip : test :=
  let error := ResponseError_new MethodNotFound "Method not found" in
  let resp := MResponse (Response_err (RequestId_from_i32 1) error) in
  buf ← codec_encode resp [];
  '(decoded, codec, buf) ← decode_message LspCodec_new buf;
  match decoded with
  | MResponse r =>
    assert (is_some (Response_error r));;
    e ← Response_into_error r;
    assert_eq (err_code e) (-32601)%Z
  | _ => panic
  end.

Definition decode_invalid_json_returns_error : test :=
  let invalid_json := list_ascii_of_string "{ not valid json }" in
  let '(result, codec, buf) := codec_decode LspCodec_new (framed invalid_json) in
  assert (is_err result);;
  e ← unwrap_err result;
  assert_eq (io_kind e) InvalidData.

Definition decode_missing_content_length_returns_error : test :=
  let buf := list_ascii_of_string "Some-Other-Header: value" ++ HEADER_TERMINATOR ++ list_ascii_of_string "{}" in
  let '(result, codec, buf) := codec_decode LspCodec_new buf in
  assert (is_err result).

Definition tests : list test :=
  [encode_request_test; encode_response_test; encode_notification_test; decode_complete_message_test;
   decode_partial_header_test; decode_partial_body_test; decode_multiple_messages_test;
   encode_decode_roundtrip_test; content_length_byte_count_test; case_insensitive_header_parsing;
   response_error_roundtrip; decode_invalid_json_returns_error;
   decode_missing_content_length_returns_error].

Lemma codec_tests_pass : passes_all tests.
Proof. run_tests. Qed.
