(* ===== verification/TestLifecycle.v ===== *)
(** * TestLifecycle: the unit tests of [src/lifecycle.rs], but for the one about
    [Debug] output. *)

From S2P Require Import Prelude RustStd Serde RequestId Error Message Io Lifecycle Testing.

(** [to_string] of an error; the text of an I/O error with a message is the message. *)
Definition io_error_text (e : io_error) : string := match io_inner e with IoMsg msg => msg | _ => "" end.
Definition error_text (e : ProtocolError) : bytes := list_ascii_of_string (ProtocolError_fmt io_error_text e).

Definition lifecycle_state_default_is_uninitialized : test :=
  assert_eq LifecycleState_default Uninitialized.

Definition lifecycle_state_is_copy : test :=
  let state := Running in
  let copy := state in
  assert_eq state copy.

Definition uninitialized_allows_only_initialize_request : test :=
  let state := Uninitialized in
  assert (is_request_allowed state "initialize");;
  assert (negb (is_request_allowed state "shutdown"));;
  assert (negb (is_request_allowed state "textDocument/hover"));;
  assert (negb (is_request_allowed state "workspace/symbol")).

Definition initializing_allows_no_requests : test :=
  let state := Initializing in
  assert (negb (is_request_allowed state "initialize"));;
  assert (negb (is_request_allowed state "shutdown"));;
  assert (negb (is_request_allowed state "textDocument/hover")).

Definition running_allows_all_requests_except_initialize : test :=
  let state := Running in
  assert (negb (is_request_allowed state "initialize"));;
  assert (is_request_allowed state "shutdown");;
  assert (is_request_allowed state "textDocument/hover");;
  assert (is_request_allowed state "textDocument/completion");;
  assert (is_request_allowed state "workspace/symbol").

Definition shutting_down_allows_no_requests : test :=
  let state := ShuttingDown in
  assert (negb (is_request_allowed state "initialize"));;
  assert (negb (is_request_allowed state "shutdown"));;
  assert (negb (is_request_allowed state "textDocument/hover")).

Definition exited_allows_no_requests : test :=
  let state := Exited in
  assert (negb (is_request_allowed state "initialize"));;
  assert (negb (is_request_allowed state "shutdown"));;
  assert (negb (is_request_allowed state "textDocument/hover")).

Definition uninitialized_allows_only_exit_notification : test :=
  let state := Uninitialized in
  assert (is_notification_allowed state "exit");;
  assert (negb (is_notification_allowed state "initialized"));;
  assert (negb (is_notification_allowed state "textDocument/didOpen")).

Definition initializing_allows_only_initialized_notification : test :=
  let state := Initializing in
  assert (is_notification_allowed state "initialized");;
  assert (negb (is_notification_allowed state "exit"));;
  assert (negb (is_notification_allowed state "textDocument/didOpen")).

Definition running_allows_all_notifications : test :=
  let state := Running in
  assert (is_notification_allowed state "exit");;
  assert (is_notification_allowed state "initialized");;
  assert (is_notification_allowed state "textDocument/didOpen");;
  assert (is_notification_allowed state "textDocument/didChange");;
  assert (is_notification_allowed state "$/cancelRequest").

Definition shutting_down_allows_only_exit_notification : test :=
  let state := ShuttingDown in
  assert (is_notification_allowed state "exit");;
  assert (negb (is_notification_allowed state "initialized"));;
  assert (negb (is_notification_allowed state "textDocument/didOpen")).

Definition exited_allows_no_notifications : test :=
  let state := Exited in
  assert (negb (is_notification_allowed state "exit"));;
  assert (negb (is_notification_allowed state "initialized"));;
  assert (negb (is_notification_allowed state "textDocument/didOpen")).

Definition exit_code_success_is_zero : test := assert_eq (ExitCode_as_i32 ExitSuccess) 0%Z.

Definition exit_code_error_is_one : test := assert_eq (ExitCode_as_i32 ExitError) 1%Z.

Definition exit_code_is_copy : test :=
  let code := ExitSuccess in
  let copy := code in
  assert_eq code copy.

Definition protocol_error_expected_initialize_message : test :=
  let msg := error_text (ExpectedInitialize "textDocument/hover") in
  assert (contains msg "expected initialize request");;
  assert (contains msg "textDocument/hover").

Definition protocol_error_expected_initialized_message : test :=
  let msg := error_text (ExpectedInitialized "textDocument/didOpen") in
  assert (contains msg "expected initialized notification");;
  assert (contains msg "textDocument/didOpen").

Definition protocol_error_disconnected_message : test :=
  let msg := error_text Disconnected in
  assert (contains msg "disconnected unexpectedly").

Definition protocol_error_after_shutdown_message : test :=
  let msg := error_text (AfterShutdown "textDocument/hover") in
  assert (contains msg "after shutdown");;
  assert (contains msg "textDocument/hover").

Definition protocol_error_request_timeout_message : test :=
  let msg := error_text RequestTimeout in
  assert (contains msg "timed out waiting for response to server request").

Definition protocol_error_initialize_timeout_message : test :=
  let msg := error_text InitializeTimeout in
  assert (contains msg "timed out waiting for initialized notification");;
  assert (contains msg "60s").

Definition protocol_error_io_conversion : test :=
  let io_err := io_error_new BrokenPipe (IoMsg "connection lost") in
  let msg := error_text (ProtocolIo io_err) in
  assert (contains msg "I/O error");;
  assert (contains msg "connection lost").

Definition tests : list test :=
  [lifecycle_state_default_is_uninitialized; lifecycle_state_is_copy;
   uninitialized_allows_only_initialize_request; initializing_allows_no_requests;
   running_allows_all_requests_except_initialize; shutting_down_allows_no_requests;
   exited_allows_no_requests; uninitialized_allows_only_exit_notification;
   initializing_allows_only_initialized_notification; running_allows_all_notifications;
   shutting_down_allows_only_exit_notification; exited_allows_no_notifications;
   exit_code_success_is_zero; exit_code_error_is_one; exit_code_is_copy;
   protocol_error_expected_initialize_message; protocol_error_expected_initialized_message;
   protocol_error_disconnected_message; protocol_error_after_shutdown_message;
   protocol_error_request_timeout_message; protocol_error_initialize_timeout_message;
   protocol_error_io_conversion].

Lemma lifecycle_tests_pass : passes_all tests.
Proof. run_tests. Qed.
