(* ===== verification/TestRouting.v ===== *)
(** * TestRouting: the unit tests of [src/routing.rs], but for the one about [Debug]
    output. *)

From S2P Require Import Prelude RustStd Serde RequestId Error Message Tokio Routing Testing.

(** The stores of a test that has made nothing yet. *)
Definition no_tokens : tokens (Tokio := model_tokio) := [].

Definition method_not_found_response_creates_correct_error : test :=
  let request := Request_new (RequestId_from_i32 42) "textDocument/unknown"
    (Some (json_macro (VObject [("key", VString "value")]))) in
  let response := method_not_found_response request in
  assert (is_some (Response_error response));;
  assert (is_none (Response_result response));;
  assert_eq (resp_id response) (Some (RequestId_from_i32 42));;
  error ← Response_into_error response;
  assert_eq (err_code error) (ErrorCode_to_i32 MethodNotFound);;
  assert_eq (err_code error) (-32601)%Z.

Definition method_not_found_response_includes_method_name : test :=
  let request := Request_new (RequestId_from_i32 1) "custom/myMethod" None in
  let response := method_not_found_response request in
  error ← Response_into_error response;
  assert (contains (list_ascii_of_string (err_message error)) "custom/myMethod");;
  assert_eq (err_message error) "Method not found: custom/myMethod".

Definition method_not_found_response_with_string_id : test :=
  let request := Request_new (RequestId_from_str "request-abc-123") "test/method" None in
  let response := method_not_found_response request in
  assert_eq (resp_id response) (Some (IdString "request-abc-123")).

Definition incoming_message_variants_constructible : test :=
  let request := Request_new (RequestId_from_i32 1) "test" None in
  let notification := Notification_new "test" None in
  let response := Response_ok (RequestId_from_i32 1) VNull in
  let '(token, _) := token_new no_tokens in
  let _req := InRequest request token in
  let _notif := InNotification notification in
  let _routed := ResponseRouted in
  let _unknown := ResponseUnknown response in
  Some ().

Definition incoming_message_accessors_match_variants : test :=
  let '(token, _) := token_new no_tokens in
  let request := InRequest (Request_new (RequestId_from_i32 1) "test" None) token in
  assert (IncomingMessage_is_request request);;
  assert (negb (IncomingMessage_is_notification request));;
  assert (negb (IncomingMessage_is_response_routed request));;
  assert (negb (IncomingMessage_is_response_unknown request));;
  assert (negb (IncomingMessage_is_cancel_handled request));;
  let notification := InNotification (Notification_new "test" None) in
  assert (IncomingMessage_is_notification notification);;
  let routed := ResponseRouted in
  assert (IncomingMessage_is_response_routed routed);;
  let unknown := ResponseUnknown (Response_ok (RequestId_from_i32 1) VNull) in
  assert (IncomingMessage_is_response_unknown unknown);;
  let cancelled := CancelHandled in
  assert (IncomingMessage_is_cancel_handled cancelled).

Definition cancelled_response_creates_correct_error : test :=
  let response := cancelled_response (RequestId_from_i32 42) in
  assert (is_some (Response_error response));;
  assert (is_none (Response_result response));;
  assert_eq (resp_id response) (Some (RequestId_from_i32 42));;
  error ← Response_into_error response;
  assert_eq (err_code error) (ErrorCode_to_i32 RequestCancelled);;
  assert_eq (err_code error) (-32800)%Z;;
  assert (contains (list_ascii_of_string (err_message error)) "cancelled").

Definition cancelled_response_with_string_id : test :=
  let response := cancelled_response (RequestId_from_str "req-xyz") in
  assert_eq (resp_id response) (Some (IdString "req-xyz"));;
  assert (is_some (Response_error response)).

Definition tests : list test :=
  [method_not_found_response_creates_correct_error; method_not_found_response_includes_method_name;
   method_not_found_response_with_string_id; incoming_message_variants_constructible;
   incoming_message_accessors_match_variants; cancelled_response_creates_correct_error;
   cancelled_response_with_string_id].

Lemma routing_tests_pass : passes_all tests.
Proof. run_tests. Qed.
