(* ===== verification/TestRequestQueue.v ===== *)
(** * TestRequestQueue: the unit tests of [src/request_queue.rs].

    The token and channel stores are those of [model_tokio]; awaiting a receiver is
    polling it, which is ready in these tests. *)

From S2P Require Import Prelude RustStd Serde RequestId Error Message Tokio RequestQueue Testing TestRouting.

Definition no_channels : channels (Tokio := model_tokio) := [].

(** [rx.await]. *)
Definition await (s : channels (Tokio := model_tokio)) (rx : Channel) : option (result unit Response) :=
  match oneshot_poll s rx with Ready r => Some r | Pending => panic end.

Abbreviation id n := (RequestId_from_i32 n).

(** ** Incoming requests *)

Definition incoming_register_and_complete : test :=
  let incoming := IncomingRequests_new in
  let '(token, _) := token_new no_tokens in
  let incoming := IncomingRequests_register (id 1) token incoming in
  let '(done, incoming) := IncomingRequests_complete (id 1) incoming in
  assert done;;
  assert (negb (IncomingRequests_is_pending (id 1) incoming)).

Definition incoming_complete_unknown_returns_false : test :=
  let incoming := IncomingRequests_new in
  assert (negb (IncomingRequests_complete (id 999) incoming).1).

Definition incoming_is_pending : test :=
  let incoming := IncomingRequests_new in
  assert (negb (IncomingRequests_is_pending (id 1) incoming));;
  let '(token, _) := token_new no_tokens in
  let incoming := IncomingRequests_register (id 1) token incoming in
  assert (IncomingRequests_is_pending (id 1) incoming);;
  let '(_, incoming) := IncomingRequests_complete (id 1) incoming in
  assert (negb (IncomingRequests_is_pending (id 1) incoming)).

Definition incoming_pending_count : test :=
  let incoming := IncomingRequests_new in
  assert_eq (IncomingRequests_pending_count incoming) 0;;
  let '(token1, ts) := token_new no_tokens in
  let incoming := IncomingRequests_register (id 1) token1 incoming in
  assert_eq (IncomingRequests_pending_count incoming) 1;;
  let '(token2, _) := token_new ts in
  let incoming := IncomingRequests_register (id 2) token2 incoming in
  assert_eq (IncomingRequests_pending_count incoming) 2;;
  let '(_, incoming) := IncomingRequests_complete (id 1) incoming in
  assert_eq (IncomingRequests_pending_count incoming) 1;;
  let '(_, incoming) := IncomingRequests_complete (id 2) incoming in
  assert_eq (IncomingRequests_pending_count incoming) 0.

Definition incoming_default : test :=
  let incoming := IncomingRequests_default in
  assert_eq (IncomingRequests_pending_count incoming) 0.

Definition incoming_cancel_triggers_token : test :=
  let incoming := IncomingRequests_new in
  let '(token, ts) := token_new no_tokens in
  let token_clone := token in
  let incoming := IncomingRequests_register (id 1) token incoming in
  let '(found, ts) := IncomingRequests_cancel (id 1) incoming ts in
  assert found;;
  assert (is_cancelled ts token_clone).

Definition incoming_cancel_unknown_returns_false : test :=
  let incoming := IncomingRequests_new in
  assert (negb (IncomingRequests_cancel (id 999) incoming no_tokens).1).

Definition incoming_cancel_idempotent : test :=
  let incoming := IncomingRequests_new in
  let '(token, ts) := token_new no_tokens in
  let incoming := IncomingRequests_register (id 1) token incoming in
  let '(found, ts) := IncomingRequests_cancel (id 1) incoming ts in
  assert found;;
  let '(found, ts) := IncomingRequests_cancel (id 1) incoming ts in
  assert found.

Definition incoming_get_token_returns_clone : test :=
  let incoming := IncomingRequests_new in
  let '(original_token, ts) := token_new no_tokens in
  let incoming := IncomingRequests_register (id 1) original_token incoming in
  let retrieved := IncomingRequests_get_token (id 1) incoming in
  assert (is_some retrieved);;
  retrieved ← retrieved;
  let ts := token_cancel retrieved ts in
  assert (is_cancelled ts original_token).

Definition incoming_get_token_unknown_returns_none : test :=
  let incoming := IncomingRequests_new (TK := model_tokio) in
  assert (is_none (IncomingRequests_get_token (id 999) incoming)).

Definition incoming_complete_after_cancel : test :=
  let incoming := IncomingRequests_new in
  let '(token, ts) := token_new no_tokens in
  let incoming := IncomingRequests_register (id 1) token incoming in
  let '(_, ts) := IncomingRequests_cancel (id 1) incoming ts in
  assert (IncomingRequests_complete (id 1) incoming).1.

(** ** Outgoing requests *)

Definition outgoing_register_and_complete : test :=
  let outgoing := OutgoingRequests_new in
  let '(rx, outgoing, s) := OutgoingRequests_register (id 1) outgoing no_channels in
  let response := Response_ok (id 1) (VString "response") in
  let '(found, outgoing, s) := OutgoingRequests_complete (id 1) response outgoing s in
  assert found;;
  r ← await s rx;
  received ← unwrap r;
  assert_eq (resp_id received) (resp_id response).

Definition outgoing_complete_unknown_returns_false : test :=
  let outgoing := OutgoingRequests_new in
  let '(result, _, _) := OutgoingRequests_complete (id 999) (Response_ok (id 999) VNull) outgoing no_channels in
  assert (negb result).

Definition outgoing_cancel_drops_sender : test :=
  let outgoing := OutgoingRequests_new in
  let '(rx, outgoing, s) := OutgoingRequests_register (id 1) outgoing no_channels in
  let '(found, outgoing, s) := OutgoingRequests_cancel (id 1) outgoing s in
  assert found;;
  assert (negb (OutgoingRequests_is_pending (id 1) outgoing));;
  r ← await s rx;
  assert (is_err r).

Definition outgoing_cancel_unknown_returns_false : test :=
  let outgoing := OutgoingRequests_new in
  let '(found, _, _) := OutgoingRequests_cancel (id 999) outgoing no_channels in
  assert (negb found).

Definition outgoing_is_pending : test :=
  let outgoing := OutgoingRequests_new in
  assert (negb (OutgoingRequests_is_pending (id 1) outgoing));;
  let '(_rx, outgoing, s) := OutgoingRequests_register (id 1) outgoing no_channels in
  assert (OutgoingRequests_is_pending (id 1) outgoing);;
  let '(_, outgoing, s) := OutgoingRequests_complete (id 1) (Response_ok (id 1) VNull) outgoing s in
  assert (negb (OutgoingRequests_is_pending (id 1) outgoing)).

Definition outgoing_pending_count : test :=
  let outgoing := OutgoingRequests_new in
  assert_eq (OutgoingRequests_pending_count outgoing) 0;;
  let '(_rx1, outgoing, s) := OutgoingRequests_register (id 1) outgoing no_channels in
  assert_eq (OutgoingRequests_pending_count outgoing) 1;;
  let '(_rx2, outgoing, s) := OutgoingRequests_register (id 2) outgoing s in
  assert_eq (OutgoingRequests_pending_count outgoing) 2;;
  let '(_, outgoing, s) := OutgoingRequests_complete (id 1) (Response_ok (id 1) VNull) outgoing s in
  assert_eq (OutgoingRequests_pending_count outgoing) 1;;
  let '(_, outgoing, s) := OutgoingRequests_cancel (id 2) outgoing s in
  assert_eq (OutgoingRequests_pending_count outgoing) 0.

Definition outgoing_default : test :=
  let outgoing := OutgoingRequests_default in
  assert_eq (OutgoingRequests_pending_count outgoing) 0.

(** ** The queue *)

Definition queue_new_creates_empty : test :=
  let queue := RequestQueue_new in
  assert_eq (IncomingRequests_pending_count (incoming queue)) 0;;
  assert_eq (OutgoingRequests_pending_count (outgoing queue)) 0.

Definition queue_incoming_outgoing_independent : test :=
  let queue := RequestQueue_new in
  let '(token, _) := token_new no_tokens in
  let queue := {| incoming := IncomingRequests_register (id 1) token (incoming queue);
                  outgoing := outgoing queue |} in
  assert_eq (IncomingRequests_pending_count (incoming queue)) 1;;
  assert_eq (OutgoingRequests_pending_count (outgoing queue)) 0;;
  let '(_rx, o, s) := OutgoingRequests_register (id 2) (outgoing queue) no_channels in
  let queue := {| incoming := incoming queue; outgoing := o |} in
  assert_eq (IncomingRequests_pending_count (incoming queue)) 1;;
  assert_eq (OutgoingRequests_pending_count (outgoing queue)) 1;;
  let '(_, i) := IncomingRequests_complete (id 1) (incoming queue) in
  let queue := {| incoming := i; outgoing := outgoing queue |} in
  assert_eq (IncomingRequests_pending_count (incoming queue)) 0;;
  assert_eq (OutgoingRequests_pending_count (outgoing queue)) 1.

Definition queue_default : test :=
  let queue := RequestQueue_default in
  assert_eq (IncomingRequests_pending_count (incoming queue)) 0;;
  assert_eq (OutgoingRequests_pending_count (outgoing queue)) 0.

Definition queue_with_string_request_id : test :=
  let queue := RequestQueue_new in
  let str_id := RequestId_from_str "abc-123" in
  let '(token, _) := token_new no_tokens in
  let i := IncomingRequests_register str_id token (incoming queue) in
  assert (IncomingRequests_is_pending str_id i);;
  assert (IncomingRequests_complete str_id i).1.

(** ** Cancel parameters *)

Definition parse_cancel_params_integer_id : test :=
  let params := Some (json_macro (VObject [("id", VNumber (Int 42))])) in
  let id := parse_cancel_params params in
  assert_eq id (Some (IdInteger 42)).

Definition parse_cancel_params_string_id : test :=
  let params := Some (json_macro (VObject [("id", VString "request-123")])) in
  let id := parse_cancel_params params in
  assert_eq id (Some (IdString "request-123")).

Definition parse_cancel_params_missing_params : test :=
  let id := parse_cancel_params None in
  assert (is_none id).

Definition parse_cancel_params_missing_id_field : test :=
  let params := Some (json_macro (VObject [("other", VString "field")])) in
  let id := parse_cancel_params params in
  assert (is_none id).

Definition parse_cancel_params_invalid_id_type : test :=
  let params := Some (json_macro (VObject [("id", VBool true)])) in
  let id := parse_cancel_params params in
  assert (is_none id).

Definition parse_cancel_params_null_id : test :=
  let params := Some (json_macro (VObject [("id", VNull)])) in
  let id := parse_cancel_params params in
  assert (is_none id).

Definition tests : list test :=
  [incoming_register_and_complete; incoming_complete_unknown_returns_false; incoming_is_pending;
   incoming_pending_count; incoming_default; incoming_cancel_triggers_token;
   incoming_cancel_unknown_returns_false; incoming_cancel_idempotent;
   incoming_get_token_returns_clone; incoming_get_token_unknown_returns_none;
   incoming_complete_after_cancel; outgoing_register_and_complete;
   outgoing_complete_unknown_returns_false; outgoing_cancel_drops_sender;
   outgoing_cancel_unknown_returns_false; outgoing_is_pending; outgoing_pending_count;
   outgoing_default; queue_new_creates_empty; queue_incoming_outgoing_independent; queue_default;
   queue_with_string_request_id; parse_cancel_params_integer_id; parse_cancel_params_string_id;
   parse_cancel_params_missing_params; parse_cancel_params_missing_id_field;
   parse_cancel_params_invalid_id_type; parse_cancel_params_null_id].

Lemma request_queue_tests_pass : passes_all tests.
Proof. run_tests. Qed.
