(* ===== verification/TestFormatter.v ===== *)
(** * TestFormatter: the unit tests of [examples/formatter_server.rs].

    Strings are sequences of characters; ["\n"] is a newline. *)

From S2P Require Import Prelude RustStd Serde Document Testing.

(** A literal with [^] for its newlines. *)
Definition text (s : string) : str :=
  (λ c, if (c =? N_of_ascii "^")%N then NL else c) <$> lit s.

Definition position (line character : N) : Position := {| line := line; character := character |}.

Definition test_position_to_offset_single_line : test :=
  let content := text "hello world" in
  assert_eq (position_to_offset content (position 0 0)) (Some 0);;
  assert_eq (position_to_offset content (position 0 5)) (Some 5);;
  assert_eq (position_to_offset content (position 0 11)) (Some 11).

Definition test_position_to_offset_multi_line : test :=
  let content := text "line1^line2^line3" in
  assert_eq (position_to_offset content (position 0 0)) (Some 0);;
  assert_eq (position_to_offset content (position 1 0)) (Some 6);;
  assert_eq (position_to_offset content (position 2 0)) (Some 12);;
  assert_eq (position_to_offset content (position 2 5)) (Some 17).

Definition test_position_to_offset_beyond_content : test :=
  let content := text "short" in
  assert_eq (position_to_offset content (position 0 100)) (Some 5);;
  assert_eq (position_to_offset content (position 10 0)) (Some 5).

Definition test_create_uppercase_edit_empty : test :=
  edits ← create_uppercase_edit ascii_uppercase [];
  assert_eq (length edits) 0.

Definition test_create_uppercase_edit_single_line : test :=
  edits ← create_uppercase_edit ascii_uppercase (text "hello world");
  assert_eq (length edits) 1;;
  edit ← edits !! 0;
  assert_eq (new_text edit) (text "HELLO WORLD");;
  assert_eq (line (range_start (edit_range edit))) 0%N;;
  assert_eq (character (range_start (edit_range edit))) 0%N;;
  assert_eq (line (range_end (edit_range edit))) 0%N;;
  assert_eq (character (range_end (edit_range edit))) 11%N.

Definition test_create_uppercase_edit_multi_line : test :=
  edits ← create_uppercase_edit ascii_uppercase (text "line1^line2");
  assert_eq (length edits) 1;;
  edit ← edits !! 0;
  assert_eq (new_text edit) (text "LINE1^LINE2");;
  assert_eq (line (range_end (edit_range edit))) 1%N;;
  assert_eq (character (range_end (edit_range edit))) 5%N.

Definition test_apply_incremental_changes_full_sync : test :=
  let doc := {| content := text "original"; version := 1 |} in
  let changes := [change_new None (text "replaced")] in
  doc ← apply_incremental_changes doc changes;
  assert_eq (content doc) (text "replaced").

Definition test_apply_incremental_changes_partial : test :=
  let doc := {| content := text "hello world"; version := 1 |} in
  let changes := [change_new (Some (range_new (position 0 6) (position 0 11))) (text "rust")] in
  doc ← apply_incremental_changes doc changes;
  assert_eq (content doc) (text "hello rust").

Definition test_apply_incremental_changes_insert : test :=
  let doc := {| content := text "hello"; version := 1 |} in
  let changes := [change_new (Some (range_new (position 0 5) (position 0 5))) (text " world")] in
  doc ← apply_incremental_changes doc changes;
  assert_eq (content doc) (text "hello world").

Definition tests : list test :=
  [test_position_to_offset_single_line; test_position_to_offset_multi_line;
   test_position_to_offset_beyond_content; test_create_uppercase_edit_empty;
   test_create_uppercase_edit_single_line; test_create_uppercase_edit_multi_line;
   test_apply_incremental_changes_full_sync; test_apply_incremental_changes_partial;
   test_apply_incremental_changes_insert].

Lemma formatter_tests_pass : passes_all tests.
Proof. run_tests. Qed.
