(* ===== verification/TestTransport.v ===== *)
(** * TestTransport: the unit tests of [src/transport.rs].

    The two ends of the duplex stream are two [pipe]s: before an end is read, what
    the other one has written is put on its script.  [transport], [send] and [next]
    are those of [Transport] over the [Framed] of [Stream]. *)

From S2P Require Import Prelude RustStd Serde JsonText RequestId Error Message Io Codec Tokio Transport Framing Stream Testing.

Abbreviation id n := (RequestId_from_i32 n).

Abbreviation pipe_transport := (Transport pipe).

Definition duplex (_ : N) : pipe * pipe := (pipe_new [] [], pipe_new [] []).

(** [transport.send(message).await.expect(..)]. *)
Definition send (t : pipe_transport) (m : Message) : option pipe_transport :=
  let '(r, t) := framed_send m t in unwrap r;; Some t.

(** The bytes one end has written reach the other end. *)
Definition flow (from to : pipe_transport) : pipe_transport * pipe_transport :=
  match from : option (framed_state pipe), to : option (framed_state pipe) with
  | Some (framed_state_new c1 src1 io1 eof1), Some (framed_state_new c2 src2 io2 eof2) =>
    (Some (framed_state_new c1 src1 (pipe_new (pipe_input io1) []) eof1),
     Some (framed_state_new c2 src2
       (pipe_new (pipe_input io2 ++ match pipe_output io1 with [] => [] | bs => [Ready (Ok bs)] end)
          (pipe_output io2)) eof2))
  | _, _ => (from, to)
  end.

(** [to.next().await.expect("receive").expect("decode")]. *)
Definition next (from to : pipe_transport) : option (Message * pipe_transport * pipe_transport) :=
  let '(from, to) := flow from to in
  let '(o, to) := framed_poll_next to in
  match o with
  | Ready item => r ← item; m ← unwrap r; Some (m, from, to)
  | Pending => panic
  end.

Definition duplex_request_response_test : test :=
  let '(client, server) := duplex_transport duplex 4096 in
  let request := MRequest (Request_new (id 1) "textDocument/hover"
    (Some (json_macro (VObject [("textDocument", VObject [("uri", VString "file:///test.rs")]);
      ("position", VObject [("line", VNumber (Int 10)); ("character", VNumber (Int 5))])])))) in
  client ← send client request;
  '(received, client, server) ← next client server;
  assert (Message_is_request received);;
  match received with
  | MRequest req => assert_eq (req_method req) "textDocument/hover";; assert_eq (req_id req) (id 1)
  | _ => Some ()
  end;;
  let response := MResponse (Response_ok (id 1)
    (json_macro (VObject [("contents", VString "fn main()")]))) in
  server ← send server response;
  '(received, server, client) ← next server client;
  assert (Message_is_response received);;
  match received with
  | MResponse resp => assert_eq (resp_id resp) (Some (id 1));; assert (is_some (Response_result resp))
  | _ => Some ()
  end.

Definition duplex_notification_test : test :=
  let '(client, server) := duplex_transport duplex 4096 in
  let notification := MNotification (Notification_new "textDocument/didOpen"
    (Some (json_macro (VObject [("textDocument", VObject [("uri", VString "file:///test.rs");
      ("languageId", VString "rust"); ("version", VNumber (Int 1)); ("text", VString "fn main() {}")])])))) in
  client ← send client notification;
  '(received, client, server) ← next client server;
  assert (Message_is_notification received);;
  match received with
  | MNotification notif => assert_eq (notif_method notif) "textDocument/didOpen"
  | _ => Some ()
  end.

(** [if let Message::Request(r) = m { .. } else { panic!("Expected request") }]. *)
Definition expect_request (m : Message) (method : string) (i : RequestId) : test :=
  match m with
  | MRequest r => assert_eq (req_method r) method;; assert_eq (req_id r) i
  | _ => panic
  end.

Definition duplex_multiple_messages_test : test :=
  let '(client, server) := duplex_transport duplex 4096 in
  let msg1 := MRequest (Request_new (id 1) "first" None) in
  let msg2 := MRequest (Request_new (id 2) "second" None) in
  let msg3 := MRequest (Request_new (id 3) "third" None) in
  client ← send client msg1;
  client ← send client msg2;
  client ← send client msg3;
  '(recv1, client, server) ← next client server;
  '(recv2, client, server) ← next client server;
  '(recv3, client, server) ← next client server;
  expect_request recv1 "first" (id 1);;
  expect_request recv2 "second" (id 2);;
  expect_request recv3 "third" (id 3).

(** The two futures of a [join!] run one after the other. *)
Definition duplex_bidirectional_concurrent_test : test :=
  let '(client, server) := duplex_transport duplex 4096 in
  let client_msg := MRequest (Request_new (id 1) "client/message" None) in
  let server_msg := MNotification (Notification_new "server/notification" None) in
  client ← send client client_msg;
  server ← send server server_msg;
  '(from_client, client, server) ← next client server;
  '(from_server, server, client) ← next server client;
  assert (Message_is_request from_client);;
  match from_client with
  | MRequest r => assert_eq (req_method r) "client/message"
  | _ => Some ()
  end;;
  assert (Message_is_notification from_server);;
  match from_server with
  | MNotification n => assert_eq (notif_method n) "server/notification"
  | _ => Some ()
  end.

(** [str::repeat]. *)
Fixpoint str_repeat (n : nat) (s : string) : string :=
  match n with O => "" | S n => s +:+ str_repeat n s end.

Definition large_message_test : test :=
  let '(client, server) := duplex_transport duplex 16384 in
  let large_data := str_repeat (N.to_nat 10000) "x" in
  let request := MRequest (Request_new (id 42) "large/data"
    (Some (json_macro (VObject [("content", VString large_data)])))) in
  client ← send client request;
  '(received, client, server) ← next client server;
  assert (Message_is_request received);;
  match received with
  | MRequest req =>
    assert_eq (req_method req) "large/data";;
    params ← req_params req;
    content ← as_str (index params "content");
    assert_eq (N.of_nat (String.length content)) 10000%N;;
    assert_eq content large_data
  | _ => Some ()
  end.

Definition response_with_error_test : test :=
  let '(client, server) := duplex_transport duplex 4096 in
  let request := MRequest (Request_new (id 1) "unknown/method" None) in
  client ← send client request;
  '(_received, client, server) ← next client server;
  let error := ResponseError_new MethodNotFound "Method not found" in
  let response := MResponse (Response_err (id 1) error) in
  server ← send server response;
  '(received, server, client) ← next server client;
  assert (Message_is_response received);;
  match received with
  | MResponse resp =>
    assert_eq (resp_id resp) (Some (id 1));;
    assert (is_some (Response_error resp));;
    err ← Response_into_error resp;
    assert_eq (err_code err) (-32601)%Z;;
    assert_eq (err_message err) "Method not found"
  | _ => Some ()
  end.

Definition tests : list test :=
  [duplex_request_response_test; duplex_notification_test; duplex_multiple_messages_test;
   duplex_bidirectional_concurrent_test; large_message_test; response_with_error_test].

Lemma transport_tests_pass : passes_all tests.
Proof. run_tests. Qed.
