(* ===== verification/Duplex.v ===== *)
(** * Duplex: the vocabulary of the unit tests that run two connections against each
    other over [tokio::io::duplex].

    A test is an action on two peers in the runtime [model_tokio], each with its
    world and the events that have arrived for it, and may panic.  What a peer sends
    stays in its outbound queue until the other one awaits its stream; then it
    crosses as bytes, through the codec.  A spawned task runs up to where it waits,
    and goes on when it is joined. *)

From S2P Require Import Prelude RustStd Serde JsonText RequestId Error Message Io Codec Tokio World RequestQueue Lifecycle Routing ClientSender Connection Schedule Testing.

Inductive side := Client | Server.

Definition other (s : side) : side := match s with Client => Server | Server => Client end.

Record Peer : Type := peer_new {
  peer_conn : Connection (TK := model_tokio);
  peer_world : World (TK := model_tokio);
  peer_inbox : list Event;
}.

Record Duplex : Type := duplex_new { duplex_client : Peer; duplex_server : Peer }.

Definition peer_of (s : side) (d : Duplex) : Peer :=
  match s with Client => duplex_client d | Server => duplex_server d end.

Definition with_peer (s : side) (p : Peer) (d : Duplex) : Duplex :=
  match s with
  | Client => duplex_new p (duplex_server d)
  | Server => duplex_new (duplex_client d) p
  end.

(** ** Actions that may panic *)

Definition T (A : Type) : Type := Duplex → option (A * Duplex).

#[export] Instance T_ret : MRet T := λ A a d, Some (a, d).
#[export] Instance T_bind : MBind T := λ A B f m d, '(a, d') ← m d; f a d'.

Definition lift {A} (o : option A) : T A := λ d, a ← o; Some (a, d).

Definition panic {A} : T A := lift Testing.panic.
Definition assert (b : bool) : T unit := lift (Testing.assert b).
Definition assert_eq `{EqDecision A} (x y : A) : T unit := lift (Testing.assert_eq x y).
Definition assert_ne `{EqDecision A} (x y : A) : T unit := lift (Testing.assert_ne x y).
Definition unwrap {E A} (r : result E A) : T A := lift (Testing.unwrap r).
Definition expect {A} (o : option A) : T A := lift o.

(** ** A peer's connection and world *)

Definition connection (s : side) : T Connection := λ d, Some (peer_conn (peer_of s d), d).

Definition set_connection (s : side) (c : Connection) : T unit := λ d,
  let p := peer_of s d in
  Some ((), with_peer s (peer_new c (peer_world p) (peer_inbox p)) d).

(** An action on the world of a peer, an operation of its connection that changes it,
    and one that does not. *)
Definition run {A} (s : side) (m : St A) : T A := λ d,
  let p := peer_of s d in
  let '(a, w) := m (peer_world p) in
  Some (a, with_peer s (peer_new (peer_conn p) w (peer_inbox p)) d).

Definition call {A} (s : side) (f : Connection → St (A * Connection)) : T A :=
  c ← connection s;
  '(a, c) ← run s (f c);
  set_connection s c;;
  mret a.

Definition query {A} (s : side) (f : Connection → St A) : T A :=
  c ← connection s; run s (f c).

Definition get {A} (s : side) (f : Connection → A) : T A := c ← connection s; mret (f c).

(** [request_queue.outgoing] and [request_queue.incoming] of a peer. *)
Definition register_outgoing (s : side) (id : RequestId) : T Channel :=
  call s (λ c, '(rx, o) ← on_channels (λ st,
      let '(rx, o, st) := OutgoingRequests_register id (outgoing (request_queue c)) st in ((rx, o), st));
    mret (rx, with_outgoing o c)).

Definition complete_outgoing (s : side) (id : RequestId) (r : Response) : T bool :=
  call s (λ c, '(b, o) ← on_channels (λ st,
      let '(b, o, st) := OutgoingRequests_complete id r (outgoing (request_queue c)) st in ((b, o), st));
    mret (b, with_outgoing o c)).

Definition outgoing_pending (s : side) (id : RequestId) : T bool :=
  get s (λ c, OutgoingRequests_is_pending id (outgoing (request_queue c))).

Definition register_incoming (s : side) (id : RequestId) (token : Token) : T unit :=
  call s (λ c, mret ((), with_incoming (IncomingRequests_register id token (incoming (request_queue c))) c)).

Definition complete_incoming (s : side) (id : RequestId) : T bool :=
  call s (λ c, let '(b, i) := IncomingRequests_complete id (incoming (request_queue c)) in
    mret (b, with_incoming i c)).

Definition incoming_pending (s : side) (id : RequestId) : T bool :=
  get s (λ c, IncomingRequests_is_pending id (incoming (request_queue c))).

(** [CancellationToken::new], [is_cancelled], and awaiting [cancelled]. *)
Definition new_token (s : side) : T Token := run s (on_tokens token_new).
Definition token_is_cancelled (s : side) (t : Token) : T bool :=
  run s (λ w, (is_cancelled (w_tokens w) t, w)).
Definition cancelled (s : side) (t : Token) : T unit := b ← token_is_cancelled s t; assert b.

(** Awaiting a oneshot receiver, and [try_recv]. *)
Definition await_receiver (s : side) (rx : Channel) : T (result unit Response) :=
  o ← run s (λ w, (oneshot_poll (w_channels w) rx, w));
  match o with Ready r => mret r | Pending => panic end.

Definition try_recv (s : side) (rx : Channel) : T (result unit Response) :=
  o ← run s (λ w, (oneshot_poll (w_channels w) rx, w));
  match o with Ready r => mret r | Pending => mret (Err ()) end.

(** ** The byte streams *)

(** A message from one peer's queue to the other's stream: its frame, decoded. *)
Definition transfer (m : Message) : option Event :=
  bs ← Testing.unwrap (encode m []);
  match decode LspCodec_new bs with
  | step_new (Ok (Some m)) _ _ => Some (Received (Some (Ok m)))
  | step_new (Err e) _ _ => Some (Received (Some (Err e)))
  | _ => None
  end.

(** The drain task of a peer writes all its queue holds, in order. *)
Fixpoint take_all (n : nat) (q : outbound (Tokio := model_tokio)) :
    list Message * outbound (Tokio := model_tokio) :=
  match n, unbounded_recv q with
  | S n, (Some m, q) => let '(ms, q) := take_all n q in (m :: ms, q)
  | _, _ => ([], q)
  end.

Definition arrive (s : side) (events : list Event) : T unit := λ d,
  let p := peer_of s d in
  Some ((), with_peer s (peer_new (peer_conn p) (peer_world p) (peer_inbox p ++ events)) d).

Definition deliver (from : side) : T unit :=
  ms ← run from (on_outbound (λ q, take_all (length (queued q)) q));
  events ← expect (mapM transfer ms);
  arrive (other from) events.

(** [receiver.next().await], and with both its [unwrap]s. *)
Definition pop (s : side) : T (option (result io_error Message)) := λ d,
  let p := peer_of s d in
  match peer_inbox p with
  | Received item :: events => Some (item, with_peer s (peer_new (peer_conn p) (peer_world p) events) d)
  | _ => None
  end.

Definition next (s : side) : T (option (result io_error Message)) := deliver (other s);; pop s.

Definition recv (s : side) : T Message :=
  o ← next s; r ← expect o; unwrap r.

(** [tokio::time::advance] past the deadline a peer waits with. *)
Definition advance (s : side) : T unit := deliver (other s);; arrive s [Elapsed].

(** A peer is dropped: the stream of the other one ends, ... *)
Definition drop_peer (s : side) : T unit := deliver s;; arrive (other s) [Received None].

(** ... and its drain task, when it next has a message to write, fails and stops. *)
Definition drain_fails (s : side) : T unit :=
  c ← connection s;
  run s (on_outbound unbounded_recv);;
  run s (on_tokens (λ st, ((), token_cancel (conn_drain_alive c) st)));;
  run s (on_outbound (λ q, ((), receiver_drop q))).

(** ** Tasks that await a connection's stream *)

Definition awaiting (R : Type) : Type :=
  Connection (TK := model_tokio) → list Event →
  St (TK := model_tokio) (poll R * Connection (TK := model_tokio) * list Event).

(** Its start, and how it goes on after it waited. *)
Record task (R : Type) : Type := task_new { task_start : awaiting R; task_resume : awaiting R }.
Arguments task_new {R} task_start task_resume.
Arguments task_start {R} t.
Arguments task_resume {R} t.

Inductive handle (R : Type) : Type := Done (r : R) | Blocked (resume : awaiting R).
Arguments Done {R} r.
Arguments Blocked {R} resume.

(** Runs it on the events that have arrived, and puts back those it leaves. *)
Definition poll_task {R} (s : side) (f : awaiting R) : T (poll R) :=
  deliver (other s);;
  (λ d, let p := peer_of s d in
        let '((r, c, events), w) := f (peer_conn p) (peer_inbox p) (peer_world p) in
        Some (r, with_peer s (peer_new c w events) d)) : T (poll R).

Definition spawn {R} (s : side) (t : task R) : T (handle R) :=
  o ← poll_task s (task_start t);
  mret match o with Ready r => Done r | Pending => Blocked (task_resume t) end.

Definition join {R} (s : side) (h : handle R) : T R :=
  match h with
  | Done r => mret r
  | Blocked resume => o ← poll_task s resume; match o with Ready r => mret r | Pending => panic end
  end.

Definition await {R} (s : side) (t : task R) : T R := h ← spawn s t; join s h.

Definition initialize_start_task := task_new initialize_start initialize_start.

Definition initialize_finish_task (id : RequestId) (result : Value) :=
  task_new (λ c, initialize_finish c id result)
    (timeout_loop (Err InitializeTimeout) initialize_finish_step).

Definition send_request_task (id : RequestId) (method : string) (params : option Value) :=
  task_new (λ c, send_request c id method params) (timeout_loop (Err RequestTimeout) (send_request_step id)).

(** ** Tasks that await a request of a client sender

    In both orders the [select!] may poll its branches. *)

Abbreviation request_state := (RequestFuture (TK := model_tokio) * poll (result ProtocolError Response))%type.

(** The task is spawned and runs up to its [select!]; it is joined when it is woken. *)
Definition spawn_request (s : side) (sender : ClientSender) (rx_first : bool) (method : string)
    (params : option Value) : T request_state :=
  run s (request_poll sender rx_first (ClientSender.request method params)).

Definition join_request (s : side) (sender : ClientSender) (rx_first : bool) (h : request_state) :
    T (result ProtocolError Response) :=
  match h with
  | (_, Ready r) => mret r
  | (fut, Pending) =>
    '(_, o) ← run s (request_poll sender rx_first fut);
    match o with Ready r => mret r | Pending => panic end
  end.

(** [request_timeout], spawned before its deadline and joined after it. *)
Definition spawn_request_timeout (s : side) (sender : ClientSender) (rx_first : bool) (method : string)
    (params : option Value) : T request_state :=
  run s (request_timeout_poll sender rx_first false (ClientSender.request method params)).

Definition join_request_timeout (s : side) (sender : ClientSender) (rx_first : bool) (h : request_state) :
    T (result ProtocolError Response) :=
  match h with
  | (_, Ready r) => mret r
  | (fut, Pending) =>
    '(_, o) ← run s (request_timeout_poll sender rx_first true fut);
    match o with Ready r => mret r | Pending => panic end
  end.

(** [task.abort()]: its future is dropped. *)
Definition abort_request (s : side) (h : request_state) : T unit := run s (request_drop h.1).

(** ** Tests *)

(** [let (client_stream, server_stream) = tokio::io::duplex(4096)] and a connection
    on each, or one on a stream whose other end is dropped. *)
Definition new_peer : Peer :=
  let '(c, w) := Connection_new (TK := model_tokio) empty_world in peer_new c w [].

Definition run_test (t : T unit) : test := fst <$> t (duplex_new new_peer new_peer).

(** [client.send(message).unwrap()]. *)
Definition send_message (s : side) (m : Message) : T unit :=
  r ← query s (λ c, send c m); unwrap r;; mret ().
