(* ===== verification/TestConnection.v ===== *)
(** * TestConnection: the unit tests of [src/connection.rs], in the vocabulary of
    [Duplex].

    A test that drops one end of its stream at once uses one peer only.  A task that
    waits for a token is awaited where it is joined. *)

From S2P Require Import Prelude RustStd Serde JsonText RequestId Error Message Io Codec Tokio World RequestQueue Lifecycle Routing ClientSender Connection Transport Stream Stdio Testing Duplex.

Abbreviation id n := (RequestId_from_i32 n).

(** [Message::Request(Request::new(..))] and the like. *)
Abbreviation request i method params := (MRequest (Request_new i method params)).
Abbreviation notification method params := (MNotification (Notification_new method params)).
Abbreviation ok_response i v := (MResponse (Response_ok i v)).

(** ** Connections and their streams *)

Definition connection_from_duplex_test : test := run_test (
  let request := request (id 1) "test" None in
  send_message Client request;;
  received ← recv Server;
  assert (Message_is_request received);;
  match received with
  | MRequest req => assert_eq (req_method req) "test";; assert_eq (req_id req) (id 1)
  | _ => panic
  end).

Definition connection_bidirectional_test : test := run_test (
  let request := request (id 1) "textDocument/hover"
    (Some (json_macro (VObject [("textDocument", VObject [("uri", VString "file:///test.rs")]);
      ("position", VObject [("line", VNumber (Int 10)); ("character", VNumber (Int 5))])]))) in
  send_message Client request;;
  received ← recv Server;
  assert (Message_is_request received);;
  let response := ok_response (id 1) (json_macro (VObject [("contents", VString "fn main()")])) in
  send_message Server response;;
  received ← recv Client;
  assert (Message_is_response received);;
  match received with
  | MResponse resp => assert_eq (resp_id resp) (Some (id 1));; assert (is_some (Response_result resp))
  | _ => panic
  end).

(** A connection is made from a transport as from a stream. *)
Definition connection_from_transport_test : test := run_test (
  c ← run Client from_transport; set_connection Client c;;
  s ← run Server from_transport; set_connection Server s;;
  let request := request (id 42) "test" None in
  send_message Client request;;
  received ← recv Server;
  assert (Message_is_request received);;
  match received with
  | MRequest req => assert_eq (req_id req) (id 42)
  | _ => mret ()
  end).

(** [if let Message::Request(r) = m { .. } else { panic!("Expected request") }]. *)
Definition expect_request (m : Message) (method : string) (i : RequestId) : T unit :=
  match m with
  | MRequest r => assert_eq (req_method r) method;; assert_eq (req_id r) i
  | _ => panic
  end.

Definition connection_multiple_messages_test : test := run_test (
  let msg1 := request (id 1) "first" None in
  let msg2 := request (id 2) "second" None in
  let msg3 := request (id 3) "third" None in
  send_message Client msg1;;
  send_message Client msg2;;
  send_message Client msg3;;
  recv1 ← recv Server;
  recv2 ← recv Server;
  recv3 ← recv Server;
  expect_request recv1 "first" (id 1);;
  expect_request recv2 "second" (id 2);;
  expect_request recv3 "third" (id 3)).

Definition sender_receiver_independent_test : test := run_test (
  send_message Client (request (id 1) "test" None);;
  recv_result ← recv Server;
  assert (Message_is_request recv_result)).

(** ** The request queue of a connection *)

Definition connection_has_request_queue_test : test := run_test (
  token ← new_token Client;
  register_incoming Client (id 1) token;;
  b ← incoming_pending Client (id 1); assert b;;
  b ← complete_incoming Client (id 1); assert b).

Definition connection_with_request_queue_test : test := run_test (
  let queue := RequestQueue_new in
  token ← new_token Client;
  let queue := {| incoming := IncomingRequests_register (id 42) token (incoming queue);
                  outgoing := outgoing queue |} in
  conn ← run Client (with_request_queue queue);
  assert (IncomingRequests_is_pending (id 42) (incoming (request_queue conn)))).

Definition connection_outgoing_request_queue_test : test := run_test (
  rx ← register_outgoing Client (id 1);
  b ← outgoing_pending Client (id 1); assert b;;
  completed ← complete_outgoing Client (id 1) (Response_ok (id 1) (json_macro (VString "response data")));
  assert completed;;
  r ← await_receiver Client rx;
  response ← unwrap r;
  assert_eq (resp_id response) (Some (id 1));;
  assert_eq (Response_result response) (Some (json_macro (VString "response data")))).

(** ** Lifecycle *)

Definition test_initialize_handshake : test := run_test (
  let init_params := json_macro (VObject [("processId", VNumber (Int 1234)); ("capabilities", VObject [])]) in
  let init_request := request (id 1) "initialize" (Some init_params) in
  send_message Client init_request;;
  r ← await Server initialize_start_task;
  '(i, params) ← unwrap r;
  assert_eq i (id 1);;
  assert_eq (index params "processId") (VNumber (Int 1234));;
  st ← get Server lifecycle_state_of; assert_eq st Initializing;;
  let result := json_macro (VObject [("capabilities", VObject [("textDocumentSync", VNumber (Int 1))])]) in
  server_task ← spawn Server (initialize_finish_task i result);
  response ← recv Client;
  assert (Message_is_response response);;
  match response with
  | MResponse resp =>
    assert_eq (resp_id resp) (Some (id 1));;
    assert (is_some (Response_result resp));;
    result ← expect (Response_into_result resp);
    assert_eq (index (index result "capabilities") "textDocumentSync") (VNumber (Int 1))
  | _ => mret ()
  end;;
  let initialized := notification "initialized" None in
  send_message Client initialized;;
  r ← join Server server_task;
  unwrap r;;
  b ← get Server is_running; assert b;;
  st ← get Server lifecycle_state_of; assert_eq st Running).

Definition test_initialize_rejects_non_init_requests : test := run_test (
  let hover_request := request (id 1) "textDocument/hover" None in
  send_message Client hover_request;;
  server_task ← spawn Server initialize_start_task;
  response ← recv Client;
  assert (Message_is_response response);;
  match response with
  | MResponse resp =>
    assert_eq (resp_id resp) (Some (id 1));;
    assert (is_some (Response_error resp));;
    error ← expect (Response_into_error resp);
    assert_eq (err_code error) (ErrorCode_to_i32 ServerNotInitialized)
  | _ => mret ()
  end;;
  let init_request := request (id 2) "initialize" None in
  send_message Client init_request;;
  r ← join Server server_task;
  unwrap r;;
  st ← get Server lifecycle_state_of; assert_eq st Initializing).

(** [json!({"capabilities": {}})]. *)
Abbreviation no_capabilities := (json_macro (VObject [("capabilities", VObject [])])).

Definition test_initialize_finish_times_out_without_initialized : test := run_test (
  send_message Client (request (id 1) "initialize" None);;
  r ← await Server initialize_start_task;
  '(i, _params) ← unwrap r;
  server_task ← spawn Server (initialize_finish_task i no_capabilities);
  response ← recv Client;
  assert (Message_is_response response);;
  advance Server;;
  result ← join Server server_task;
  assert (match result with Err InitializeTimeout => true | _ => false end)).

Definition test_initialize_drops_notifications : test := run_test (
  let random_notif := notification "textDocument/didOpen" None in
  send_message Client random_notif;;
  let init_request := request (id 1) "initialize" None in
  send_message Client init_request;;
  r ← await Server initialize_start_task;
  '(i, _params) ← unwrap r;
  assert_eq i (id 1);;
  st ← get Server lifecycle_state_of; assert_eq st Initializing).

Definition test_exit_during_init_disconnects : test := run_test (
  let exit_notif := notification "exit" None in
  send_message Client exit_notif;;
  result ← await Server initialize_start_task;
  assert (match result with Err Disconnected => true | _ => false end)).

Definition test_shutdown_then_exit : test := run_test (
  let init_request := request (id 1) "initialize" None in
  send_message Client init_request;;
  r ← await Server initialize_start_task;
  '(i, _params) ← unwrap r;
  server_task ← spawn Server (initialize_finish_task i no_capabilities);
  _ ← next Client;
  let initialized := notification "initialized" None in
  send_message Client initialized;;
  r ← join Server server_task;
  unwrap r;;
  b ← get Server is_running; assert b;;
  let shutdown_request := request (id 2) "shutdown" None in
  send_message Client shutdown_request;;
  msg ← recv Server;
  match msg with
  | MRequest req =>
    assert_eq (req_method req) "shutdown";;
    r ← call Server (λ c, handle_shutdown c (req_id req));
    unwrap r
  | _ => panic
  end;;
  b ← get Server is_shutting_down; assert b;;
  token ← get Server shutdown_token_of;
  b ← token_is_cancelled Server token; assert b;;
  response ← recv Client;
  match response with
  | MResponse resp =>
    assert_eq (resp_id resp) (Some (id 2));; assert_eq (Response_result resp) (Some VNull)
  | _ => mret ()
  end;;
  exit_code ← call Server (λ c, mret (handle_exit c));
  assert_eq exit_code ExitSuccess;;
  st ← get Server lifecycle_state_of; assert_eq st Exited).

Definition test_exit_without_shutdown : test := run_test (
  let init_request := request (id 1) "initialize" None in
  send_message Client init_request;;
  r ← await Server initialize_start_task;
  '(i, _params) ← unwrap r;
  server_task ← spawn Server (initialize_finish_task i no_capabilities);
  _ ← next Client;
  let initialized := notification "initialized" None in
  send_message Client initialized;;
  r ← join Server server_task;
  unwrap r;;
  b ← get Server is_running; assert b;;
  exit_code ← call Server (λ c, mret (handle_exit c));
  assert_eq exit_code ExitError;;
  st ← get Server lifecycle_state_of; assert_eq st Exited).

Definition test_on_shutdown_future : test := run_test (
  let init_request := request (id 1) "initialize" None in
  send_message Client init_request;;
  r ← await Server initialize_start_task;
  '(i, _params) ← unwrap r;
  server_task ← spawn Server (initialize_finish_task i no_capabilities);
  _ ← next Client;
  let initialized := notification "initialized" None in
  send_message Client initialized;;
  r ← join Server server_task;
  unwrap r;;
  token ← get Server shutdown_token_of;
  let shutdown_request := request (id 2) "shutdown" None in
  send_message Client shutdown_request;;
  msg ← recv Server;
  match msg with
  | MRequest req => r ← call Server (λ c, handle_shutdown c (req_id req)); unwrap r
  | _ => mret ()
  end;;
  cancelled Server token).

(** ** Routing *)

Definition route_request_returns_incoming_request : test := run_test (
  let request := Request_new (id 42) "textDocument/hover"
    (Some (json_macro (VObject [("line", VNumber (Int 10))]))) in
  let message := MRequest request in
  result ← call Client (λ c, route c message);
  match result with
  | InRequest req token =>
    assert_eq (req_id req) (id 42);;
    assert_eq (req_method req) "textDocument/hover";;
    b ← token_is_cancelled Client token; assert (negb b);;
    b ← incoming_pending Client (id 42); assert b
  | _ => panic
  end).

Definition route_notification_returns_incoming_notification : test := run_test (
  let notification := Notification_new "textDocument/didOpen"
    (Some (json_macro (VObject [("uri", VString "file:///test.rs")]))) in
  let message := MNotification notification in
  result ← call Client (λ c, route c message);
  match result with
  | InNotification notif => assert_eq (notif_method notif) "textDocument/didOpen"
  | _ => panic
  end).

Definition route_response_to_pending_outgoing_request : test := run_test (
  rx ← register_outgoing Client (id 42);
  let response := Response_ok (id 42) (json_macro (VObject [("result", VString "success")])) in
  let message := MResponse response in
  result ← call Client (λ c, route c message);
  assert (IncomingMessage_is_response_routed result);;
  r ← await_receiver Client rx;
  received ← unwrap r;
  assert_eq (resp_id received) (Some (id 42));;
  assert (is_some (Response_result received));;
  result ← expect (Response_into_result received);
  assert_eq (index result "result") (VString "success")).

Definition route_response_for_unknown_id_returns_response_unknown : test := run_test (
  let response := Response_ok (id 999) (json_macro (VObject [("unexpected", VBool true)])) in
  let message := MResponse response in
  result ← call Client (λ c, route c message);
  match result with
  | ResponseUnknown resp => assert_eq (resp_id resp) (Some (id 999))
  | _ => panic
  end).

Definition route_response_with_null_id_returns_response_unknown : test := run_test (
  let response := Response_parse_error (ResponseError_new ParseError "Parse error") in
  let message := MResponse response in
  result ← call Client (λ c, route c message);
  match result with
  | ResponseUnknown resp => assert (is_none (resp_id resp));; assert (is_some (Response_error resp))
  | _ => panic
  end).

Definition route_response_with_string_id : test := run_test (
  rx ← register_outgoing Client (RequestId_from_str "request-abc");
  let response := Response_ok (RequestId_from_str "request-abc") (json_macro VNull) in
  let message := MResponse response in
  result ← call Client (λ c, route c message);
  assert (IncomingMessage_is_response_routed result);;
  r ← await_receiver Client rx;
  received ← unwrap r;
  assert_eq (resp_id received) (Some (IdString "request-abc"))).

Definition route_multiple_responses_to_different_requests : test := run_test (
  rx1 ← register_outgoing Client (id 1);
  rx2 ← register_outgoing Client (id 2);
  rx3 ← register_outgoing Client (id 3);
  result2 ← call Client (λ c, route c (ok_response (id 2) (json_macro (VString "second"))));
  assert (IncomingMessage_is_response_routed result2);;
  result1 ← call Client (λ c, route c (ok_response (id 1) (json_macro (VString "first"))));
  assert (IncomingMessage_is_response_routed result1);;
  result3 ← call Client (λ c, route c (ok_response (id 3) (json_macro (VString "third"))));
  assert (IncomingMessage_is_response_routed result3);;
  r ← await_receiver Client rx1;
  resp1 ← unwrap r;
  assert_eq (Response_into_result resp1) (Some (json_macro (VString "first")));;
  r ← await_receiver Client rx2;
  resp2 ← unwrap r;
  assert_eq (Response_into_result resp2) (Some (json_macro (VString "second")));;
  r ← await_receiver Client rx3;
  resp3 ← unwrap r;
  assert_eq (Response_into_result resp3) (Some (json_macro (VString "third")))).

Definition route_error_response_to_pending_request : test := run_test (
  _rx ← register_outgoing Client (id 42);
  let response := Response_err (id 42) (ResponseError_new MethodNotFound "Not found") in
  let message := MResponse response in
  result ← call Client (λ c, route c message);
  assert (IncomingMessage_is_response_routed result)).

(** ** Cancellation *)

(** [let IncomingMessage::Request(_, token) = conn.route(..) else { panic!(..) }]. *)
Definition route_token (r : Request) : T Token :=
  result ← call Client (λ c, route c (MRequest r));
  match result with InRequest _ token => mret token | _ => panic end.

(** [json!({"id": n})]. *)
Abbreviation cancel_of n := (json_macro (VObject [("id", VNumber (Int n))])).

Definition handle_cancel_request_cancels_pending : test := run_test (
  token ← route_token (Request_new (id 42) "test" None);
  b ← token_is_cancelled Client token; assert (negb b);;
  let cancel_notif := Notification_new "$/cancelRequest" (Some (cancel_of 42)) in
  result ← query Client (λ c, handle_cancel_request c cancel_notif);
  assert_eq result (Some true);;
  b ← token_is_cancelled Client token; assert b).

Definition handle_cancel_request_unknown_id_returns_false : test := run_test (
  let cancel_notif := Notification_new "$/cancelRequest" (Some (cancel_of 999)) in
  result ← query Client (λ c, handle_cancel_request c cancel_notif);
  assert_eq result (Some false)).

Definition handle_cancel_request_wrong_method_returns_none : test := run_test (
  let other_notif := Notification_new "textDocument/didOpen"
    (Some (json_macro (VObject [("uri", VString "file:///test.rs")]))) in
  result ← query Client (λ c, handle_cancel_request c other_notif);
  assert_eq result None).

Definition handle_cancel_request_malformed_params_returns_none : test := run_test (
  let cancel_notif := Notification_new "$/cancelRequest"
    (Some (json_macro (VObject [("other", VString "field")]))) in
  result ← query Client (λ c, handle_cancel_request c cancel_notif);
  assert_eq result None).

Definition route_cancel_request_returns_cancel_handled_and_cancels_pending : test := run_test (
  token ← route_token (Request_new (id 42) "test" None);
  b ← token_is_cancelled Client token; assert (negb b);;
  let cancel := Notification_new "$/cancelRequest" (Some (cancel_of 42)) in
  result ← call Client (λ c, route c (MNotification cancel));
  assert (IncomingMessage_is_cancel_handled result);;
  b ← token_is_cancelled Client token; assert b).

Definition route_cancel_request_unknown_id_still_returns_cancel_handled : test := run_test (
  let cancel := Notification_new "$/cancelRequest" (Some (cancel_of 99)) in
  result ← call Client (λ c, route c (MNotification cancel));
  assert (IncomingMessage_is_cancel_handled result)).

Definition route_regular_notification_not_affected : test := run_test (
  let notif := Notification_new "textDocument/didOpen" None in
  result ← call Client (λ c, route c (MNotification notif));
  assert (IncomingMessage_is_notification result)).

Definition cancellation_propagates_to_spawned_handler : test := run_test (
  token ← route_token (Request_new (id 1) "test" None);
  _ ← query Client (λ c, on_tokens (IncomingRequests_cancel (id 1) (incoming (request_queue c))));
  cancelled Client token).

Definition route_request_auto_registers_and_cancellation_works : test := run_test (
  token ← route_token (Request_new (id 42) "test" None);
  b ← token_is_cancelled Client token; assert (negb b);;
  was_cancelled ← query Client (λ c, cancel_incoming c (id 42));
  assert was_cancelled;;
  b ← token_is_cancelled Client token; assert b).

(** [rx.await.is_err()]. *)
Definition receiver_errs (rx : Channel) : T unit :=
  r ← await_receiver Client rx; assert (is_err r).

Definition test_cancel_outgoing_request : test := run_test (
  rx ← register_outgoing Client (id 42);
  r ← call Client (λ c, cancel c (id 42));
  was_pending ← unwrap r;
  assert was_pending;;
  b ← outgoing_pending Client (id 42); assert (negb b);;
  msg ← recv Server;
  assert (Message_is_notification msg);;
  match msg with
  | MNotification notif =>
    assert_eq (notif_method notif) "$/cancelRequest";;
    params ← expect (notif_params notif);
    assert_eq (index params "id") (VNumber (Int 42))
  | _ => panic
  end;;
  receiver_errs rx).

Definition test_cancel_unknown_outgoing_request : test := run_test (
  r ← call Client (λ c, cancel c (id 999));
  was_pending ← unwrap r;
  assert (negb was_pending)).

Definition test_cancel_with_string_id : test := run_test (
  rx ← register_outgoing Client (RequestId_from_str "req-abc");
  r ← call Client (λ c, cancel c (RequestId_from_str "req-abc"));
  was_pending ← unwrap r;
  assert was_pending;;
  msg ← recv Server;
  match msg with
  | MNotification notif =>
    params ← expect (notif_params notif);
    assert_eq (index params "id") (VString "req-abc")
  | _ => panic
  end;;
  receiver_errs rx).

(** ** Standard input and output

    Two pipes stand for tokio's streams. *)

Definition no_pipe : pipe := pipe_new [] [].

Definition stdio_transport_constructible : test :=
  let _transport := StdioTransport_new no_pipe no_pipe in
  let _transport_default := StdioTransport_default no_pipe no_pipe in
  Some ().

Definition stdio_connection_alias_constructs : test := run_test (
  '(conn, _) ← run Client (Connection_stdio no_pipe no_pipe);
  assert_eq (lifecycle_state_of conn) Uninitialized;;
  assert (negb (IncomingRequests_is_pending (id 1) (incoming (request_queue conn))));;
  assert (negb (OutgoingRequests_is_pending (id 1) (outgoing (request_queue conn))))).

(** ** Requests on the connection itself *)

Definition test_send_request_happy_path : test := run_test (
  server_task ← spawn Server (send_request_task (id 1) "client/registerCapability"
    (Some (json_macro (VObject [("registrations", VArray [])]))));
  msg ← recv Client;
  assert (Message_is_request msg);;
  match msg with
  | MRequest req =>
    assert_eq (req_method req) "client/registerCapability";;
    let response := ok_response (req_id req) (json_macro VNull) in
    send_message Client response
  | _ => mret ()
  end;;
  r ← join Server server_task;
  result ← unwrap r;
  assert_eq (resp_id result) (Some (id 1));;
  assert_eq (Response_result result) (Some (json_macro VNull))).

Definition test_send_request_timeout : test := run_test (
  server_task ← spawn Server (send_request_task (id 1) "client/registerCapability" None);
  advance Server;;
  result ← join Server server_task;
  assert (match result with Err RequestTimeout => true | _ => false end)).

Definition test_send_request_disconnect : test := run_test (
  drop_peer Client;;
  result ← await Server (send_request_task (id 1) "test" None);
  assert (match result with Err Disconnected | Err (ProtocolIo _) => true | _ => false end)).

Definition test_send_request_discards_non_matching_messages : test := run_test (
  server_task ← spawn Server (send_request_task (id 42) "test/method" None);
  msg ← recv Client;
  assert (Message_is_request msg);;
  send_message Client (notification "textDocument/didOpen" None);;
  send_message Client (ok_response (id 999) (json_macro (VString "wrong")));;
  send_message Client (ok_response (id 42) (json_macro (VString "correct")));;
  r ← join Server server_task;
  result ← unwrap r;
  assert_eq (resp_id result) (Some (id 42));;
  assert_eq (Response_result result) (Some (json_macro (VString "correct")))).

Definition test_send_request_with_error_response : test := run_test (
  server_task ← spawn Server (send_request_task (id 1) "test" None);
  msg ← recv Client;
  match msg with
  | MRequest req =>
    let error_resp := MResponse (Response_err (req_id req)
      (ResponseError_new MethodNotFound "Not supported")) in
    send_message Client error_resp
  | _ => mret ()
  end;;
  r ← join Server server_task;
  result ← unwrap r;
  assert_eq (resp_id result) (Some (id 1));;
  assert (is_some (Response_error result));;
  error ← expect (Response_into_error result);
  assert_eq (err_code error) (ErrorCode_to_i32 MethodNotFound)).

Definition test_send_request_with_string_id : test := run_test (
  server_task ← spawn Server (send_request_task (RequestId_from_str "req-abc") "test" None);
  msg ← recv Client;
  match msg with
  | MRequest req =>
    assert_eq (req_id req) (IdString "req-abc");;
    send_message Client (ok_response (RequestId_from_str "req-abc") (json_macro (VString "ok")))
  | _ => mret ()
  end;;
  r ← join Server server_task;
  result ← unwrap r;
  assert_eq (resp_id result) (Some (IdString "req-abc"))).

(** ** Client senders *)

Definition client_sender_messages_arrive_on_receiver : test := run_test (
  sender ← call Server client_sender;
  r ← run Server (notify sender "window/logMessage"
    (Some (json_macro (VObject [("type", VNumber (Int 3)); ("message", VString "hello")]))));
  unwrap r;;
  msg ← recv Client;
  assert (Message_is_notification msg);;
  match msg with
  | MNotification notif =>
    assert_eq (notif_method notif) "window/logMessage";;
    params ← expect (notif_params notif);
    assert_eq (index params "message") (VString "hello")
  | _ => mret ()
  end).

Definition client_sender_request_routed_through_response_map (rx_first : bool) : test := run_test (
  sender ← call Server client_sender;
  let sender_clone := sender in
  req_task ← spawn_request Server sender_clone rx_first "client/registerCapability"
    (Some (json_macro (VObject [("registrations", VArray [])])));
  msg ← recv Client;
  i ← match msg with
      | MRequest req =>
        assert_eq (req_method req) "client/registerCapability";; mret (req_id req)
      | _ => panic
      end;
  send_message Client (ok_response i (json_macro VNull));;
  resp_msg ← recv Server;
  routed ← call Server (λ c, route c resp_msg);
  assert (IncomingMessage_is_response_routed routed);;
  r ← join_request Server sender_clone rx_first req_task;
  result ← unwrap r;
  assert_eq (resp_id result) (Some i)).

Definition route_prefers_response_map_over_outgoing_queue (rx_first : bool) : test := run_test (
  sender ← call Server client_sender;
  outgoing_rx ← register_outgoing Server (id 1);
  let sender_clone := sender in
  req_task ← spawn_request Server sender_clone rx_first "test" None;
  let response := Response_ok (id 1) (json_macro (VString "via-response-map")) in
  result ← call Server (λ c, route c (MResponse response));
  assert (IncomingMessage_is_response_routed result);;
  r ← join_request Server sender_clone rx_first req_task;
  resp ← unwrap r;
  assert_eq (Response_result resp) (Some (json_macro (VString "via-response-map")));;
  r ← try_recv Server outgoing_rx;
  assert (is_err r)).

Definition send_works_before_and_after_client_sender : test := run_test (
  send_message Server (notification "test/before" None);;
  msg ← recv Client;
  match msg with
  | MNotification notif => assert_eq (notif_method notif) "test/before"
  | _ => mret ()
  end).

Definition client_sender_can_be_called_multiple_times : test := run_test (
  _sender1 ← call Client client_sender;
  _sender2 ← call Client client_sender;
  mret ()).

Definition send_works_after_client_sender : test := run_test (
  _sender ← call Server client_sender;
  send_message Server (notification "test/ping" None);;
  msg ← recv Client;
  assert (Message_is_notification msg);;
  match msg with
  | MNotification notif => assert_eq (notif_method notif) "test/ping"
  | _ => mret ()
  end).

Definition tests (rx_first : bool) : list test :=
  [connection_from_duplex_test; connection_bidirectional_test; connection_from_transport_test;
   connection_multiple_messages_test; sender_receiver_independent_test;
   connection_has_request_queue_test; connection_with_request_queue_test;
   connection_outgoing_request_queue_test; test_initialize_handshake;
   test_initialize_rejects_non_init_requests;
   test_initialize_finish_times_out_without_initialized; test_initialize_drops_notifications;
   test_exit_during_init_disconnects; test_shutdown_then_exit; test_exit_without_shutdown;
   test_on_shutdown_future; route_request_returns_incoming_request;
   route_notification_returns_incoming_notification; route_response_to_pending_outgoing_request;
   route_response_for_unknown_id_returns_response_unknown;
   route_response_with_null_id_returns_response_unknown; route_response_with_string_id;
   route_multiple_responses_to_different_requests; route_error_response_to_pending_request;
   handle_cancel_request_cancels_pending; handle_cancel_request_unknown_id_returns_false;
   handle_cancel_request_wrong_method_returns_none;
   handle_cancel_request_malformed_params_returns_none;
   route_cancel_request_returns_cancel_handled_and_cancels_pending;
   route_cancel_request_unknown_id_still_returns_cancel_handled;
   route_regular_notification_not_affected; cancellation_propagates_to_spawned_handler;
   route_request_auto_registers_and_cancellation_works; test_cancel_outgoing_request;
   test_cancel_unknown_outgoing_request; test_cancel_with_string_id;
   stdio_transport_constructible; stdio_connection_alias_constructs;
   test_send_request_happy_path; test_send_request_timeout; test_send_request_disconnect;
   test_send_request_discards_non_matching_messages; test_send_request_with_error_response;
   test_send_request_with_string_id; client_sender_messages_arrive_on_receiver;
   client_sender_request_routed_through_response_map rx_first;
   route_prefers_response_map_over_outgoing_queue rx_first;
   send_works_before_and_after_client_sender; client_sender_can_be_called_multiple_times;
   send_works_after_client_sender].

Lemma connection_tests_pass rx_first : passes_all (tests rx_first).
Proof. destruct rx_first; run_tests. Qed.
