(* ===== verification/TestClientSender.v ===== *)
(** * TestClientSender: the unit tests of [src/client_sender.rs], in the vocabulary of
    [Duplex], for both orders of the branches of a [select!].

    Of the tests, [client_sender_is_clone_send_sync] is about Rust's marker traits
    and has no counterpart. *)

From S2P Require Import Prelude RustStd Serde JsonText RequestId Error Message Io Codec Tokio World RequestQueue Lifecycle Routing ClientSender Connection Testing Duplex.

Abbreviation id n := (RequestId_from_i32 n).

(** ** The functions of the crate that exist for its tests only *)

Section test_functions.
Context `{TK : Tokio}.

Definition ResponseMap_register (self : ResponseMap) (id : RequestId) : St Channel :=
  c ← on_channels oneshot_channel;
  pending ← get_map (rm_pending self);
  set_map (rm_pending self) (<[id := c]> pending);;
  on_channels (λ s, ((), drop_old (pending !! id) s));;
  mret c.

(** [send_request_with_id] up to its [select!]. *)
Definition send_request_with_id (self : ClientSender) (id : RequestId) (method : string)
    (params : option Value) : St (RequestFuture * poll (result ProtocolError Response)) :=
  rx ← ResponseMap_register (response_map self) id;
  send_registered_request self id method params rx.
End test_functions.

(** ** The tests *)

(** [match m { Message::Request(request) => .., other => panic!(..) }]. *)
Definition received_request : T Request :=
  m ← recv Client; match m with MRequest request => mret request | _ => panic end.

(** [server.route(Message::Response(..))], and its assertion. *)
Definition route_reply (r : Response) : T IncomingMessage := call Server (λ c, route c (MResponse r)).
Definition assert_routed (r : Response) : T unit :=
  routed ← route_reply r; assert (IncomingMessage_is_response_routed routed).

Definition client_sender_notify_sends_notification : test := run_test (
  sender ← call Server client_sender;
  r ← run Server (notify sender "window/logMessage" (Some (json_macro (VObject [("type", VNumber (Int 4))]))));
  unwrap r;;
  m ← recv Client;
  match m with
  | MNotification notification =>
    assert_eq (notif_method notification) "window/logMessage";;
    assert_eq (notif_params notification) (Some (json_macro (VObject [("type", VNumber (Int 4))])))
  | _ => panic
  end).

Definition client_sender_respond_sends_response : test := run_test (
  sender ← call Server client_sender;
  r ← run Server (respond sender (Response_ok (id 7) (json_macro (VString "ok"))));
  unwrap r;;
  m ← recv Client;
  match m with
  | MResponse response =>
    assert_eq (resp_id response) (Some (id 7));;
    assert_eq (Response_result response) (Some (json_macro (VString "ok")))
  | _ => panic
  end).

Definition client_sender_request_auto_id (rx_first : bool) : test := run_test (
  sender ← call Server client_sender;
  let first_sender := sender in
  first_task ← spawn_request Server first_sender rx_first "first" None;
  request ← received_request;
  assert_eq (req_method request) "first";;
  let first_id := req_id request in
  assert_eq first_id (IdInteger 1);;
  let second_sender := sender in
  second_task ← spawn_request Server second_sender rx_first "second" None;
  request ← received_request;
  assert_eq (req_method request) "second";;
  let second_id := req_id request in
  assert_eq second_id (IdInteger 2);;
  assert_routed (Response_ok first_id (json_macro (VString "first")));;
  assert_routed (Response_ok second_id (json_macro (VString "second")));;
  r ← join_request Server first_sender rx_first first_task;
  response ← unwrap r;
  assert_eq (resp_id response) (Some first_id);;
  r ← join_request Server second_sender rx_first second_task;
  response ← unwrap r;
  assert_eq (resp_id response) (Some second_id)).

Definition client_sender_request_gets_response (rx_first : bool) : test := run_test (
  sender ← call Server client_sender;
  task ← spawn_request Server sender rx_first "workspace/configuration"
    (Some (json_macro (VObject [("items", VArray [])])));
  request ← received_request;
  assert_eq (req_method request) "workspace/configuration";;
  let i := req_id request in
  assert_routed (Response_ok i (json_macro (VObject [("settings", VArray [])])));;
  r ← join_request Server sender rx_first task;
  response ← unwrap r;
  assert_eq (resp_id response) (Some i);;
  assert_eq (Response_result response) (Some (json_macro (VObject [("settings", VArray [])])))).

(** The result a [join_all] gives for the task of a method. *)
Definition assert_answered (sender : ClientSender) (rx_first : bool)
    (task : string * request_state) : T unit :=
  let '(method, h) := task in
  r ← join_request Server sender rx_first h;
  response ← unwrap r;
  assert_eq (Response_result response) (Some (json_macro (VString method))).

Definition client_sender_concurrent_requests (rx_first : bool) : test := run_test (
  sender ← call Server client_sender;
  task1 ← spawn_request Server sender rx_first "first" None;
  task2 ← spawn_request Server sender rx_first "second" None;
  task3 ← spawn_request Server sender rx_first "third" None;
  request0 ← received_request;
  request1 ← received_request;
  request2 ← received_request;
  assert_routed (Response_ok (req_id request2) (json_macro (VString (req_method request2))));;
  assert_routed (Response_ok (req_id request0) (json_macro (VString (req_method request0))));;
  assert_routed (Response_ok (req_id request1) (json_macro (VString (req_method request1))));;
  assert_answered sender rx_first ("first", task1);;
  assert_answered sender rx_first ("second", task2);;
  assert_answered sender rx_first ("third", task3)).

(** [matches!(result, Err(ProtocolError::RequestTimeout))], and [Disconnected]. *)
Definition assert_timeout (r : result ProtocolError Response) : T unit :=
  assert (match r with Err RequestTimeout => true | _ => false end).
Definition assert_disconnected (r : result ProtocolError Response) : T unit :=
  assert (match r with Err Disconnected => true | _ => false end).

Definition client_sender_request_timeout (rx_first : bool) : test := run_test (
  sender ← call Server client_sender;
  task ← spawn_request_timeout Server sender rx_first "workspace/configuration" None;
  result ← join_request_timeout Server sender rx_first task;
  assert_timeout result).

(** The request is sent to the drain task, which fails and wakes it. *)
Definition client_sender_request_disconnected (rx_first : bool) : test := run_test (
  sender ← call Server client_sender;
  drop_peer Client;;
  task ← spawn_request Server sender rx_first "test" None;
  drain_fails Server;;
  result ← join_request Server sender rx_first task;
  assert_disconnected result).

(** The loop of notifications ends when the drain task has failed on the first. *)
Definition client_sender_notify_after_close : test := run_test (
  sender ← call Server client_sender;
  drop_peer Client;;
  _ ← run Server (notify sender "window/logMessage" None);
  r ← run Server (notify sender "window/logMessage" None);
  assert (negb (is_err r));;
  drain_fails Server;;
  r ← run Server (notify sender "window/logMessage" None);
  assert (is_err r)).

Definition client_sender_multiple_clones_share_state (rx_first : bool) : test := run_test (
  sender ← call Server client_sender;
  let sender_clone := sender in
  first_task ← spawn_request Server sender rx_first "first" None;
  second_task ← spawn_request Server sender_clone rx_first "second" None;
  first_request ← received_request;
  second_request ← received_request;
  assert_eq (req_id first_request) (IdInteger 1);;
  assert_eq (req_id second_request) (IdInteger 2);;
  assert_routed (Response_ok (req_id first_request) (json_macro (VString (req_method first_request))));;
  assert_routed (Response_ok (req_id second_request) (json_macro (VString (req_method second_request))));;
  r ← join_request Server sender rx_first first_task;
  response ← unwrap r;
  assert_eq (Response_into_result response) (Some (json_macro (VString "first")));;
  r ← join_request Server sender_clone rx_first second_task;
  response ← unwrap r;
  assert_eq (Response_into_result response) (Some (json_macro (VString "second")))).

Definition route_delivers_to_response_map (rx_first : bool) : test := run_test (
  sender ← call Server client_sender;
  task ← spawn_request Server sender rx_first "test" None;
  request ← received_request;
  let request_id := req_id request in
  assert_routed (Response_ok request_id (json_macro (VBool true)));;
  r ← join_request Server sender rx_first task;
  response ← unwrap r;
  assert_eq (resp_id response) (Some request_id)).

Definition route_response_map_takes_priority (rx_first : bool) : test := run_test (
  sender ← call Server client_sender;
  task ← spawn_request Server sender rx_first "test" None;
  request ← received_request;
  let request_id := req_id request in
  _outgoing_rx ← register_outgoing Server request_id;
  assert_routed (Response_ok request_id (json_macro (VString "response-map")));;
  b ← outgoing_pending Server request_id; assert b;;
  r ← join_request Server sender rx_first task;
  response ← unwrap r;
  assert_eq (Response_result response) (Some (json_macro (VString "response-map")))).

(** A response that comes too late is returned to the caller. *)
Definition assert_not_swallowed (request_id : RequestId) : T unit :=
  routed ← route_reply (Response_ok request_id (json_macro (VBool true)));
  match routed with
  | ResponseUnknown response => assert_eq (resp_id response) (Some request_id)
  | _ => panic
  end.

Definition client_sender_request_timeout_does_not_swallow_late_response (rx_first : bool) : test := run_test (
  sender ← call Server client_sender;
  task ← spawn_request_timeout Server sender rx_first "late-response" None;
  request ← received_request;
  result ← join_request_timeout Server sender rx_first task;
  assert_timeout result;;
  assert_not_swallowed (req_id request)).

Definition client_sender_aborted_request_does_not_swallow_late_response (rx_first : bool) : test := run_test (
  sender ← call Server client_sender;
  task ← spawn_request Server sender rx_first "aborted" None;
  request ← received_request;
  abort_request Server task;;
  assert_not_swallowed (req_id request)).

(** [id_counter.store(..)]. *)
Definition store_counter (s : side) (sender : ClientSender) (z : Z) : T unit :=
  run s (λ w, ((), with_counters (<[id_counter sender := z]> (w_counters w)) w)).

Definition client_sender_wraparound_does_not_reuse_pending_id (rx_first : bool) : test := run_test (
  sender ← call Server client_sender;
  let first_sender := sender in
  first_task ← run Server (send_request_with_id first_sender (IdInteger 1) "first" None);
  first_request ← received_request;
  assert_eq (req_id first_request) (IdInteger 1);;
  store_counter Server sender i32_MAX;;
  let max_sender := sender in
  max_task ← spawn_request Server max_sender rx_first "max" None;
  let wrapped_sender := sender in
  wrapped_task ← spawn_request Server wrapped_sender rx_first "wrapped" None;
  second_request ← received_request;
  third_request ← received_request;
  assert_ne (req_id second_request) (req_id first_request);;
  assert_ne (req_id third_request) (req_id first_request);;
  assert_ne (req_id second_request) (req_id third_request);;
  assert_routed (Response_ok (req_id first_request) (json_macro (VString "first")));;
  assert_routed (Response_ok (req_id second_request) (json_macro (VString "second")));;
  assert_routed (Response_ok (req_id third_request) (json_macro (VString "third")));;
  r ← join_request Server first_sender rx_first first_task;
  response ← unwrap r;
  assert_eq (Response_into_result response) (Some (json_macro (VString "first")));;
  r ← join_request Server max_sender rx_first max_task;
  response ← unwrap r;
  assert_eq (Response_into_result response) (Some (json_macro (VString "second")));;
  r ← join_request Server wrapped_sender rx_first wrapped_task;
  response ← unwrap r;
  assert_eq (Response_into_result response) (Some (json_macro (VString "third")))).

Definition client_sender_timeout_preserves_other_pending_requests (rx_first : bool) : test := run_test (
  sender ← call Server client_sender;
  let timeout_sender := sender in
  timeout_task ← spawn_request_timeout Server timeout_sender rx_first "timeout" None;
  let ok_sender := sender in
  ok_task ← spawn_request Server ok_sender rx_first "ok" None;
  first_request ← received_request;
  second_request ← received_request;
  let '(timed_out, live_request) :=
    if bool_decide (req_method first_request = "timeout") then (first_request, second_request)
    else (second_request, first_request) in
  result ← join_request_timeout Server timeout_sender rx_first timeout_task;
  assert_timeout result;;
  assert_routed (Response_ok (req_id live_request) (json_macro (VString "ok")));;
  r ← join_request Server ok_sender rx_first ok_task;
  response ← unwrap r;
  assert_eq (Response_result response) (Some (json_macro (VString "ok")));;
  routed ← route_reply (Response_ok (req_id timed_out) (json_macro (VString "late")));
  assert (IncomingMessage_is_response_unknown routed)).

Definition response_map_cancel_ignores_unknown_id : test := run_test (
  response_map ← run Client ResponseMap_new;
  b ← run Client (ResponseMap_cancel response_map (IdInteger 404));
  assert (negb b);;
  b ← run Client (ResponseMap_deliver response_map (IdInteger 404) (Response_ok (id 404) (json_macro VNull)));
  assert (negb b)).

Definition tests (rx_first : bool) : list test :=
  [client_sender_notify_sends_notification; client_sender_respond_sends_response;
   client_sender_request_auto_id rx_first; client_sender_request_gets_response rx_first;
   client_sender_concurrent_requests rx_first; client_sender_request_timeout rx_first;
   client_sender_request_disconnected rx_first; client_sender_notify_after_close;
   client_sender_multiple_clones_share_state rx_first; route_delivers_to_response_map rx_first;
   route_response_map_takes_priority rx_first;
   client_sender_request_timeout_does_not_swallow_late_response rx_first;
   client_sender_aborted_request_does_not_swallow_late_response rx_first;
   client_sender_wraparound_does_not_reuse_pending_id rx_first;
   client_sender_timeout_preserves_other_pending_requests rx_first;
   response_map_cancel_ignores_unknown_id].

Lemma client_sender_tests_pass rx_first : passes_all (tests rx_first).
Proof. destruct rx_first; run_tests. Qed.
